(* ===== verification/_CoqProject ===== *)
-Q . S2P
Prelude.v
Hal.v
Chain.v
Arena.v
Objects.v
Caps.v
ObjProps.v
CapTable.v
CapTableInv.v
CapTableOps.v
CapRevoke.v
CapSpec.v
CapProps.v
Ipc.v
SyscallError.v
Abi.v
UserAccess.v
UserAccessOps.v
UserAccessProps.v
Dispatch.v
IpcSpec.v
IpcProps.v
DispatchProps.v
Pmm.v
PmmInv.v
PmmNew.v
PmmProps.v
Timer.v
Gic.v
GicProps.v
Uart.v
Vmsav8.v
Words.v
QemuMmu.v
QemuMmuInv.v
QemuMmuOps.v
QemuMmuProps.v
BootMmu.v
BootMmuProps.v
AddressSpace.v
AddressSpaceProps.v
TaskLoader.v
TaskTables.v
TaskLoaderInv.v
TaskLoaderProps.v
UserProgram.v
TestMmu.v
TestMmuProps.v
Sched.v
SchedInv.v
SchedOps.v
SchedBridge.v
SchedRun.v
SchedProps.v
SchedBridgeProps.v
Cpu.v
CpuProps.v
Board.v
BoardProps.v
TestFakes.v
Text.v
SyscallEntry.v
SyscallEntryProps.v
Vectors.v
VectorsProps.v
Boot.v
BootSteps.v
BootProps.v
Activate.v
ActivateProps.v
UserReach.v
UserLib.v
Legs.v
Demo.v
Traps.v
Later.v
DemoProps.v
Bench.v
BenchRun.v
BenchRunProps.v
