(* ===== verification/Prelude.v ===== *)
(** * Tyrne: a verification library for the capability microkernel

Tyrne is a capability kernel for a single-core AArch64 board.  A task holds
capabilities in a table of its own and asks for everything by system call; the
kernel validates the capability, moves messages between tasks through endpoints,
copies user memory through the task's page tables, and switches tasks
cooperatively.  This library models that path from the saved registers down to the
descriptor words of the page tables, and the boot and loading code that sets it up.

** Conventions

A Rust function on [&mut self] is a computation of [M S E A]: from a state, [None]
(a panic, an out-of-range index, or a loop that does not end), or the new state with
[Ok] or [Err].  An [Err] carries the state at the early return, so that an error
leaves things unchanged by theorem only.  [P] is the same for [&self].  [wp] is total
correctness: neither panic nor divergence, and the postcondition.  Integers are [Z]
at their Rust width, with wrapping, saturating and checked operations written out;
indices of arrays are [nat].  [debug_assert!] depends on the class [Build], and the
theorems hold in both profiles.

** Parts, from the top

- [SyscallEntry] (bsp-qemu-virt/src/syscall.rs): the trap.  [syscall_entry] finds the
  running task's table, window and address space in the scheduler, runs [dispatch] and
  carries out its directive; the board's statics are the record [Kernel].  The
  fail-closed table is an option: the measurement build never writes it.
- [Dispatch], [Abi], [SyscallError] (kernel/src/syscall): [dispatch] and the syscalls,
  the register encodings, the error codes.  [UserAccess]: the window check, the page
  probe and the two copies.
- [Ipc] (kernel/src/ipc/mod.rs): the endpoint state machine, [ipc_send], [ipc_recv],
  [ipc_notify], [ipc_cancel_recv], over a capability table.
- [Sched], [SchedBridge] (kernel/src/sched/mod.rs): the ready ring, registration,
  start, yield, exit, blocking and waking, and the two operations that combine IPC
  with a switch.  A switch is the value the function returns ([Switch] with the two
  slots and the address space to activate); the other task's computation goes on from
  that state, which makes interleavings sequences of steps ([SchedRun]).
- [CapTable], [Caps] (kernel/src/cap): the slot array with its free list and
  derivation tree, rights, objects.  [Arena], [Objects] (kernel/src/obj): the
  generation-tagged arenas and the three kinds of kernel object.
- [TaskLoader] (kernel/src/obj/task_loader.rs): [load_image] with its rollback, and
  [task_create_from_image].
- [AddressSpace] (kernel/src/mm/address_space.rs): the capability gates of creation
  and mapping; [Pmm] (kernel/src/mm/pmm.rs): the frame allocator.
- [QemuMmu] (bsp-qemu-virt/src/mmu.rs), [Vmsav8], [Hal] (hal/src/mmu): the page-table
  walk over byte memory ([Words]), the descriptors, the flags and the direct map.
- [BootMmu] (bsp-qemu-virt/src/mmu_bootstrap.rs): the boot tables and registers,
  against a reference reading of the architecture's translation.
- [Cpu] (bsp-qemu-virt/src/cpu.rs): the interrupt mask, the saved context of a task and
  the two assembly routines, [context_switch_asm] and [enter_el0], as programs of a small
  instruction set.  [Vectors] (vectors.s): the exception table and its trampolines around
  the Rust handlers, in the same instruction set.  [Board] composes the scheduler with
  them: every operation is followed by the switch it asks for, executed instruction by
  instruction on contexts in memory.
- [Uart] (bsp-qemu-virt/src/console.rs): the polling transmitter.
- [Gic] (bsp-qemu-virt/src/gic.rs, cpu.rs, exceptions.rs), [Timer] (hal/src/timer.rs):
  the interrupt controller over a device, deadlines, the clock's arithmetic.
- [Boot] (bsp-qemu-virt/src/main.rs): [kernel_entry], which builds the page tables,
  turns translation on and moves to the high half, and [kernel_main_high], which builds
  every static of the kernel and starts the scheduler, with the lines both print
  ([Text]); [kernel_prepare] is the part before the choice of the workload.
  [panic_handler].  [BootSteps] specifies each stage.
- [Activate] (activate of bsp-qemu-virt/src/mmu.rs, the activation hook of main.rs):
  the registers and the TLB when the processor changes address space.
- [UserLib] (userland/tyrne-user, userland/hello) and [Demo] (the task bodies of
  main.rs): the four tasks of the board, cut into legs where they leave the processor
  ([Legs]).  [Bench], [BenchRun] (perf_bench.rs): the measurement build, its timer of
  system calls, its set-up, its two kernel tasks and the three instructions of its user
  program.
- [TestMmu], [TestFakes] (test-hal/src): the fakes the host tests run against.

Definitions keep the source's names.  A part's invariant, the specifications of its
operations and its theorems are in files named after it: [CapTableInv], [CapTableOps],
[CapRevoke], [CapSpec], [CapProps]; [IpcSpec], [IpcProps]; and so on.

Parts meet at classes: [Translate] (what user access asks of an MMU), [Mmu] (what the
gates ask of it), [FrameProvider] with its laws [FrameProviderSpec] (what the walker
asks of an allocator), [Contexts] (the saved contexts the scheduler never looks into),
[Mmio] (a device).  [QemuMmuProps] gives [Pmm] as the frame provider and the walker
as the MMU, and [UserProgram] runs loader, walker and user access together.
[UserReach] adds activation to them, and [DemoProps] runs the boot, the scheduler, the
endpoints, the trap and the loaded program as one system ([sys_step]); [BenchRunProps]
does so for the measurement build, and [Traps] and [Later] hold what the two share.

** Theorems

- Capabilities ([CapProps]): the table implements an abstract partial map of nodes;
  revocation kills exactly the descendants; rights only shrink; a handle is
  refused from the first time its slot is freed to the 2^32-th ([frees] counts them); any sequence of operations keeps the table well
  formed.  [ObjProps]: an arena is a partial map.
- IPC ([IpcProps]): each transition on every branch; conservation of capabilities over
  any run; delivery.  [SchedProps], [SchedBridgeProps]: no reachable panic, no lost
  task, round robin, the running task's address space is active, a blocked receiver
  wakes with its message, the rollback on deadlock.
- Syscalls ([DispatchProps], [UserAccessProps], [SyscallEntryProps], [Abi]): totality
  on arbitrary registers, failure without effect, exact and all-or-nothing copies, and
  the confinement of a trap to what the running task was given ([call_effect]: which
  capability of the caller allows each change).
- Memory ([PmmProps], [QemuMmuProps], [AddressSpaceProps], [TaskLoaderProps],
  [TaskTables], [UserProgram], [Vmsav8]): one owner per frame, map and unmap change one
  page, isolation of address spaces, atomic creation and loading, the exact frame
  budget, what a loaded program reads and writes, descriptors.
- Board ([BootMmuProps], [GicProps], [Timer]): the boot regime is exactly the declared
  windows, initialisation of the interrupt controller ends, deadlines are on time.
- The whole board ([BootProps], [ActivateProps], [UserReach], [DemoProps],
  [BenchRunProps]): from a kernel image the boot ends with a well-formed kernel
  ([kernel_ok]) and task B on the processor; a panic is heard in either half of the
  address space; the TLB never disagrees with the active tables; EL0 reaches exactly the
  pages of its program; the demo runs to its last line, with the transcript it prints;
  the measurement build prints the time of exactly the operations it names.
- Assembly ([CpuProps], [BoardProps], [VectorsProps]): one processor switched by the
  assembly implements a processor for every task; the first entry to EL0 shows nothing
  of the kernel; a system call gives back the registers its handler left; an interrupt
  keeps the general registers.
- [Uart]: every byte is transmitted, in order.  [TestMmuProps]: the fake MMU answers like
  the walker, up to what the walker adds.

Every numbered claim with hypotheses is followed by a witness at a concrete state.

** Bounds and fuel

Loops over an array or a known count recurse on it.  The rest have fuel, which the
theorems show to be enough, since running out is [None]: sibling walks and the
breadth-first search of revocation visit each of the [CAP_TABLE_CAPACITY] slots once
(fuel one more); [page_rounds] covers the pages of a range, with the partial first and
last; [console_rounds] the chunks of a write; the interval walk of the allocator moves
by a frame at least; the controller has 1020 lines at most, hence 32 enable words and
249 four-byte words from the first shared line; a boot table has 512 entries; a
wait for the UART is as long as its backlog.

** Not modelled

- The kernel's Rust code is not compiled: in the scheduler [Contexts] stands for saved
  contexts, a switch is a value, and a leg of a task ends where the switch takes the
  processor.  [BoardProps] shows that the assembly makes that switch for any code between
  two of them.  Barriers and cache maintenance have no effect in the model, nor has boot.s
  (the drop to EL1, the stack, the zeroed data).  The user program of the demo is modelled
  from its Rust source, its system calls being the only thing it does; that of the
  measurement build from its bytes.
- In the TLB model: the entries of the low half, one page each, cached from the walk of
  the leaf; no partial walks, no blocks.  Stores of the user
  program are not steps there; the pages it may write are frames of its own.
- In the boot, the demo and the measurement the console is the list of bytes written
  ([Uart] is why they arrive); the spinning that follows a panic and the last line of a
  task.
- Waiting for an interrupt: [idle_round] yields at once.  Concurrency of cores, which the
  board does not have, and interrupts in kernel code: the boot unmasks them and enables no
  source.
- The linker scripts and the build tools. *)

From Stdlib Require Export ZArith Lia Bool.
From stdpp Require Export base option list list_numbers sets.
From Hammer Require Import Tactics.

Declare Scope tyrne_scope.
Delimit Scope tyrne_scope with tyrne.
Global Open Scope tyrne_scope.

(** The lemmas that close the common side conditions: chains, freshness, bounds. *)
Create HintDb tyrne.

(** ** Results, panics and state *)

(** [core::result::Result]. *)
Inductive result (E A : Type) : Type :=
| Ok (a : A)
| Err (e : E).
Arguments Ok {E A} a.
Arguments Err {E A} e.

#[export] Instance result_eq_dec {E A} `{!EqDecision E, !EqDecision A} :
  EqDecision (result E A).
Proof. solve_decision. Defined.

(** A read-only computation ([&self] methods): [None] is a panic or a loop that
    does not end, otherwise a [Result]. *)
Definition P (E A : Type) : Type := option (result E A).

(** A computation on [&mut self]: the new state and a [Result]; [None] is a panic
    or a loop that does not end.  An [Err] still carries the state at the point
    of the early return, so that "an error leaves the state unchanged" is a
    theorem, never a convention. *)
Definition M (S E A : Type) : Type := S → option (S * result E A).

Definition pret {E A} (a : A) : P E A := Some (Ok a).
Definition perr {E A} (e : E) : P E A := Some (Err e).
Definition ppanic {E A} : P E A := None.

Definition pbind {E A B} (m : P E A) (k : A → P E B) : P E B :=
  match m with
  | None => None
  | Some (Err e) => Some (Err e)
  | Some (Ok a) => k a
  end.

Definition ret {S E A} (a : A) : M S E A := λ s, Some (s, Ok a).
Definition throw {S E A} (e : E) : M S E A := λ s, Some (s, Err e).
Definition panic {S E A} : M S E A := λ _, None.

Definition bind {S E A B} (m : M S E A) (k : A → M S E B) : M S E B := λ s,
  match m s with
  | None => None
  | Some (s', Err e) => Some (s', Err e)
  | Some (s', Ok a) => k a s'
  end.

(** Read the state through a read-only computation. *)
Definition reads {S E A} (f : S → P E A) : M S E A := λ s,
  match f s with
  | None => None
  | Some r => Some (s, r)
  end.

Definition gets {S E A} (f : S → A) : M S E A := λ s, Some (s, Ok (f s)).
Definition modify {S E} (f : S → S) : M S E unit := λ s, Some (f s, Ok tt).

(** [xs[i]]: an out-of-range index panics. *)
Definition idx {S E X} (f : S → list X) (i : nat) : M S E X := λ s,
  match f s !! i with
  | None => None
  | Some x => Some (s, Ok x)
  end.
Definition pidx {E X} (xs : list X) (i : nat) : P E X := Ok <$> xs !! i.

(** [opt.ok_or(e)?] *)
Definition ok_or {S E A} (o : option A) (e : E) : M S E A :=
  match o with Some a => ret a | None => throw e end.

(** [Result::map_err]. *)
Definition res_map_err {E F A} (f : E → F) (r : result E A) : result F A :=
  match r with Ok a => Ok a | Err e => Err (f e) end.
Definition map_err {S E F A} (f : E → F) (m : M S E A) : M S F A := λ s,
  match m s with
  | None => None
  | Some (s', r) => Some (s', res_map_err f r)
  end.
Definition pmap_err {E F A} (f : E → F) (m : P E A) : P F A :=
  res_map_err f <$> m.

(** Run a computation, handing its [Result] to the caller (no [?]). *)
Definition attempt {S E F A} (m : M S E A) : M S F (result E A) := λ s,
  match m s with
  | None => None
  | Some (s', r) => Some (s', Ok r)
  end.

(** A computation on one component of the state ([&mut] of a field or of one of
    several [&mut] parameters). *)
Definition zoom {S T E A} (get : S → T) (set : T → S → S) (m : M T E A) : M S E A :=
  λ s,
    match m (get s) with
    | None => None
    | Some (t, r) => Some (set t s, r)
    end.

Notation "'let*' x := m 'in' k" := (bind m (λ x, k))
  (at level 10, x binder, m at level 100, k at level 200)
  : tyrne_scope.
Notation "m ;; k" := (bind m (λ _ : unit, k))
  (at level 100, k at level 200, right associativity) : tyrne_scope.
Notation "'let?' x := m 'in' k" := (pbind m (λ x, k))
  (at level 10, x binder, m at level 100, k at level 200)
  : tyrne_scope.

(** The build profile: [debug_assert!] panics only when it is compiled in.  Every
    theorem is stated for both profiles. *)
Class Build := { debug_assertions : bool }.

(** The two profiles the kernel is built in; the witnesses run the debug one, where
    every assertion is live. *)
Definition debug_build : Build := {| debug_assertions := true |}.
Definition release_build : Build := {| debug_assertions := false |}.

Definition debug_assert `{Build} {S E} (b : bool) : M S E unit := λ s,
  if debug_assertions && negb b then None else Some (s, Ok tt).
Definition pdebug_assert `{Build} {E} (b : bool) : P E unit :=
  if debug_assertions && negb b then None else Some (Ok tt).

(** ** Total correctness

[wp m s Q]: from [s], [m] neither panics nor diverges, and its final state and
result satisfy [Q]. *)
Definition wp {S E A} (m : M S E A) (s : S) (Q : S → result E A → Prop) : Prop :=
match m s with
| None => False
| Some (s', r) => Q s' r
end.

Section wp.
  Context {S E A B : Type}.
  Implicit Types (s : S) (m : M S E A).

Lemma wp_bind m (k : A → M S E B) s (Q : S → result E B → Prop) :
  wp (bind m k) s Q ↔
  wp m s (λ s' r, match r with Ok a => wp (k a) s' Q | Err e => Q s' (Err e) end).
Proof. unfold wp, bind. destruct (m s) as [[s' [a|e]]|]; done. Qed.

Lemma wp_mono m s (Q Q' : S → result E A → Prop) :
  wp m s Q → (∀ s' r, Q s' r → Q' s' r) → wp m s Q'.
Proof. unfold wp. destruct (m s) as [[s' r]|]; naive_solver. Qed.

Lemma wp_run m s Q : wp m s Q ↔ ∃ s' r, m s = Some (s', r) ∧ Q s' r.
Proof. unfold wp. destruct (m s) as [[s' r]|]; naive_solver. Qed.

Lemma wp_and m s Q Q' : wp m s Q → wp m s Q' → wp m s (λ s' r, Q s' r ∧ Q' s' r).
Proof. unfold wp. destruct (m s) as [[s' r]|]; naive_solver. Qed.

Lemma wp_seq3_ret (m1 m2 m3 : M S E unit) s Q :
  wp (m1 ;; m2 ;; m3 ;; ret tt) s Q → wp (m1 ;; m2 ;; m3) s Q.
Proof.
  unfold wp, bind, ret. destruct (m1 s) as [[s1 [[]|e]]|]; [|done..].
  destruct (m2 s1) as [[s2 [[]|e]]|]; [|done..]. by destruct (m3 s2) as [[s3 [[]|e]]|].
Qed.

Lemma wp_bind3_ret {X Y} (a : M S E X) (b : X → M S E Y) (c : Y → M S E A) s Q :
  wp (bind a (λ x, bind (b x) (λ y, bind (c y) ret))) s Q → wp (bind a (λ x, bind (b x) c)) s Q.
Proof.
  unfold wp, bind, ret. destruct (a s) as [[s1 [x|e]]|]; [|done..].
  destruct (b x s1) as [[s2 [y|e]]|]; [|done..]. by destruct (c y s2) as [[s3 [z|e]]|].
Qed.

Lemma wp_det m s Q s' r : wp m s Q → m s = Some (s', r) → Q s' r.
Proof. unfold wp. intros H1 H2. by rewrite H2 in H1. Qed.

Lemma wp_idx {X} (f : S → list X) i s (Q : S → result E X → Prop) x :
  f s !! i = Some x → Q s (Ok x) → wp (idx f i) s Q.
Proof. unfold wp, idx. by intros ->. Qed.

Lemma wp_reads (f : S → P E A) s Q r : f s = Some r → Q s r → wp (reads f) s Q.
Proof. unfold wp, reads. by intros ->. Qed.

Lemma wp_debug_assert `{Build} b s (Q : S → result E unit → Prop) :
  b = true → Q s (Ok tt) → wp (debug_assert b) s Q.
Proof. intros -> HQ. unfold wp, debug_assert. by rewrite andb_false_r. Qed.

Lemma wp_zoom {T} (get : S → T) (set : T → S → S) (m : M T E A) s Q :
  wp (zoom get set m) s Q ↔ wp m (get s) (λ t r, Q (set t s) r).
Proof. unfold wp, zoom. destruct (m (get s)) as [[t r]|]; done. Qed.

Lemma wp_map_err {F} (f : F → E) (m : M S F A) s Q :
  wp (map_err f m) s Q ↔ wp m s (λ s' r, Q s' (res_map_err f r)).
Proof. unfold wp, map_err. destruct (m s) as [[s' r]|]; done. Qed.

Lemma wp_attempt {F} (m : M S F A) s (Q : S → result E (result F A) → Prop) :
  wp (attempt m) s Q ↔ wp m s (λ s' r, Q s' (Ok r)).
Proof. unfold wp, attempt. destruct (m s) as [[s' r]|]; done. Qed.
End wp.

(** Run the head of a monadic computation. *)
Ltac wp_bind := apply wp_bind.
Ltac wp_pure :=
  repeat first
    [ progress (cbn [bind ret throw gets modify ok_or])
    | match goal with
      | |- wp (bind _ _) _ _ => apply wp_bind
      | |- wp (ret _) _ _ => red; cbn beta iota
      | |- wp (throw _) _ _ => red; cbn beta iota
      | |- wp (gets _) _ _ => red; cbn beta iota
      | |- wp (modify _) _ _ => red; cbn beta iota
      | |- wp (ok_or (Some _) _) _ _ => unfold ok_or
      | |- wp (ok_or None _) _ _ => unfold ok_or
      end ].

(** Case analysis on the innermost scrutinee of a match of the goal or of a
    hypothesis. *)
Ltac case_match_eqn :=
  match goal with
  | H : context [match ?x with _ => _ end] |- _ => destruct x eqn:?
  | |- context [match ?x with _ => _ end] => destruct x eqn:?
  end.

Ltac simplify_res :=
  repeat match goal with
  | H : Ok _ = Ok _ |- _ => inversion H; clear H; subst
  | H : Err _ = Err _ |- _ => inversion H; clear H; subst
  | H : Ok _ = Err _ |- _ => discriminate H
  | H : Err _ = Ok _ |- _ => discriminate H
  | _ => progress simplify_eq/=
  end.

(** ** Machine-width arithmetic *)

Definition U8_MAX : Z := 2 ^ 8 - 1.
Definition U16_MAX : Z := 2 ^ 16 - 1.
Definition U32_MAX : Z := 2 ^ 32 - 1.
Definition U64_MAX : Z := 2 ^ 64 - 1.

(** [u32::wrapping_add(1)] as the generation counters use it. *)
Definition wrapping_add32 (x y : Z) : Z := (x + y) `mod` 2 ^ 32.

(** The 64-bit operations ([u64] and [usize] on the 64-bit targets). *)
Definition wrapping_add64 (x y : Z) : Z := (x + y) `mod` 2 ^ 64.
Definition saturating_add64 (x y : Z) : Z := Z.min (x + y) U64_MAX.
Definition saturating_sub64 (x y : Z) : Z := Z.max (x - y) 0.
Definition saturating_mul64 (x y : Z) : Z := Z.min (x * y) U64_MAX.
Definition checked_add64 (x y : Z) : option Z :=
  if bool_decide (x + y ≤ U64_MAX)%Z then Some (x + y)%Z else None.
Definition checked_sub64 (x y : Z) : option Z :=
  if bool_decide (y ≤ x)%Z then Some (x - y)%Z else None.
Definition checked_mul64 (x y : Z) : option Z :=
  if bool_decide (x * y ≤ U64_MAX)%Z then Some (x * y)%Z else None.
Definition div_ceil (x y : Z) : Z := (x + y - 1) `div` y.

Definition is_u32 (x : Z) : Prop := (0 ≤ x < 2 ^ 32)%Z.
Definition is_u64 (x : Z) : Prop := (0 ≤ x < 2 ^ 64)%Z.

Lemma wrapping_add32_range x y : is_u32 (wrapping_add32 x y).
Proof. apply Z.mod_pos_bound. lia. Qed.

Lemma checked_add64_Some x y z :
  checked_add64 x y = Some z ↔ z = (x + y)%Z ∧ (x + y ≤ U64_MAX)%Z.
Proof. unfold checked_add64. case_bool_decide; naive_solver. Qed.

Lemma checked_add64_None x y : checked_add64 x y = None ↔ (U64_MAX < x + y)%Z.
Proof. unfold checked_add64. case_bool_decide; naive_solver lia. Qed.

(** Within range the saturating operations are the exact ones. *)
Lemma saturating_add64_eq x y : (x + y ≤ U64_MAX)%Z → saturating_add64 x y = (x + y)%Z.
Proof. unfold saturating_add64. lia. Qed.

Lemma saturating_sub64_eq x y : (y ≤ x)%Z → saturating_sub64 x y = (x - y)%Z.
Proof. unfold saturating_sub64. lia. Qed.

Lemma saturating_mul64_eq x y : (x * y ≤ U64_MAX)%Z → saturating_mul64 x y = (x * y)%Z.
Proof. unfold saturating_mul64. lia. Qed.

(** ** List facts shared by the components *)

Lemma lookup_upd {X} (l : list X) i j x : i < length l →
  <[i := x]> l !! j = if decide (j = i) then Some x else l !! j.
Proof.
  intros Hi. case_decide as Hd.
  - subst. by apply list_lookup_insert_eq.
  - by rewrite list_lookup_insert_ne.
Qed.

Lemma fmap_upd {X Y} (f : X → option Y) (l : list X) i j x : i < length l →
  (<[i := x]> l !! j ≫= f) = if decide (j = i) then f x else l !! j ≫= f.
Proof. intros Hi. rewrite lookup_upd by done. by case_decide. Qed.

(** ** Selecting from an indexed family

[pick f l]: the values [f] has on the indices of [l], in order.  The
capabilities a table holds and the messages in flight are such lists; moving one
item changes the list by one element up to order. *)
Definition pick {X} (f : nat → option X) (l : list nat) : list X := omap f l.

Lemma pick_cons {X} (f : nat → option X) i l :
  pick f (i :: l) = match f i with Some x => x :: pick f l | None => pick f l end.
Proof. done. Qed.

Lemma pick_app {X} (f : nat → option X) l1 l2 : pick f (l1 ++ l2) = pick f l1 ++ pick f l2.
Proof. apply omap_app. Qed.

Lemma pick_ext {X} (f g : nat → option X) l :
  (∀ i, i ∈ l → g i = f i) → pick g l = pick f l.
Proof.
  induction l as [|i l IH]; intros Hf; [done|].
  rewrite !pick_cons, Hf, IH by set_solver. done.
Qed.

Lemma pick_add {X} (f g : nat → option X) l i x :
  NoDup l → i ∈ l → f i = None → g i = Some x → (∀ j, j ≠ i → g j = f j) →
  pick g l ≡ₚ x :: pick f l.
Proof.
  intros Hnd Hi Hf Hg Ho. apply list_elem_of_split in Hi as (l1 & l2 & ->).
  apply NoDup_app in Hnd as (_ & Hd & Hnd). apply NoDup_cons in Hnd as [Hn2 _].
  rewrite !pick_app, !pick_cons, Hf, Hg.
  rewrite (pick_ext f g l1), (pick_ext f g l2).
  - by rewrite Permutation_middle.
  - intros j Hj. apply Ho. by intros ->.
  - intros j Hj. apply Ho. intros ->. apply (Hd i Hj). by left.
Qed.
