(* ===== verification/Hal.v ===== *)
(** * The hardware abstraction's memory vocabulary (hal/src/mmu/mod.rs)

Addresses, frames, mapping flags, the MMU error type and the kernel's high-half
direct map, with the range helpers of kernel/src/mm/mod.rs.  Addresses are
64-bit [usize] values in [Z]; a [PhysFrame] is its base address.  The kernel
build is modelled, where [KERNEL_HIGH_HALF_OFFSET] is the direct-map offset (on
the host test build it is 0 and the two assertions are off). *)

From S2P Require Import Prelude.
Local Open Scope Z_scope.

Definition PAGE_SIZE : Z := 4096.
Definition KERNEL_HIGH_HALF_OFFSET : Z := 0xFFFFFFFF00000000.

Definition VirtAddr := Z.
Definition PhysAddr := Z.

(** Both conversions [assert!] in release builds too. *)
Definition phys_to_kernel_va (pa : PhysAddr) : option Z :=
  if bool_decide (KERNEL_HIGH_HALF_OFFSET = 0 ∨ pa < 0x100000000)
  then Some (wrapping_add64 KERNEL_HIGH_HALF_OFFSET pa) else None.

Definition kernel_va_to_phys (va : Z) : option PhysAddr :=
  let pa := (va - KERNEL_HIGH_HALF_OFFSET) `mod` 2 ^ 64 in
  if bool_decide (KERNEL_HIGH_HALF_OFFSET = 0 ∨ pa < 0x100000000) then Some pa else None.

Record PhysFrame := { frame_addr : PhysAddr }.

#[export] Instance PhysFrame_eq_dec : EqDecision PhysFrame.
Proof. solve_decision. Defined.

Definition from_aligned (addr : PhysAddr) : option PhysFrame :=
  if bool_decide (addr `mod` PAGE_SIZE = 0) then Some {| frame_addr := addr |} else None.

(** ** Mapping flags *)

Record MappingFlags := { flags_raw : Z }.

#[export] Instance MappingFlags_eq_dec : EqDecision MappingFlags.
Proof. solve_decision. Defined.

Definition FLAGS_EMPTY : MappingFlags := {| flags_raw := 0 |}.
Definition WRITE : MappingFlags := {| flags_raw := Z.shiftl 1 0 |}.
Definition EXECUTE : MappingFlags := {| flags_raw := Z.shiftl 1 1 |}.
Definition USER : MappingFlags := {| flags_raw := Z.shiftl 1 2 |}.
Definition DEVICE : MappingFlags := {| flags_raw := Z.shiftl 1 3 |}.
Definition GLOBAL : MappingFlags := {| flags_raw := Z.shiftl 1 4 |}.

Definition flags_from_raw (bits : Z) : MappingFlags := {| flags_raw := bits |}.
Definition flags_contains (self other : MappingFlags) : bool :=
  bool_decide (Z.land (flags_raw self) (flags_raw other) = flags_raw other).
Definition flags_union (self other : MappingFlags) : MappingFlags :=
  {| flags_raw := Z.lor (flags_raw self) (flags_raw other) |}.
Definition flags_intersection (self other : MappingFlags) : MappingFlags :=
  {| flags_raw := Z.land (flags_raw self) (flags_raw other) |}.
Definition flags_difference (self other : MappingFlags) : MappingFlags :=
  {| flags_raw := Z.land (flags_raw self) (Z.lxor (flags_raw other) U32_MAX) |}.
Definition flags_is_empty (self : MappingFlags) : bool := bool_decide (flags_raw self = 0).

Inductive MmuError :=
| AlreadyMapped
| NotMapped
| MisalignedAddress
| OutOfFrames
| InvalidFlags
| BlockMapped.

#[export] Instance MmuError_eq_dec : EqDecision MmuError.
Proof. solve_decision. Defined.

(** ** Frame ranges (kernel/src/mm/mod.rs) *)

Record PhysFrameRange := { start : PhysAddr; end_ : PhysAddr }.

#[export] Instance PhysFrameRange_eq_dec : EqDecision PhysFrameRange.
Proof. solve_decision. Defined.

Definition is_aligned (r : PhysFrameRange) : bool :=
  bool_decide (start r `mod` PAGE_SIZE = 0) && bool_decide (end_ r `mod` PAGE_SIZE = 0).
Definition len_bytes (r : PhysFrameRange) : Z := saturating_sub64 (end_ r) (start r).
Definition frame_count (r : PhysFrameRange) : Z := len_bytes r `div` PAGE_SIZE.
Definition range_contains (r : PhysFrameRange) (pa : PhysAddr) : bool :=
  bool_decide (start r ≤ pa) && bool_decide (pa < end_ r).

(** [phys_frame_kernel_ptr]: the direct map, hence [phys_to_kernel_va]'s assertion. *)
Definition phys_frame_kernel_ptr (frame : PhysFrame) : option Z :=
  phys_to_kernel_va (frame_addr frame).

(** ** Facts *)

Lemma phys_to_kernel_va_Some pa : 0 ≤ pa < 0x100000000 →
  phys_to_kernel_va pa = Some (KERNEL_HIGH_HALF_OFFSET + pa).
Proof.
  intros Hpa. unfold phys_to_kernel_va, wrapping_add64. rewrite bool_decide_true by (by right; lia).
  f_equal. apply Z.mod_small. unfold KERNEL_HIGH_HALF_OFFSET. lia.
Qed.

Lemma kernel_va_to_phys_inverse pa va : 0 ≤ pa →
  phys_to_kernel_va pa = Some va → kernel_va_to_phys va = Some pa.
Proof.
  intros H0. unfold phys_to_kernel_va, kernel_va_to_phys. case_bool_decide as Hb; [|done].
  destruct Hb as [Hb|Hb]; [done|]. intros [= <-]. unfold wrapping_add64.
  rewrite Zminus_mod_idemp_l. replace (KERNEL_HIGH_HALF_OFFSET + pa - KERNEL_HIGH_HALF_OFFSET) with pa by lia.
  rewrite Z.mod_small by lia. rewrite bool_decide_true by (by right). done.
Qed.

Lemma from_aligned_Some a f : from_aligned a = Some f ↔ a `mod` PAGE_SIZE = 0 ∧ f = {| frame_addr := a |}.
Proof. unfold from_aligned. case_bool_decide; naive_solver. Qed.
