(* ===== verification/Chain.v ===== *)
(** * Index-linked lists

The capability table and the kernel-object arenas thread two kinds of singly
linked lists through an array of slots: the free list ([next_free]) and the
sibling list of the derivation tree ([first_child], [next_sibling]).  A
[chain nxt h l] says that following [nxt] from [h] visits exactly [l] and
ends; the lemmas are the ones every list operation of the two structures
needs (determinism, no repeated index, updates off the list, removal). *)

From S2P Require Import Prelude.

Section chain.
  Implicit Types (nxt : nat → option nat) (h : option nat) (l : list nat).

Inductive chain nxt : option nat → list nat → Prop :=
| chain_nil : chain nxt None []
| chain_cons i l : chain nxt (nxt i) l → chain nxt (Some i) (i :: l).

Lemma chain_cons_inv nxt i h l : chain nxt h (i :: l) → h = Some i ∧ chain nxt (nxt i) l.
Proof. by inversion 1. Qed.

Lemma chain_Some_inv nxt i l :
  chain nxt (Some i) l → ∃ l', l = i :: l' ∧ chain nxt (nxt i) l'.
Proof. inversion 1; eauto. Qed.

Lemma chain_None_inv nxt l : chain nxt None l → l = [].
Proof. by inversion 1. Qed.

Lemma chain_det nxt h l1 l2 : chain nxt h l1 → chain nxt h l2 → l1 = l2.
Proof.
  intros H; revert l2.
  induction H as [|i l H IH]; intros l2 H2; inversion H2; subst; f_equal; auto.
Qed.

Lemma chain_frame nxt nxt' h l :
  (∀ i, i ∈ l → nxt' i = nxt i) → chain nxt h l → chain nxt' h l.
Proof.
  intros Hf H; induction H as [|i l H IH]; constructor.
  rewrite Hf by set_solver. apply IH. set_solver.
Qed.

Lemma chain_suffix nxt h l1 l2 : chain nxt h (l1 ++ l2) → ∃ h', chain nxt h' l2.
Proof.
  revert h; induction l1 as [|i l1 IH]; intros h H; [by eauto|].
  apply chain_cons_inv in H as [_ H]. eauto.
Qed.

(** A finite chain never visits an index twice: from the second visit on it
    would repeat for ever. *)
Lemma chain_NoDup nxt h l : chain nxt h l → NoDup l.
Proof.
  intros H; induction H as [|i l H IH]; constructor; [|done].
  intros Hin. apply list_elem_of_split in Hin as (l1 & l2 & ->).
  apply chain_suffix in H as Hs. destruct Hs as [h' Hs].
  apply chain_cons_inv in Hs as [_ Hs].
  pose proof (chain_det _ _ _ _ H Hs) as Heq.
  apply (f_equal length) in Heq. rewrite length_app in Heq. simpl in Heq. lia.
Qed.

Lemma chain_head nxt h i l : chain nxt h (i :: l) → h = Some i.
Proof. by intros [-> _]%chain_cons_inv. Qed.

(** The element after [c] on a chain. *)
Lemma chain_next nxt h l1 c i l2 :
  chain nxt h (l1 ++ c :: i :: l2) → nxt c = Some i.
Proof.
  revert h; induction l1 as [|j l1 IH]; intros h H; simpl in H.
  - apply chain_cons_inv in H as [_ H]. by apply chain_head in H.
  - apply chain_cons_inv in H as [_ H]. eauto.
Qed.

Lemma chain_after nxt h l1 i l2 :
  chain nxt h (l1 ++ i :: l2) → chain nxt (nxt i) l2.
Proof.
  revert h; induction l1 as [|j l1 IH]; intros h H; simpl in H;
    apply chain_cons_inv in H as [_ H]; eauto.
Qed.

(** The head of a chain over [nxt] is [Some] of a member, or [None]. *)
Lemma chain_head_elem nxt i l : chain nxt (Some i) l → i ∈ l.
Proof. intros (l' & -> & _)%chain_Some_inv. set_solver. Qed.

(** The successor of a member is a member. *)
Lemma chain_closed nxt h l i j : chain nxt h l → j ∈ l → nxt j = Some i → i ∈ l.
Proof.
  intros H Hj Hn. apply list_elem_of_split in Hj as (l1 & l2 & ->).
  apply chain_after in H. rewrite Hn in H. apply chain_head_elem in H. set_solver.
Qed.

(** Redirecting every pointer at [i] to the successor of [i] removes [i]. *)
Lemma chain_remove nxt nxt' h l1 i l2 :
  chain nxt h (l1 ++ i :: l2) →
  (∀ j, j ∈ l1 ++ l2 → nxt' j = if decide (nxt j = Some i) then nxt i else nxt j) →
  chain nxt' (if decide (h = Some i) then nxt i else h) (l1 ++ l2).
Proof.
  revert h; induction l1 as [|c l1 IH]; intros h H Hf; simpl in *.
  - apply chain_NoDup in H as Hnd. apply NoDup_cons in Hnd as [Hni _].
    apply chain_cons_inv in H as [-> H]. rewrite decide_True by done.
    eapply chain_frame; [|exact H]. intros j Hj. rewrite Hf by done.
    rewrite decide_False; [done|]. intros Hs. by apply Hni; eapply chain_closed.
  - apply chain_NoDup in H as Hnd. apply NoDup_cons in Hnd as [Hni _].
    apply chain_cons_inv in H as [-> H].
    rewrite decide_False by set_solver. constructor.
    rewrite Hf by set_solver. apply IH; [done|]. set_solver.
Qed.

(** Two members with the same successor are the same. *)
Lemma chain_succ_inj nxt h l i j k :
  chain nxt h l → j ∈ l → k ∈ l → nxt j = Some i → nxt k = Some i → j = k.
Proof.
  intros H Hj Hk Hji Hki.
  (* Both are the element before [i]: removing [i] leaves nothing else to point at it. *)
  pose proof (chain_closed _ _ _ _ _ H Hj Hji) as Hi.
  assert (Hpred : ∀ m h' l', chain nxt h' l' → m ∈ l' → nxt m = Some i →
    ∃ l1 l2, l' = l1 ++ m :: i :: l2).
  { intros m h' l' H' Hm Hmi. apply list_elem_of_split in Hm as (l1 & l2 & ->).
    apply chain_after in H'. rewrite Hmi in H'.
    apply chain_Some_inv in H' as (l3 & -> & _). eauto. }
  destruct (Hpred j h l H Hj Hji) as (l1 & l2 & E1).
  destruct (Hpred k h l H Hk Hki) as (l3 & l4 & E2).
  apply chain_NoDup in H. rewrite E1 in E2, H.
  assert (Hf : ∀ m la lb, NoDup (la ++ m :: i :: lb) →
    (la ++ m :: i :: lb) !! length la = Some m ∧
    (la ++ m :: i :: lb) !! S (length la) = Some i).
  { intros m la lb _. split.
    - by rewrite list_lookup_middle.
    - rewrite lookup_app_r by lia. by replace (S (length la) - length la) with 1 by lia. }
  destruct (Hf j l1 l2 H) as [Hj1 Hi1].
  rewrite E2 in H. destruct (Hf k l3 l4 H) as [Hk1 Hi2]. rewrite <- E2 in H, Hk1, Hi2.
  pose proof (NoDup_lookup _ _ _ _ H Hi1 Hi2) as Heq. simplify_eq. congruence.
Qed.

Lemma chain_length_bound nxt h l n :
  chain nxt h l → (∀ i, i ∈ l → i < n) → length l ≤ n.
Proof.
  intros Hc Hb. apply chain_NoDup in Hc.
  transitivity (length (seq 0 n)); [|by rewrite length_seq].
  apply submseteq_length, NoDup_submseteq; [done|].
  intros i Hi. apply elem_of_seq. specialize (Hb _ Hi). lia.
Qed.

(** The free list of a fresh array: [i] points at [i+1] up to [n]. *)
Lemma chain_seq nxt k n :
  (∀ i, k ≤ i < k + n → nxt i = if decide (S i < k + n) then Some (S i) else None) →
  chain nxt (if decide (0 < n) then Some k else None) (seq k n).
Proof.
  revert k; induction n as [|n IH]; intros k Hn; [constructor|].
  rewrite decide_True by lia. simpl. constructor.
  rewrite Hn by lia.
  replace (if decide (S k < k + S n) then Some (S k) else None)
    with (if decide (0 < n) then Some (S k) else None)
    by (repeat case_decide; try done; lia).
  apply IH. intros i Hi. rewrite Hn by lia. repeat case_decide; try done; lia.
Qed.
End chain.

#[export] Hint Constructors chain : tyrne.
#[export] Hint Resolve chain_NoDup : tyrne.
