(* ===== verification/Arena.v ===== *)
(** * Generation-tagged arenas (kernel/src/obj/arena.rs)

[Arena<T, N>]: a fixed array of slots, each empty (and on the free list) or
holding a [T]; a [SlotId] is an index and the generation the slot had when it
was allocated, so an id is stale as soon as its slot has been freed. *)

From S2P Require Import Prelude.
From S2P Require Import Chain.

(** An index is a [u16]; the constant assertion of [Arena::new] keeps every
    capacity within it, so [nat] holds it without a wrap-around. *)
Record SlotId := { id_index : nat; id_generation : Z }.

#[export] Instance SlotId_eq_dec : EqDecision SlotId.
Proof. solve_decision. Defined.

Definition first_slot : SlotId := {| id_index := 0; id_generation := 0%Z |}.

Section defs.
  Context {T : Type} `{Build}.

Record Slot := { entry : option T; generation : Z; next_free : option nat }.

Record Arena := { slots : list Slot; free_head : option nat }.

Definition new (N : nat) : Arena :=
  {| slots := (λ i, {| entry := None;
                       generation := 0%Z;
                       next_free := if decide (i + 1 < N) then Some (i + 1) else None |})
              <$> seq 0 N;
     free_head := if decide (0 < N) then Some 0 else None |}.

(** An [Option] result is a [Result] whose error is [tt]. *)
Definition allocate (value : T) : M Arena unit SlotId :=
  let* head := reads (λ a, Some (match free_head a with Some h => Ok h | None => Err tt end)) in
  let* N := gets (λ a, length (slots a)) in
  debug_assert (bool_decide (head < N)) ;;
  let* slot := reads (λ a, Some (match slots a !! head with Some s => Ok s | None => Err tt end)) in
  let next_free' := next_free slot in
  modify (λ a, {| slots := <[head := {| entry := Some value;
                                        generation := generation slot;
                                        next_free := None |}]> (slots a);
                  free_head := next_free' |}) ;;
  ret {| id_index := head; id_generation := generation slot |}.

Definition free (id : SlotId) : M Arena unit T :=
  let* slot := reads (λ a, Some (match slots a !! id_index id with Some s => Ok s | None => Err tt end)) in
  if negb (bool_decide (generation slot = id_generation id)) then throw tt else
  match entry slot with
  | None => throw tt
  | Some value =>
      modify (λ a, {| slots := <[id_index id :=
                                   {| entry := None;
                                      generation := wrapping_add32 (generation slot) 1;
                                      next_free := free_head a |}]> (slots a);
                      free_head := Some (id_index id) |}) ;;
      ret value
  end.

Definition get (a : Arena) (id : SlotId) : option T :=
  match slots a !! id_index id with
  | None => None
  | Some slot =>
      if negb (bool_decide (generation slot = id_generation id)) then None
      else entry slot
  end.

(** [get_mut]: the borrow is used through [f]; a stale id changes nothing. *)
Definition get_mut {A} (id : SlotId) (f : T → T * A) : M Arena unit A :=
  let* slot := reads (λ a, Some (match slots a !! id_index id with Some s => Ok s | None => Err tt end)) in
  if negb (bool_decide (generation slot = id_generation id)) then throw tt else
  match entry slot with
  | None => throw tt
  | Some v =>
      modify (λ a, {| slots := <[id_index id :=
                                   {| entry := Some (f v).1;
                                      generation := generation slot;
                                      next_free := next_free slot |}]> (slots a);
                      free_head := free_head a |}) ;;
      ret (f v).2
  end.

Definition contains (a : Arena) (id : SlotId) : bool := bool_decide (is_Some (get a id)).

Definition is_full (a : Arena) : bool := bool_decide (free_head a = None).
End defs.

Arguments Slot : clear implicits.
Arguments Arena : clear implicits.

(** ** Invariant *)

Section invariant.
  Context {T : Type}.
  Implicit Types (a : Arena T).

Definition nf a (i : nat) : option nat := slots a !! i ≫= next_free.
Definition ent a (i : nat) : option T := slots a !! i ≫= entry.

(** The free list visits exactly the empty slots, and every generation is a
    [u32]. *)
Record WF (N : nat) a : Prop := {
  wf_length : length (slots a) = N;
  wf_gen : ∀ i s, slots a !! i = Some s → is_u32 (generation s);
  wf_free : ∃ fl, chain (nf a) (free_head a) fl ∧
                  ∀ i, i ∈ fl ↔ i < N ∧ ent a i = None;
}.

Lemma get_Some a id v :
  get a id = Some v ↔
  ∃ s, slots a !! id_index id = Some s ∧ generation s = id_generation id ∧ entry s = Some v.
Proof.
  unfold get. destruct (slots a !! id_index id) as [s|] eqn:Hs.
  - case_bool_decide; simpl; naive_solver.
  - naive_solver.
Qed.

Lemma get_lookup a id s : slots a !! id_index id = Some s →
  get a id = if decide (generation s = id_generation id) then entry s else None.
Proof. intros Hs. unfold get. rewrite Hs. by repeat case_decide. Qed.

Lemma get_no_slot a id : slots a !! id_index id = None → get a id = None.
Proof. intros Hs. unfold get. by rewrite Hs. Qed.

Lemma arena_new_WF N : N < 2 ^ 16 → WF N (new (T := T) N).
Proof.
  intros HN. split.
  - simpl. by rewrite length_fmap, length_seq.
  - simpl. intros i s (j & -> & _)%list_lookup_fmap_Some. simpl. unfold is_u32. lia.
  - exists (seq 0 N). simpl. split.
    + apply chain_seq. intros i Hi. unfold nf. simpl.
      rewrite list_lookup_fmap, lookup_seq_lt by lia. simpl.
      repeat case_decide; try lia; f_equal; lia.
    + intros i. rewrite elem_of_seq. unfold ent. simpl.
      rewrite list_lookup_fmap. destruct (decide (i < N)).
      * rewrite lookup_seq_lt by done. simpl. split; [done|lia].
      * split; [lia|]. intros [? _]. lia.
Qed.

Section operations.
Context `{Build} {N : nat}.

Lemma wf_free_head a : WF N a →
  ∀ h, free_head a = Some h →
  h < N ∧ ∃ s, slots a !! h = Some s ∧ entry s = None.
Proof.
  intros [Hl _ (fl & Hch & Hfl)] h Hh. rewrite Hh in Hch.
  apply chain_head_elem in Hch. apply Hfl in Hch as [Hlt He].
  split; [done|]. destruct (lookup_lt_is_Some_2 (slots a) h) as [s Hs]; [lia|].
  exists s. unfold ent in He. rewrite Hs in He. done.
Qed.

(** An arena is full exactly when every slot holds a value. *)
Lemma arena_full_spec a : WF N a →
  is_full a = true ↔ ∀ i, i < N → is_Some (ent a i).
Proof.
  intros [Hl _ (fl & Hch & Hfl)]. unfold is_full. rewrite bool_decide_eq_true. split.
  - intros Hn i Hi. rewrite Hn in Hch. apply chain_None_inv in Hch as ->.
    destruct (ent a i) eqn:E; [by eexists|]. destruct (Hfl i) as [_ Hin].
    specialize (Hin (conj Hi E)). set_solver.
  - intros Hall. destruct (free_head a) as [h|] eqn:Hh; [|done].
    apply chain_head_elem in Hch. apply Hfl in Hch as [Hlt He].
    specialize (Hall _ Hlt). rewrite He in Hall. by destruct Hall.
Qed.

Lemma get_ent a id v : get a id = Some v → ent a (id_index id) = Some v.
Proof. intros (s & Hs & _ & He)%get_Some. unfold ent. by rewrite Hs. Qed.

(** [allocate]: fails exactly on a full arena and then changes nothing;
    otherwise the id is one that named nothing, names the value now, and no
    other id changed its meaning. *)
Lemma allocate_wp a v : WF N a →
  wp (allocate v) a (λ a' r, WF N a' ∧
    match r with
    | Err _ => a' = a ∧ is_full a = true
    | Ok id => is_full a = false ∧ get a id = None ∧ get a' id = Some v ∧
               id_index id < N ∧ is_u32 (id_generation id) ∧
               (∀ id', id' ≠ id → get a' id' = get a id') ∧
               (∀ i, ent a' i = if decide (i = id_index id) then Some v else ent a i)
    end).
Proof.
  intros Hwf. unfold allocate. wp_pure.
  destruct (free_head a) as [h|] eqn:Hh.
  2:{ apply wp_reads with (r := Err tt); [by rewrite Hh|].
      split; [done|]. split; [done|]. unfold is_full. by rewrite Hh. }
  destruct (wf_free_head a Hwf h Hh) as (Hlt & s & Hs & He).
  pose proof (wf_length _ _ Hwf) as Hlen.
  apply wp_reads with (r := Ok h); [by rewrite Hh|]. wp_pure.
  apply wp_debug_assert; [case_bool_decide; [done|lia]|]. wp_pure.
  apply wp_reads with (r := Ok s); [by rewrite Hs|]. wp_pure.
  set (a' := Build_Arena _ _).
  assert (Hent : ∀ i, ent a' i = if decide (i = h) then Some v else ent a i).
  { intros i. unfold ent, a'; simpl. rewrite fmap_upd by lia. done. }
  split; [split|].
  - simpl. rewrite length_insert. done.
  - simpl. intros i s'. rewrite lookup_upd by lia. case_decide.
    + intros [= <-]. simpl. by eapply wf_gen.
    + by eapply wf_gen.
  - destruct (wf_free _ _ Hwf) as (fl & Hch & Hfl). rewrite Hh in Hch.
    pose proof (chain_NoDup _ _ _ Hch) as Hnd.
    apply chain_Some_inv in Hch as (fl' & -> & Hch).
    apply NoDup_cons in Hnd as [Hni Hnd].
    exists fl'. split.
    + simpl. unfold nf in Hch at 2. rewrite Hs in Hch. simpl in Hch.
      eapply chain_frame; [|exact Hch]. intros i Hi. unfold nf, a'; simpl.
      rewrite fmap_upd, decide_False by (done || lia || set_solver). done.
    + intros i. rewrite Hent. specialize (Hfl i). case_decide; set_solver.
  - repeat split.
    + unfold is_full. by rewrite Hh.
    + rewrite (get_lookup _ _ s) by done. simpl. rewrite He. by case_decide.
    + apply get_Some. eexists. simpl. rewrite list_lookup_insert_eq by lia. done.
    + simpl. lia.
    + simpl. by eapply wf_gen.
    + simpl. by eapply wf_gen.
    + intros id' Hne. unfold get, a'; simpl. rewrite lookup_upd by lia.
      case_decide as Hd; [|done]. rewrite Hd, Hs. simpl.
      rewrite He. case_bool_decide; simpl; [|done].
      destruct Hne. destruct id'; simpl in *; by subst.
    + simpl. done.
Qed.

(** [free]: returns the value a live id names, makes the id stale and leaves
    every other id alone; a stale id changes nothing. *)
Lemma free_wp a id : WF N a →
  wp (free id) a (λ a' r, WF N a' ∧
    match r with
    | Err _ => a' = a ∧ get a id = None
    | Ok v => get a id = Some v ∧ get a' id = None ∧
              (∀ id', id_index id' ≠ id_index id → get a' id' = get a id') ∧
              (∀ i, ent a' i = if decide (i = id_index id) then None else ent a i)
    end).
Proof.
  intros Hwf. unfold free. wp_pure.
  pose proof (wf_length _ _ Hwf) as Hlen.
  destruct (slots a !! id_index id) as [s|] eqn:Hs.
  2:{ apply wp_reads with (r := Err tt); [by rewrite Hs|]. split_and!; try done.
      by apply get_no_slot. }
  apply wp_reads with (r := Ok s); [by rewrite Hs|].
  case_bool_decide as Hg; simpl.
  2:{ red. cbn. split_and!; try done. rewrite (get_lookup _ _ s) by done. by case_decide. }
  destruct (entry s) as [v|] eqn:He.
  2:{ red. cbn. split_and!; try done. rewrite (get_lookup _ _ s), He by done. by case_decide. }
  wp_pure. set (a' := Build_Arena _ _).
  apply lookup_lt_Some in Hs as Hlt.
  assert (Hent : ∀ i, ent a' i = if decide (i = id_index id) then None else ent a i).
  { intros i. unfold ent, a'; simpl. rewrite fmap_upd by lia. done. }
  split; [split|].
  - simpl. by rewrite length_insert.
  - simpl. intros i s'. rewrite lookup_upd by lia. case_decide.
    + intros [= <-]. simpl. apply wrapping_add32_range.
    + by eapply wf_gen.
  - destruct (wf_free _ _ Hwf) as (fl & Hch & Hfl).
    assert (Hni : id_index id ∉ fl).
    { rewrite Hfl. unfold ent. rewrite Hs. simpl. rewrite He. naive_solver. }
    exists (id_index id :: fl). split.
    + simpl. constructor. unfold nf at 2, a'; simpl.
      rewrite list_lookup_insert_eq by done. simpl.
      eapply chain_frame; [|exact Hch]. intros i Hi. unfold nf; simpl.
      rewrite fmap_upd, decide_False by (done || lia || set_solver). done.
    + intros i. rewrite Hent, elem_of_cons, Hfl. case_decide; naive_solver lia.
  - repeat split.
    + apply get_Some. eauto.
    + erewrite get_lookup by (by apply list_lookup_insert_eq). by case_decide.
    + intros id' Hne. unfold get, a'; simpl. rewrite list_lookup_insert_ne; done.
    + exact Hent.
Qed.

(** [get_mut]: updates the value a live id names and nothing else. *)
Lemma get_mut_wp {A} a id (f : T → T * A) : WF N a →
  wp (get_mut id f) a (λ a' r, WF N a' ∧
    match r with
    | Err _ => a' = a ∧ get a id = None
    | Ok x => ∃ v, get a id = Some v ∧ x = (f v).2 ∧ get a' id = Some (f v).1 ∧
              (∀ id', id' ≠ id → get a' id' = get a id')
    end).
Proof.
  intros Hwf. unfold get_mut. wp_pure.
  pose proof (wf_length _ _ Hwf) as Hlen.
  destruct (slots a !! id_index id) as [s|] eqn:Hs.
  2:{ apply wp_reads with (r := Err tt); [by rewrite Hs|]. split_and!; try done.
      by apply get_no_slot. }
  apply wp_reads with (r := Ok s); [by rewrite Hs|].
  case_bool_decide as Hg; simpl.
  2:{ red. cbn. split_and!; try done. rewrite (get_lookup _ _ s) by done. by case_decide. }
  destruct (entry s) as [v|] eqn:He.
  2:{ red. cbn. split_and!; try done. rewrite (get_lookup _ _ s), He by done. by case_decide. }
  wp_pure. set (a' := Build_Arena _ _).
  apply lookup_lt_Some in Hs as Hlt.
  assert (Hent : ∀ i, ent a' i = if decide (i = id_index id) then Some (f v).1 else ent a i).
  { intros i. unfold ent, a'; simpl. rewrite fmap_upd by lia. done. }
  assert (Hnf : ∀ i, nf a' i = nf a i).
  { intros i. unfold nf, a'; simpl. rewrite fmap_upd by lia.
    case_decide as Hd; [|done]. subst. by rewrite Hs. }
  split; [split|].
  - simpl. by rewrite length_insert.
  - simpl. intros i s'. rewrite lookup_upd by lia. case_decide.
    + intros [= <-]. simpl. by eapply wf_gen.
    + by eapply wf_gen.
  - destruct (wf_free _ _ Hwf) as (fl & Hch & Hfl). exists fl. split.
    + simpl. eapply chain_frame; [|exact Hch]. intros i _. apply Hnf.
    + intros i. rewrite Hent, Hfl. case_decide; [|done]. subst.
      unfold ent. rewrite Hs. simpl. rewrite He. naive_solver.
  - exists v. repeat split.
    + apply get_Some. eauto.
    + apply get_Some. eexists. simpl. rewrite list_lookup_insert_eq by lia. done.
    + intros id' Hne. unfold get, a'; simpl. rewrite lookup_upd by lia.
      case_decide as Hd; [|done]. rewrite Hd, Hs. simpl.
      rewrite bool_decide_false; [done|].
      intros Hg'. destruct Hne. destruct id, id'; simpl in *; congruence.
Qed.
End operations.
End invariant.

#[export] Hint Resolve arena_new_WF : tyrne.
