(* ===== verification/Objects.v ===== *)
(** * Kernel objects (kernel/src/obj: task.rs, endpoint.rs, notification.rs, mod.rs)

The three object kinds, their typed handles over [Arena.SlotId], and the
create / destroy / get functions.  [AddressSpaceHandle] (kernel/src/mm) is
here too because capabilities and tasks carry it. *)

From S2P Require Import Prelude.
From S2P Require Import Arena.

Definition TASK_ARENA_CAPACITY : nat := 16.
Definition ENDPOINT_ARENA_CAPACITY : nat := 16.
Definition NOTIFICATION_ARENA_CAPACITY : nat := 16.

(** ** Typed handles *)

Record TaskHandle := TaskHandle_from_slot { task_slot : SlotId }.
Record EndpointHandle := EndpointHandle_from_slot { endpoint_slot : SlotId }.
Record NotificationHandle := NotificationHandle_from_slot { notification_slot : SlotId }.
Record AddressSpaceHandle := AddressSpaceHandle_from_slot { address_space_slot : SlotId }.

#[export] Instance TaskHandle_eq_dec : EqDecision TaskHandle.
Proof. solve_decision. Defined.
#[export] Instance EndpointHandle_eq_dec : EqDecision EndpointHandle.
Proof. solve_decision. Defined.
#[export] Instance NotificationHandle_eq_dec : EqDecision NotificationHandle.
Proof. solve_decision. Defined.
#[export] Instance AddressSpaceHandle_eq_dec : EqDecision AddressSpaceHandle.
Proof. solve_decision. Defined.

Definition BOOTSTRAP_ADDRESS_SPACE_HANDLE : AddressSpaceHandle :=
  AddressSpaceHandle_from_slot first_slot.

(** ** Objects *)

Inductive ObjError := ArenaFull | ObjInvalidHandle | StillReachable.

#[export] Instance ObjError_eq_dec : EqDecision ObjError.
Proof. solve_decision. Defined.

Record Task := { task_id : Z; task_address_space_handle : AddressSpaceHandle }.
Record Endpoint := { endpoint_id : Z }.
Record Notification := { word : Z }.

(** [Notification::set]: OR [bits] into the 64-bit word. *)
Definition set (n : Notification) (bits : Z) : Notification :=
  {| word := Z.lor (word n) bits |}.

(** [Notification::consume]: the word, which is cleared. *)
Definition consume (n : Notification) : Notification * Z :=
  ({| word := 0 |}, word n).

Notation TaskArena := (Arena Task).
Notation EndpointArena := (Arena Endpoint).
Notation NotificationArena := (Arena Notification).

Section objects.
  Context `{Build}.

(** [.ok_or(e)] on an [Option] of the arena, and [.map(f)] on its value. *)
Definition or_err {S E A} (m : M S unit A) (e : E) : M S E A := map_err (λ _, e) m.
Definition map_ok {S E A B} (f : A → B) (m : M S E A) : M S E B :=
  let* x := m in ret (f x).

Definition create_task (task : Task) : M TaskArena ObjError TaskHandle :=
  or_err (map_ok TaskHandle_from_slot (allocate task)) ArenaFull.
Definition destroy_task (handle : TaskHandle) : M TaskArena ObjError Task :=
  or_err (free (task_slot handle)) ObjInvalidHandle.
Definition get_task (arena : TaskArena) (handle : TaskHandle) : option Task :=
  get arena (task_slot handle).

Definition create_endpoint (endpoint : Endpoint) : M EndpointArena ObjError EndpointHandle :=
  or_err (map_ok EndpointHandle_from_slot (allocate endpoint)) ArenaFull.
Definition destroy_endpoint (handle : EndpointHandle) : M EndpointArena ObjError Endpoint :=
  or_err (free (endpoint_slot handle)) ObjInvalidHandle.
Definition get_endpoint (arena : EndpointArena) (handle : EndpointHandle) : option Endpoint :=
  get arena (endpoint_slot handle).

Definition create_notification (notification : Notification)
  : M NotificationArena ObjError NotificationHandle :=
  or_err (map_ok NotificationHandle_from_slot (allocate notification)) ArenaFull.
Definition destroy_notification (handle : NotificationHandle)
  : M NotificationArena ObjError Notification :=
  or_err (free (notification_slot handle)) ObjInvalidHandle.
Definition get_notification (arena : NotificationArena) (handle : NotificationHandle)
  : option Notification :=
  get arena (notification_slot handle).

(** A create followed by any sequence of operations on other handles keeps the
    object; a destroy ends the handle.  All three kinds are the arena's
    behaviour under the handle's newtype. *)
Lemma create_wp {T Hd} (mk : SlotId → Hd) (v : T) (N : nat) (a : Arena T) :
  WF N a →
  wp (or_err (map_ok mk (allocate v)) ArenaFull) a (λ a' r, WF N a' ∧
    match r with
    | Err e => e = ArenaFull ∧ a' = a ∧ is_full a = true
    | Ok h => ∃ id, h = mk id ∧ is_full a = false ∧ get a id = None ∧ get a' id = Some v ∧
               ∀ id', id' ≠ id → get a' id' = get a id'
    end).
Proof.
  intros Hwf. unfold or_err, map_ok. rewrite wp_map_err, wp_bind.
  eapply wp_mono; [by eapply allocate_wp|]. intros a' [id|[]]; simpl.
  - intros (? & ? & ? & ? & ? & ? & ? & ?). red; cbn. eauto 10.
  - naive_solver.
Qed.

Lemma destroy_wp {T} (id : SlotId) (N : nat) (a : Arena T) :
  WF N a →
  wp (or_err (free id) ObjInvalidHandle) a (λ a' r, WF N a' ∧
    match r with
    | Err e => e = ObjInvalidHandle ∧ a' = a ∧ get a id = None
    | Ok v => get a id = Some v ∧ get a' id = None ∧
              ∀ id', id_index id' ≠ id_index id → get a' id' = get a id'
    end).
Proof.
  intros Hwf. unfold or_err. rewrite wp_map_err.
  eapply wp_mono; [by eapply free_wp|]. intros a' [v|[]]; simpl; naive_solver.
Qed.

(** [set] is idempotent per bit and [consume] returns exactly the bits set
    since the last [consume]. *)
Lemma set_testbit n bits i : (0 ≤ i)%Z →
  Z.testbit (word (set n bits)) i = Z.testbit (word n) i || Z.testbit bits i.
Proof. intros _. apply Z.lor_spec. Qed.

Lemma set_u64 n bits : is_u64 (word n) → is_u64 bits → is_u64 (word (set n bits)).
Proof.
  unfold is_u64. intros H1 H2. simpl. split.
  - apply Z.lor_nonneg. lia.
  - destruct (decide (Z.lor (word n) bits = 0)%Z) as [->|Hne]; [lia|].
    assert (0 ≤ Z.lor (word n) bits)%Z by (apply Z.lor_nonneg; lia).
    apply Z.log2_lt_pow2; [lia|]. rewrite Z.log2_lor by lia.
    destruct (decide (word n = 0%Z)) as [->|];
      destruct (decide (bits = 0%Z)) as [->|];
      repeat match goal with
      | |- context [Z.log2 0] => change (Z.log2 0) with 0%Z
      end;
      apply Z.max_lub_lt; first [lia | apply Z.log2_lt_pow2; lia].
Qed.
End objects.
