(* ===== verification/Caps.v ===== *)
(** * Capabilities (kernel/src/cap/rights.rs, kernel/src/cap/mod.rs)

The rights bitfield, the typed object reference and the capability value.
Capabilities are move-only in Rust; here that is a property of the operations
(Ipc.v proves that none duplicates or loses one), not of the type. *)

From S2P Require Import Prelude.
From S2P Require Import Arena.
From S2P Require Import Objects.
Local Open Scope Z_scope.

(** ** Rights *)

Record CapRights := { raw : Z }.

#[export] Instance CapRights_eq_dec : EqDecision CapRights.
Proof. solve_decision. Defined.

Definition EMPTY : CapRights := {| raw := 0 |}.
Definition DUPLICATE : CapRights := {| raw := Z.shiftl 1 0 |}.
Definition DERIVE : CapRights := {| raw := Z.shiftl 1 1 |}.
Definition REVOKE : CapRights := {| raw := Z.shiftl 1 2 |}.
Definition TRANSFER : CapRights := {| raw := Z.shiftl 1 3 |}.
Definition SEND : CapRights := {| raw := Z.shiftl 1 4 |}.
Definition RECV : CapRights := {| raw := Z.shiftl 1 5 |}.
Definition NOTIFY : CapRights := {| raw := Z.shiftl 1 6 |}.
Definition CONSOLE_WRITE : CapRights := {| raw := Z.shiftl 1 7 |}.

Definition KNOWN_BITS : CapRights :=
  {| raw := Z.lor (Z.lor (Z.lor (Z.lor (Z.lor (Z.lor (Z.lor
              (raw DUPLICATE) (raw DERIVE)) (raw REVOKE)) (raw TRANSFER))
              (raw SEND)) (raw RECV)) (raw NOTIFY)) (raw CONSOLE_WRITE) |}.

Definition empty : CapRights := EMPTY.
Definition from_raw (bits : Z) : CapRights := {| raw := Z.land bits (raw KNOWN_BITS) |}.
Definition contains (self other : CapRights) : bool :=
  bool_decide (Z.land (raw self) (raw other) = raw other).
Definition union (self other : CapRights) : CapRights :=
  {| raw := Z.lor (raw self) (raw other) |}.
Definition intersection (self other : CapRights) : CapRights :=
  {| raw := Z.land (raw self) (raw other) |}.
(** [self & !other]: [!] on a [u32] complements its 32 bits. *)
Definition difference (self other : CapRights) : CapRights :=
  {| raw := Z.land (raw self) (Z.lxor (raw other) U32_MAX) |}.
Definition is_empty (self : CapRights) : bool := bool_decide (raw self = 0).

Definition bitor (self rhs : CapRights) : CapRights := union self rhs.
Definition bitand (self rhs : CapRights) : CapRights := intersection self rhs.

(** ** Objects and capabilities *)

Inductive CapKind :=
| KTask | KEndpoint | KNotification | KAddressSpace | KDebugConsole | KMemoryRegion.

Inductive CapObject :=
| OTask (h : TaskHandle)
| OEndpoint (h : EndpointHandle)
| ONotification (h : NotificationHandle)
| OAddressSpace (h : AddressSpaceHandle)
| ODebugConsole.

#[export] Instance CapKind_eq_dec : EqDecision CapKind.
Proof. solve_decision. Defined.
#[export] Instance CapObject_eq_dec : EqDecision CapObject.
Proof. solve_decision. Defined.

Definition kind (o : CapObject) : CapKind :=
  match o with
  | OTask _ => KTask
  | OEndpoint _ => KEndpoint
  | ONotification _ => KNotification
  | OAddressSpace _ => KAddressSpace
  | ODebugConsole => KDebugConsole
  end.

Record Capability := { rights : CapRights; object : CapObject }.

#[export] Instance Capability_eq_dec : EqDecision Capability.
Proof. solve_decision. Defined.

Definition cap_kind (c : Capability) : CapKind := kind (object c).

Inductive CapError :=
| CapsExhausted
| InvalidHandle
| WidenedRights
| InsufficientRights
| DerivationTooDeep
| HasChildren
| WrongKind.

#[export] Instance CapError_eq_dec : EqDecision CapError.
Proof. solve_decision. Defined.

(** ** Rights as sets of bits *)

(** The reference reading of a rights word: the set of its bit numbers. *)
Definition has (r : CapRights) (i : Z) : Prop := Z.testbit (raw r) i = true.

(** [r1 ⊆ r2] on the bits. *)
Definition sub_rights (r1 r2 : CapRights) : Prop := ∀ i, 0 ≤ i → has r1 i → has r2 i.

#[export] Instance sub_rights_preorder : PreOrder sub_rights.
Proof. split; [by intros r i _ | intros r1 r2 r3 H1 H2 i Hi Hr; by apply H2, H1]. Qed.

Lemma contains_spec a b : contains a b = true ↔ sub_rights b a.
Proof.
  unfold contains, sub_rights, has. rewrite bool_decide_eq_true. split.
  - intros Heq i Hi Hb. rewrite <- Heq, Z.land_spec in Hb. by apply andb_true_iff in Hb as [? _].
  - intros Hs. apply Z.bits_inj'. intros i Hi. rewrite Z.land_spec.
    specialize (Hs i Hi). destruct (Z.testbit (raw b) i); [|by rewrite andb_false_r].
    by rewrite Hs.
Qed.

(** Bits above the word are absent from every [u32]. *)
Lemma u32_high_bits z i : is_u32 z → 32 ≤ i → Z.testbit z i = false.
Proof.
  intros Hz Hi. destruct (decide (z = 0)) as [->|]; [apply Z.bits_0|].
  unfold is_u32 in Hz.
  apply Z.bits_above_log2; [lia|].
  apply Z.log2_lt_pow2; [lia|]. eapply Z.lt_le_trans; [apply Hz|].
  by apply Z.pow_le_mono_r.
Qed.

Lemma u32_max_bits i : 0 ≤ i → Z.testbit U32_MAX i = bool_decide (i < 32).
Proof.
  intros Hi. change U32_MAX with (Z.ones 32). case_bool_decide.
  - apply Z.ones_spec_low. lia.
  - apply Z.ones_spec_high. lia.
Qed.

#[export] Hint Rewrite contains_spec : tyrne.
