(* ===== verification/ObjProps.v ===== *)
(** * Properties of arenas, handles and rights

The generation-tagged arena as a partial map from ids to values, and the
rights bitfield as a set of bits. *)

From S2P Require Import Prelude.
From S2P Require Import Chain.
From S2P Require Import Arena.
From S2P Require Import Objects.
From S2P Require Import Caps.

(** ** Arenas *)

Inductive arena_op (T : Type) := Alloc (v : T) | Free (id : SlotId).
Arguments Alloc {T} v.
Arguments Free {T} id.

Section arena_ops.
  Context {T : Type} `{Build}.

Definition run_arena_op (o : arena_op T) : M (Arena T) unit (SlotId + T) :=
  match o with
  | Alloc v => let* id := allocate v in ret (inl id)
  | Free id => let* v := free id in ret (inr v)
  end.

Fixpoint run_arena_ops (os : list (arena_op T)) (a : Arena T) : option (Arena T) :=
  match os with
  | [] => Some a
  | o :: os => match run_arena_op o a with
               | None => None
               | Some (a', _) => run_arena_ops os a'
               end
  end.

(** The effect of one operation on the partial map [get]. *)
Definition map_step (N : nat) (a a' : Arena T) (o : arena_op T) (r : result unit (SlotId + T)) : Prop :=
  match o, r with
  | Alloc v, Ok (inl id) =>
      get a id = None ∧ get a' id = Some v ∧ ∀ id', id' ≠ id → get a' id' = get a id'
  | Alloc _, Err _ => a' = a ∧ ∀ i, i < N → is_Some (ent a i)
  | Free id, Ok (inr v) =>
      get a id = Some v ∧ get a' id = None ∧ ∀ id', id' ≠ id → get a' id' = get a id'
  | Free id, Err _ => a' = a ∧ get a id = None
  | _, _ => False
  end.

Lemma get_same_index (a : Arena T) id id' : is_Some (get a id) → id_index id' = id_index id → id' ≠ id →
  get a id' = None.
Proof.
  intros [v (s & Hs & Hg & He)%get_Some] Hi Hne. rewrite (get_lookup _ _ s) by congruence.
  rewrite decide_False; [done|]. intros Hg'. apply Hne. destruct id, id'; simpl in *; congruence.
Qed.

Lemma run_arena_op_wp N (a : Arena T) o : WF N a →
  wp (run_arena_op o) a (λ a' r, WF N a' ∧ map_step N a a' o r).
Proof.
  intros Hwf. destruct o as [v|id]; apply wp_bind.
  - eapply wp_mono; [by eapply allocate_wp|]. intros a' [id|[]] (Hwf' & Hr).
    + destruct Hr as (_ & Hn & Hs & _ & _ & Hf & _). red; cbn. eauto.
    + destruct Hr as (-> & Hfull). split; [done|]. split; [done|]. by eapply arena_full_spec.
  - eapply wp_mono; [by eapply free_wp|]. intros a' [v|[]] (Hwf' & Hr); [|done].
    destruct Hr as (Hs & Hn & Hf & Hent). red; cbn. split; [done|]. split_and!; [done..|].
    intros id' Hne. destruct (decide (id_index id' = id_index id)) as [Hi|Hi]; [|by apply Hf].
    rewrite (get_same_index a id id'); [|by eexists|done|done].
    destruct (get a' id') as [v'|] eqn:Hv; [|done]. apply get_ent in Hv.
    rewrite Hent, decide_True in Hv by done. done.
Qed.

Lemma run_arena_ops_WF N os (a : Arena T) : WF N a → ∃ a', run_arena_ops os a = Some a' ∧ WF N a'.
Proof.
  revert a; induction os as [|o os IH]; intros a Hwf; [eauto|].
  pose proof (run_arena_op_wp N a o Hwf) as Hw. unfold wp in Hw. cbn [run_arena_ops].
  destruct (run_arena_op o a) as [[a1 r]|]; [|done]. by apply IH, Hw.
Qed.
End arena_ops.

(** An arena of any capacity that fits its 16-bit index is a partial map from
    ids to values.  After any sequence of allocations and frees from the empty
    arena, [allocate] binds an id that named nothing and leaves every other id
    alone, failing only when every slot holds a value; [free] unbinds a live id,
    returns its value and leaves every other id alone, failing only on an id that
    names nothing; no call panics. *)
Theorem arena_refines_map {T} `{Build} (N : nat) (os : list (arena_op T)) (o : arena_op T) :
  N < 2 ^ 16 →
  ∃ a a' r, run_arena_ops os (new N) = Some a ∧
            run_arena_op o a = Some (a', r) ∧ map_step N a a' o r.
Proof.
  intros HN. destruct (run_arena_ops_WF N os (new N) (arena_new_WF N HN)) as (a & Ha & Hwf).
  pose proof (run_arena_op_wp N a o Hwf) as (a' & r & Hr & _ & Hm)%wp_run. eauto 10.
Qed.

Lemma arena_refines_map_witness :
  2 < 2 ^ 16 ∧
  ∃ a a' r, run_arena_ops (H := debug_build) [Alloc 10; Alloc 11; Free first_slot] (new 2) = Some a ∧
            run_arena_op (H := debug_build) (Alloc 12) a = Some (a', r) ∧
            map_step 2 a a' (Alloc 12) r.
Proof.
  assert (H : 2 < 2 ^ 16) by (apply Nat.ltb_lt; vm_compute; reflexivity).
  split; [exact H|].
  apply (arena_refines_map (H := debug_build) 2 [Alloc 10; Alloc 11; Free first_slot] (Alloc 12) H).
Defined.

(** ** Rights *)

(** The rights operations are set operations on the 32 bits: [contains] is
    inclusion, [union], [intersection] and [difference] are the set operations,
    [is_empty] is emptiness, and [from_raw] keeps exactly the eight defined bits,
    so no reserved bit survives the ABI boundary. *)
Theorem rights_are_sets (a b : CapRights) (bits : Z) :
  is_u32 (raw a) → is_u32 (raw b) → is_u32 bits →
  (contains a b = true ↔ ∀ i, (0 ≤ i)%Z → has b i → has a i) ∧
  (∀ i, (0 ≤ i)%Z → has (union a b) i ↔ has a i ∨ has b i) ∧
  (∀ i, (0 ≤ i)%Z → has (intersection a b) i ↔ has a i ∧ has b i) ∧
  (∀ i, (0 ≤ i)%Z → has (difference a b) i ↔ has a i ∧ ¬ has b i) ∧
  (is_empty a = true ↔ ∀ i, (0 ≤ i)%Z → ¬ has a i) ∧
  (∀ i, (0 ≤ i)%Z → has (from_raw bits) i ↔ Z.testbit bits i = true ∧ (i < 8)%Z).
Proof.
  intros Ha Hb Hbits. unfold has. split_and!.
  - apply contains_spec.
  - intros i Hi. simpl. rewrite Z.lor_spec. apply orb_true_iff.
  - intros i Hi. simpl. rewrite Z.land_spec. apply andb_true_iff.
  - intros i Hi. simpl. rewrite Z.land_spec, Z.lxor_spec, u32_max_bits, andb_true_iff by done.
    case_bool_decide.
    + rewrite xorb_true_r, negb_true_iff, not_true_iff_false. done.
    + rewrite (u32_high_bits (raw a) i Ha) by lia. split; intros [? ?]; done.
  - unfold is_empty. rewrite bool_decide_eq_true. split.
    + intros -> i Hi. by rewrite Z.bits_0.
    + intros Hno. apply Z.bits_inj'. intros i Hi. rewrite Z.bits_0.
      specialize (Hno i Hi). by destruct (Z.testbit (raw a) i).
  - intros i Hi. unfold from_raw; cbn [raw]. change (raw KNOWN_BITS) with (Z.ones 8). rewrite Z.land_spec, andb_true_iff.
    destruct (decide (i < 8)%Z).
    + rewrite Z.ones_spec_low by lia. naive_solver.
    + rewrite Z.ones_spec_high by lia. naive_solver.
Qed.

Lemma rights_are_sets_witness :
  contains (union SEND RECV) SEND = true ∧
  (∀ i, (0 ≤ i)%Z → has SEND i → has (union SEND RECV) i).
Proof.
  assert (Hu : is_u32 (raw (union SEND RECV))) by (vm_compute; split; congruence).
  assert (Hs : is_u32 (raw SEND)) by (vm_compute; split; congruence).
  destruct (rights_are_sets (union SEND RECV) SEND 0 Hu Hs) as (Hc & _).
  { vm_compute. split; congruence. }
  split; [reflexivity|]. apply Hc. reflexivity.
Defined.
