(* ===== verification/CapTable.v ===== *)
(** * The capability table (kernel/src/cap/table.rs)

The slot array, its free list, the derivation tree threaded through it, and
every method of [CapabilityTable].  [CapTableInv] has the invariant and the
methods' specifications. *)

From S2P Require Import Prelude.
From S2P Require Import Arena.
From S2P Require Import Objects.
From S2P Require Import Caps.

Definition CAP_TABLE_CAPACITY : nat := 64.
Definition MAX_DERIVATION_DEPTH : Z := 16.

(** An [Index] is a [u16] and [CAP_TABLE_CAPACITY <= u16::MAX], so [nat] holds
    it; a [Generation] is a [u32] and a depth a [u8], with their wrap-around and
    casts written out. *)
Record CapHandle := { ch_index : nat; ch_generation : Z }.

#[export] Instance CapHandle_eq_dec : EqDecision CapHandle.
Proof. solve_decision. Defined.

Definition CapHandle_from_raw (index : nat) (generation : Z) : CapHandle :=
  {| ch_index := index; ch_generation := generation |}.

Record SlotEntry := {
  capability : Capability;
  parent : option nat;
  first_child : option nat;
  next_sibling : option nat;
  depth : Z;
}.

Record CSlot := {
  entry : option SlotEntry;
  generation : Z;
  next_free : option nat;
}.

Record CapabilityTable := {
  slots : list CSlot;
  free_head : option nat;
}.

(** Field updates. *)
Definition set_free_head (h : option nat) (t : CapabilityTable) : CapabilityTable :=
  {| slots := slots t; free_head := h |}.
Definition set_slot (i : nat) (s : CSlot) (t : CapabilityTable) : CapabilityTable :=
  {| slots := <[i := s]> (slots t); free_head := free_head t |}.
Definition with_entry (e : option SlotEntry) (s : CSlot) : CSlot :=
  {| entry := e; generation := generation s; next_free := next_free s |}.
Definition with_next_free (n : option nat) (s : CSlot) : CSlot :=
  {| entry := entry s; generation := generation s; next_free := n |}.
Definition with_first_child (c : option nat) (e : SlotEntry) : SlotEntry :=
  {| capability := capability e; parent := parent e; first_child := c;
     next_sibling := next_sibling e; depth := depth e |}.
Definition with_next_sibling (n : option nat) (e : SlotEntry) : SlotEntry :=
  {| capability := capability e; parent := parent e; first_child := first_child e;
     next_sibling := n; depth := depth e |}.

Notation T := (M CapabilityTable CapError).

(** [self.slots[i].entry = e] *)
Definition put_entry {E} (i : nat) (e : option SlotEntry) : M CapabilityTable E unit :=
  let* s := idx slots i in modify (set_slot i (with_entry e s)).

Definition new : CapabilityTable :=
  {| slots := (λ i, {| entry := None;
                       generation := 0%Z;
                       next_free := if decide (i + 1 < CAP_TABLE_CAPACITY)
                                    then Some (i + 1) else None |})
              <$> seq 0 CAP_TABLE_CAPACITY;
     free_head := Some 0 |}.

(** ** Internals *)

Definition resolve_handle (t : CapabilityTable) (handle : CapHandle) : P CapError nat :=
  match slots t !! ch_index handle with
  | None => perr InvalidHandle
  | Some slot =>
      if negb (bool_decide (generation slot = ch_generation handle)) then perr InvalidHandle
      else if bool_decide (entry slot = None) then perr InvalidHandle
      else pret (ch_index handle)
  end.

Definition entry_of (t : CapabilityTable) (handle : CapHandle) : P CapError SlotEntry :=
  let? index := resolve_handle t handle in
  let? slot := pidx (slots t) index in
  match entry slot with
  | Some entry => pret entry
  | None => perr InvalidHandle
  end.

(** An [Option] return: the error [tt] is [None]. *)
Definition pop_free : M CapabilityTable unit nat :=
  let* fh := gets free_head in
  let* head := ok_or fh tt in
  let* slot := idx slots head in
  modify (set_free_head (next_free slot)) ;;
  modify (set_slot head (with_next_free None slot)) ;;
  ret head.

Definition link_child (parent : option nat) (new_index : nat) : T (option nat) :=
  match parent with
  | None => ret None
  | Some parent_idx =>
      let* slot := idx slots parent_idx in
      match entry slot with
      | None => throw InvalidHandle
      | Some parent_entry =>
          let former_first_child := first_child parent_entry in
          put_entry parent_idx (Some (with_first_child (Some new_index) parent_entry)) ;;
          ret former_first_child
      end
  end.

Section table.
  Context `{Build}.

Definition free_slot {E} (index : nat) : M CapabilityTable E unit :=
  let* old_free_head := gets free_head in
  let* slot := gets (λ t, slots t !! index) in
  match slot with
  | None => debug_assert false
  | Some slot =>
      modify (set_slot index {| entry := None;
                                generation := wrapping_add32 (generation slot) 1;
                                next_free := old_free_head |}) ;;
      modify (set_free_head (Some index))
  end.

(** The walk of [unlink_from_siblings] along the sibling chain; [fuel] bounds the
    [while let], which on a cyclic chain would not end. *)
Fixpoint unlink_walk (fuel : nat) (index : nat) (next_sibling' : option nat)
    (cursor : option nat) : T unit :=
  match fuel with
  | O => panic
  | S fuel =>
      match cursor with
      | None => debug_assert false ;; throw InvalidHandle
      | Some c =>
          let* slot := idx slots c in
          let c_next := match entry slot with Some e => next_sibling e | None => None end in
          if bool_decide (c_next = Some index) then
            match entry slot with
            | Some c_entry => put_entry c (Some (with_next_sibling next_sibling' c_entry))
            | None => ret tt
            end
          else unlink_walk fuel index next_sibling' c_next
      end
  end.

Definition unlink_from_siblings (index : nat) : T unit :=
  let* slot := idx slots index in
  match entry slot with
  | None => throw InvalidHandle
  | Some e =>
      match parent e with
      | None => ret tt
      | Some parent_idx =>
          let* pslot := idx slots parent_idx in
          match entry pslot with
          | None => debug_assert false ;; throw InvalidHandle
          | Some parent_entry =>
              let cursor := first_child parent_entry in
              if bool_decide (cursor = Some index) then
                put_entry parent_idx (Some (with_first_child (next_sibling e) parent_entry))
              else unlink_walk (S CAP_TABLE_CAPACITY) index (next_sibling e) cursor
          end
      end
  end.

(** ** Operations *)

Definition insert_root (cap : Capability) : T CapHandle :=
  let* index := map_err (λ _, CapsExhausted) pop_free in
  let* slot := idx slots index in
  put_entry index (Some {| capability := cap; parent := None; first_child := None;
                           next_sibling := None; depth := 0 |}) ;;
  ret {| ch_index := index; ch_generation := generation slot |}.

Definition cap_copy (src : CapHandle) (new_rights : CapRights) : T CapHandle :=
  let* e := reads (λ t, entry_of t src) in
  let rights := rights (capability e) in
  let object := object (capability e) in
  if negb (contains rights DUPLICATE) then throw InsufficientRights else
  if negb (contains rights new_rights) then throw WidenedRights else
  let* new_index := map_err (λ _, CapsExhausted) pop_free in
  let* slot := idx slots new_index in
  let* former_first_child := link_child (parent e) new_index in
  put_entry new_index (Some {| capability := {| Caps.rights := new_rights; Caps.object := object |};
                               parent := parent e; first_child := None;
                               next_sibling := former_first_child; depth := depth e |}) ;;
  ret {| ch_index := new_index; ch_generation := generation slot |}.

Definition cap_derive (src : CapHandle) (new_rights : CapRights) (new_object : CapObject)
  : T CapHandle :=
  let* e := reads (λ t, entry_of t src) in
  let rights := rights (capability e) in
  let parent_index := ch_index src in
  let parent_depth := depth e in
  if negb (contains rights DERIVE) then throw InsufficientRights else
  if negb (contains rights new_rights) then throw WidenedRights else
  let new_depth_usize := saturating_add64 parent_depth 1 in
  if bool_decide (MAX_DERIVATION_DEPTH < new_depth_usize)%Z then throw DerivationTooDeep else
  let new_depth := (new_depth_usize `mod` 2 ^ 8)%Z in
  let* new_index := map_err (λ _, CapsExhausted) pop_free in
  let* slot := idx slots new_index in
  let* former_first_child := link_child (Some parent_index) new_index in
  put_entry new_index (Some {| capability := {| Caps.rights := new_rights; Caps.object := new_object |};
                               parent := Some parent_index; first_child := None;
                               next_sibling := former_first_child; depth := new_depth |}) ;;
  ret {| ch_index := new_index; ch_generation := generation slot |}.

(** The scratch array [descendants[..desc_len]] is the list [descendants] and
    [desc_len] its length.  [collect] is the inner [while let] of the
    breadth-first search: it appends the sibling chain starting at [child], and
    breaks when the array is full, so [CAP_TABLE_CAPACITY + 1] rounds always
    reach an exit. *)
Fixpoint collect (fuel : nat) (t : CapabilityTable) (child : option nat)
    (descendants : list nat) : P CapError (list nat) :=
  match fuel with
  | O => ppanic
  | S fuel =>
      match child with
      | None => pret descendants
      | Some c =>
          let desc_len := length descendants in
          let? _ := pdebug_assert (bool_decide (desc_len < CAP_TABLE_CAPACITY)) in
          if bool_decide (CAP_TABLE_CAPACITY ≤ desc_len) then pret descendants else
          let? slot := pidx (slots t) c in
          collect fuel t (match entry slot with Some e => next_sibling e | None => None end)
            (descendants ++ [c])
      end
  end.

(** The outer [while scan < desc_len]; [desc_len] never exceeds the capacity, so
    the same number of rounds is enough. *)
Fixpoint expand (fuel : nat) (t : CapabilityTable) (scan : nat)
    (descendants : list nat) : P CapError (list nat) :=
  match fuel with
  | O => ppanic
  | S fuel =>
      match descendants !! scan with
      | None => pret descendants
      | Some i =>
          let? slot := pidx (slots t) i in
          let gc := match entry slot with Some e => first_child e | None => None end in
          let? descendants' := collect (S CAP_TABLE_CAPACITY) t gc descendants in
          expand fuel t (scan + 1) descendants'
      end
  end.

(** [for &idx in &descendants[..desc_len]] *)
Fixpoint free_all {E} (l : list nat) : M CapabilityTable E unit :=
  match l with
  | [] => ret tt
  | i :: l => free_slot i ;; free_all l
  end.

Definition cap_revoke (src : CapHandle) : T unit :=
  let* src_index := reads (λ t, resolve_handle t src) in
  let* slot := idx slots src_index in
  match entry slot with
  | None => throw InvalidHandle
  | Some e =>
      if negb (contains (rights (capability e)) REVOKE) then throw InsufficientRights else
      let* seed := reads (λ t, collect (S CAP_TABLE_CAPACITY) t (first_child e) []) in
      let* descendants := reads (λ t, expand (S CAP_TABLE_CAPACITY) t 0 seed) in
      free_all descendants ;;
      let* slot := idx slots src_index in
      match entry slot with
      | Some entry => put_entry src_index (Some (with_first_child None entry))
      | None => ret tt
      end
  end.

Definition cap_drop (handle : CapHandle) : T unit :=
  let* index := reads (λ t, resolve_handle t handle) in
  let* slot := idx slots index in
  match entry slot with
  | None => throw InvalidHandle
  | Some e =>
      if bool_decide (is_Some (first_child e)) then throw HasChildren else
      unlink_from_siblings index ;;
      free_slot index
  end.

Definition cap_take (handle : CapHandle) : T Capability :=
  let* index := reads (λ t, resolve_handle t handle) in
  let* slot := idx slots index in
  match entry slot with
  | None => throw InvalidHandle
  | Some e =>
      if bool_decide (is_Some (first_child e)) then throw HasChildren else
      unlink_from_siblings index ;;
      let* slot := idx slots index in
      match entry slot with
      | None => throw InvalidHandle
      | Some entry =>
          put_entry index None ;;
          free_slot index ;;
          ret (capability entry)
      end
  end.

Definition is_full (t : CapabilityTable) : bool := bool_decide (free_head t = None).

Definition lookup (t : CapabilityTable) (handle : CapHandle) : P CapError Capability :=
  let? entry := entry_of t handle in
  pret (capability entry).

Definition depth_of (t : CapabilityTable) (handle : CapHandle) : P CapError Z :=
  let? entry := entry_of t handle in
  pret (depth entry).

Definition references_object (t : CapabilityTable) (target : CapObject) : bool :=
  existsb (λ s, match entry s with
                | Some e => bool_decide (object (capability e) = target)
                | None => false
                end) (slots t).
End table.
