(* ===== verification/CapTableInv.v ===== *)
(** * The capability table's invariant

[WF]: the free list covers exactly the empty slots, and every live slot is a
node of a forest whose links, depths and rights agree.  Each primitive change
of the table (graft a node, cut a leaf, cut a subtree) is a relation between
the tables before and after; one lemma per relation shows it preserves [WF],
and the operations of [CapTable] are shown to perform one of them. *)

From S2P Require Import Prelude.
From S2P Require Import Chain.
From S2P Require Import Arena.
From S2P Require Import Objects.
From S2P Require Import Caps.
From S2P Require Import CapTable.

(** ** Pointwise views of a table *)

Section views.
  Implicit Types (t : CapabilityTable) (i j : nat).

Definition ent t i : option SlotEntry := slots t !! i ≫= entry.
Definition nf t i : option nat := slots t !! i ≫= next_free.
Definition gen t i : option Z := generation <$> slots t !! i.
Definition sib t i : option nat := ent t i ≫= next_sibling.
Definition fc t i : option nat := ent t i ≫= first_child.
Definition par t i : option nat := ent t i ≫= parent.

Lemma ent_lookup t i s : slots t !! i = Some s → ent t i = entry s.
Proof. unfold ent. by intros ->. Qed.
Lemma ent_Some_lookup t i e :
  ent t i = Some e → ∃ s, slots t !! i = Some s ∧ entry s = Some e.
Proof. unfold ent. destruct (slots t !! i) as [s|]; naive_solver. Qed.
Lemma ent_Some_lt t i e : ent t i = Some e → i < length (slots t).
Proof. intros (s & Hs & _)%ent_Some_lookup. by apply lookup_lt_Some in Hs. Qed.
Lemma sib_ent t i e : ent t i = Some e → sib t i = next_sibling e.
Proof. unfold sib. by intros ->. Qed.
Lemma par_ent t i e : ent t i = Some e → par t i = parent e.
Proof. unfold par. by intros ->. Qed.
Lemma fc_ent t i e : ent t i = Some e → fc t i = first_child e.
Proof. unfold fc. by intros ->. Qed.
Lemma par_Some t i p : par t i = Some p ↔ ∃ e, ent t i = Some e ∧ parent e = Some p.
Proof. unfold par. destruct (ent t i); naive_solver. Qed.

Lemma length_set_slot t i s : length (slots (set_slot i s t)) = length (slots t).
Proof. simpl. apply length_insert. Qed.
Lemma ent_set_slot t i s j : i < length (slots t) →
  ent (set_slot i s t) j = if decide (j = i) then entry s else ent t j.
Proof. apply fmap_upd. Qed.
Lemma nf_set_slot t i s j : i < length (slots t) →
  nf (set_slot i s t) j = if decide (j = i) then next_free s else nf t j.
Proof. apply fmap_upd. Qed.
Lemma gen_set_slot t i s j : i < length (slots t) →
  gen (set_slot i s t) j = if decide (j = i) then Some (generation s) else gen t j.
Proof. intros. unfold gen. simpl. rewrite lookup_upd by done. by case_decide. Qed.
End views.

(** ** The invariant *)

Record node_ok (t : CapabilityTable) (i : nat) (e : SlotEntry) : Prop := {
  nd_depth : (0 ≤ depth e ≤ MAX_DERIVATION_DEPTH)%Z;
  nd_parent :
    match parent e with
    | None => depth e = 0%Z ∧ next_sibling e = None
    | Some p => ∃ pe, ent t p = Some pe ∧ depth e = (depth pe + 1)%Z ∧
                      sub_rights (rights (capability e)) (rights (capability pe))
    end;
  nd_children : ∃ l, chain (sib t) (first_child e) l ∧ ∀ j, j ∈ l ↔ par t j = Some i;
}.

Record WF (t : CapabilityTable) : Prop := {
  wf_length : length (slots t) = CAP_TABLE_CAPACITY;
  wf_gen : ∀ i g, gen t i = Some g → is_u32 g;
  wf_free : ∃ fl, chain (nf t) (free_head t) fl ∧
                  ∀ i, i ∈ fl ↔ i < CAP_TABLE_CAPACITY ∧ ent t i = None;
  wf_node : ∀ i e, ent t i = Some e → node_ok t i e;
}.

Lemma new_WF : WF new.
Proof.
  assert (Hent : ∀ i, ent new i = None).
  { intros i. unfold ent, new; cbn [slots]. rewrite list_lookup_fmap.
    destruct (seq 0 CAP_TABLE_CAPACITY !! i); done. }
  split.
  - unfold new; cbn [slots]. by rewrite length_fmap, length_seq.
  - intros i g. unfold gen, new; cbn [slots]. rewrite list_lookup_fmap.
    destruct (seq 0 CAP_TABLE_CAPACITY !! i); simpl; [|done].
    intros [= <-]. unfold is_u32. lia.
  - exists (seq 0 CAP_TABLE_CAPACITY). split.
    + apply (chain_seq (nf new) 0 CAP_TABLE_CAPACITY). intros i Hi. unfold nf, new; cbn [slots].
      rewrite list_lookup_fmap, lookup_seq_lt by lia. cbn [mbind option_bind fmap option_fmap option_map next_free].
      repeat case_decide; try lia; f_equal; lia.
    + intros i. rewrite elem_of_seq, Hent. split; [intros; split; [lia|done]|lia].
  - intros i e. by rewrite Hent.
Qed.

Section inv_lemmas.
  Context (t : CapabilityTable) (Hwf : WF t).

Lemma ent_lt i e : ent t i = Some e → i < CAP_TABLE_CAPACITY.
Proof. rewrite <- (wf_length t Hwf). apply ent_Some_lt. Qed.

Lemma slot_at i : i < CAP_TABLE_CAPACITY → ∃ s, slots t !! i = Some s.
Proof. rewrite <- (wf_length t Hwf). apply lookup_lt_is_Some_2. Qed.

Lemma free_head_empty h : free_head t = Some h → h < CAP_TABLE_CAPACITY ∧ ent t h = None.
Proof.
  destruct (wf_free t Hwf) as (fl & Hch & Hfl). intros Hh. rewrite Hh in Hch.
  apply chain_head_elem in Hch. by apply Hfl.
Qed.

(** The parent of a live node is live. *)
Lemma par_live i p : par t i = Some p → is_Some (ent t p).
Proof.
  intros (e & He & Hp)%par_Some. pose proof (nd_parent _ _ _ (wf_node t Hwf i e He)) as H.
  rewrite Hp in H. destruct H as (pe & Hpe & _). by eexists.
Qed.

Lemma par_depth i e p pe : ent t i = Some e → parent e = Some p → ent t p = Some pe →
  depth e = (depth pe + 1)%Z.
Proof.
  intros He Hp Hpe. pose proof (nd_parent _ _ _ (wf_node t Hwf i e He)) as H.
  rewrite Hp in H. destruct H as (pe' & Hpe' & Hd & _). congruence.
Qed.

Lemma par_irrefl i : par t i ≠ Some i.
Proof.
  intros (e & He & Hp)%par_Some. pose proof (par_depth i e i e He Hp He). lia.
Qed.

Lemma no_first_child_no_children i e :
  ent t i = Some e → first_child e = None → ∀ j, par t j ≠ Some i.
Proof.
  intros He Hfc j Hj. destruct (nd_children _ _ _ (wf_node t Hwf i e He)) as (l & Hl & Hin).
  rewrite Hfc in Hl. apply chain_None_inv in Hl as ->. apply Hin in Hj. set_solver.
Qed.

Lemma is_full_spec :
  is_full t = true ↔ ∀ i, i < CAP_TABLE_CAPACITY → is_Some (ent t i).
Proof.
  destruct (wf_free t Hwf) as (fl & Hch & Hfl).
  unfold is_full. rewrite bool_decide_eq_true. split.
  - intros Hn i Hi. rewrite Hn in Hch. apply chain_None_inv in Hch as ->.
    destruct (ent t i) eqn:E; [by eexists|]. pose proof (proj2 (Hfl i) (conj Hi E)). set_solver.
  - intros Hall. destruct (free_head t) as [h|] eqn:Hh; [|done].
    destruct (free_head_empty h Hh) as [Hlt He].
    specialize (Hall _ Hlt). rewrite He in Hall. by destruct Hall.
Qed.
End inv_lemmas.

(** ** Handles *)

(** The entry a handle names, when it is live. *)
Definition named (t : CapabilityTable) (h : CapHandle) : option SlotEntry :=
  if decide (gen t (ch_index h) = Some (ch_generation h)) then ent t (ch_index h) else None.

Lemma named_Some t h e :
  named t h = Some e ↔ gen t (ch_index h) = Some (ch_generation h) ∧ ent t (ch_index h) = Some e.
Proof. unfold named. case_decide; naive_solver. Qed.

Lemma resolve_handle_eq t h :
  resolve_handle t h =
  Some (match named t h with Some _ => Ok (ch_index h) | None => Err InvalidHandle end).
Proof.
  unfold resolve_handle, named, gen, ent.
  destruct (slots t !! ch_index h) as [s|]; cbn [fmap option_fmap option_map mbind option_bind]; [|by case_decide].
  case_bool_decide; cbn [negb].
  - rewrite decide_True by (by f_equal). case_bool_decide as Hn; [by rewrite Hn|].
    by destruct (entry s).
  - rewrite decide_False by naive_solver. done.
Qed.

Lemma entry_of_eq t h :
  entry_of t h = Some (match named t h with Some e => Ok e | None => Err InvalidHandle end).
Proof.
  unfold entry_of. rewrite resolve_handle_eq. destruct (named t h) as [e|] eqn:Hn; [|done].
  cbn [pbind]. apply named_Some in Hn as [_ He]. apply ent_Some_lookup in He as (s & Hs & He).
  unfold pidx. rewrite Hs. cbn. by rewrite He.
Qed.

Lemma lookup_eq t h :
  lookup t h = Some (match named t h with Some e => Ok (capability e) | None => Err InvalidHandle end).
Proof. unfold lookup. rewrite entry_of_eq. by destruct (named t h). Qed.

Lemma depth_of_eq t h :
  depth_of t h = Some (match named t h with Some e => Ok (depth e) | None => Err InvalidHandle end).
Proof. unfold depth_of. rewrite entry_of_eq. by destruct (named t h). Qed.
