(* ===== verification/CapTableOps.v ===== *)
(** * Specifications of the capability table's operations

[Inserted] and [Cut] are the two single-node changes of the table; each
preserves [WF].  [insert_root], [cap_copy] and [cap_derive] insert exactly one
node or fail without a change, [cap_drop] and [cap_take] cut exactly one leaf
or fail without a change. *)

From S2P Require Import Prelude.
From S2P Require Import Chain.
From S2P Require Import Arena.
From S2P Require Import Objects.
From S2P Require Import Caps.
From S2P Require Import CapTable.
From S2P Require Import CapTableInv.

(** ** Grafting a node *)

(** The entry of [j] after [i] became the first child of [p]. *)
Definition relink (p : option nat) (i j : nat) (o : option SlotEntry) : option SlotEntry :=
  if decide (p = Some j) then with_first_child (Some i) <$> o else o.

Record Inserted (t t' : CapabilityTable) (i : nat) (e : SlotEntry) : Prop := {
  ins_fresh : ent t i = None;
  ins_head : free_head t = Some i;
  ins_len : length (slots t') = length (slots t);
  ins_gen : ∀ j, gen t' j = gen t j;
  ins_free_head : free_head t' = nf t i;
  ins_nf : ∀ j, j ≠ i → nf t' j = nf t j;
  ins_ent : ∀ j, ent t' j = if decide (j = i) then Some e else relink (parent e) i j (ent t j);
  ins_sibling : next_sibling e = parent e ≫= fc t;
  ins_leaf : first_child e = None;
}.

(** What the new node must satisfy for the forest to stay well formed. *)
Definition graftable (t : CapabilityTable) (e : SlotEntry) : Prop :=
  (0 ≤ depth e ≤ MAX_DERIVATION_DEPTH)%Z ∧
  match parent e with
  | None => depth e = 0%Z
  | Some p => ∃ pe, ent t p = Some pe ∧ depth e = (depth pe + 1)%Z ∧
                    sub_rights (rights (capability e)) (rights (capability pe))
  end.

Section inserted.
  Context (t t' : CapabilityTable) (i : nat) (e : SlotEntry).
  Context (Hwf : WF t) (Hins : Inserted t t' i e).

Lemma ins_other j ej : j ≠ i → ent t j = Some ej →
  ∃ ej', ent t' j = Some ej' ∧ capability ej' = capability ej ∧ parent ej' = parent ej ∧
         next_sibling ej' = next_sibling ej ∧ depth ej' = depth ej.
Proof.
  intros Hne Hj. pose proof (ins_ent _ _ _ _ Hins j) as H'.
  rewrite decide_False, Hj in H' by done. unfold relink in H'. rewrite H'.
  case_decide; eauto 10.
Qed.

Lemma ins_par j : par t' j = if decide (j = i) then parent e else par t j.
Proof.
  unfold par. rewrite (ins_ent _ _ _ _ Hins). case_decide; [done|].
  unfold relink. case_decide; [|done]. by destruct (ent t j).
Qed.

Lemma ins_sib j : sib t' j = if decide (j = i) then next_sibling e else sib t j.
Proof.
  unfold sib. rewrite (ins_ent _ _ _ _ Hins). case_decide; [done|].
  unfold relink. case_decide; [|done]. by destruct (ent t j).
Qed.

Lemma ins_par_fresh j : par t j ≠ Some i.
Proof.
  intros H. apply (par_live t Hwf) in H as [? H].
  rewrite (ins_fresh _ _ _ _ Hins) in H. done.
Qed.

Lemma ins_not_member k l : chain (sib t) (fc t k) l → (∀ j, j ∈ l ↔ par t j = Some k) → i ∉ l.
Proof.
  intros _ Hl Hi. apply Hl, par_Some in Hi as (x & Hx & _).
  rewrite (ins_fresh _ _ _ _ Hins) in Hx. done.
Qed.

(** The children of every node after the graft. *)
Lemma ins_children k ek : ent t k = Some ek → k ≠ i →
  ∃ l, chain (sib t') (fc t' k) l ∧ ∀ j, j ∈ l ↔ par t' j = Some k.
Proof.
  intros Hk Hne. destruct (nd_children _ _ _ (wf_node t Hwf k ek Hk)) as (l & Hl & Hin).
  rewrite <- (fc_ent t k ek Hk) in Hl.
  pose proof (ins_not_member k l Hl Hin) as Hni.
  assert (Hl' : chain (sib t') (fc t k) l).
  { eapply chain_frame; [|exact Hl]. intros j Hj. rewrite ins_sib, decide_False; [done|set_solver]. }
  assert (Hfc : fc t' k = if decide (parent e = Some k) then Some i else fc t k).
  { unfold fc. rewrite (ins_ent _ _ _ _ Hins), decide_False by done.
    unfold relink. case_decide; [|done]. by rewrite Hk. }
  rewrite Hfc. case_decide as Hp.
  - exists (i :: l). split.
    + constructor. rewrite ins_sib, decide_True by done.
      rewrite (ins_sibling _ _ _ _ Hins), Hp. done.
    + intros j. rewrite elem_of_cons, Hin, ins_par. case_decide as Hd.
      * subst. split; [done|by left].
      * split; [intros [?|?]; done|by right].
  - exists l. split; [done|]. intros j. rewrite Hin, ins_par. case_decide as Hd; [|done].
    subst. split; [|done]. intros (x & Hx & _)%par_Some.
    rewrite (ins_fresh _ _ _ _ Hins) in Hx. done.
Qed.

Lemma ins_parent_alive : graftable t e → ∀ p, parent e = Some p → p ≠ i.
Proof.
  intros [_ Hg] p Hp ->. rewrite Hp in Hg. destruct Hg as (pe & Hpe & _).
  rewrite (ins_fresh _ _ _ _ Hins) in Hpe. done.
Qed.

Lemma ins_node_ok : graftable t e → ∀ k ek, ent t' k = Some ek → node_ok t' k ek.
Proof.
  intros Hg k ek Hk. pose proof Hk as Hk'. rewrite (ins_ent _ _ _ _ Hins) in Hk'.
  case_decide as Hd.
  - assert (ek = e) as -> by congruence. subst k. destruct Hg as [Hdep Hg]. split; [done| |].
    + pose proof (ins_sibling _ _ _ _ Hins) as Hs.
      destruct (parent e) as [p|] eqn:Hp; [|by rewrite Hs].
      destruct Hg as (pe & Hpe & Hpd & Hr). assert (p ≠ i) as Hne by (intros ->; by rewrite (ins_fresh _ _ _ _ Hins) in Hpe).
      destruct (ins_other p pe Hne Hpe) as (pe' & Hpe' & Hc & _ & _ & Hd').
      exists pe'. by rewrite Hc, Hd'.
    + exists []. rewrite (ins_leaf _ _ _ _ Hins). split; [constructor|].
      intros j. split; [set_solver|]. rewrite ins_par. case_decide as Hd.
      * subst. intros Hp. by destruct (ins_parent_alive (conj Hdep Hg) _ Hp).
      * intros H. by destruct (ins_par_fresh j).
  - destruct (ent t k) as [e0|] eqn:He0; [|unfold relink in Hk'; by case_decide].
    destruct (ins_other k e0 Hd He0) as (e1 & He1 & Hc & Hpa & Hsb & Hdp).
    assert (e1 = ek) as -> by congruence.
    destruct (wf_node t Hwf k e0 He0) as [H1 H2 _]. split.
    + by rewrite Hdp.
    + rewrite Hpa, Hdp, Hsb, Hc. destruct (parent e0) as [p|]; [|done].
      destruct H2 as (pe & Hpe & Hpd & Hr).
      assert (p ≠ i) as Hne by (intros ->; by rewrite (ins_fresh _ _ _ _ Hins) in Hpe).
      destruct (ins_other p pe Hne Hpe) as (pe' & Hpe' & Hc' & _ & _ & Hd').
      exists pe'. by rewrite Hc', Hd'.
    + rewrite <- (fc_ent t' k ek Hk). by eapply ins_children.
Qed.

Lemma Inserted_WF : graftable t e → WF t'.
Proof.
  intros Hg. split.
  - rewrite (ins_len _ _ _ _ Hins). apply Hwf.
  - intros j g. rewrite (ins_gen _ _ _ _ Hins). apply Hwf.
  - destruct (wf_free t Hwf) as (fl & Hch & Hfl).
    rewrite (ins_head _ _ _ _ Hins) in Hch.
    pose proof (chain_NoDup _ _ _ Hch) as Hnd.
    apply chain_Some_inv in Hch as (fl' & -> & Hch). apply NoDup_cons in Hnd as [Hni _].
    exists fl'. rewrite (ins_free_head _ _ _ _ Hins). split.
    + eapply chain_frame; [|exact Hch]. intros j Hj. apply Hins. set_solver.
    + intros j. specialize (Hfl j). rewrite (ins_ent _ _ _ _ Hins). case_decide as Hd.
      * subst. split; [done|]. by intros [_ ?].
      * rewrite elem_of_cons in Hfl.
        assert (relink (parent e) i j (ent t j) = None ↔ ent t j = None) as ->; [|tauto].
        unfold relink. case_decide; [|done]. by destruct (ent t j).
  - by apply ins_node_ok.
Qed.
End inserted.

(** ** The internals *)

Lemma put_entry_wp {E} t i s e (Q : CapabilityTable → result E unit → Prop) :
  slots t !! i = Some s →
  Q (set_slot i (with_entry e s) t) (Ok tt) → wp (put_entry i e) t Q.
Proof.
  intros Hs HQ. unfold put_entry. apply wp_bind, wp_idx with s; [done|]. exact HQ.
Qed.

(** [pop_free] from a well-formed table: the head of the free list, unlinked. *)
Lemma pop_free_wp t (Q : CapabilityTable → result unit nat → Prop) :
  WF t →
  (is_full t = true → Q t (Err tt)) →
  (∀ i s, free_head t = Some i → slots t !! i = Some s → entry s = None →
    Q (set_slot i (with_next_free None s) (set_free_head (next_free s) t)) (Ok i)) →
  wp pop_free t Q.
Proof.
  intros Hwf Hfull Hok. unfold pop_free. wp_pure.
  destruct (free_head t) as [i|] eqn:Hh; wp_pure.
  2:{ apply Hfull. unfold is_full. by rewrite Hh. }
  destruct (free_head_empty t Hwf i Hh) as [Hlt He].
  destruct (slot_at t Hwf i Hlt) as [s Hs]. apply wp_idx with s; [done|]. wp_pure.
  apply Hok; [done|done|]. by rewrite <- (ent_lookup t i s Hs).
Qed.

(** The common tail of [insert_root], [cap_copy] and [cap_derive]. *)
Definition graft (par : option nat) (mk : option nat → SlotEntry) : T CapHandle :=
  let* new_index := map_err (λ _, CapsExhausted) pop_free in
  let* slot := idx slots new_index in
  let* former_first_child := link_child par new_index in
  put_entry new_index (Some (mk former_first_child)) ;;
  ret {| ch_index := new_index; ch_generation := generation slot |}.

Lemma set_slot_views t i s0 fh s j : slots t !! i = Some s0 →
  let t1 := set_slot i s (set_free_head fh t) in
  (ent t1 j = if decide (j = i) then entry s else ent t j) ∧
  (nf t1 j = if decide (j = i) then next_free s else nf t j) ∧
  (gen t1 j = if decide (j = i) then Some (generation s) else gen t j).
Proof.
  intros Hs%lookup_lt_Some t1. unfold t1.
  rewrite ent_set_slot, nf_set_slot, gen_set_slot by done. done.
Qed.

(** The table [t1] that [pop_free] leaves, when it hands out the slot [i]. *)
Section popped.
  Context (t : CapabilityTable) (i : nat) (s : CSlot).
  Context (Hh : free_head t = Some i) (Hs : slots t !! i = Some s) (He : entry s = None).
  Notation s1 := (with_next_free None s).
  Notation t1 := (set_slot i s1 (set_free_head (next_free s) t)).

Lemma popped_slot : slots t1 !! i = Some s1.
Proof. apply list_lookup_insert_eq. by apply lookup_lt_Some in Hs. Qed.

Lemma popped_slot_ne p : p ≠ i → slots t1 !! p = slots t !! p.
Proof. intros Hne. cbn. by rewrite list_lookup_insert_ne by done. Qed.

Lemma popped_views j :
  ent t1 j = ent t j ∧ nf t1 j = (if decide (j = i) then None else nf t j) ∧ gen t1 j = gen t j.
Proof.
  destruct (set_slot_views t i s (next_free s) s1 j Hs) as (-> & -> & ->). cbn.
  unfold ent, gen. case_decide; [subst; rewrite Hs|]; done.
Qed.

(** A node without a parent, stored in the popped slot. *)
Lemma root_Inserted e : parent e = None → next_sibling e = None → first_child e = None →
  Inserted t (set_slot i (with_entry (Some e) s1) t1) i e.
Proof.
  intros Hp Hn Hf. pose proof (lookup_lt_Some _ _ _ popped_slot) as Hl.
  split; try done.
  - unfold ent. by rewrite Hs.
  - by rewrite !length_set_slot.
  - intros j. rewrite gen_set_slot by done. destruct (popped_views j) as (_ & _ & ->).
    case_decide; [|done]. subst. unfold gen. by rewrite Hs.
  - unfold nf. cbn. by rewrite Hs.
  - intros j Hj. rewrite nf_set_slot by done. destruct (popped_views j) as (_ & -> & _).
    by rewrite !decide_False.
  - intros j. rewrite ent_set_slot by done. destruct (popped_views j) as (-> & _ & _).
    unfold relink. by rewrite Hp.
  - by rewrite Hp, Hn.
Qed.

(** A child of [p], stored in the popped slot after [p] was pointed at it. *)
Lemma child_Inserted e p sp pe : slots t !! p = Some sp → entry sp = Some pe →
  parent e = Some p → next_sibling e = first_child pe → first_child e = None →
  let t2 := set_slot p (with_entry (Some (with_first_child (Some i) pe)) sp) t1 in
  slots t2 !! i = Some s1 ∧ Inserted t (set_slot i (with_entry (Some e) s1) t2) i e.
Proof.
  intros Hsp Hpe Hp Hn Hf t2. assert (Hne : p ≠ i) by (intros ->; congruence).
  assert (Hs2 : slots t2 !! i = Some s1).
  { unfold t2. cbn [slots set_slot]. rewrite list_lookup_insert_ne by done. apply popped_slot. }
  split; [done|]. pose proof (lookup_lt_Some _ _ _ Hs2) as Hl2.
  assert (Hl1 : p < length (slots t1)).
  { rewrite <- (popped_slot_ne p Hne) in Hsp. by apply lookup_lt_Some in Hsp. }
  assert (Hep : ent t p = Some pe) by (unfold ent; by rewrite Hsp).
  split; try done.
  - unfold ent. by rewrite Hs.
  - unfold t2. by rewrite !length_set_slot.
  - intros j. unfold t2. rewrite !gen_set_slot by done. destruct (popped_views j) as (_ & _ & ->).
    repeat case_decide; subst; try done; unfold gen; by rewrite ?Hs, ?Hsp.
  - unfold nf. cbn. by rewrite Hs.
  - intros j Hj. unfold t2. rewrite !nf_set_slot by done. destruct (popped_views j) as (_ & -> & _).
    repeat case_decide; subst; try done. unfold nf. by rewrite Hsp.
  - intros j. unfold t2. rewrite !ent_set_slot by done. destruct (popped_views j) as (-> & _ & _).
    rewrite Hp. unfold relink. repeat case_decide; try congruence; subst; [done|by rewrite Hep].
  - rewrite Hp, Hn. cbn. by rewrite (fc_ent t p pe Hep).
Qed.
End popped.

Lemma graft_wp t par mk :
  WF t → (∀ p, par = Some p → is_Some (ent t p)) →
  (∀ f, parent (mk f) = par ∧ next_sibling (mk f) = f ∧ first_child (mk f) = None) →
  wp (graft par mk) t (λ t' r,
    match r with
    | Err x => x = CapsExhausted ∧ t' = t ∧ is_full t = true
    | Ok h => is_full t = false ∧ gen t (ch_index h) = Some (ch_generation h) ∧
              Inserted t t' (ch_index h) (mk (par ≫= fc t))
    end).
Proof.
  intros Hwf Hpar Hmk. unfold graft. apply wp_bind, wp_map_err, pop_free_wp; [done|done|].
  intros i s Hh Hs He. cbn [res_map_err].
  assert (Hfull : is_full t = false) by (unfold is_full; by rewrite Hh).
  assert (Hgi : gen t i = Some (generation s)) by (unfold gen; by rewrite Hs).
  pose proof (popped_slot t i s Hs) as Hs1.
  apply wp_bind, wp_idx with (with_next_free None s); [done|]. apply wp_bind.
  destruct par as [p|]; cbn [link_child].
  - destruct (Hpar p eq_refl) as [pe Hpe]. cbn [mbind option_bind]. rewrite (fc_ent t p pe Hpe).
    destruct (ent_Some_lookup t p pe Hpe) as (sp & Hsp & Hspe), (Hmk (first_child pe)) as (Hm1 & Hm2 & Hm3).
    destruct (child_Inserted t i s Hh Hs He _ p sp pe Hsp Hspe Hm1 Hm2 Hm3) as [Hs2 Hins].
    apply wp_bind, wp_idx with sp; [rewrite popped_slot_ne; congruence|]. rewrite Hspe.
    apply wp_bind, put_entry_wp with sp; [rewrite popped_slot_ne; congruence|]. red; cbn beta iota.
    by apply wp_bind, put_entry_wp with (with_next_free None s).
  - change (None ≫= fc t) with (@None nat). destruct (Hmk None) as (Hm1 & Hm2 & Hm3).
    red; cbn beta iota. apply wp_bind, put_entry_wp with (with_next_free None s); [done|].
    red; cbn beta iota. do 2 (split; [done|]). by apply root_Inserted.
Qed.

(** ** insert_root, cap_copy, cap_derive *)

Section inserting.
  Context `{Build}.

(** The handle [h] is new in [t'], names [e], and the rest of the table is as
    before except that [e]'s parent has one more child. *)
Definition inserted_at (t t' : CapabilityTable) (h : CapHandle) (e : SlotEntry) : Prop :=
  is_full t = false ∧ gen t (ch_index h) = Some (ch_generation h) ∧
  Inserted t t' (ch_index h) e ∧ WF t'.

Lemma insert_root_wp t cap : WF t →
  wp (insert_root cap) t (λ t' r,
    match r with
    | Err x => x = CapsExhausted ∧ t' = t ∧ is_full t = true
    | Ok h => inserted_at t t' h
                {| capability := cap; parent := None; first_child := None;
                   next_sibling := None; depth := 0 |}
    end).
Proof.
  intros Hwf.
  change (insert_root cap) with
    (graft None (λ f, {| capability := cap; parent := None; first_child := None;
                         next_sibling := f; depth := 0 |})).
  eapply wp_mono; [apply graft_wp; [done|done|by intros f]|].
  intros t' [h|x]; [|done]. intros (Hf & Hg & Hins). split_and!; [done..|].
  eapply Inserted_WF; [exact Hwf|exact Hins|]. split; [simpl; unfold MAX_DERIVATION_DEPTH; lia|done].
Qed.

Lemma wp_entry_of {A} t h (k : SlotEntry → T A) Q :
  (named t h = None → Q t (Err InvalidHandle)) →
  (∀ e, named t h = Some e → wp (k e) t Q) →
  wp (bind (reads (λ t, entry_of t h)) k) t Q.
Proof.
  intros Hn Hs. apply wp_bind. eapply wp_reads; [apply entry_of_eq|].
  destruct (named t h) as [e|]; auto.
Qed.

Lemma cap_copy_wp t src new_rights : WF t →
  wp (cap_copy src new_rights) t (λ t' r,
    match r with
    | Err x => t' = t ∧
        match x with
        | InvalidHandle => named t src = None
        | InsufficientRights => ∃ e, named t src = Some e ∧
            contains (rights (capability e)) DUPLICATE = false
        | WidenedRights => ∃ e, named t src = Some e ∧
            contains (rights (capability e)) DUPLICATE = true ∧
            contains (rights (capability e)) new_rights = false
        | CapsExhausted => ∃ e, named t src = Some e ∧
            contains (rights (capability e)) DUPLICATE = true ∧
            contains (rights (capability e)) new_rights = true ∧ is_full t = true
        | _ => False
        end
    | Ok h => ∃ e, named t src = Some e ∧
        contains (rights (capability e)) DUPLICATE = true ∧
        contains (rights (capability e)) new_rights = true ∧
        inserted_at t t' h
          {| capability := {| rights := new_rights; object := object (capability e) |};
             parent := parent e; first_child := None;
             next_sibling := parent e ≫= fc t; depth := depth e |}
    end).
Proof.
  intros Hwf. apply wp_entry_of; [done|]. intros e He.
  apply named_Some in He as Hn. destruct Hn as [_ Hent].
  cbv zeta. destruct (contains (rights (capability e)) DUPLICATE) eqn:Hd; cbn [negb]; [|red; cbn; eauto].
  destruct (contains (rights (capability e)) new_rights) eqn:Hr; cbn [negb]; [|red; cbn; eauto].
  match goal with |- wp _ _ ?Q => change (wp (graft (parent e) (λ f,
    {| capability := {| rights := new_rights; object := object (capability e) |};
       parent := parent e; first_child := None; next_sibling := f; depth := depth e |})) t Q) end.
  eapply wp_mono; [apply graft_wp; [done| |by intros f]|].
  { intros p Hp. eapply par_live; [done|]. apply par_Some. eauto. }
  intros t' [h|x].
  - intros (Hf & Hg & Hins). exists e. split_and!; [done..|].
    split_and!; [done..|]. eapply Inserted_WF; [exact Hwf|exact Hins|].
    destruct (wf_node t Hwf _ _ Hent) as [Hdep Hpar _]. split; simpl; [done|].
    destruct (parent e) as [p|]; [|naive_solver].
    destruct Hpar as (pe & Hpe & Hdp & Hsub). exists pe. split_and!; [done..|].
    etransitivity; [|exact Hsub]. by apply contains_spec.
  - intros (-> & -> & Hf). split; [done|]. eauto 10.
Qed.

Lemma cap_derive_wp t src new_rights new_object : WF t →
  wp (cap_derive src new_rights new_object) t (λ t' r,
    match r with
    | Err x => t' = t ∧
        match x with
        | InvalidHandle => named t src = None
        | InsufficientRights => ∃ e, named t src = Some e ∧
            contains (rights (capability e)) DERIVE = false
        | WidenedRights => ∃ e, named t src = Some e ∧
            contains (rights (capability e)) DERIVE = true ∧
            contains (rights (capability e)) new_rights = false
        | DerivationTooDeep => ∃ e, named t src = Some e ∧
            contains (rights (capability e)) DERIVE = true ∧
            contains (rights (capability e)) new_rights = true ∧
            depth e = MAX_DERIVATION_DEPTH
        | CapsExhausted => ∃ e, named t src = Some e ∧
            contains (rights (capability e)) DERIVE = true ∧
            contains (rights (capability e)) new_rights = true ∧
            (depth e < MAX_DERIVATION_DEPTH)%Z ∧ is_full t = true
        | _ => False
        end
    | Ok h => ∃ e, named t src = Some e ∧
        contains (rights (capability e)) DERIVE = true ∧
        contains (rights (capability e)) new_rights = true ∧
        (depth e < MAX_DERIVATION_DEPTH)%Z ∧
        inserted_at t t' h
          {| capability := {| rights := new_rights; object := new_object |};
             parent := Some (ch_index src); first_child := None;
             next_sibling := first_child e; depth := depth e + 1 |}
    end).
Proof.
  intros Hwf. apply wp_entry_of; [done|]. intros e He.
  apply named_Some in He as Hn. destruct Hn as [_ Hent].
  destruct (nd_depth _ _ _ (wf_node t Hwf _ _ Hent)) as [Hd0 Hd16].
  cbv zeta. destruct (contains (rights (capability e)) DERIVE) eqn:Hd; cbn [negb]; [|red; cbn; eauto].
  destruct (contains (rights (capability e)) new_rights) eqn:Hr; cbn [negb]; [|red; cbn; eauto].
  assert (Hsat : saturating_add64 (depth e) 1 = (depth e + 1)%Z).
  { unfold saturating_add64, U64_MAX, MAX_DERIVATION_DEPTH in *. lia. }
  rewrite Hsat. unfold MAX_DERIVATION_DEPTH in *. case_bool_decide as Hdeep.
  { red; cbn. split; [done|]. exists e. split_and!; [done..|lia]. }
  replace ((depth e + 1) `mod` 2 ^ 8)%Z with (depth e + 1)%Z by (rewrite Z.mod_small; lia).
  match goal with |- wp _ _ ?Q => change (wp (graft (Some (ch_index src)) (λ f,
    {| capability := {| rights := new_rights; object := new_object |};
       parent := Some (ch_index src); first_child := None;
       next_sibling := f; depth := depth e + 1 |})) t Q) end.
  eapply wp_mono; [apply graft_wp; [done| |by intros f]|].
  { intros p [= <-]. by rewrite Hent. }
  intros t' [h|x].
  - cbn [mbind option_bind]. rewrite (fc_ent _ _ _ Hent).
    intros (Hf & Hg & Hins). exists e. split_and!; [done..|lia|].
    split_and!; [done..|]. eapply Inserted_WF; [exact Hwf|exact Hins|].
    split; simpl; [unfold MAX_DERIVATION_DEPTH; lia|].
    exists e. split_and!; [done..|]. by apply contains_spec.
  - intros (-> & -> & Hf). split; [done|]. exists e. split_and!; [done..|lia|done].
Qed.
End inserting.

(** ** Cutting a leaf *)

(** What removing node [i], whose next sibling is [n], does to another entry: every
    link to [i] is redirected to [n]. *)
Definition unhook (i : nat) (n : option nat) (x : SlotEntry) : SlotEntry :=
  {| capability := capability x; parent := parent x;
     first_child := if decide (first_child x = Some i) then n else first_child x;
     next_sibling := if decide (next_sibling x = Some i) then n else next_sibling x;
     depth := depth x |}.

Lemma unhook_id i n x :
  first_child x ≠ Some i → next_sibling x ≠ Some i → unhook i n x = x.
Proof. intros. unfold unhook. rewrite !decide_False by done. by destruct x. Qed.

Record Cut (t t' : CapabilityTable) (i : nat) (e : SlotEntry) : Prop := {
  cut_live : ent t i = Some e;
  cut_leaf : first_child e = None;
  cut_len : length (slots t') = length (slots t);
  cut_gen : ∀ j, gen t' j = if decide (j = i) then (λ g, wrapping_add32 g 1) <$> gen t j
                            else gen t j;
  cut_free_head : free_head t' = Some i;
  cut_nf : ∀ j, nf t' j = if decide (j = i) then free_head t else nf t j;
  cut_ent : ∀ j, ent t' j = if decide (j = i) then None
                            else unhook i (next_sibling e) <$> ent t j;
}.

Section forest.
  Context (t : CapabilityTable) (Hwf : WF t).

Lemma children_of p ep : ent t p = Some ep →
  ∃ l, chain (sib t) (fc t p) l ∧ ∀ j, j ∈ l ↔ par t j = Some p.
Proof. intros Hp. rewrite (fc_ent _ _ _ Hp). by apply (wf_node t Hwf). Qed.

Lemma fc_par p i : fc t p = Some i → par t i = Some p.
Proof.
  intros Hf. destruct (ent t p) as [ep|] eqn:Hp; [|unfold fc in Hf; by rewrite Hp in Hf].
  destruct (children_of p ep Hp) as (l & Hl & Hin). rewrite Hf in Hl.
  apply Hin. by eapply chain_head_elem.
Qed.

Lemma sib_par j i : sib t j = Some i → ∃ p, par t j = Some p ∧ par t i = Some p.
Proof.
  intros Hs. destruct (ent t j) as [ej|] eqn:Hj; [|unfold sib in Hs; by rewrite Hj in Hs].
  rewrite (sib_ent _ _ _ Hj) in Hs.
  pose proof (nd_parent _ _ _ (wf_node t Hwf j ej Hj)) as Hpa.
  destruct (parent ej) as [p|] eqn:Hp; [|destruct Hpa; congruence].
  destruct Hpa as (pe & Hpe & _). exists p. rewrite (par_ent _ _ _ Hj). split; [done|].
  destruct (children_of p pe Hpe) as (l & Hl & Hin). apply Hin.
  eapply chain_closed; [exact Hl| |rewrite (sib_ent _ _ _ Hj); exact Hs].
  apply Hin. by rewrite (par_ent _ _ _ Hj).
Qed.

Lemma sib_inj j k i : sib t j = Some i → sib t k = Some i → j = k.
Proof.
  intros Hj Hk. destruct (sib_par _ _ Hj) as (p & Hpj & Hpi).
  destruct (sib_par _ _ Hk) as (p' & Hpk & Hpi'). assert (p' = p) as -> by congruence.
  destruct (par_live t Hwf _ _ Hpi) as [ep Hep].
  destruct (children_of p ep Hep) as (l & Hl & Hin).
  eapply chain_succ_inj; [exact Hl|by apply Hin|by apply Hin|done|done].
Qed.

(** A first child is no one's next sibling. *)
Lemma fc_not_sib p i j : fc t p = Some i → sib t j ≠ Some i.
Proof.
  intros Hf Hs. pose proof (fc_par _ _ Hf) as Hpi.
  destruct (sib_par _ _ Hs) as (p' & Hpj & Hpi'). assert (p' = p) as -> by congruence.
  destruct (par_live t Hwf _ _ Hpi) as [ep Hep].
  destruct (children_of p ep Hep) as (l & Hl & Hin). rewrite Hf in Hl.
  apply chain_Some_inv in Hl as Hl'. destruct Hl' as (l' & -> & Hl').
  apply chain_NoDup in Hl. apply NoDup_cons in Hl as [Hni _].
  pose proof (proj2 (Hin j) Hpj) as [->|Hj]%elem_of_cons.
  - rewrite Hs in Hl'. by apply chain_head_elem in Hl'.
  - apply Hni. by eapply chain_closed.
Qed.
End forest.

Section cut.
  Context (t t' : CapabilityTable) (i : nat) (e : SlotEntry).
  Context (Hwf : WF t) (Hcut : Cut t t' i e).

Lemma cut_other j : j ≠ i → ent t' j = unhook i (next_sibling e) <$> ent t j.
Proof. intros. by rewrite (cut_ent _ _ _ _ Hcut), decide_False. Qed.

Lemma cut_par j : j ≠ i → par t' j = par t j.
Proof. intros. unfold par. rewrite cut_other by done. by destruct (ent t j). Qed.

Lemma cut_par_i : par t' i = None.
Proof. unfold par. by rewrite (cut_ent _ _ _ _ Hcut), decide_True. Qed.

Lemma cut_sib j : j ≠ i →
  sib t' j = if decide (sib t j = Some i) then sib t i else sib t j.
Proof.
  intros. unfold sib at 1. rewrite cut_other by done.
  rewrite (sib_ent _ _ _ (cut_live _ _ _ _ Hcut)).
  unfold sib. destruct (ent t j) as [ej|]; simpl; by repeat case_decide.
Qed.

Lemma cut_fc j : j ≠ i →
  fc t' j = if decide (fc t j = Some i) then sib t i else fc t j.
Proof.
  intros. unfold fc at 1. rewrite cut_other by done.
  rewrite (sib_ent _ _ _ (cut_live _ _ _ _ Hcut)).
  unfold fc. destruct (ent t j) as [ej|]; simpl; by repeat case_decide.
Qed.

Lemma cut_children k ek : ent t k = Some ek → k ≠ i →
  ∃ l, chain (sib t') (fc t' k) l ∧ ∀ j, j ∈ l ↔ par t' j = Some k.
Proof.
  intros Hk Hne. destruct (children_of t Hwf k ek Hk) as (l & Hl & Hin).
  destruct (decide (i ∈ l)) as [Hi|Hi].
  - apply list_elem_of_split in Hi as (l1 & l2 & ->).
    pose proof (chain_NoDup _ _ _ Hl) as Hnd. apply NoDup_app in Hnd as (_ & Hd & Hnd).
    apply NoDup_cons in Hnd as [Hn2 _].
    assert (Hni : i ∉ l1 ++ l2).
    { rewrite elem_of_app. intros [H1|H2]; [|done]. eapply Hd; [done|by left]. }
    exists (l1 ++ l2). split.
    + rewrite cut_fc by done. eapply chain_remove; [exact Hl|].
      intros j Hj. apply cut_sib. by intros ->.
    + intros j. destruct (decide (j = i)) as [->|Hji].
      * rewrite cut_par_i. split; [done|discriminate].
      * rewrite cut_par, <- Hin by done. set_solver.
  - assert (Hp : par t i ≠ Some k) by (by rewrite <- Hin).
    exists l. split.
    + rewrite cut_fc, decide_False by (done || intros Hf; by apply Hp, fc_par).
      eapply chain_frame; [|exact Hl]. intros j Hj.
      rewrite cut_sib by (by intros ->). rewrite decide_False; [done|].
      intros Hs. apply Hi. by eapply chain_closed.
    + intros j. rewrite Hin. destruct (decide (j = i)) as [->|Hji].
      * rewrite cut_par_i. done.
      * by rewrite cut_par.
Qed.

Lemma Cut_WF : WF t'.
Proof.
  pose proof (no_first_child_no_children t Hwf i e (cut_live _ _ _ _ Hcut)
                (cut_leaf _ _ _ _ Hcut)) as Hnoc.
  split.
  - rewrite (cut_len _ _ _ _ Hcut). apply Hwf.
  - intros j g. rewrite (cut_gen _ _ _ _ Hcut). case_decide; [|apply Hwf].
    destruct (gen t j); simpl; [|done]. intros [= <-]. apply wrapping_add32_range.
  - destruct (wf_free t Hwf) as (fl & Hch & Hfl).
    assert (Hni : i ∉ fl) by (rewrite Hfl, (cut_live _ _ _ _ Hcut); by intros [_ [=]]).
    exists (i :: fl). rewrite (cut_free_head _ _ _ _ Hcut). split.
    + constructor. rewrite (cut_nf _ _ _ _ Hcut), decide_True by done.
      eapply chain_frame; [|exact Hch]. intros j Hj.
      rewrite (cut_nf _ _ _ _ Hcut), decide_False; [done|set_solver].
    + intros j. rewrite elem_of_cons, Hfl, (cut_ent _ _ _ _ Hcut). case_decide as Hd.
      * subst. split; [|by left]. intros _. split; [|done].
        eapply ent_lt; [done|apply Hcut].
      * destruct (ent t j); simpl;
          (split; [by intros [?|[? ?]]|intros [? ?]; by right]).
  - intros k ek Hk. pose proof Hk as Hk'. rewrite (cut_ent _ _ _ _ Hcut) in Hk'.
    case_decide as Hd; [done|]. destruct (ent t k) as [e0|] eqn:He0; [|done].
    injection Hk' as Hk'. destruct (wf_node t Hwf k e0 He0) as [H1 H2 _]. split.
    + by subst ek.
    + assert (parent ek = parent e0) as -> by (by subst ek).
      assert (depth ek = depth e0) as -> by (by subst ek).
      assert (capability ek = capability e0) as -> by (by subst ek).
      destruct (parent e0) as [p|] eqn:Hp.
      * destruct H2 as (pe & Hpe & Hdp & Hsub).
        assert (p ≠ i) as Hpi by (intros ->; apply (Hnoc k), par_Some; eauto).
        exists (unhook i (next_sibling e) pe). rewrite cut_other, Hpe by done. done.
      * destruct H2 as [Hd0 Hns]. split; [done|]. subst ek. simpl.
        rewrite Hns. by rewrite decide_False.
    + rewrite <- (fc_ent _ _ _ Hk). by eapply cut_children.
Qed.
End cut.

(** ** cap_drop, cap_take *)

Section cutting.
  Context `{Build}.

(** The table after [unlink_from_siblings(i)]: every link to [i] redirected. *)
Record Unlinked (t t' : CapabilityTable) (i : nat) (n : option nat) : Prop := {
  unl_len : length (slots t') = length (slots t);
  unl_free_head : free_head t' = free_head t;
  unl_nf : ∀ j, nf t' j = nf t j;
  unl_gen : ∀ j, gen t' j = gen t j;
  unl_ent : ∀ j, ent t' j = unhook i n <$> ent t j;
}.

Lemma Unlinked_refl t i n :
  (∀ j, fc t j ≠ Some i) → (∀ j, sib t j ≠ Some i) → Unlinked t t i n.
Proof.
  intros Hf Hs. split; try done. intros j. specialize (Hf j). specialize (Hs j).
  unfold fc, sib in *. destruct (ent t j); simpl in *; [|done]. by rewrite unhook_id.
Qed.

(** Replacing the entry of [k] by its unhooked version is enough when [k] is the
    only node that points at [i]. *)
Lemma Unlinked_put t i n k sk ek :
  slots t !! k = Some sk → entry sk = Some ek →
  (∀ j, j ≠ k → fc t j ≠ Some i) → (∀ j, j ≠ k → sib t j ≠ Some i) →
  Unlinked t (set_slot k (with_entry (Some (unhook i n ek)) sk) t) i n.
Proof.
  intros Hsk Hek Hf Hs. apply lookup_lt_Some in Hsk as Hlt. split.
  - apply length_set_slot.
  - done.
  - intros j. rewrite nf_set_slot by done. case_decide; [|done]. subst.
    unfold nf. by rewrite Hsk.
  - intros j. rewrite gen_set_slot by done. case_decide; [|done]. subst.
    unfold gen. by rewrite Hsk.
  - intros j. rewrite ent_set_slot by done. case_decide as Hd.
    + subst. by rewrite (ent_lookup _ _ _ Hsk), Hek.
    + specialize (Hf j Hd). specialize (Hs j Hd). unfold fc, sib in *.
      destruct (ent t j); simpl in *; [|done]. by rewrite unhook_id.
Qed.

Section one_table.
Context (t : CapabilityTable) (Hwf : WF t).

Lemma sib_irrefl i : sib t i ≠ Some i.
Proof.
  intros Hs. destruct (sib_par t Hwf _ _ Hs) as (p & Hp & _).
  destruct (par_live t Hwf _ _ Hp) as [ep Hep].
  destruct (children_of t Hwf p ep Hep) as (l & Hl & Hin).
  apply Hin in Hp. apply list_elem_of_split in Hp as (l1 & l2 & ->).
  pose proof (chain_NoDup _ _ _ Hl) as Hnd. apply chain_after in Hl. rewrite Hs in Hl.
  apply chain_head_elem in Hl. apply NoDup_app in Hnd as (_ & _ & Hnd).
  by apply NoDup_cons in Hnd as [? _].
Qed.

(** The walk finds the predecessor of [i] on the chain it starts on. *)
Lemma unlink_walk_wp fuel i n cursor l :
  chain (sib t) cursor l → i ∈ l → cursor ≠ Some i → length l < fuel →
  (∀ j, fc t j ≠ Some i) →
  wp (unlink_walk fuel i n cursor) t (λ t' r, r = Ok tt ∧ Unlinked t t' i n).
Proof.
  revert cursor l; induction fuel as [|fuel IH]; intros cursor l Hl Hi Hc Hlen Hfc; [lia|].
  destruct cursor as [c|]; [|apply chain_None_inv in Hl as ->; set_solver].
  apply chain_Some_inv in Hl as (l' & -> & Hl). cbn [unlink_walk].
  assert (Hci : i ∈ l') by set_solver.
  assert (Hlive : is_Some (sib t c)).
  { destruct (sib t c) eqn:E; [by eexists|]. apply chain_None_inv in Hl as ->. set_solver. }
  destruct (ent t c) as [ec|] eqn:Hec; [|unfold sib in Hlive; rewrite Hec in Hlive; by destruct Hlive].
  destruct (ent_Some_lookup _ _ _ Hec) as (sc & Hsc & Hecs).
  apply wp_bind, wp_idx with sc; [done|]. rewrite Hecs, <- (sib_ent _ _ _ Hec).
  case_bool_decide as Hsc'.
  - apply put_entry_wp with sc; [done|]. split; [done|].
    assert (with_next_sibling n ec = unhook i n ec) as ->.
    { unfold unhook, with_next_sibling. rewrite <- (fc_ent _ _ _ Hec), <- (sib_ent _ _ _ Hec), Hsc'.
      rewrite (decide_False (P := fc t c = Some i)) by done.
      rewrite decide_True, (fc_ent _ _ _ Hec) by done. done. }
    apply Unlinked_put; [done|done|intros j _; apply Hfc|].
    intros j Hj Hs. by apply Hj, (sib_inj t Hwf j c i).
  - apply (IH _ l'); [done|done|done|simpl in Hlen; lia|done].
Qed.

Lemma unlink_from_siblings_wp i e : ent t i = Some e →
  wp (unlink_from_siblings i) t (λ t' r, r = Ok tt ∧ Unlinked t t' i (next_sibling e)).
Proof.
  intros He. destruct (ent_Some_lookup _ _ _ He) as (s & Hs & Hse).
  unfold unlink_from_siblings. apply wp_bind, wp_idx with s; [done|]. rewrite Hse.
  destruct (parent e) as [p|] eqn:Hp.
  2:{ red; cbn. split; [done|]. apply Unlinked_refl.
      - intros j Hj. apply (fc_par t Hwf) in Hj. rewrite (par_ent _ _ _ He) in Hj. congruence.
      - intros j Hj. apply (sib_par t Hwf) in Hj as (q & _ & Hq).
        rewrite (par_ent _ _ _ He) in Hq. congruence. }
  assert (Hpar : par t i = Some p) by (by rewrite (par_ent _ _ _ He)).
  destruct (par_live t Hwf _ _ Hpar) as [ep Hep].
  destruct (ent_Some_lookup _ _ _ Hep) as (sp & Hsp & Hesp).
  apply wp_bind, wp_idx with sp; [done|]. rewrite Hesp. cbv zeta.
  rewrite <- (fc_ent _ _ _ Hep). case_bool_decide as Hhead.
  - apply put_entry_wp with sp; [done|]. split; [done|].
    assert (with_first_child (next_sibling e) ep = unhook i (next_sibling e) ep) as ->.
    { unfold unhook, with_first_child. rewrite <- (fc_ent _ _ _ Hep), decide_True by done.
      rewrite <- (sib_ent _ _ _ Hep), decide_False; [done|].
      by eapply fc_not_sib. }
    apply Unlinked_put; [done|done| |intros j _; by eapply fc_not_sib].
    intros j Hj Hf. apply (fc_par t Hwf) in Hf. congruence.
  - destruct (children_of t Hwf p ep Hep) as (l & Hl & Hin).
    eapply unlink_walk_wp; [exact Hl|by apply Hin|done| |].
    + apply le_n_S. eapply chain_length_bound; [exact Hl|].
      intros j Hj. apply Hin in Hj. apply par_Some in Hj as (ej & Hej & _).
      by eapply ent_lt.
    + intros j Hj. pose proof (fc_par t Hwf _ _ Hj). congruence.
Qed.
End one_table.

(** Freeing the slot after the unlink completes the cut. *)
Lemma free_slot_wp {E} t i s (Q : CapabilityTable → result E unit → Prop) :
  slots t !! i = Some s →
  Q (set_free_head (Some i)
       (set_slot i {| entry := None; generation := wrapping_add32 (generation s) 1;
                      next_free := free_head t |} t)) (Ok tt) →
  wp (free_slot i) t Q.
Proof.
  intros Hs HQ. unfold free_slot. wp_pure. rewrite Hs. wp_pure. exact HQ.
Qed.

Lemma Unlinked_free_Cut t t1 i e o :
  WF t → ent t i = Some e → first_child e = None → Unlinked t t1 i (next_sibling e) →
  ∀ s1, slots t1 !! i = Some s1 →
  Cut t (set_free_head (Some i)
           (set_slot i {| entry := None; generation := wrapping_add32 (generation s1) 1;
                          next_free := free_head t1 |} 
              (set_slot i (with_entry o s1) t1))) i e.
Proof.
  intros Hwf He Hf Hu s1 Hs1. apply lookup_lt_Some in Hs1 as Hlt.
  assert (Hlt' : i < length (slots (set_slot i (with_entry o s1) t1))) by (by rewrite length_set_slot).
  set (t2 := set_slot i _ (set_slot i _ _)).
  assert (Hg1 : gen t i = Some (generation s1)).
  { rewrite <- (unl_gen _ _ _ _ Hu). unfold gen. by rewrite Hs1. }
  split; try done.
  - simpl. rewrite !length_insert. apply Hu.
  - intros j. change (gen (set_free_head (Some i) t2) j) with (gen t2 j).
    unfold t2. rewrite !gen_set_slot, (unl_gen _ _ _ _ Hu) by done.
    case_decide; subst; [by rewrite Hg1|done].
  - intros j. change (nf (set_free_head (Some i) t2) j) with (nf t2 j).
    unfold t2. rewrite !nf_set_slot, (unl_nf _ _ _ _ Hu) by done.
    case_decide; subst; [simpl; apply Hu|done].
  - intros j. change (ent (set_free_head (Some i) t2) j) with (ent t2 j).
    unfold t2. rewrite !ent_set_slot, (unl_ent _ _ _ _ Hu) by done.
    by case_decide.
Qed.

Lemma set_slot_same i s1 t1 : slots t1 !! i = Some s1 →
  set_slot i (with_entry (entry s1) s1) t1 = t1.
Proof.
  intros Hs. unfold set_slot, with_entry. destruct t1 as [sl fh]; simpl in *. f_equal.
  rewrite list_insert_id; [done|]. rewrite Hs. by destruct s1.
Qed.

Lemma wp_resolve {A} t h (k : nat → T A) Q :
  (named t h = None → Q t (Err InvalidHandle)) →
  (∀ e, named t h = Some e → wp (k (ch_index h)) t Q) →
  wp (bind (reads (λ t, resolve_handle t h)) k) t Q.
Proof.
  intros Hn Hs. apply wp_bind. eapply wp_reads; [apply resolve_handle_eq|].
  destruct (named t h) as [e|]; eauto.
Qed.

Lemma cap_drop_wp t h : WF t →
  wp (cap_drop h) t (λ t' r,
    match r with
    | Err x => t' = t ∧
        match x with
        | InvalidHandle => named t h = None
        | HasChildren => ∃ e, named t h = Some e ∧ first_child e ≠ None
        | _ => False
        end
    | Ok _ => ∃ e, named t h = Some e ∧ Cut t t' (ch_index h) e ∧ WF t'
    end).
Proof.
  intros Hwf. apply wp_resolve; [done|]. intros e He.
  apply named_Some in He as Hn. destruct Hn as [_ Hent].
  destruct (ent_Some_lookup _ _ _ Hent) as (s & Hs & Hse).
  apply wp_bind, wp_idx with s; [done|]. rewrite Hse.
  case_bool_decide as Hf.
  { red; cbn. split; [done|]. exists e. split; [done|]. by destruct Hf as [? ->]. }
  assert (first_child e = None) as Hf' by (by apply eq_None_not_Some).
  apply wp_bind. eapply wp_mono; [by apply unlink_from_siblings_wp|].
  intros t1 r (-> & Hu).
  assert (Hi1 : ∃ s1, slots t1 !! ch_index h = Some s1).
  { apply lookup_lt_is_Some_2. rewrite (unl_len _ _ _ _ Hu). by eapply lookup_lt_Some. }
  destruct Hi1 as [s1 Hs1]. apply free_slot_wp with s1; [done|].
  pose proof (Unlinked_free_Cut t t1 _ e (entry s1) Hwf Hent Hf' Hu s1 Hs1) as Hc.
  rewrite set_slot_same in Hc by done.
  exists e. split; [done|]. split; [done|]. by eapply Cut_WF.
Qed.

Lemma cap_take_wp t h : WF t →
  wp (cap_take h) t (λ t' r,
    match r with
    | Err x => t' = t ∧
        match x with
        | InvalidHandle => named t h = None
        | HasChildren => ∃ e, named t h = Some e ∧ first_child e ≠ None
        | _ => False
        end
    | Ok c => ∃ e, named t h = Some e ∧ c = capability e ∧ Cut t t' (ch_index h) e ∧ WF t'
    end).
Proof.
  intros Hwf. apply wp_resolve; [done|]. intros e He.
  apply named_Some in He as Hn. destruct Hn as [_ Hent].
  destruct (ent_Some_lookup _ _ _ Hent) as (s & Hs & Hse).
  apply wp_bind, wp_idx with s; [done|]. rewrite Hse.
  case_bool_decide as Hf.
  { red; cbn. split; [done|]. exists e. split; [done|]. by destruct Hf as [? ->]. }
  assert (first_child e = None) as Hf' by (by apply eq_None_not_Some).
  apply wp_bind. eapply wp_mono; [by apply unlink_from_siblings_wp|].
  intros t1 r (-> & Hu).
  pose proof (unl_ent _ _ _ _ Hu (ch_index h)) as He1. rewrite Hent in He1. simpl in He1.
  destruct (ent_Some_lookup _ _ _ He1) as (s1 & Hs1 & Hse1).
  apply wp_bind, wp_idx with s1; [done|]. rewrite Hse1.
  apply wp_bind, put_entry_wp with s1; [done|].
  set (t2 := set_slot _ _ t1). cbn beta iota.
  assert (Hs2 : slots t2 !! ch_index h = Some (with_entry None s1)).
  { apply list_lookup_insert_eq. by eapply lookup_lt_Some. }
  apply wp_bind, free_slot_wp with (with_entry None s1); [done|]. red; cbn beta iota.
  pose proof (Unlinked_free_Cut t t1 _ e None Hwf Hent Hf' Hu s1 Hs1) as Hc.
  exists e. split; [done|]. split; [done|]. split; [done|]. by eapply Cut_WF.
Qed.
End cutting.
