(* ===== verification/CapRevoke.v ===== *)
(** * Cascading revocation

[cap_revoke] collects the descendants of its source breadth-first in a scratch
array of the table's capacity and frees them.  The search is shown to visit
exactly the descendants, each once, within the array and within its rounds, so
that neither the [debug_assert!]s nor the [break]s of the source are reached. *)

From stdpp Require Import relations.
From S2P Require Import Prelude.
From S2P Require Import Chain.
From S2P Require Import Arena.
From S2P Require Import Objects.
From S2P Require Import Caps.
From S2P Require Import CapTable.
From S2P Require Import CapTableInv.
From S2P Require Import CapTableOps.

(** [d] is below [a] in the derivation tree. *)
Definition descendant (t : CapabilityTable) : nat → nat → Prop :=
  tc (λ p c, par t c = Some p).

Section descendants.
  Context (t : CapabilityTable) (Hwf : WF t).

Lemma descendant_depth a d : descendant t a d →
  ∃ ea ed, ent t a = Some ea ∧ ent t d = Some ed ∧ (depth ea < depth ed)%Z.
Proof.
  intros Hd. induction Hd as [p c Hc|p c d Hc _ (ec & ed & Hec & Hed & Hlt)].
  - destruct (par_live t Hwf _ _ Hc) as [ep Hep]. apply par_Some in Hc as (ec & Hec & Hp).
    exists ep, ec. split_and!; [done..|]. rewrite (par_depth t Hwf c ec p ep) by done. lia.
  - destruct (par_live t Hwf _ _ Hc) as [ep Hep]. apply par_Some in Hc as (ec' & Hec' & Hp).
    exists ep, ed. split_and!; [done..|].
    pose proof (par_depth t Hwf c ec' p ep Hec' Hp Hep). simplify_eq. lia.
Qed.

Lemma descendant_irrefl a : ¬ descendant t a a.
Proof. intros (ea & ed & ? & ? & ?)%descendant_depth. simplify_eq. lia. Qed.

Lemma descendant_live a d : descendant t a d → d < CAP_TABLE_CAPACITY.
Proof. intros (_ & ed & _ & Hed & _)%descendant_depth. by eapply ent_lt. Qed.

Lemma descendant_inv a d : descendant t a d →
  ∃ p, par t d = Some p ∧ (p = a ∨ descendant t a p).
Proof.
  intros Hd. induction Hd as [p c Hc|p c d Hc _ (q & Hq & [->|IH])].
  - eauto.
  - exists c. split; [done|]. right. by apply tc_once.
  - exists q. split; [done|]. right. by eapply tc_l.
Qed.

Lemma descendant_step a p d : (p = a ∨ descendant t a p) → par t d = Some p → descendant t a d.
Proof. intros [->|Hp] Hd; [by apply tc_once|by eapply tc_r]. Qed.
End descendants.

(** ** The breadth-first search *)

Section search.
  Context `{Build} (t : CapabilityTable) (Hwf : WF t).

Lemma collect_chain fuel h l D :
  chain (sib t) h l → (∀ j, j ∈ l → is_Some (ent t j)) →
  length l < fuel → length D + length l ≤ CAP_TABLE_CAPACITY →
  collect fuel t h D = Some (Ok (D ++ l)).
Proof.
  revert h l D; induction fuel as [|fuel IH]; intros h l D Hl Hlive Hf Hlen; [lia|].
  cbn [collect]. destruct h as [c|].
  2:{ apply chain_None_inv in Hl as ->. by rewrite app_nil_r. }
  apply chain_Some_inv in Hl as (l' & -> & Hl). simpl in Hf, Hlen.
  destruct (Hlive c) as [ec Hec]; [set_solver|].
  destruct (ent_Some_lookup _ _ _ Hec) as (sc & Hsc & Hecs).
  unfold pdebug_assert. rewrite bool_decide_true by lia.
  rewrite andb_false_r. cbn [pbind]. rewrite bool_decide_false by lia.
  unfold pidx. rewrite Hsc. cbn [fmap option_fmap option_map pbind].
  rewrite Hecs, <- (sib_ent _ _ _ Hec).
  rewrite (IH _ l'); [by rewrite <- app_assoc|done| |lia|rewrite length_app; simpl; lia].
  intros j Hj. apply Hlive. set_solver.
Qed.

(** The state of the search: [D] has been enqueued, its first [scan] members
    have been expanded. *)
Record bfs_inv (src scan : nat) (D : list nat) : Prop := {
  bfs_nodup : NoDup D;
  bfs_desc : ∀ d, d ∈ D → descendant t src d;
  bfs_seed : ∀ j, par t j = Some src → j ∈ D;
  bfs_closed : ∀ k x j, k < scan → D !! k = Some x → par t j = Some x → j ∈ D;
  bfs_prov : ∀ j, j ∈ D → par t j = Some src ∨
               ∃ k x, k < scan ∧ D !! k = Some x ∧ par t j = Some x;
}.

Lemma bfs_length src scan D : bfs_inv src scan D → length D ≤ CAP_TABLE_CAPACITY.
Proof.
  intros [Hnd Hd _ _ _].
  transitivity (length (seq 0 CAP_TABLE_CAPACITY)); [|by rewrite length_seq].
  apply submseteq_length, NoDup_submseteq; [done|].
  intros i Hi. apply elem_of_seq. apply Hd, (descendant_live t Hwf) in Hi. lia.
Qed.

Lemma bfs_unvisited src scan D k x j :
  bfs_inv src scan D → scan ≤ k → D !! k = Some x → par t j = Some x → j ∉ D.
Proof.
  intros Hinv Hk Hx Hj Hin. destruct (bfs_prov _ _ _ Hinv j Hin) as [Hs|(k' & x' & Hk' & Hx' & Hj')].
  - assert (x = src) as -> by congruence.
    apply (descendant_irrefl t Hwf src). eapply bfs_desc; [done|].
    by eapply list_elem_of_lookup_2.
  - assert (x' = x) as -> by congruence.
    pose proof (NoDup_lookup _ _ _ _ (bfs_nodup _ _ _ Hinv) Hx Hx'). lia.
Qed.

Lemma bfs_step src scan D x l :
  bfs_inv src scan D → D !! scan = Some x → NoDup l →
  (∀ j, j ∈ l ↔ par t j = Some x) → bfs_inv src (scan + 1) (D ++ l).
Proof.
  intros Hinv Hx Hnl Hl. pose proof (lookup_lt_Some _ _ _ Hx) as Hlt.
  assert (Hxd : descendant t src x) by (eapply bfs_desc; [done|by eapply list_elem_of_lookup_2]).
  split.
  - apply NoDup_app. split; [apply Hinv|]. split; [|done].
    intros j Hj Hjl. apply Hl in Hjl. by eapply (bfs_unvisited src scan D scan).
  - intros d [Hd|Hd]%elem_of_app; [by eapply bfs_desc|].
    apply Hl in Hd. eapply descendant_step; [by right|done].
  - intros j Hj. apply elem_of_app. left. by eapply bfs_seed.
  - intros k y j Hk Hy Hj. apply elem_of_app. rewrite lookup_app_l in Hy by lia.
    destruct (decide (k = scan)) as [->|Hne].
    + right. apply Hl. congruence.
    + left. eapply (bfs_closed _ _ _ Hinv k); [lia|done|done].
  - intros j [Hj|Hj]%elem_of_app.
    + destruct (bfs_prov _ _ _ Hinv j Hj) as [?|(k & y & Hk & Hy & Hjy)]; [by left|].
      right. exists k, y. rewrite lookup_app_l by lia. split_and!; [lia|done|done].
    + right. exists scan, x. rewrite lookup_app_l by lia.
      split_and!; [lia|done|by apply Hl].
Qed.

Lemma expand_ok src fuel scan D :
  bfs_inv src scan D → scan ≤ length D → CAP_TABLE_CAPACITY < fuel + scan →
  ∃ D', expand fuel t scan D = Some (Ok D') ∧ NoDup D' ∧
        ∀ j, j ∈ D' ↔ descendant t src j.
Proof.
  revert scan D; induction fuel as [|fuel IH]; intros scan D Hinv Hs Hf.
  { pose proof (bfs_length _ _ _ Hinv). lia. }
  cbn [expand]. destruct (D !! scan) as [x|] eqn:Hx.
  - assert (Hxd : descendant t src x) by (eapply bfs_desc; [done|by eapply list_elem_of_lookup_2]).
    apply (descendant_depth t Hwf) in Hxd as (_ & ex & _ & Hex & _).
    destruct (ent_Some_lookup _ _ _ Hex) as (sx & Hsx & Hexs).
    unfold pidx. rewrite Hsx. cbn [fmap option_fmap option_map pbind]. rewrite Hexs.
    destruct (children_of t Hwf x ex Hex) as (l & Hl & Hin).
    rewrite (fc_ent _ _ _ Hex) in Hl.
    pose proof (bfs_step src scan D x l Hinv Hx (chain_NoDup _ _ _ Hl) Hin) as Hinv'.
    pose proof (bfs_length _ _ _ Hinv') as Hb. rewrite length_app in Hb.
    rewrite (collect_chain _ _ l D); [|done| |lia|done].
    2:{ intros j Hj. apply Hin, par_Some in Hj as (ej & Hej & _). by eexists. }
    cbn [pbind]. apply IH; [done| |lia].
    apply lookup_lt_Some in Hx. rewrite length_app. lia.
  - exists D. split; [done|]. split; [apply Hinv|]. intros j. split; [apply Hinv|].
    apply lookup_ge_None in Hx.
    assert (Hcl : ∀ p c, p = src ∨ p ∈ D → par t c = Some p → c ∈ D).
    { intros p c [->|Hp] Hc; [by eapply bfs_seed|].
      apply list_elem_of_lookup in Hp as [k Hk]. eapply (bfs_closed _ _ _ Hinv k); [|done|done].
      apply lookup_lt_Some in Hk. lia. }
    intros Hd. assert (Hall : ∀ a d, descendant t a d → a = src ∨ a ∈ D → d ∈ D).
    { intros a d Htc. induction Htc as [p c Hc|p c d Hc _ IHt]; eauto. }
    by eapply Hall; [|left].
Qed.

(** Seed and expansion together: exactly the descendants, each once. *)
Lemma bfs_ok src e : ent t src = Some e →
  ∃ D0 D, collect (S CAP_TABLE_CAPACITY) t (first_child e) [] = Some (Ok D0) ∧
          expand (S CAP_TABLE_CAPACITY) t 0 D0 = Some (Ok D) ∧
          NoDup D ∧ ∀ j, j ∈ D ↔ descendant t src j.
Proof.
  intros He. destruct (children_of t Hwf src e He) as (l & Hl & Hin).
  rewrite (fc_ent _ _ _ He) in Hl.
  assert (Hlen : length l ≤ CAP_TABLE_CAPACITY).
  { eapply chain_length_bound; [done|]. intros j Hj.
    apply Hin, par_Some in Hj as (ej & Hej & _). by eapply ent_lt. }
  assert (Hinv : bfs_inv src 0 l).
  { split.
    - by eapply chain_NoDup.
    - intros d Hd. apply tc_once. by apply Hin.
    - intros j Hj. by apply Hin.
    - lia.
    - intros j Hj. left. by apply Hin. }
  destruct (expand_ok src (S CAP_TABLE_CAPACITY) 0 l Hinv) as (D & HD & Hnd & Hdd); [lia|lia|].
  exists l, D. split_and!; [|done..].
  rewrite (collect_chain _ _ l []); [done|done| |lia|simpl; lia].
  intros j Hj. apply Hin, par_Some in Hj as (ej & Hej & _). by eexists.
Qed.
End search.

(** Being a descendant is decidable: the search decides it. *)
Lemma descendant_em t a d : WF t → descendant t a d ∨ ¬ descendant t a d.
Proof.
  intros Hwf. destruct (ent t a) as [e|] eqn:He.
  - destruct (bfs_ok (H := {| debug_assertions := false |}) t Hwf a e He)
      as (_ & D & _ & _ & _ & HD).
    rewrite <- HD. destruct (decide (d ∈ D)); auto.
  - right. intros (ea & ed & Hea & _)%(descendant_depth t Hwf). congruence.
Qed.

(** ** Freeing the descendants *)

Record Freed (t t' : CapabilityTable) (D : list nat) : Prop := {
  fr_len : length (slots t') = length (slots t);
  fr_gen : ∀ j, gen t' j = if decide (j ∈ D) then (λ g, wrapping_add32 g 1) <$> gen t j
                           else gen t j;
  fr_ent : ∀ j, ent t' j = if decide (j ∈ D) then None else ent t j;
  fr_free : ∀ fl, chain (nf t) (free_head t) fl → (∀ i, i ∈ D → i ∉ fl) →
            chain (nf t') (free_head t') (rev D ++ fl);
}.

(** [Revoked]: the descendants of [src] are gone, [src] has no child, nothing else
    changed. *)
Record Revoked (t t' : CapabilityTable) (src : nat) : Prop := {
  rv_gen : ∀ j, descendant t src j → gen t' j = (λ g, wrapping_add32 g 1) <$> gen t j;
  rv_gen_other : ∀ j, ¬ descendant t src j → gen t' j = gen t j;
  rv_gone : ∀ j, descendant t src j → ent t' j = None;
  rv_src : ent t' src = with_first_child None <$> ent t src;
  rv_other : ∀ j, ¬ descendant t src j → j ≠ src → ent t' j = ent t j;
}.

Section freeing.
  Context `{Build}.

Lemma free_all_wp {E} D t :
  NoDup D → (∀ i, i ∈ D → i < length (slots t)) →
  wp (free_all (E := E) D) t (λ t' r, r = Ok tt ∧ Freed t t' D).
Proof.
  revert t; induction D as [|i D IH]; intros t Hnd Hlt.
  - red; cbn. split; [done|]. split; try done.
  - apply NoDup_cons in Hnd as [Hi Hnd]. cbn [free_all].
    destruct (lookup_lt_is_Some_2 (slots t) i) as [s Hs]; [apply Hlt; set_solver|].
    apply wp_bind, free_slot_wp with s; [done|].
    set (t1 := set_free_head _ _). cbn beta iota.
    assert (Hlen1 : length (slots t1) = length (slots t)) by apply length_insert.
    assert (Hil : i < length (slots t)) by (apply Hlt; set_solver).
    eapply wp_mono; [apply IH; [done|]|].
    { intros j Hj. rewrite Hlen1. apply Hlt. set_solver. }
    intros t' r (-> & Hfr). split; [done|].
    assert (Hg : ∀ j, gen t1 j = if decide (j = i) then Some (wrapping_add32 (generation s) 1) else gen t j)
      by (intros j; apply gen_set_slot; done).
    assert (He : ∀ j, ent t1 j = if decide (j = i) then None else ent t j)
      by (intros j; apply ent_set_slot; done).
    assert (Hn : ∀ j, nf t1 j = if decide (j = i) then free_head t else nf t j)
      by (intros j; apply nf_set_slot; done).
    split.
    + rewrite (fr_len _ _ _ Hfr). done.
    + intros j. rewrite (fr_gen _ _ _ Hfr), Hg. destruct (decide (j = i)) as [->|Hne].
      * rewrite (decide_False (P := i ∈ D)), decide_True by set_solver.
        unfold gen. by rewrite Hs.
      * destruct (decide (j ∈ D)); [by rewrite decide_True by set_solver|].
        by rewrite decide_False by set_solver.
    + intros j. rewrite (fr_ent _ _ _ Hfr), He. repeat case_decide; set_solver.
    + intros fl Hfl Hdis. simpl. rewrite <- app_assoc. apply Hfr.
      * simpl. constructor. rewrite Hn, decide_True by done.
        eapply chain_frame; [|exact Hfl]. intros j Hj. rewrite Hn, decide_False; [done|].
        intros ->. eapply (Hdis i); [set_solver|done].
      * intros j Hj. simpl. rewrite elem_of_cons. intros [->|Hjf]; [done|].
        eapply (Hdis j); [set_solver|done].
Qed.

Section revoked.
Context (t t1 : CapabilityTable) (src : nat) (e : SlotEntry) (s1 : CSlot) (D : list nat).
Context (Hwf : WF t) (He : ent t src = Some e) (Hs1 : slots t1 !! src = Some s1).
Context (HD : ∀ j, j ∈ D ↔ descendant t src j) (Hnd : NoDup D) (Hfr : Freed t t1 D).

Let t' := set_slot src (with_entry (Some (with_first_child None e)) s1) t1.

Lemma src_not_freed : src ∉ D.
Proof. rewrite HD. by apply descendant_irrefl. Qed.

Lemma revoke_len : src < length (slots t1).
Proof. by eapply lookup_lt_Some. Qed.

Lemma revoke_gen j : gen t' j = gen t1 j.
Proof.
  unfold t'. rewrite gen_set_slot by apply revoke_len.
  case_decide; [|done]. subst. unfold gen. by rewrite Hs1.
Qed.

Lemma revoke_ent j : ent t' j =
  if decide (j = src) then Some (with_first_child None e)
  else if decide (j ∈ D) then None else ent t j.
Proof.
  unfold t'. rewrite ent_set_slot by apply revoke_len.
  case_decide; [done|]. apply Hfr.
Qed.

Lemma revoke_nf j : nf t' j = nf t1 j.
Proof.
  unfold t'. rewrite nf_set_slot by apply revoke_len.
  case_decide; [|done]. subst. unfold nf. by rewrite Hs1.
Qed.

Lemma Revoked_intro : Revoked t t' src.
Proof.
  split; [intros j Hj%HD|intros j Hj|intros j Hj%HD| |intros j Hj Hne].
  - by rewrite revoke_gen, (fr_gen _ _ _ Hfr), decide_True.
  - rewrite revoke_gen, (fr_gen _ _ _ Hfr), decide_False; [done|by rewrite HD].
  - rewrite revoke_ent, decide_False, decide_True; [done..|]. intros ->. by apply src_not_freed.
  - rewrite revoke_ent, decide_True, He by done. done.
  - rewrite revoke_ent, !decide_False; [done|by rewrite HD|done].
Qed.

Lemma revoke_survivor j : j ≠ src → j ∉ D → ent t' j = ent t j.
Proof. intros. by rewrite revoke_ent, !decide_False. Qed.

Lemma revoke_par j : j ∉ D → par t' j = par t j.
Proof.
  intros Hj. unfold par. destruct (decide (j = src)) as [->|Hne].
  - by rewrite revoke_ent, decide_True, He.
  - by rewrite revoke_survivor.
Qed.

Lemma revoke_par_freed j : j ∈ D → par t' j = None.
Proof.
  intros Hj. unfold par. rewrite revoke_ent, decide_False, decide_True; [done|done|].
  intros ->. by apply src_not_freed.
Qed.

Lemma revoke_sib j : j ∉ D → sib t' j = sib t j.
Proof.
  intros Hj. unfold sib. destruct (decide (j = src)) as [->|Hne].
  - by rewrite revoke_ent, decide_True, He.
  - by rewrite revoke_survivor.
Qed.

(** A child of a surviving node other than [src] survives. *)
Lemma revoke_child j k : k ≠ src → k ∉ D → par t j = Some k → j ∉ D.
Proof.
  intros Hk HkD Hj Hin. apply HD, descendant_inv in Hin as (p & Hp & [->|Hd]).
  - congruence.
  - apply HkD, HD. congruence.
Qed.

Lemma revoke_node k ek : ent t' k = Some ek → node_ok t' k ek.
Proof.
  intros Hk. pose proof Hk as Hk'. rewrite revoke_ent in Hk'.
  assert (Hold : ∃ e0, ent t k = Some e0 ∧ k ∉ D ∧ capability ek = capability e0 ∧
            parent ek = parent e0 ∧ next_sibling ek = next_sibling e0 ∧ depth ek = depth e0).
  { case_decide as Hd; [subst k; exists e; split_and!; [done|by apply src_not_freed|by simplify_eq..]|].
    case_decide; [done|]. by exists ek. }
  destruct Hold as (e0 & He0 & HkD & Hc & Hp & Hn & Hd).
  destruct (wf_node t Hwf k e0 He0) as [H1 H2 _]. split.
  - by rewrite Hd.
  - rewrite Hp, Hd, Hn, Hc. destruct (parent e0) as [p|] eqn:Hpe0; [|done].
    destruct H2 as (pe & Hpe & Hdp & Hsub).
    assert (HpD : p ∉ D).
    { intros HpD. apply HkD, HD. eapply descendant_step; [right; by apply HD|].
      by rewrite (par_ent _ _ _ He0). }
    destruct (decide (p = src)) as [->|Hne].
    + exists (with_first_child None e). rewrite revoke_ent, decide_True by done.
      assert (pe = e) as -> by congruence. done.
    + exists pe. by rewrite revoke_survivor.
  - destruct (decide (k = src)) as [->|Hne].
    + assert (ek = with_first_child None e) as -> by congruence.
      exists []. split; [constructor|]. intros j. split; [set_solver|].
      intros Hj. destruct (decide (j ∈ D)) as [HjD|HjD].
      * by rewrite revoke_par_freed in Hj.
      * rewrite revoke_par in Hj by done. exfalso. apply HjD, HD. by apply tc_once.
    + rewrite revoke_survivor, He0 in Hk by done. assert (e0 = ek) as -> by congruence.
      destruct (children_of t Hwf k ek He0) as (l & Hl & Hin).
      rewrite (fc_ent _ _ _ He0) in Hl. exists l. split.
      * eapply chain_frame; [|exact Hl]. intros j Hj%Hin.
        apply revoke_sib. by eapply revoke_child.
      * intros j. rewrite Hin. split; intros Hj.
        -- rewrite revoke_par; [done|by eapply revoke_child].
        -- destruct (decide (j ∈ D)) as [HjD|HjD]; [by rewrite revoke_par_freed in Hj|].
           by rewrite revoke_par in Hj.
Qed.

Lemma revoke_WF : WF t'.
Proof.
  split.
  - unfold t'. rewrite length_set_slot, (fr_len _ _ _ Hfr). apply Hwf.
  - intros j g. rewrite revoke_gen, (fr_gen _ _ _ Hfr). case_decide; [|apply Hwf].
    destruct (gen t j); simpl; [|done]. intros [= <-]. apply wrapping_add32_range.
  - destruct (wf_free t Hwf) as (fl & Hch & Hfl).
    assert (Hdis : ∀ i, i ∈ D → i ∉ fl).
    { intros i Hi Hf. apply HD in Hi. apply (descendant_depth t Hwf) in Hi as (_ & ed & _ & Hed & _).
      apply Hfl in Hf as [_ Hf]. congruence. }
    exists (rev D ++ fl). split.
    + eapply chain_frame; [|by apply Hfr]. intros j _. apply revoke_nf.
    + intros j. rewrite elem_of_app, Hfl, revoke_ent.
      assert (j ∈ rev D ↔ j ∈ D) as -> by (by rewrite !list_elem_of_In, <- in_rev).
      case_decide as Hj; [subst j|].
      * split; [|by intros [_ [=]]]. intros [Hj|[_ Hj]]; [by apply src_not_freed in Hj|congruence].
      * case_decide as HjD.
        -- split; [|by left]. intros _. split; [|done].
           apply HD in HjD. by eapply descendant_live.
        -- split; [by intros [?|?]|by right].
  - apply revoke_node.
Qed.
End revoked.
End freeing.

Lemma cap_revoke_wp `{Build} t h : WF t →
  wp (cap_revoke h) t (λ t' r,
    match r with
    | Err x => t' = t ∧
        match x with
        | InvalidHandle => named t h = None
        | InsufficientRights => ∃ e, named t h = Some e ∧
            contains (rights (capability e)) REVOKE = false
        | _ => False
        end
    | Ok _ => ∃ e, named t h = Some e ∧ contains (rights (capability e)) REVOKE = true ∧
        Revoked t t' (ch_index h) ∧ WF t'
    end).
Proof.
  intros Hwf. apply wp_resolve; [done|]. intros e He.
  apply named_Some in He as Hn. destruct Hn as [_ Hent].
  destruct (ent_Some_lookup _ _ _ Hent) as (s & Hs & Hse).
  apply wp_bind, wp_idx with s; [done|]. rewrite Hse.
  destruct (contains (rights (capability e)) REVOKE) eqn:Hr; cbn [negb]; [|red; cbn; eauto].
  destruct (bfs_ok t Hwf _ e Hent) as (D0 & D & HD0 & HDe & Hnd & HD).
  apply wp_bind, wp_reads with (Ok D0); [done|]. apply wp_bind, wp_reads with (Ok D); [done|].
  assert (Hni : ch_index h ∉ D) by (rewrite HD; by apply descendant_irrefl).
  apply wp_bind. eapply wp_mono; [apply free_all_wp; [done|]|].
  { intros i Hi. rewrite (wf_length t Hwf). apply HD in Hi. by eapply descendant_live. }
  intros t1 r (-> & Hfr). pose proof (fr_ent _ _ _ Hfr (ch_index h)) as He1.
  rewrite decide_False, Hent in He1 by done.
  destruct (ent_Some_lookup _ _ _ He1) as (s1 & Hs1 & Hse1).
  apply wp_bind, wp_idx with s1; [done|]. rewrite Hse1.
  apply put_entry_wp with s1; [done|]. exists e. split; [done|]. split; [done|]. split.
  - by eapply Revoked_intro.
  - by eapply revoke_WF.
Qed.
