(* ===== verification/CapSpec.v ===== *)
(** * What a capability table promises

The abstract table: a partial map from handles to nodes (a capability, the
handle of the parent, a depth), with the operations of a capability system on
it.  The concrete table refines it: [live] abstracts a table, and every
operation of [CapTable] is a step of the abstract one.  Sequences of operations
([run_ops]) carry the properties that hold over the life of a table. *)

From stdpp Require Import relations.
From S2P Require Import Prelude.
From S2P Require Import Chain.
From S2P Require Import Arena.
From S2P Require Import Objects.
From S2P Require Import Caps.
From S2P Require Import CapTable.
From S2P Require Import CapTableInv.
From S2P Require Import CapTableOps.
From S2P Require Import CapRevoke.

(** ** Operations as data *)

Inductive op :=
| InsertRoot (c : Capability)
| Copy (src : CapHandle) (r : CapRights)
| Derive (src : CapHandle) (r : CapRights) (o : CapObject)
| Revoke (src : CapHandle)
| Drop (h : CapHandle)
| Take (h : CapHandle).

Inductive reply := RHandle (h : CapHandle) | RUnit | RCap (c : Capability).

Section ops.
  Context `{Build}.

Definition run_op (o : op) : T reply :=
  match o with
  | InsertRoot c => let* h := insert_root c in ret (RHandle h)
  | Copy src r => let* h := cap_copy src r in ret (RHandle h)
  | Derive src r o => let* h := cap_derive src r o in ret (RHandle h)
  | Revoke src => cap_revoke src ;; ret RUnit
  | Drop h => cap_drop h ;; ret RUnit
  | Take h => let* c := cap_take h in ret (RCap c)
  end.

(** A sequence of calls; an error of one call does not stop the sequence. *)
Fixpoint run_ops (os : list op) (t : CapabilityTable) : option CapabilityTable :=
  match os with
  | [] => Some t
  | o :: os => match run_op o t with
               | None => None
               | Some (t', _) => run_ops os t'
               end
  end.

(** ** The abstract table *)

Record anode := { an_cap : Capability; an_parent : option CapHandle; an_depth : Z }.

Definition atable := CapHandle → option anode.

Definition upd (m : atable) (h : CapHandle) (o : option anode) : atable :=
  λ h', if decide (h' = h) then o else m h'.

Definition below (m : atable) : CapHandle → CapHandle → Prop :=
  tc (λ p c, ∃ n, m c = Some n ∧ an_parent n = Some p).

Definition no_child (m : atable) (h : CapHandle) : Prop :=
  ∀ c n, m c = Some n → an_parent n ≠ Some h.

(** [fresh m h]: [h] names nothing and its slot holds no other capability. *)
Definition fresh (m : atable) (h : CapHandle) : Prop :=
  ∀ h', ch_index h' = ch_index h → m h' = None.

Definition full (m : atable) : Prop :=
  ∀ i, i < CAP_TABLE_CAPACITY → ∃ h, ch_index h = i ∧ is_Some (m h).

(** When an operation fails, and with which error. *)
Definition refuses (m : atable) (o : op) (e : CapError) : Prop :=
  match o, e with
  | InsertRoot _, CapsExhausted => full m
  | Copy src _, InvalidHandle | Derive src _ _, InvalidHandle | Revoke src, InvalidHandle
  | Drop src, InvalidHandle | Take src, InvalidHandle => m src = None
  | Copy src _, InsufficientRights =>
      ∃ n, m src = Some n ∧ ¬ sub_rights DUPLICATE (rights (an_cap n))
  | Derive src _ _, InsufficientRights =>
      ∃ n, m src = Some n ∧ ¬ sub_rights DERIVE (rights (an_cap n))
  | Revoke src, InsufficientRights =>
      ∃ n, m src = Some n ∧ ¬ sub_rights REVOKE (rights (an_cap n))
  | Copy src r, WidenedRights | Derive src r _, WidenedRights =>
      ∃ n, m src = Some n ∧ ¬ sub_rights r (rights (an_cap n))
  | Derive src _ _, DerivationTooDeep =>
      ∃ n, m src = Some n ∧ an_depth n = MAX_DERIVATION_DEPTH
  | Copy _ _, CapsExhausted | Derive _ _ _, CapsExhausted => full m
  | Drop h, HasChildren | Take h, HasChildren => is_Some (m h) ∧ ¬ no_child m h
  | _, _ => False
  end.

Inductive astep (m : atable) : op → atable → result CapError reply → Prop :=
| as_insert_root c h : fresh m h →
    astep m (InsertRoot c)
      (upd m h (Some {| an_cap := c; an_parent := None; an_depth := 0 |})) (Ok (RHandle h))
| as_copy src r n h : m src = Some n → fresh m h →
    sub_rights DUPLICATE (rights (an_cap n)) → sub_rights r (rights (an_cap n)) →
    astep m (Copy src r)
      (upd m h (Some {| an_cap := {| rights := r; object := object (an_cap n) |};
                        an_parent := an_parent n; an_depth := an_depth n |}))
      (Ok (RHandle h))
| as_derive src r o n h : m src = Some n → fresh m h →
    sub_rights DERIVE (rights (an_cap n)) → sub_rights r (rights (an_cap n)) →
    (an_depth n < MAX_DERIVATION_DEPTH)%Z →
    astep m (Derive src r o)
      (upd m h (Some {| an_cap := {| rights := r; object := o |};
                        an_parent := Some src; an_depth := an_depth n + 1 |}))
      (Ok (RHandle h))
| as_revoke src n m' : m src = Some n → sub_rights REVOKE (rights (an_cap n)) →
    (∀ h, below m src h → m' h = None) → (∀ h, ¬ below m src h → m' h = m h) →
    astep m (Revoke src) m' (Ok RUnit)
| as_drop h n : m h = Some n → no_child m h →
    astep m (Drop h) (upd m h None) (Ok RUnit)
| as_take h n : m h = Some n → no_child m h →
    astep m (Take h) (upd m h None) (Ok (RCap (an_cap n)))
| as_error o e : refuses m o e → astep m o m (Err e).
End ops.

(** The abstraction: live handles, with parent indices read as parent handles. *)
Definition live (t : CapabilityTable) : atable := λ h,
  match named t h with
  | None => None
  | Some e => Some {| an_cap := capability e;
                      an_parent := match parent e with
                                   | None => None
                                   | Some p => CapHandle_from_raw p <$> gen t p
                                   end;
                      an_depth := depth e |}
  end.

(** ** One step of the concrete table *)

Section step.
  Context `{Build}.

(** Every operation from a well-formed table is an insertion, a cut, a
    revocation, or changes nothing. *)
Inductive change (t t' : CapabilityTable) : Prop :=
| ch_same : t' = t → change t t'
| ch_insert i e : Inserted t t' i e → change t t'
| ch_cut i e : Cut t t' i e → change t t'
| ch_revoke i : Revoked t t' i → change t t'.

Lemma run_op_wp o t : WF t → wp (run_op o) t (λ t' _, WF t' ∧ change t t').
Proof.
  intros Hwf. destruct o; cbn [run_op]; apply wp_bind.
  - eapply wp_mono; [by apply insert_root_wp|]. intros t' [h|e].
    + intros (_ & _ & Hi & Hw). red; cbn. split; [done|]. by eapply ch_insert.
    + intros (_ & -> & _). split; [done|]. by apply ch_same.
  - eapply wp_mono; [by apply cap_copy_wp|]. intros t' [h|e].
    + intros (e & _ & _ & _ & _ & _ & Hi & Hw). red; cbn. split; [done|]. by eapply ch_insert.
    + intros (-> & _). split; [done|]. by apply ch_same.
  - eapply wp_mono; [by apply cap_derive_wp|]. intros t' [h|e].
    + intros (e & _ & _ & _ & _ & _ & _ & Hi & Hw). red; cbn. split; [done|]. by eapply ch_insert.
    + intros (-> & _). split; [done|]. by apply ch_same.
  - eapply wp_mono; [by apply cap_revoke_wp|]. intros t' [h|e].
    + intros (e & _ & _ & Hi & Hw). red; cbn. split; [done|]. by eapply ch_revoke.
    + intros (-> & _). split; [done|]. by apply ch_same.
  - eapply wp_mono; [by apply cap_drop_wp|]. intros t' [h'|e].
    + intros (e & _ & Hi & Hw). red; cbn. split; [done|]. by eapply ch_cut.
    + intros (-> & _). split; [done|]. by apply ch_same.
  - eapply wp_mono; [by apply cap_take_wp|]. intros t' [h'|e].
    + intros (e & _ & _ & Hi & Hw). red; cbn. split; [done|]. by eapply ch_cut.
    + intros (-> & _). split; [done|]. by apply ch_same.
Qed.

Lemma run_ops_WF os t : WF t → ∃ t', run_ops os t = Some t' ∧ WF t'.
Proof.
  revert t; induction os as [|o os IH]; intros t Hwf; [eauto|].
  pose proof (run_op_wp o t Hwf) as Hw. unfold wp in Hw. cbn [run_ops].
  destruct (run_op o t) as [[t1 r]|]; [|done]. apply IH, Hw.
Qed.

(** From [t] to [t'] the slot [j] was freed: it held a capability and holds none. *)
Definition freed (t t' : CapabilityTable) (j : nat) : Prop := is_Some (ent t j) ∧ ent t' j = None.

#[export] Instance freed_dec t t' j : Decision (freed t t' j).
Proof. unfold freed. apply _. Defined.

Lemma gen_kept t t' j : gen t' j = gen t j → (is_Some (ent t j) → is_Some (ent t' j)) →
  gen t' j = if decide (freed t t' j) then (λ g, wrapping_add32 g 1) <$> gen t j else gen t j.
Proof. intros Hg Hl. rewrite decide_False; [done|]. by intros [[x ->]%Hl Hn]. Qed.

(** A slot's generation moves exactly when the slot is freed, and by one. *)
Lemma change_gen t t' j : WF t → change t t' →
  gen t' j = if decide (freed t t' j) then (λ g, wrapping_add32 g 1) <$> gen t j else gen t j.
Proof.
  intros Hwf [-> | i e Hi | i e Hc | i Hr].
  - by apply gen_kept.
  - apply gen_kept; [apply Hi|]. rewrite (ins_ent _ _ _ _ Hi). case_decide; intros [x Hx]; [by eexists|].
    rewrite Hx. unfold relink. case_decide; by eexists.
  - pose proof (cut_ent _ _ _ _ Hc j) as He. pose proof (cut_gen _ _ _ _ Hc j) as Hg. case_decide as Hj.
    + rewrite Hg, decide_True; [done|]. split; [|done]. subst. rewrite (cut_live _ _ _ _ Hc). by eexists.
    + apply gen_kept; [done|]. rewrite He. intros [x ->]. by eexists.
  - destruct (descendant_em t i j Hwf) as [Hd|Hd].
    + destruct (descendant_depth t Hwf i j Hd) as (_ & x & _ & Hx & _). rewrite (rv_gen _ _ _ Hr j Hd), decide_True; [done|].
      split; [by eexists|by apply (rv_gone _ _ _ Hr)].
    + apply gen_kept; [by apply (rv_gen_other _ _ _ Hr)|]. intros [x Hx].
      destruct (decide (j = i)) as [->|Hne].
      * rewrite (rv_src _ _ _ Hr), Hx. by eexists.
      * rewrite (rv_other _ _ _ Hr j Hd Hne), Hx. by eexists.
Qed.

(** How many of the operations [os], run from [t], free the slot [j]. *)
Fixpoint frees (j : nat) (os : list op) (t : CapabilityTable) : Z :=
  match os with
  | [] => 0
  | o :: os =>
      match run_op o t with
      | None => 0
      | Some (t', _) => (if decide (freed t t' j) then 1 else 0) + frees j os t'
      end
  end%Z.

Lemma frees_bound j os t : (0 ≤ frees j os t ≤ Z.of_nat (length os))%Z.
Proof.
  revert t; induction os as [|o os IH]; intros t; cbn [frees]; [simpl; lia|].
  simpl length. destruct (run_op o t) as [[t1 r]|]; [|lia]. specialize (IH t1). case_decide; lia.
Qed.

(** A slot that is not freed keeps a capability. *)
Lemma frees_0_live j os t t' : run_ops os t = Some t' → frees j os t = 0%Z →
  is_Some (ent t j) → is_Some (ent t' j).
Proof.
  revert t; induction os as [|o os IH]; intros t Hrun Hf Hj; [by injection Hrun as <-|].
  cbn [run_ops frees] in *. destruct (run_op o t) as [[t1 r]|]; [|done].
  pose proof (frees_bound j os t1). case_decide as Hfr; [lia|]. apply (IH t1 Hrun); [lia|].
  destruct (ent t1 j) eqn:Hn; [by eexists|]. by destruct Hfr.
Qed.

(** A generation counts how often its slot was freed, modulo [2^32]. *)
Lemma run_ops_gen os t t' j g : WF t → run_ops os t = Some t' → gen t j = Some g →
  gen t' j = Some ((g + frees j os t) `mod` 2 ^ 32)%Z.
Proof.
  revert t g; induction os as [|o os IH]; intros t g Hwf Hrun Hg.
  - injection Hrun as <-. pose proof (wf_gen t Hwf j g Hg) as Hu. unfold is_u32 in Hu. cbn [frees].
    rewrite Z.add_0_r, Z.mod_small by lia. done.
  - cbn [run_ops frees] in *. pose proof (run_op_wp o t Hwf) as Hw. unfold wp in Hw.
    destruct (run_op o t) as [[t1 r]|]; [|done]. destruct Hw as [Hwf1 Hch].
    pose proof (change_gen t t1 j Hwf Hch) as Hg1. rewrite Hg in Hg1. simpl in Hg1.
    case_decide; rewrite (IH t1 _ Hwf1 Hrun Hg1); [|by rewrite Z.add_0_l].
    unfold wrapping_add32. rewrite Zplus_mod_idemp_l. do 2 f_equal. lia.
Qed.
End step.

(** [n] steps bring a generation back to itself exactly when [2^32] divides [n]. *)
Lemma generation_divides g n : is_u32 g → ((g + n) `mod` 2 ^ 32 = g ↔ (2 ^ 32 | n))%Z.
Proof.
  unfold is_u32. intros Hg. rewrite <- Z.mod_divide by lia. split.
  - intros E. replace n with (g + n - g)%Z by lia.
    by rewrite Zminus_mod, E, (Z.mod_small g), Z.sub_diag by lia.
  - intros E. by rewrite Zplus_mod, E, Z.add_0_r, Zmod_mod, Z.mod_small by lia.
Qed.

(** ** The abstraction, operation by operation *)

Lemma handle_eq h h' : ch_index h = ch_index h' → ch_generation h = ch_generation h' → h = h'.
Proof. destruct h, h'; simpl. congruence. Qed.

Section refinement.
  Context (t : CapabilityTable) (Hwf : WF t).

Definition hparent (e : SlotEntry) : option CapHandle :=
  match parent e with
  | None => None
  | Some p => CapHandle_from_raw p <$> gen t p
  end.

Definition node_of (e : SlotEntry) : anode :=
  {| an_cap := capability e; an_parent := hparent e; an_depth := depth e |}.

Lemma live_eq h : live t h = node_of <$> named t h.
Proof. unfold live. by destruct (named t h). Qed.

Lemma live_Some h n : live t h = Some n ↔ ∃ e, named t h = Some e ∧ n = node_of e.
Proof. rewrite live_eq. destruct (named t h); naive_solver. Qed.

Lemma live_None h : live t h = None ↔ named t h = None.
Proof. rewrite live_eq. destruct (named t h); naive_solver. Qed.

Lemma gen_of_live i e : ent t i = Some e → is_Some (gen t i).
Proof. intros (s & Hs & _)%ent_Some_lookup. unfold gen. rewrite Hs. by eexists. Qed.

Lemma named_index_inj h h' : is_Some (named t h) → is_Some (named t h') →
  ch_index h = ch_index h' → h = h'.
Proof.
  intros [e He] [e' He'] Hi. apply named_Some in He as [Hg _], He' as [Hg' _].
  destruct h, h'; simpl in *; subst. rewrite Hg in Hg'. by injection Hg' as ->.
Qed.

Lemma full_abs : is_full t = true → full (live t).
Proof.
  rewrite is_full_spec by done. intros Hf i Hi. destruct (Hf i Hi) as [e He].
  destruct (gen_of_live i e He) as [g Hg]. exists (CapHandle_from_raw i g).
  split; [done|]. rewrite live_eq. unfold named. simpl. rewrite decide_True, He by done.
  by eexists.
Qed.

Lemma fresh_abs i g : ent t i = None → fresh (live t) (CapHandle_from_raw i g).
Proof.
  intros He h' Hi. simpl in Hi. rewrite live_None. unfold named. rewrite Hi, He. by case_decide.
Qed.

(** The parent relation on handles is the one on indices. *)
Lemma parent_handle c e p : named t c = Some e → an_parent (node_of e) = Some p →
  par t (ch_index c) = Some (ch_index p).
Proof.
  intros [_ He]%named_Some. simpl. unfold hparent. rewrite (par_ent _ _ _ He).
  destruct (parent e) as [q|]; [|done]. destruct (gen t q); simpl; [|done].
  by intros [= <-].
Qed.

Lemma handle_parent c e p : named t c = Some e → parent e = Some p →
  ∃ g, gen t p = Some g ∧ an_parent (node_of e) = Some (CapHandle_from_raw p g).
Proof.
  intros [_ He]%named_Some Hp. destruct (par_live t Hwf (ch_index c) p) as [ep Hep].
  { by rewrite (par_ent _ _ _ He). }
  destruct (gen_of_live p ep Hep) as [g Hg]. exists g. split; [done|].
  simpl. unfold hparent. by rewrite Hp, Hg.
Qed.

Lemma below_descendant a h : below (live t) a h →
  descendant t (ch_index a) (ch_index h) ∧ is_Some (named t h).
Proof.
  intros Hb. split.
  - revert Hb. apply tc_congruence. intros p c (n & (e & He & ->)%live_Some & Hp).
    by eapply parent_handle.
  - induction Hb as [p c (n & (e & He & ->)%live_Some & _)|]; [by eexists|done].
Qed.

Lemma descendant_below a h : is_Some (named t a) → is_Some (named t h) →
  descendant t (ch_index a) (ch_index h) → below (live t) a h.
Proof.
  set (hd := λ i, CapHandle_from_raw i (default 0%Z (gen t i))).
  assert (Hhd : ∀ x, is_Some (named t x) → hd (ch_index x) = x).
  { intros x [e [Hg _]%named_Some]. unfold hd. rewrite Hg. by destruct x. }
  intros Ha Hh Hd. rewrite <- (Hhd a), <- (Hhd h) by done. revert Hd. unfold descendant, below.
  apply (tc_congruence hd). intros p c (e & He & Hp)%par_Some.
  destruct (gen_of_live c e He) as [g Hg].
  assert (Hn : named t (hd c) = Some e) by (apply named_Some; unfold hd; by rewrite Hg).
  exists (node_of e). split; [rewrite live_eq, Hn; done|].
  destruct (handle_parent _ _ _ Hn Hp) as (gp & Hgp & ->). unfold hd. by rewrite Hgp.
Qed.

Lemma no_child_abs h e : named t h = Some e →
  first_child e = None ↔ no_child (live t) h.
Proof.
  intros He. pose proof He as Hn. apply named_Some in Hn as [Hg Hent]. split.
  - intros Hf c n (ec & Hec & ->)%live_Some Hp.
    eapply (no_first_child_no_children t Hwf _ e Hent Hf (ch_index c)).
    by eapply parent_handle.
  - intros Hno. destruct (first_child e) as [c|] eqn:Hf; [|done]. exfalso.
    assert (Hc : par t c = Some (ch_index h)).
    { apply (fc_par t Hwf). by rewrite (fc_ent _ _ _ Hent). }
    apply par_Some in Hc as (ec & Hec & Hp). destruct (gen_of_live c ec Hec) as [g Hgc].
    assert (Hnc : named t (CapHandle_from_raw c g) = Some ec) by (by apply named_Some).
    destruct (handle_parent _ _ _ Hnc Hp) as (gp & Hgp & Hpp).
    eapply (Hno (CapHandle_from_raw c g)); [rewrite live_eq, Hnc; done|].
    rewrite Hpp. f_equal. apply handle_eq; simpl; congruence.
Qed.

(** The three changes, seen through the abstraction. *)
Lemma live_Inserted t' h e : gen t (ch_index h) = Some (ch_generation h) →
  Inserted t t' (ch_index h) e →
  ∀ h', live t' h' = upd (live t) h (Some (node_of e)) h'.
Proof.
  intros Hg Hins h'. unfold live, upd, named.
  rewrite (ins_gen _ _ _ _ Hins), (ins_ent _ _ _ _ Hins).
  destruct (decide (h' = h)) as [->|Hd].
  - rewrite !decide_True by done. unfold node_of, hparent.
    destruct (parent e) as [p|]; [|done]. by rewrite (ins_gen _ _ _ _ Hins).
  - destruct (decide (ch_index h' = ch_index h)) as [Hi|Hi].
    + rewrite Hi, Hg, !(decide_False (P := Some (ch_generation h) = _)); [done|..];
        intros [= E]; by apply Hd, handle_eq.
    + case_decide; [|done]. unfold relink.
      case_decide; (destruct (ent t (ch_index h')) as [x|]; [|done]); simpl;
        (destruct (parent x); [|done]); by rewrite (ins_gen _ _ _ _ Hins).
Qed.

Lemma live_Cut t' h e : named t h = Some e → Cut t t' (ch_index h) e →
  ∀ h', live t' h' = upd (live t) h None h'.
Proof.
  intros [Hg He]%named_Some Hcut h'.
  pose proof (no_first_child_no_children t Hwf _ e He (cut_leaf _ _ _ _ Hcut)) as Hno.
  unfold upd. case_decide as Hd.
  - subst h'. unfold live, named.
    rewrite (cut_ent _ _ _ _ Hcut), (decide_True (P := ch_index h = ch_index h)) by done. by case_decide.
  - unfold live, named. rewrite (cut_gen _ _ _ _ Hcut), (cut_ent _ _ _ _ Hcut).
    destruct (decide (ch_index h' = ch_index h)) as [Hi|Hi].
    + rewrite Hi, Hg. rewrite (decide_False (P := Some (ch_generation h) = _)).
      * by case_decide.
      * intros [= E]. by apply Hd, handle_eq.
    + case_decide; [|done]. destruct (ent t (ch_index h')) as [x|] eqn:Hx; [|done]. simpl.
      destruct (parent x) as [p|] eqn:Hp; [|done].
      rewrite (cut_gen _ _ _ _ Hcut), decide_False; [done|].
      intros ->. apply (Hno (ch_index h')). by rewrite (par_ent _ _ _ Hx).
Qed.

Lemma live_Revoked t' src e : named t src = Some e → Revoked t t' (ch_index src) →
  (∀ h, below (live t) src h → live t' h = None) ∧
  (∀ h, ¬ below (live t) src h → live t' h = live t h).
Proof.
  intros Hsrc Hrev. assert (Hgone : ∀ h, descendant t (ch_index src) (ch_index h) → live t' h = None).
  { intros h Hd. unfold live, named. rewrite (rv_gone _ _ _ Hrev) by done. by case_decide. }
  split.
  - intros h [Hd _]%below_descendant. auto.
  - intros h Hnb. destruct (descendant_em t (ch_index src) (ch_index h) Hwf) as [Hd|Hd].
    + rewrite Hgone by done. destruct (live t h) as [n|] eqn:Hl; [|done].
      destruct Hnb. apply descendant_below; [by eexists| |done].
      apply live_Some in Hl as (e' & He' & _). by eexists.
    + unfold live, named. rewrite (rv_gen_other _ _ _ Hrev) by done. case_decide; [|done].
      assert (Hpar : ∀ x, ent t (ch_index h) = Some x → ∀ p, parent x = Some p → gen t' p = gen t p).
      { intros x Hx p Hp. apply (rv_gen_other _ _ _ Hrev). intros Hdp. apply Hd.
        eapply descendant_step; [by right|]. by rewrite (par_ent _ _ _ Hx). }
      destruct (decide (ch_index h = ch_index src)) as [Hi|Hi].
      * rewrite Hi, (rv_src _ _ _ Hrev), <- Hi. destruct (ent t (ch_index h)) as [x|] eqn:Hx; [|done].
        simpl. destruct (parent x) as [p|] eqn:Hp; [|done]. by rewrite (Hpar x eq_refl p Hp).
      * rewrite (rv_other _ _ _ Hrev) by done. destruct (ent t (ch_index h)) as [x|] eqn:Hx; [|done].
        destruct (parent x) as [p|] eqn:Hp; [|done]. by rewrite (Hpar x eq_refl p Hp).
Qed.
End refinement.
