(* ===== verification/CapProps.v ===== *)
(** * Properties of arenas and of the capability table

The theorems about kernel/src/obj/arena.rs and kernel/src/cap that the rest of
the kernel relies on, each with a witness on a concrete table. *)

From stdpp Require Import relations.
From S2P Require Import Prelude.
From S2P Require Import Chain.
From S2P Require Import Arena.
From S2P Require Import Objects.
From S2P Require Import Caps.
From S2P Require Import CapTable.
From S2P Require Import CapTableInv.
From S2P Require Import CapTableOps.
From S2P Require Import CapRevoke.
From S2P Require Import CapSpec.

(** ** A sample table: a root with every right, two children, a grandchild *)

Definition ALL : CapRights := KNOWN_BITS.
Definition ep0 : CapObject := OEndpoint (EndpointHandle_from_slot first_slot).
Definition root_h : CapHandle := CapHandle_from_raw 0 0.
Definition sample_ops : list op :=
  [ InsertRoot {| rights := ALL; object := ep0 |};
    Derive root_h ALL ep0;
    Derive (CapHandle_from_raw 1 0) (union SEND RECV) ep0;
    Copy (CapHandle_from_raw 1 0) (union SEND DERIVE) ].

Definition table_after `{Build} (os : list op) : CapabilityTable :=
  default new (run_ops os new).

Lemma table_after_WF `{Build} os : WF (table_after os).
Proof.
  unfold table_after. destruct (run_ops_WF os new new_WF) as (t & -> & Ht). done.
Qed.

#[export] Hint Resolve table_after_WF new_WF : tyrne.

(** ** The whole interface *)

Section refine.
  Context `{Build} (t : CapabilityTable) (Hwf : WF t).

(** The result of an operation is a step of the abstract table. *)
Definition refined (o : op) (t' : CapabilityTable) (r : result CapError reply) : Prop :=
  WF t' ∧ ∃ m', astep (live t) o m' r ∧ ∀ h, live t' h = m' h.

Lemma refined_error o e : refuses (live t) o e → refined o t (Err e).
Proof. intros He. split; [done|]. exists (live t). split; [by constructor|done]. Qed.

Lemma named_live h e : named t h = Some e → live t h = Some (node_of t e).
Proof. intros He. by rewrite live_eq, He. Qed.

Lemma contains_false a b : contains a b = false → ¬ sub_rights b a.
Proof. intros Hc Hs. apply contains_spec in Hs. congruence. Qed.

(** An error case of a specification of [CapTableOps] is a refusal. *)
Ltac refusal :=
  intros (-> & He); apply refined_error;
  match goal with e : CapError |- _ => destruct e end; simpl; try done;
  [> first [ by apply live_None
         | let x := fresh in let Hx := fresh in
           destruct He as (x & Hx & He); destruct_and?;
           first [ by apply full_abs
                 | exists (node_of t x); split;
                   [by apply named_live|first [by apply contains_false|done]]
                 | rewrite (named_live _ _ Hx); split; [by eexists|];
                   by rewrite <- no_child_abs ] ] ..].

Lemma refine_insert_root c : wp (run_op (InsertRoot c)) t (refined (InsertRoot c)).
Proof.
  apply wp_bind. eapply wp_mono; [by apply insert_root_wp|]. intros t' [h|e].
  - intros (_ & Hg & Hi & Hw). red; cbn. split; [done|]. eexists. split.
    + apply (as_insert_root _ c h). destruct h. eapply fresh_abs, Hi.
    + intros h'. by rewrite (live_Inserted t t' h _ Hg Hi).
  - intros (-> & -> & Hf). apply refined_error. by apply full_abs.
Qed.

Lemma refine_copy src r : wp (run_op (Copy src r)) t (refined (Copy src r)).
Proof.
  apply wp_bind. eapply wp_mono; [by apply cap_copy_wp|]. intros t' [h|e]; [|refusal].
  intros (e & He & Hd & Hr & _ & Hg & Hi & Hw). red; cbn. split; [done|]. eexists. split.
  - apply (as_copy _ src r (node_of t e) h);
      [by apply named_live|destruct h; eapply fresh_abs, Hi|by apply contains_spec..].
  - intros h'. by rewrite (live_Inserted t t' h _ Hg Hi).
Qed.

Lemma refine_derive src r o : wp (run_op (Derive src r o)) t (refined (Derive src r o)).
Proof.
  apply wp_bind. eapply wp_mono; [by apply cap_derive_wp|]. intros t' [h|e]; [|refusal].
  intros (e & He & Hd & Hr & Hdep & _ & Hg & Hi & Hw). red; cbn. split; [done|]. eexists. split.
  - apply (as_derive _ src r o (node_of t e) h);
      [by apply named_live|destruct h; eapply fresh_abs, Hi|by apply contains_spec..|done].
  - intros h'. rewrite (live_Inserted t t' h _ Hg Hi). unfold upd. case_decide; [|done].
    apply named_Some in He as [Hgs _]. unfold node_of, hparent; simpl. rewrite Hgs.
    by destruct src.
Qed.

Lemma refine_revoke src : wp (run_op (Revoke src)) t (refined (Revoke src)).
Proof.
  apply wp_bind. eapply wp_mono; [by apply cap_revoke_wp|]. intros t' [h|e]; [|refusal].
  intros (e & He & Hr & Hrev & Hw). red; cbn. split; [done|].
  destruct (live_Revoked t Hwf t' src e He Hrev) as [H1 H2].
  exists (live t'). split; [|done].
  eapply as_revoke; [by apply named_live|by apply contains_spec|done|done].
Qed.

Lemma refine_drop h : wp (run_op (Drop h)) t (refined (Drop h)).
Proof.
  apply wp_bind. eapply wp_mono; [by apply cap_drop_wp|]. intros t' [h'|e]; [|refusal].
  intros (e & He & Hc & Hw). red; cbn. split; [done|]. eexists. split.
  - eapply as_drop; [by apply named_live|]. eapply no_child_abs; [done|done|apply Hc].
  - intros h''. by rewrite (live_Cut t Hwf t' h e He Hc).
Qed.

Lemma refine_take h : wp (run_op (Take h)) t (refined (Take h)).
Proof.
  apply wp_bind. eapply wp_mono; [by apply cap_take_wp|]. intros t' [h'|e]; [|refusal].
  intros (e & He & -> & Hc & Hw). red; cbn. split; [done|]. eexists. split.
  - apply (as_take _ h (node_of t e)); [by apply named_live|].
    eapply no_child_abs; [done|done|apply Hc].
  - intros h''. by rewrite (live_Cut t Hwf t' h e He Hc).
Qed.
End refine.

(** C1: the concrete capability table (slot array, free list, sibling chains)
    implements the abstract partial map from handles to nodes.  From a well-formed
    table every operation returns without a panic in both build profiles, leaves a
    well-formed table, and its effect and reply are a step of the abstract table:
    in particular it fails only when the abstract operation refuses, and then
    changes nothing. *)
Theorem cap_table_refines_spec `{Build} (o : op) (t : CapabilityTable) :
  WF t →
  ∃ t' r, run_op o t = Some (t', r) ∧ WF t' ∧
          ∃ m', astep (live t) o m' r ∧ ∀ h, live t' h = m' h.
Proof.
  intros Hwf. apply wp_run.
  destruct o; eauto using refine_insert_root, refine_copy, refine_derive, refine_revoke,
    refine_drop, refine_take.
Qed.

Lemma cap_table_refines_spec_witness :
  WF (table_after (H := debug_build) sample_ops) ∧
  ∃ t' m',
    run_op (H := debug_build) (Revoke root_h) (table_after (H := debug_build) sample_ops)
      = Some (t', Ok RUnit) ∧
    astep (live (table_after (H := debug_build) sample_ops)) (Revoke root_h) m' (Ok RUnit) ∧
    (∀ h, live t' h = m' h).
Proof.
  split; [apply table_after_WF|].
  destruct (cap_table_refines_spec (H := debug_build) (Revoke root_h) _
              (table_after_WF (H := debug_build) sample_ops)) as (t' & r & Hrun & _ & m' & Hs & Hm).
  assert (r = Ok RUnit) as -> by (vm_compute in Hrun; congruence).
  by exists t', m'.
Defined.

(** C36: a table never reaches a panic, a diverging loop or an ill-formed state:
    any sequence of operations, with any handles and in any order (a failed call
    does not stop the sequence), runs to its end from the empty table, in both
    build profiles, and every table on the way is well formed. *)
Theorem cap_table_any_sequence `{Build} (os1 os2 : list op) :
  ∃ t1 t2, run_ops os1 new = Some t1 ∧ WF t1 ∧
           run_ops (os1 ++ os2) new = Some t2 ∧ run_ops os2 t1 = Some t2 ∧ WF t2.
Proof.
  destruct (run_ops_WF os1 new new_WF) as (t1 & H1 & Hw1).
  destruct (run_ops_WF os2 t1 Hw1) as (t2 & H2 & Hw2).
  exists t1, t2. split_and!; try done. clear -H1 H2.
  revert H1. generalize new. induction os1 as [|o os1 IH]; intros t; cbn [run_ops app].
  - by intros [= ->].
  - destruct (run_op o t) as [[t' r]|]; [apply IH|done].
Qed.

(** ** Authority *)

Lemma attenuation t a d : WF t → descendant t a d →
  ∃ ea ed, ent t a = Some ea ∧ ent t d = Some ed ∧
           sub_rights (rights (capability ed)) (rights (capability ea)).
Proof.
  intros Hwf Hd. induction Hd as [p c Hc|p c d Hc _ (ec & ed & Hec & Hed & Hs)].
  - apply par_Some in Hc as (ec & Hec & Hp).
    pose proof (nd_parent _ _ _ (wf_node t Hwf c ec Hec)) as Hn. rewrite Hp in Hn.
    destruct Hn as (pe & Hpe & _ & Hs). eauto.
  - apply par_Some in Hc as (ec' & Hec' & Hp).
    pose proof (nd_parent _ _ _ (wf_node t Hwf c ec' Hec')) as Hn. rewrite Hp in Hn.
    destruct Hn as (pe & Hpe & _ & Hs'). exists pe, ed. split_and!; [done..|].
    assert (ec' = ec) as -> by congruence. by etransitivity.
Qed.

(** C3: rights only narrow.  In every table reachable by any sequence of operations,
    a capability below another in the derivation tree confers no right the other
    does not confer, and sits strictly deeper, at most [MAX_DERIVATION_DEPTH] deep;
    what [lookup] returns for the two handles shows it. *)
Theorem cap_rights_attenuate `{Build} (os : list op) (t : CapabilityTable) (a d : CapHandle) ca cd :
  run_ops os new = Some t →
  lookup t a = Some (Ok ca) → lookup t d = Some (Ok cd) →
  descendant t (ch_index a) (ch_index d) →
  contains (rights ca) (rights cd) = true ∧
  ∃ da dd, depth_of t a = Some (Ok da) ∧ depth_of t d = Some (Ok dd) ∧
           (0 ≤ da < dd)%Z ∧ (dd ≤ MAX_DERIVATION_DEPTH)%Z.
Proof.
  intros Hrun. destruct (run_ops_WF os new new_WF) as (t' & Ht' & Hwf).
  assert (t' = t) as -> by congruence.
  rewrite !lookup_eq, !depth_of_eq.
  destruct (named t a) as [ea|] eqn:Ha; [|done]. destruct (named t d) as [ed|] eqn:Hd; [|done].
  intros [= <-] [= <-] Hdesc.
  apply named_Some in Ha as [_ Ha], Hd as [_ Hd].
  destruct (attenuation t _ _ Hwf Hdesc) as (ea' & ed' & Hea & Hed & Hs).
  destruct (descendant_depth t Hwf _ _ Hdesc) as (ea2 & ed2 & Hea2 & Hed2 & Hlt).
  assert (ea' = ea ∧ ea2 = ea ∧ ed' = ed ∧ ed2 = ed) as (-> & -> & -> & ->)
    by (split_and!; congruence).
  pose proof (nd_depth _ _ _ (wf_node t Hwf _ _ Hea)).
  pose proof (nd_depth _ _ _ (wf_node t Hwf _ _ Hed)).
  split; [by apply contains_spec|]. exists (depth ea), (depth ed). split_and!; lia || done.
Qed.

Lemma cap_rights_attenuate_witness :
  contains ALL (union SEND RECV) = true ∧
  ∃ da dd, depth_of (table_after (H := debug_build) sample_ops) root_h = Some (Ok da) ∧
           depth_of (table_after (H := debug_build) sample_ops) (CapHandle_from_raw 2 0) = Some (Ok dd) ∧
           (0 ≤ da < dd)%Z ∧ (dd ≤ MAX_DERIVATION_DEPTH)%Z.
Proof.
  apply (cap_rights_attenuate (H := debug_build) sample_ops _ root_h (CapHandle_from_raw 2 0)
           {| rights := ALL; object := ep0 |} {| rights := union SEND RECV; object := ep0 |}).
  - vm_compute. reflexivity.
  - vm_compute. reflexivity.
  - vm_compute. reflexivity.
  - unfold descendant. eapply tc_l with 1; [vm_compute; reflexivity|].
    apply tc_once. vm_compute. reflexivity.
Defined.

(** C2: revocation is total and exact.  [cap_revoke] on a live handle with the
    [REVOKE] right succeeds; afterwards every handle below it is dead, every other
    handle (the source and its peers included) still names the same capability at
    the same depth, the source has no descendant left, and exactly the slots below
    it became free.  Without the right, or on a dead handle, nothing changes. *)
Theorem cap_revoke_cascades `{Build} (t : CapabilityTable) (src : CapHandle) :
  WF t →
  ∃ t' r, cap_revoke src t = Some (t', r) ∧
    match lookup t src with
    | Some (Ok c) =>
        if contains (rights c) REVOKE then
          r = Ok tt ∧
          (∀ h, descendant t (ch_index src) (ch_index h) → lookup t' h = Some (Err InvalidHandle)) ∧
          (∀ h, ¬ descendant t (ch_index src) (ch_index h) →
                lookup t' h = lookup t h ∧ depth_of t' h = depth_of t h) ∧
          (∀ i, ¬ descendant t' (ch_index src) i) ∧
          (∀ i, ent t' i = None ↔ ent t i = None ∨ descendant t (ch_index src) i)
        else r = Err InsufficientRights ∧ t' = t
    | _ => r = Err InvalidHandle ∧ t' = t
    end.
Proof.
  intros Hwf. apply wp_run. eapply wp_mono; [by apply cap_revoke_wp|].
  intros t' r Hr. rewrite lookup_eq. destruct r as [[]|e].
  2:{ destruct Hr as [-> He]. destruct e; try done; [by rewrite He|].
      destruct He as (e & -> & ->). done. }
  destruct Hr as (e & He & Hrights & Hrev & Hwf'). rewrite He, Hrights.
  pose proof He as Hn. apply named_Some in Hn as [Hg Hent].
  assert (Hnm : ∀ h, ¬ descendant t (ch_index src) (ch_index h) →
    lookup t' h = lookup t h ∧ depth_of t' h = depth_of t h).
  { intros h Hd. rewrite !lookup_eq, !depth_of_eq. unfold named.
    rewrite (rv_gen_other _ _ _ Hrev) by done. case_decide; [|done].
    destruct (decide (ch_index h = ch_index src)) as [Hi|Hi].
    - rewrite Hi, (rv_src _ _ _ Hrev). by destruct (ent t (ch_index src)).
    - by rewrite (rv_other _ _ _ Hrev). }
  split; [done|]. split_and!; [|exact Hnm| |].
  - intros h Hd. rewrite lookup_eq. unfold named. rewrite (rv_gone _ _ _ Hrev) by done.
    by case_decide.
  - intros i Hd. assert (Hleaf : ∀ j, par t' j ≠ Some (ch_index src)).
    { eapply (no_first_child_no_children t' Hwf' _ (with_first_child None e)); [|done].
      by rewrite (rv_src _ _ _ Hrev), Hent. }
    unfold descendant in Hd.
    destruct Hd as [p c Hc|p c d Hc _]; by eapply Hleaf.
  - intros i. destruct (descendant_em t (ch_index src) i Hwf) as [Hd|Hd].
    + rewrite (rv_gone _ _ _ Hrev) by done. tauto.
    + destruct (decide (i = ch_index src)) as [->|Hi].
      * rewrite (rv_src _ _ _ Hrev), Hent. simpl. naive_solver.
      * rewrite (rv_other _ _ _ Hrev) by done. tauto.
Qed.

Lemma cap_revoke_cascades_witness :
  ∃ t', cap_revoke (H := debug_build) (CapHandle_from_raw 1 0) (table_after (H := debug_build) sample_ops)
          = Some (t', Ok tt) ∧
        lookup t' (CapHandle_from_raw 2 0) = Some (Err InvalidHandle) ∧
        (∀ i, ¬ descendant t' 1 i).
Proof.
  pose proof (cap_revoke_cascades (H := debug_build) _ (CapHandle_from_raw 1 0)
                (table_after_WF (H := debug_build) sample_ops)) as (t' & r & Hrun & Hspec).
  assert (Hl : lookup (table_after (H := debug_build) sample_ops) (CapHandle_from_raw 1 0)
               = Some (Ok {| rights := ALL; object := ep0 |})) by (vm_compute; reflexivity).
  rewrite Hl in Hspec. change (contains (rights {| rights := ALL; object := ep0 |}) REVOKE) with true in Hspec.
  destruct Hspec as (-> & Hdead & _ & Hno & _). exists t'. split; [done|]. split; [|done].
  apply Hdead. apply tc_once. vm_compute. reflexivity.
Defined.

(** C21: a handle that has died stays dead.  Take a handle that [lookup] accepts and any
    sequence of operations, of any length, on the table, and let [n] be how many of them
    freed the handle's slot.  While [n] is 0 the handle is accepted; once the slot has been
    freed, and until it has been freed [2^32] times, it is refused, whoever holds the slot
    meanwhile; and after any run it is accepted exactly when the slot is occupied and
    [2^32] divides [n], when the generation counter has come all the way round. *)
Theorem stale_handle_never_resolves `{Build}
    (os : list op) (t t' : CapabilityTable) (h : CapHandle) c :
  WF t → lookup t h = Some (Ok c) → run_ops os t = Some t' →
  let n := frees (ch_index h) os t in
  (n = 0%Z → ∃ c', lookup t' h = Some (Ok c')) ∧
  ((0 < n < 2 ^ 32)%Z → lookup t' h = Some (Err InvalidHandle)) ∧
  ((∃ c', lookup t' h = Some (Ok c')) ↔ is_Some (ent t' (ch_index h)) ∧ (2 ^ 32 | n)%Z).
Proof.
  intros Hwf Hl Hos n. rewrite lookup_eq in Hl. destruct (named t h) as [e|] eqn:He; [|done]. clear Hl.
  apply named_Some in He as [Hg Hent]. pose proof (run_ops_gen os t t' _ _ Hwf Hos Hg) as Hg'. fold n in Hg'.
  assert (Hiff : (∃ c', lookup t' h = Some (Ok c')) ↔ is_Some (ent t' (ch_index h)) ∧ (2 ^ 32 | n)%Z).
  { rewrite <- (generation_divides _ n (wf_gen t Hwf _ _ Hg)). rewrite lookup_eq. unfold named. rewrite Hg'.
    split.
    - intros [c' Hc]. case_decide as Hd; [|done]. destruct (ent t' (ch_index h)); [|done].
      split; [by eexists|congruence].
    - intros [[e' ->] ->]. rewrite decide_True by done. by eexists. }
  split; [|split; [|done]].
  - intros H0. apply Hiff. split; [|rewrite H0; apply Z.divide_0_r].
    apply (frees_0_live _ os t t' Hos H0). by eexists.
  - intros Hn. destruct (named t' h) as [e'|] eqn:He'; rewrite lookup_eq, He'; [|done]. exfalso.
    assert (2 ^ 32 | n)%Z as Hd%Z.divide_pos_le by (apply Hiff; rewrite lookup_eq, He'; by eexists). all: lia.
Qed.

Lemma stale_handle_never_resolves_witness :
  let os := [Revoke (CapHandle_from_raw 1 0); Derive root_h SEND ep0] in
  let t := table_after (H := debug_build) sample_ops in
  let t' := table_after (H := debug_build) (sample_ops ++ os) in
  frees (H := debug_build) 2 os t = 1%Z ∧
  lookup t' (CapHandle_from_raw 2 1) = Some (Ok {| rights := SEND; object := ep0 |}) ∧
  lookup t' (CapHandle_from_raw 2 0) = Some (Err InvalidHandle).
Proof.
  intros os t t'. assert (Hf : frees (H := debug_build) 2 os t = 1%Z) by (vm_compute; reflexivity).
  split; [done|]. split; [vm_compute; reflexivity|].
  apply (stale_handle_never_resolves (H := debug_build) os t t' (CapHandle_from_raw 2 0)
           {| rights := union SEND RECV; object := ep0 |}).
  - apply table_after_WF.
  - vm_compute. reflexivity.
  - vm_compute. reflexivity.
  - cbn [ch_index CapHandle_from_raw]. rewrite Hf. lia.
Defined.
