(* ===== verification/Ipc.v ===== *)
(** * Inter-process communication (kernel/src/ipc/mod.rs)

The per-endpoint state machine and the four operations [ipc_send], [ipc_recv],
[ipc_notify] and [ipc_cancel_recv].  The [&mut] parameters an operation writes
(the queues and the caller's table) are its state; the arenas it only reads are
arguments. *)

From S2P Require Import Prelude.
From S2P Require Import Arena.
From S2P Require Import Objects.
From S2P Require Import Caps.
From S2P Require Import CapTable.

(** A message: a label and three parameter words. *)
Record Message := { label : Z; params : Z * Z * Z }.

#[export] Instance Message_eq_dec : EqDecision Message.
Proof. solve_decision. Defined.

Inductive IpcError :=
| StaleHandle
| WrongObjectKind
| MissingRight
| QueueFull
| InvalidTransferCap
| ReceiverTableFull
| PendingAfterResume.

#[export] Instance IpcError_eq_dec : EqDecision IpcError.
Proof. solve_decision. Defined.

Inductive SendOutcome := Delivered | Enqueued.

Inductive RecvOutcome :=
| Received (msg : Message) (cap : option CapHandle)
| Pending.

Inductive EndpointState :=
| Idle
| SendPending (msg : Message) (cap : option Capability)
| RecvWaiting
| RecvComplete (msg : Message) (cap : option Capability).

Record IpcQueues := {
  states : list EndpointState;
  slot_generations : list Z;
}.

Definition IpcQueues_new : IpcQueues :=
  {| states := (λ _, Idle) <$> seq 0 ENDPOINT_ARENA_CAPACITY;
     slot_generations := replicate ENDPOINT_ARENA_CAPACITY 0%Z |}.

(** The [&mut] parameters. *)
Record Ipc := { queues : IpcQueues; table : CapabilityTable }.

Definition on_queues {E A} (m : M IpcQueues E A) : M Ipc E A :=
  zoom queues (λ q s, {| queues := q; table := table s |}) m.
Definition on_table {E A} (m : M CapabilityTable E A) : M Ipc E A :=
  zoom table (λ t s, {| queues := queues s; table := t |}) m.

Definition set_state (i : nat) (st : EndpointState) (q : IpcQueues) : IpcQueues :=
  {| states := <[i := st]> (states q); slot_generations := slot_generations q |}.
Definition set_slot_generation (i : nat) (g : Z) (q : IpcQueues) : IpcQueues :=
  {| states := states q; slot_generations := <[i := g]> (slot_generations q) |}.

(** [self.states[i] = st] *)
Definition put_state {E} (i : nat) (st : EndpointState) : M IpcQueues E unit :=
  let* _ := idx states i in modify (set_state i st).

Definition in_flight_cap (st : EndpointState) : option Capability :=
  match st with
  | SendPending _ cap | RecvComplete _ cap => cap
  | _ => None
  end.

(** [mem::replace(&mut self.states[i], Idle)] *)
Definition take_state {E} (i : nat) : M IpcQueues E EndpointState :=
  let* old := idx states i in
  put_state i Idle ;;
  ret old.

Section ipc.
  Context `{Build}.

Definition reset_if_stale_generation {E} (handle : EndpointHandle) : M IpcQueues E nat :=
  let i := id_index (endpoint_slot handle) in
  let gen := id_generation (endpoint_slot handle) in
  let* g := idx slot_generations i in
  if negb (bool_decide (g = gen)) then
    let* st := idx states i in
    debug_assert (negb (bool_decide (is_Some (in_flight_cap st)))) ;;
    put_state i Idle ;;
    let* _ := idx slot_generations i in
    modify (set_slot_generation i gen) ;;
    ret i
  else ret i.

Definition peek_state {E} (handle : EndpointHandle) : M IpcQueues E EndpointState :=
  let* i := reset_if_stale_generation handle in
  idx states i.

(** [&mut self.states[idx]]: the reference is the index. *)
Definition state_of {E} (handle : EndpointHandle) : M IpcQueues E nat :=
  let* i := reset_if_stale_generation handle in
  let* _ := idx states i in
  ret i.

Definition validate_ep_cap (t : CapabilityTable) (ep_cap : CapHandle) (required : CapRights)
  : P IpcError EndpointHandle :=
  let? cap := pmap_err (λ _, StaleHandle) (lookup t ep_cap) in
  match object cap with
  | OEndpoint handle =>
      if negb (contains (rights cap) required) then perr MissingRight else pret handle
  | _ => perr WrongObjectKind
  end.

Definition validate_notif_cap (t : CapabilityTable) (notif_cap : CapHandle)
  : P IpcError NotificationHandle :=
  let? cap := pmap_err (λ _, StaleHandle) (lookup t notif_cap) in
  match object cap with
  | ONotification handle =>
      if negb (contains (rights cap) NOTIFY) then perr MissingRight else pret handle
  | _ => perr WrongObjectKind
  end.

Definition take_cap_if_some (handle : option CapHandle)
  : M CapabilityTable IpcError (option Capability) :=
  match handle with
  | Some h => map_err (λ _, InvalidTransferCap) (map_ok Some (cap_take h))
  | None => ret None
  end.

Definition install_cap_if_some (cap : option Capability)
  : M CapabilityTable IpcError (option CapHandle) :=
  match cap with
  | Some c => map_err (λ _, ReceiverTableFull) (map_ok Some (insert_root c))
  | None => ret None
  end.

(** The pre-flight check of the transfer capability. *)
Definition check_transfer (t : CapabilityTable) (transfer : option CapHandle) : P IpcError unit :=
  match transfer with
  | None => pret tt
  | Some xfer =>
      let? xfer_cap := pmap_err (λ _, InvalidTransferCap) (lookup t xfer) in
      if negb (contains (rights xfer_cap) TRANSFER) then perr InvalidTransferCap else pret tt
  end.

(** [ep_arena.get(ep_handle.slot()).ok_or(IpcError::StaleHandle)?] *)
Definition endpoint_live (ep_arena : EndpointArena) (h : EndpointHandle) : P IpcError unit :=
  match get ep_arena (endpoint_slot h) with
  | Some _ => pret tt
  | None => perr StaleHandle
  end.

Definition ipc_send (ep_arena : EndpointArena) (ep_cap : CapHandle) (msg : Message)
    (transfer : option CapHandle) : M Ipc IpcError SendOutcome :=
  let* ep_handle := reads (λ s, validate_ep_cap (table s) ep_cap SEND) in
  let* _ := reads (λ s, check_transfer (table s) transfer) in
  let* _ := reads (λ _, endpoint_live ep_arena ep_handle) in
  let* st := on_queues (peek_state ep_handle) in
  if match st with SendPending _ _ | RecvComplete _ _ => true | _ => false end
  then throw QueueFull else
  let* owned := on_table (take_cap_if_some transfer) in
  let* i := on_queues (state_of ep_handle) in
  let* old := on_queues (take_state i) in
  match old with
  | RecvWaiting => on_queues (put_state i (RecvComplete msg owned)) ;; ret Delivered
  | Idle => on_queues (put_state i (SendPending msg owned)) ;; ret Enqueued
  | SendPending _ _ | RecvComplete _ _ => panic
  end.

Definition ipc_recv (ep_arena : EndpointArena) (ep_cap : CapHandle) : M Ipc IpcError RecvOutcome :=
  let* ep_handle := reads (λ s, validate_ep_cap (table s) ep_cap RECV) in
  let* _ := reads (λ _, endpoint_live ep_arena ep_handle) in
  let* st := on_queues (peek_state ep_handle) in
  let pending_has_cap :=
    match st with SendPending _ (Some _) | RecvComplete _ (Some _) => true | _ => false end in
  let* full := gets (λ s, is_full (table s)) in
  if pending_has_cap && full then throw ReceiverTableFull else
  let* i := on_queues (state_of ep_handle) in
  let* old := on_queues (take_state i) in
  match old with
  | SendPending msg cap | RecvComplete msg cap =>
      let* xfer := on_table (install_cap_if_some cap) in
      ret (Received msg xfer)
  | Idle => on_queues (put_state i RecvWaiting) ;; ret Pending
  | RecvWaiting => on_queues (put_state i RecvWaiting) ;; throw QueueFull
  end.

(** The notification arena is the state; the table is only read. *)
Definition ipc_notify (t : CapabilityTable) (notif_cap : CapHandle) (bits : Z)
  : M NotificationArena IpcError unit :=
  let* notif_handle := reads (λ _, validate_notif_cap t notif_cap) in
  map_err (λ _, StaleHandle)
    (get_mut (notification_slot notif_handle) (λ n, (Objects.set n bits, tt))).

(** The queues are the state; the table is only read. *)
Definition ipc_cancel_recv (ep_arena : EndpointArena) (t : CapabilityTable) (ep_cap : CapHandle)
  : M IpcQueues IpcError unit :=
  let* ep_handle := reads (λ _, validate_ep_cap t ep_cap RECV) in
  let* _ := reads (λ _, endpoint_live ep_arena ep_handle) in
  let* i := state_of ep_handle in
  let* st := idx states i in
  match st with
  | RecvWaiting => put_state i Idle
  | _ => ret tt
  end.
End ipc.
