(* ===== verification/SyscallError.v ===== *)
(** * The userspace-facing error type (kernel/src/syscall/error.rs)

[SyscallError] composes the capability and IPC errors; [as_status] is the status
word of the syscall ABI. *)

From S2P Require Import Prelude.
From S2P Require Import Arena.
From S2P Require Import Objects.
From S2P Require Import Caps.
From S2P Require Import CapTable.
From S2P Require Import Ipc.
Local Open Scope Z_scope.

Definition OK_STATUS : Z := 0.
Definition CAP_STATUS_BASE : Z := 0x100.
Definition IPC_STATUS_BASE : Z := 0x200.

Inductive SyscallError :=
| BadSyscallNumber
| BadArgument
| FaultAddress
| ECap (e : CapError)
| EIpc (e : IpcError).

#[export] Instance SyscallError_eq_dec : EqDecision SyscallError.
Proof. solve_decision. Defined.

Definition cap_error_code (e : CapError) : Z :=
  match e with
  | CapsExhausted => 1
  | InvalidHandle => 2
  | WidenedRights => 3
  | InsufficientRights => 4
  | DerivationTooDeep => 5
  | HasChildren => 6
  | WrongKind => 7
  end.

Definition ipc_error_code (e : IpcError) : Z :=
  match e with
  | StaleHandle => 1
  | WrongObjectKind => 2
  | MissingRight => 3
  | QueueFull => 4
  | InvalidTransferCap => 5
  | ReceiverTableFull => 6
  | PendingAfterResume => 7
  end.

Definition as_status (e : SyscallError) : Z :=
  match e with
  | BadSyscallNumber => 1
  | BadArgument => 2
  | FaultAddress => 3
  | ECap e => Z.lor CAP_STATUS_BASE (cap_error_code e)
  | EIpc e => Z.lor IPC_STATUS_BASE (ipc_error_code e)
  end.
