(* ===== verification/Abi.v ===== *)
(** * The syscall ABI (kernel/src/syscall/abi.rs)

Syscall numbers, argument and return registers, capability-handle packing and
outcome packing, with their round trips. *)

From S2P Require Import Prelude.
From S2P Require Import Arena.
From S2P Require Import Objects.
From S2P Require Import Caps.
From S2P Require Import CapTable.
From S2P Require Import Ipc.
From S2P Require Import SyscallError.
Local Open Scope Z_scope.

Definition NULL_CAP_HANDLE : Z := U64_MAX.

Inductive SyscallNumber := Send | Recv | TaskYield | TaskExit | ConsoleWrite.

#[export] Instance SyscallNumber_eq_dec : EqDecision SyscallNumber.
Proof. solve_decision. Defined.

(** [cfg!(debug_assertions)] is the build profile. *)
Definition decode `{Build} (raw : Z) : option SyscallNumber :=
  if bool_decide (raw = 1) then Some Send else
  if bool_decide (raw = 2) then Some Recv else
  if bool_decide (raw = 3) then Some TaskYield else
  if bool_decide (raw = 4) then Some TaskExit else
  if bool_decide (raw = 5) && debug_assertions then Some ConsoleWrite else None.

Definition as_u64 (self : SyscallNumber) : Z :=
  match self with Send => 1 | Recv => 2 | TaskYield => 3 | TaskExit => 4 | ConsoleWrite => 5 end.

(** [args] has six words. *)
Record SyscallArgs := { number : Z; args : list Z }.

(** [payload] has seven words. *)
Record SyscallReturn := { status : Z; payload : list Z }.

Definition ret_ok : SyscallReturn := {| status := OK_STATUS; payload := replicate 7 0 |}.
Definition ret_error (e : SyscallError) : SyscallReturn :=
  {| status := as_status e; payload := replicate 7 0 |}.

(** Every index the code passes is a literal below 7, which is a compile-time
    check. *)
Definition with_payload (IDX : nat) (self : SyscallReturn) (val : Z) : SyscallReturn :=
  {| status := status self; payload := <[IDX := val]> (payload self) |}.

Inductive SyscallEffect :=
| Resume (r : SyscallReturn)
| Reschedule
| Terminate (code : Z).

(** ** Capability handles *)

(** [as u16] and [as u32] *)
Definition as_u16 (x : Z) : Z := x `mod` 2 ^ 16.
Definition as_u32 (x : Z) : Z := x `mod` 2 ^ 32.

Definition encode_cap_handle (handle : option CapHandle) : Z :=
  match handle with
  | None => NULL_CAP_HANDLE
  | Some h => Z.lor (Z.shiftl (ch_generation h) 16 `mod` 2 ^ 64) (Z.of_nat (ch_index h))
  end.

Definition decode_required_cap_handle (word : Z) : CapHandle :=
  CapHandle_from_raw (Z.to_nat (as_u16 word)) (as_u32 (Z.shiftr word 16)).

Definition decode_cap_handle (word : Z) : option CapHandle :=
  if bool_decide (word = NULL_CAP_HANDLE) then None else
  Some (CapHandle_from_raw (Z.to_nat (as_u16 word)) (as_u32 (Z.shiftr word 16))).

(** ** Outcomes *)

Definition SEND_OUTCOME_DELIVERED : Z := 0.
Definition SEND_OUTCOME_ENQUEUED : Z := 1.
Definition RECV_OUTCOME_RECEIVED : Z := 0.
Definition RECV_OUTCOME_PENDING : Z := 1.

Definition encode_send_outcome (outcome : SendOutcome) : Z :=
  match outcome with
  | Delivered => SEND_OUTCOME_DELIVERED
  | Enqueued => SEND_OUTCOME_ENQUEUED
  end.

Definition encode_recv_outcome (outcome : RecvOutcome) : SyscallReturn :=
  match outcome with
  | Received msg cap =>
      let '(p0, p1, p2) := params msg in
      with_payload 5 (with_payload 4 (with_payload 3 (with_payload 2 (with_payload 1
        (with_payload 0 ret_ok RECV_OUTCOME_RECEIVED)
        (label msg)) p0) p1) p2) (encode_cap_handle cap)
  | Pending => with_payload 0 ret_ok RECV_OUTCOME_PENDING
  end.

(** [args[i]]: the array has six words and every index is a literal below six. *)
Definition arg (xs : list Z) (i : nat) : Z := default 0 (xs !! i).

Definition decode_send_message (xs : list Z) : Message :=
  {| label := arg xs 1; params := (arg xs 2, arg xs 3, arg xs 4) |}.

(** ** Facts *)

(** The handles the code can build: a [u16] index and a [u32] generation. *)
Definition handle_ok (h : CapHandle) : Prop :=
  Z.of_nat (ch_index h) < 2 ^ 16 ∧ is_u32 (ch_generation h).

Lemma lor_disjoint_add a b n : 0 ≤ n → 0 ≤ b < 2 ^ n → Z.lor (Z.shiftl a n) b = a * 2 ^ n + b.
Proof.
  intros Hn Hb. rewrite <- Z.shiftl_mul_pow2 by done. symmetry. apply Z.add_nocarry_lor.
  apply Z.bits_inj'; intros i Hi. rewrite Z.land_spec, Z.bits_0.
  destruct (Z.lt_ge_cases i n) as [Hin|Hin]; [by rewrite Z.shiftl_spec_low|].
  rewrite <- (Z.mod_small b (2 ^ n)), Z.mod_pow2_bits_high by lia. by rewrite andb_false_r.
Qed.

Lemma encode_Some h : handle_ok h →
  encode_cap_handle (Some h) = ch_generation h * 2 ^ 16 + Z.of_nat (ch_index h) ∧
  0 ≤ encode_cap_handle (Some h) < 2 ^ 48.
Proof.
  unfold handle_ok, is_u32. intros [Hi Hg].
  assert (E : encode_cap_handle (Some h) = ch_generation h * 2 ^ 16 + Z.of_nat (ch_index h)).
  { cbn [encode_cap_handle]. rewrite Z.mod_small; [apply lor_disjoint_add; lia|].
    rewrite Z.shiftl_mul_pow2 by lia. lia. }
  rewrite E. lia.
Qed.

Lemma decode_required_encode h : handle_ok h →
  decode_required_cap_handle (encode_cap_handle (Some h)) = h.
Proof.
  intros Hh. destruct (encode_Some h Hh) as [-> _]. destruct Hh as [Hi Hg]. unfold is_u32 in Hg.
  unfold decode_required_cap_handle, as_u16, as_u32. rewrite Z.shiftr_div_pow2 by lia.
  rewrite Z.add_comm, Z.mod_add, Z.div_add by lia.
  rewrite Z.mod_small, Z.div_small, Z.add_0_l, Z.mod_small, Nat2Z.id by lia. by destruct h.
Qed.

Lemma decode_handle_ok word : handle_ok (decode_required_cap_handle word).
Proof.
  unfold handle_ok, decode_required_cap_handle, as_u16, as_u32, is_u32; cbn.
  pose proof (Z.mod_pos_bound word (2 ^ 16)). pose proof (Z.mod_pos_bound (Z.shiftr word 16) (2 ^ 32)). lia.
Qed.

(** A word decodes to what its low 48 bits encode. *)
Lemma encode_decode_required word :
  encode_cap_handle (Some (decode_required_cap_handle word)) = word `mod` 2 ^ 48.
Proof.
  destruct (encode_Some _ (decode_handle_ok word)) as [-> _].
  unfold decode_required_cap_handle, as_u16, as_u32; cbn [ch_generation ch_index CapHandle_from_raw].
  rewrite Z.shiftr_div_pow2 by lia. pose proof (Z.mod_pos_bound word (2 ^ 16)) as Hp.
  rewrite Z2Nat.id by lia. change (2 ^ 48) with (2 ^ 16 * 2 ^ 32). rewrite Z.rem_mul_r by lia. lia.
Qed.

(** Capability handles survive the register boundary.  A handle the kernel can
    hold, packed into a word and unpacked, is the same handle, optional or required;
    [None] is the sentinel and decodes to [None]; a packed handle uses only the low
    48 bits, so it is never the sentinel; and any user word but the sentinel decodes
    to the handle its low 48 bits encode. *)
Theorem cap_handle_roundtrip (h : CapHandle) (word : Z) : handle_ok h → is_u64 word →
  decode_cap_handle (encode_cap_handle (Some h)) = Some h ∧
  decode_required_cap_handle (encode_cap_handle (Some h)) = h ∧
  decode_cap_handle (encode_cap_handle None) = None ∧
  0 ≤ encode_cap_handle (Some h) < 2 ^ 48 ∧
  (word ≠ NULL_CAP_HANDLE → encode_cap_handle (decode_cap_handle word) = word `mod` 2 ^ 48) ∧
  handle_ok (decode_required_cap_handle word).
Proof.
  intros Hh Hw. pose proof (decode_required_encode h Hh) as Hd.
  destruct (encode_Some h Hh) as [_ Hr]. unfold decode_cap_handle at 1.
  rewrite bool_decide_false by (unfold NULL_CAP_HANDLE, U64_MAX; lia).
  change (CapHandle_from_raw _ _) with (decode_required_cap_handle (encode_cap_handle (Some h))).
  split_and!; [by rewrite Hd|done|done|lia|lia| |apply decode_handle_ok].
  intros Hne. unfold decode_cap_handle. rewrite bool_decide_false by done. apply encode_decode_required.
Qed.

Lemma cap_handle_roundtrip_witness :
  decode_cap_handle (encode_cap_handle (Some (CapHandle_from_raw 7 0xFFFFFFFF)))
    = Some (CapHandle_from_raw 7 0xFFFFFFFF) ∧
  encode_cap_handle (decode_cap_handle 0xFFFF000000050003) = 0x50003.
Proof.
  assert (H1 : handle_ok (CapHandle_from_raw 7 0xFFFFFFFF)) by (split; cbn; unfold is_u32; lia).
  assert (H2 : is_u64 0xFFFF000000050003) by (unfold is_u64; lia).
  destruct (cap_handle_roundtrip (CapHandle_from_raw 7 0xFFFFFFFF) 0xFFFF000000050003 H1 H2)
    as (R1 & _ & _ & _ & R2 & _).
  split; [exact R1|]. rewrite R2; [reflexivity|]. vm_compute. discriminate.
Defined.

(** The status word identifies the outcome.  The status of an error is a 64-bit
    word different from the success status, different errors have different
    statuses, and the family of the error is the word's bits from 8 on: 0 for the
    dispatcher's own errors, 1 for capability errors, 2 for IPC errors.  The number
    of a syscall decodes to that syscall, [console_write] only in a debug build, and
    every other number decodes to nothing. *)
Theorem abi_codes_are_faithful `{Build} (e e' : SyscallError) (n : SyscallNumber) (raw : Z) :
  (OK_STATUS < as_status e < 2 ^ 64) ∧
  (as_status e = as_status e' → e = e') ∧
  Z.shiftr (as_status e) 8 = match e with ECap _ => 1 | EIpc _ => 2 | _ => 0 end ∧
  (decode raw = Some n ↔ as_u64 n = raw ∧ (n = ConsoleWrite → debug_assertions = true)).
Proof.
  split_and!.
  - destruct e as [| | |[]|[]]; vm_compute; done.
  - destruct e as [| | |[]|[]]; vm_compute; done.
  - destruct e as [| | |[]|[]], e' as [| | |[]|[]]; vm_compute; congruence.
  - destruct e as [| | |[]|[]]; reflexivity.
  - unfold decode. split.
    + repeat case_bool_decide; destruct debug_assertions; intros E; simplify_eq/=; try done;
        by injection E as <-.
    + intros [<- Hd]. destruct n; cbn; [done..|]. by rewrite Hd.
Qed.
