(* ===== verification/UserAccess.v ===== *)
(** * Validated access to user memory (kernel/src/syscall/user_access.rs)

The per-task window, the page probe and the two copies.  The MMU's [translate]
is code of the board-support package behind the HAL trait, so it is a parameter
here; physical memory is a map from kernel virtual addresses to bytes. *)

From S2P Require Import Prelude.
From S2P Require Import Hal.
From S2P Require Import Arena.
From S2P Require Import Objects.
From S2P Require Import Caps.
From S2P Require Import CapTable.
From S2P Require Import Ipc.
From S2P Require Import SyscallError.
Local Open Scope Z_scope.

Definition PAGE_MASK : Z := PAGE_SIZE - 1.

(** [x & !PAGE_MASK]: [!] complements the 64 bits of a [usize]. *)
Definition page_base_of (x : Z) : Z := Z.land x (Z.lxor PAGE_MASK U64_MAX).

Record UserAccessWindow := { base : Z; len : Z }.

#[export] Instance UserAccessWindow_eq_dec : EqDecision UserAccessWindow.
Proof. solve_decision. Defined.

Definition window_new (base len : Z) : UserAccessWindow := {| base := base; len := len |}.
Definition window_empty : UserAccessWindow := {| base := 0; len := 0 |}.

Definition validate (self : UserAccessWindow) (ptr n : Z) : result SyscallError unit :=
  if bool_decide (n = 0) then Ok tt else
  match checked_add64 ptr n with
  | None => Err FaultAddress
  | Some end_ =>
      match checked_add64 (base self) (len self) with
      | None => Err FaultAddress
      | Some window_end =>
          if bool_decide (base self ≤ ptr) && bool_decide (end_ ≤ window_end) then Ok tt
          else Err FaultAddress
      end
  end.

(** Byte-addressed memory at kernel virtual addresses. *)
Definition Mem := Z → Z.

(** [Mmu::translate] of the running board, through the page tables in memory. *)
Class Translate (AS : Type) :=
  { translate : Mem → AS → VirtAddr → result MmuError (PhysFrame * MappingFlags) }.

(** [[ptr, ptr + n)] as a list, and the memory with [bs] written at [ptr]. *)
Definition read_bytes (m : Mem) (ptr : Z) (n : nat) : list Z :=
  (λ k, m (ptr + Z.of_nat k)) <$> seq 0 n.
Definition write_bytes (m : Mem) (ptr : Z) (bs : list Z) : Mem := λ a,
  if bool_decide (ptr ≤ a) then
    match bs !! Z.to_nat (a - ptr) with Some b => b | None => m a end
  else m a.

(** [dst[off..off + |bs|] = bs] for an in-range run. *)
Definition splice (dst : list Z) (off : Z) (bs : list Z) : list Z :=
  take (Z.to_nat off) dst ++ bs ++ drop (Z.to_nat off + length bs) dst.

Section access.
  Context `{Translate AS}.

(** The page walk of [probe_user_pages]; one round per page, and a range of [n]
    bytes spans at most [n / PAGE_SIZE + 2] pages. *)
Fixpoint probe_loop (fuel : nat) (m : Mem) (task_as : AS) (page end_ : Z)
    (require_write : bool) : P SyscallError unit :=
  match fuel with
  | O => ppanic
  | S fuel =>
      if bool_decide (page < end_) then
        match translate m task_as page with
        | Err _ => perr FaultAddress
        | Ok (_, flags) =>
            if negb (flags_contains flags USER) then perr FaultAddress else
            if require_write && negb (flags_contains flags WRITE) then perr FaultAddress else
            probe_loop fuel m task_as (saturating_add64 page PAGE_SIZE) end_ require_write
        end
      else pret tt
  end.

Definition page_rounds (n : Z) : nat := S (S (S (Z.to_nat (n `div` PAGE_SIZE)))).

Definition probe_user_pages (m : Mem) (task_as : AS) (user_ptr n : Z) (require_write : bool)
  : P SyscallError unit :=
  match checked_add64 user_ptr n with
  | None => perr FaultAddress
  | Some end_ =>
      probe_loop (page_rounds n) m task_as (page_base_of user_ptr) end_ require_write
  end.

(** Pass 2 of [copy_from_user]; the state is [dst].  Each round copies up to the end
    of a page. *)
Fixpoint copy_from_loop (fuel : nat) (mem : Mem) (task_as : AS) (user_ptr cur end_ : Z)
  : M (list Z) SyscallError unit :=
  match fuel with
  | O => panic
  | S fuel =>
      if bool_decide (cur < end_) then
        let page_base := page_base_of cur in
        let in_page := (cur - page_base) `mod` 2 ^ 64 in
        let page_remaining := (PAGE_SIZE - in_page) `mod` 2 ^ 64 in
        let run := Z.min page_remaining ((end_ - cur) `mod` 2 ^ 64) in
        match translate mem task_as page_base with
        | Err _ => throw FaultAddress
        | Ok (frame, flags) =>
            if negb (flags_contains flags USER) then throw FaultAddress else
            let dst_off := (cur - user_ptr) `mod` 2 ^ 64 in
            match phys_frame_kernel_ptr frame with
            | None => panic
            | Some kptr =>
                modify (λ dst, splice dst dst_off (read_bytes mem (kptr + in_page) (Z.to_nat run))) ;;
                match checked_add64 cur run with
                | None => throw FaultAddress
                | Some cur => copy_from_loop fuel mem task_as user_ptr cur end_
                end
            end
        end
      else ret tt
  end.

Definition copy_from_user (mem : Mem) (task_as : AS) (window : UserAccessWindow) (user_ptr : Z)
  : M (list Z) SyscallError unit :=
  let* n := gets (λ dst : list Z, Z.of_nat (length dst)) in
  let* _ := reads (λ _, Some (validate window user_ptr n)) in
  if bool_decide (n = 0) then ret tt else
  let* _ := reads (λ _, probe_user_pages mem task_as user_ptr n false) in
  match checked_add64 user_ptr n with
  | None => throw FaultAddress
  | Some end_ => copy_from_loop (page_rounds n) mem task_as user_ptr user_ptr end_
  end.

(** Pass 2 of [copy_to_user]; the state is memory. *)
Fixpoint copy_to_loop (fuel : nat) (task_as : AS) (src : list Z) (user_ptr cur end_ : Z)
  : M Mem SyscallError unit :=
  match fuel with
  | O => panic
  | S fuel =>
      if bool_decide (cur < end_) then
        let page_base := page_base_of cur in
        let in_page := (cur - page_base) `mod` 2 ^ 64 in
        let page_remaining := (PAGE_SIZE - in_page) `mod` 2 ^ 64 in
        let run := Z.min page_remaining ((end_ - cur) `mod` 2 ^ 64) in
        let* tr := reads (λ mem, Some (match translate mem task_as page_base with
                                       | Err _ => Err FaultAddress
                                       | Ok tr => Ok tr
                                       end)) in
        let frame := tr.1 in
        let flags := tr.2 in
        if negb (flags_contains flags USER) || negb (flags_contains flags WRITE)
        then throw FaultAddress else
        let src_off := (cur - user_ptr) `mod` 2 ^ 64 in
        match phys_frame_kernel_ptr frame with
        | None => panic
        | Some kptr =>
            modify (λ mem, write_bytes mem (kptr + in_page)
                             (take (Z.to_nat run) (drop (Z.to_nat src_off) src))) ;;
            match checked_add64 cur run with
            | None => throw FaultAddress
            | Some cur => copy_to_loop fuel task_as src user_ptr cur end_
            end
        end
      else ret tt
  end.

Definition copy_to_user (task_as : AS) (window : UserAccessWindow) (user_ptr : Z) (src : list Z)
  : M Mem SyscallError unit :=
  let n := Z.of_nat (length src) in
  let* _ := reads (λ _, Some (validate window user_ptr n)) in
  if bool_decide (n = 0) then ret tt else
  let* _ := reads (λ mem, probe_user_pages mem task_as user_ptr n true) in
  match checked_add64 user_ptr n with
  | None => throw FaultAddress
  | Some end_ => copy_to_loop (page_rounds n) task_as src user_ptr user_ptr end_
  end.
End access.
