(* ===== verification/UserAccessOps.v ===== *)
(** * The loops of user access

The page walk and the two copy loops, for a translation whose frames lie in the
kernel's direct map: every loop ends within its fuel, the walk accepts exactly the
ranges of accessible pages, and a copy moves exactly the bytes of the range. *)

From S2P Require Import Prelude.
From S2P Require Import Hal.
From S2P Require Import Arena.
From S2P Require Import Objects.
From S2P Require Import Caps.
From S2P Require Import CapTable.
From S2P Require Import Ipc.
From S2P Require Import SyscallError.
From S2P Require Import UserAccess.
Local Open Scope Z_scope.

(** ** Pages *)

Lemma land_not_mask x : 0 ≤ x < 2 ^ 64 →
  Z.land x (Z.lxor PAGE_MASK U64_MAX) = Z.ldiff x (Z.ones 12).
Proof.
  intros Hx. apply Z.bits_inj'. intros i Hi.
  rewrite Z.land_spec, Z.lxor_spec, Z.ldiff_spec.
  change PAGE_MASK with (Z.ones 12). change U64_MAX with (Z.ones 64).
  destruct (Z.lt_ge_cases i 64) as [H64|H64].
  - rewrite (Z.ones_spec_low 64 i) by lia. by rewrite xorb_true_r.
  - rewrite <- (Z.mod_small x (2 ^ 64)), Z.mod_pow2_bits_high by lia. done.
Qed.

Lemma page_base_eq x : 0 ≤ x < 2 ^ 64 → page_base_of x = x - x `mod` PAGE_SIZE.
Proof.
  intros Hx. unfold page_base_of. rewrite land_not_mask by done.
  rewrite Z.ldiff_ones_r, Z.shiftr_div_pow2, Z.shiftl_mul_pow2 by lia.
  change (2 ^ 12) with PAGE_SIZE. pose proof (Z.div_mod x PAGE_SIZE). unfold PAGE_SIZE in *. lia.
Qed.

Lemma page_base_props x : 0 ≤ x < 2 ^ 64 →
  page_base_of x `mod` PAGE_SIZE = 0 ∧ page_base_of x ≤ x < page_base_of x + PAGE_SIZE ∧ 0 ≤ page_base_of x.
Proof.
  intros Hx. rewrite page_base_eq by done. pose proof (Z.mod_pos_bound x PAGE_SIZE eq_refl).
  pose proof (Z.div_mod x PAGE_SIZE). unfold PAGE_SIZE in *. split; [|lia].
  replace (x - x `mod` 4096) with ((x `div` 4096) * 4096) by lia. apply Z.mod_mul. lia.
Qed.

Lemma page_base_unique x p : 0 ≤ x < 2 ^ 64 → p `mod` PAGE_SIZE = 0 → p ≤ x < p + PAGE_SIZE →
  page_base_of x = p.
Proof.
  intros Hx Hp Hr. rewrite page_base_eq by done. unfold PAGE_SIZE in *.
  pose proof (Z.div_mod p 4096). replace x with (x - p + (p `div` 4096) * 4096) at 2 by lia.
  rewrite Z.mod_add, Z.mod_small by lia. lia.
Qed.

Lemma page_base_within x k : 0 ≤ x → 0 ≤ k → x + k < 2 ^ 64 → k < PAGE_SIZE - (x - page_base_of x) →
  page_base_of (x + k) = page_base_of x.
Proof.
  intros Hx Hk Hlt Hin. destruct (page_base_props x) as (Hm & Hr & H0); [lia|].
  apply page_base_unique; [lia|done|lia].
Qed.

(** The fuel of the page loops covers every page a range of [n] bytes touches. *)
Lemma page_rounds_enough ptr n : 0 ≤ ptr < 2 ^ 64 → 0 ≤ n →
  ptr + n - page_base_of ptr + PAGE_SIZE ≤ Z.of_nat (page_rounds n) * PAGE_SIZE.
Proof.
  intros Hp Hn. destruct (page_base_props ptr Hp) as (_ & Hb & _).
  unfold page_rounds, PAGE_SIZE in *. pose proof (Z.div_mod n 4096). pose proof (Z.mod_pos_bound n 4096).
  rewrite !Nat2Z.inj_succ, Z2Nat.id by (apply Z.div_pos; lia). lia.
Qed.

Section access.
Context `{Translate AS}.
Implicit Types (mem m : Mem) (a : AS).

(** The leaf behind a page grants user access, to write as well if asked. *)
Definition page_ok mem a (w : bool) (page : Z) : bool :=
  match translate mem a page with
  | Err _ => false
  | Ok (_, flags) => flags_contains flags USER && (negb w || flags_contains flags WRITE)
  end.

Definition range_ok mem a (w : bool) (ptr n : Z) : Prop :=
  ∀ va, ptr ≤ va < ptr + n → page_ok mem a w (page_base_of va) = true.

(** The kernel address of a user byte. *)
Definition uaddr mem a (va : Z) : Z :=
  match translate mem a (page_base_of va) with
  | Ok (f, _) => default 0 (phys_frame_kernel_ptr f) + (va - page_base_of va)
  | Err _ => 0
  end.

(** Every frame the translation answers lies in the kernel's direct map. *)
Definition direct_mapped mem a : Prop :=
  ∀ page f flags, translate mem a page = Ok (f, flags) → is_Some (phys_frame_kernel_ptr f).

(** The bytes [[va, va + n)] of the user's address space. *)
Definition user_bytes mem a (va : Z) (n : nat) : list Z :=
  (λ k, mem (uaddr mem a (va + Z.of_nat k))) <$> seq 0 n.

(** ** The page walk *)

Lemma probe_loop_spec mem a w end_ fuel : ∀ page,
  0 ≤ page → end_ ≤ U64_MAX → (page `mod` PAGE_SIZE = 0 ∨ end_ ≤ page) →
  (page < end_ → end_ - page + PAGE_SIZE ≤ Z.of_nat fuel * PAGE_SIZE) → (1 ≤ fuel)%nat →
  ∃ r, probe_loop fuel mem a page end_ w = Some r ∧
    ((r = Ok tt ∧ ∀ p, page ≤ p < end_ → p `mod` PAGE_SIZE = 0 → page_ok mem a w p = true) ∨
     (r = Err FaultAddress ∧ ∃ p, page ≤ p < end_ ∧ p `mod` PAGE_SIZE = 0 ∧ page_ok mem a w p = false)).
Proof.
  unfold PAGE_SIZE. induction fuel as [|fuel IH]; intros page H0 He Hal Hf H1; [lia|].
  cbn [probe_loop]. case_bool_decide as Hlt.
  2:{ exists (Ok tt). split; [done|]. left. split; [done|]. intros p Hp. lia. }
  destruct Hal as [Hal|?]; [|lia].
  assert (Hbad : page_ok mem a w page = false → ∃ r : result SyscallError unit,
    Some (Err FaultAddress) = Some r ∧
    ((r = Ok tt ∧ ∀ p, page ≤ p < end_ → p `mod` 4096 = 0 → page_ok mem a w p = true) ∨
     (r = Err FaultAddress ∧ ∃ p, page ≤ p < end_ ∧ p `mod` 4096 = 0 ∧ page_ok mem a w p = false))).
  { intros Hb. eexists. split; [done|]. right. split; [done|]. exists page. split; [lia|]. done. }
  unfold page_ok at 1 in Hbad. destruct (translate mem a page) as [[f flags]|] eqn:Htr; [|by apply Hbad].
  destruct (flags_contains flags USER) eqn:Hu; cbn [negb andb] in *; [|by apply Hbad].
  assert (Hok : w && negb (flags_contains flags WRITE) = false → page_ok mem a w page = true).
  { intros Hw. unfold page_ok. rewrite Htr, Hu. by destruct w, (flags_contains flags WRITE). }
  destruct (w && negb (flags_contains flags WRITE)) eqn:Hw; [apply Hbad; by destruct w, (flags_contains flags WRITE)|].
  specialize (Hok eq_refl). unfold saturating_add64, PAGE_SIZE.
  assert (Hnext : Z.min (page + 4096) U64_MAX `mod` 4096 = 0 ∨ end_ ≤ Z.min (page + 4096) U64_MAX).
  { destruct (Z.le_ge_cases (page + 4096) U64_MAX).
    - left. rewrite Z.min_l by done. rewrite <- Z.add_mod_idemp_r by lia.
      by rewrite Z.mod_same, Z.add_0_r.
    - right. lia. }
  destruct (IH (Z.min (page + 4096) U64_MAX)) as (r & Hr & Hc);
    [unfold U64_MAX in *; lia|done|done|unfold U64_MAX in *; lia|specialize (Hf Hlt); lia|].
  exists r. split; [done|]. destruct Hc as [(-> & Hall)|(-> & p & Hp & Hpm & Hb)].
  - left. split; [done|]. intros p Hp Hpm. destruct (Z.eq_dec p page) as [->|Hne]; [done|].
    apply Hall; [|done]. split; [|lia]. apply Z.min_le_iff. left.
    pose proof (Z.div_mod p 4096). pose proof (Z.div_mod page 4096). lia.
  - right. split; [done|]. exists p. split; [unfold U64_MAX in *; lia|done].
Qed.

Lemma probe_user_pages_spec mem a w ptr n : 0 ≤ ptr → 0 < n → ptr + n ≤ U64_MAX →
  ∃ r, probe_user_pages mem a ptr n w = Some r ∧
    ((r = Ok tt ∧ range_ok mem a w ptr n) ∨ (r = Err FaultAddress ∧ ¬ range_ok mem a w ptr n)).
Proof.
  intros H0 Hn He. unfold probe_user_pages, checked_add64. rewrite bool_decide_true by done.
  unfold U64_MAX in He. destruct (page_base_props ptr) as (Hm & Hb & Hb0); [lia|].
  destruct (probe_loop_spec mem a w (ptr + n) (page_rounds n) (page_base_of ptr)) as (r & Hr & Hc).
  - done.
  - unfold U64_MAX. lia.
  - by left.
  - intros _. apply page_rounds_enough; lia.
  - unfold page_rounds. lia.
  - exists r. split; [done|]. destruct Hc as [(-> & Hall)|(-> & p & Hp & Hpm & Hbad)].
    + left. split; [done|]. intros va Hva. destruct (page_base_props va) as (Hvm & Hvb & _); [lia|].
      apply Hall; [|done]. split; [|lia].
      pose proof (Z.div_mod (page_base_of va) 4096). pose proof (Z.div_mod (page_base_of ptr) 4096).
      unfold PAGE_SIZE in *. lia.
    + right. split; [done|]. intros Hall. rewrite <- (page_base_unique (Z.max p ptr) p) in Hbad.
      * rewrite Hall in Hbad; [done|lia].
      * lia.
      * done.
      * pose proof (Z.div_mod p 4096). pose proof (Z.div_mod (page_base_of ptr) 4096).
        unfold PAGE_SIZE in *. lia.
Qed.

(** ** Copying from the user *)

Lemma user_bytes_app mem a va n1 n2 :
  user_bytes mem a va (n1 + n2) = user_bytes mem a va n1 ++ user_bytes mem a (va + Z.of_nat n1) n2.
Proof.
  unfold user_bytes. rewrite seq_app, fmap_app. f_equal.
  rewrite Nat.add_0_l, <- (Nat.add_0_r n1), <- fmap_add_seq, <- list_fmap_compose, Nat.add_0_r.
  apply list_fmap_ext. intros i k _. simpl. do 2 f_equal. lia.
Qed.

(** Within one page user bytes are contiguous behind the direct map. *)
Lemma uaddr_run mem a va k f flags kptr : 0 ≤ va → 0 ≤ k → va + k < 2 ^ 64 →
  k < PAGE_SIZE - (va - page_base_of va) →
  translate mem a (page_base_of va) = Ok (f, flags) → phys_frame_kernel_ptr f = Some kptr →
  uaddr mem a (va + k) = kptr + (va - page_base_of va) + k.
Proof.
  intros H0 Hk Hlt Hin Htr Hkp. unfold uaddr. rewrite page_base_within, Htr, Hkp by done. simpl. lia.
Qed.

Lemma read_bytes_run mem a va n f flags kptr : 0 ≤ va → va + Z.of_nat n ≤ U64_MAX →
  Z.of_nat n ≤ PAGE_SIZE - (va - page_base_of va) →
  translate mem a (page_base_of va) = Ok (f, flags) → phys_frame_kernel_ptr f = Some kptr →
  read_bytes mem (kptr + (va - page_base_of va)) n = user_bytes mem a va n.
Proof.
  intros H0 Hlt Hin Htr Hkp. unfold read_bytes, user_bytes. apply list_fmap_ext.
  intros i k Hik. apply lookup_seq in Hik as [-> Hi]. unfold U64_MAX in *. f_equal.
  symmetry. eapply uaddr_run; [lia|lia|lia|lia|done|done].
Qed.

(** One round of a copy: the run it moves and where it leads. *)
Record round_ok (cur end_ : Z) (fuel : nat) (in_page run : Z) : Prop := {
  ro_in : in_page = cur - page_base_of cur;
  ro_pos : 1 ≤ run;
  ro_page : run ≤ PAGE_SIZE - (cur - page_base_of cur);
  ro_end : cur + run ≤ end_;
  ro_next : checked_add64 cur run = Some (cur + run);
  ro_fuel : (cur + run < end_ → end_ - page_base_of (cur + run) + PAGE_SIZE ≤ Z.of_nat fuel * PAGE_SIZE);
  ro_fuel1 : (1 ≤ fuel)%nat;
}.

Lemma round_props cur end_ fuel : 0 ≤ cur → cur < end_ → end_ ≤ U64_MAX →
  end_ - page_base_of cur + PAGE_SIZE ≤ Z.of_nat (S fuel) * PAGE_SIZE →
  round_ok cur end_ fuel ((cur - page_base_of cur) `mod` 2 ^ 64)
    (Z.min ((PAGE_SIZE - (cur - page_base_of cur) `mod` 2 ^ 64) `mod` 2 ^ 64) ((end_ - cur) `mod` 2 ^ 64)).
Proof.
  intros H0 Hlt He Hf. unfold U64_MAX in He. destruct (page_base_props cur) as (Hm & Hb & Hb0); [lia|].
  unfold PAGE_SIZE in *. rewrite !(Z.mod_small _ (2 ^ 64)) by (rewrite ?Z.mod_small; lia).
  set (run := Z.min (4096 - (cur - page_base_of cur)) (end_ - cur)).
  split; unfold PAGE_SIZE; try lia.
  - unfold checked_add64. rewrite bool_decide_true by (unfold U64_MAX; lia). done.
  - intros Hmore. assert (run = 4096 - (cur - page_base_of cur)) as -> by lia.
    replace (cur + (4096 - (cur - page_base_of cur))) with (page_base_of cur + 4096) in * by lia.
    rewrite (page_base_unique (page_base_of cur + 4096) (page_base_of cur + 4096)); unfold PAGE_SIZE.
    + lia.
    + lia.
    + rewrite <- Z.add_mod_idemp_r by lia. by rewrite Z.mod_same, Z.add_0_r by lia.
    + lia.
Qed.

Lemma splice_app (dst : list Z) off bs : (length bs + Z.to_nat off ≤ length dst)%nat →
  take (Z.to_nat off + length bs)%nat (splice dst off bs) = take (Z.to_nat off) dst ++ bs.
Proof.
  intros Hle. unfold splice. rewrite app_assoc.
  rewrite take_app_length'; [done|]. rewrite length_app, length_take. lia.
Qed.

Lemma length_splice dst off bs : (length bs + Z.to_nat off ≤ length dst)%nat →
  length (splice dst off bs) = length dst.
Proof. intros Hle. unfold splice. rewrite !length_app, length_take, length_drop. lia. Qed.

Lemma length_user_bytes mem a va n : length (user_bytes mem a va n) = n.
Proof. unfold user_bytes. by rewrite length_fmap, length_seq. Qed.

Lemma copy_from_loop_wp mem a ptr end_ fuel : direct_mapped mem a → ∀ cur dst,
  0 ≤ ptr ≤ cur → cur ≤ end_ → end_ ≤ U64_MAX → Z.of_nat (length dst) = end_ - ptr →
  range_ok mem a false cur (end_ - cur) →
  (cur < end_ → end_ - page_base_of cur + PAGE_SIZE ≤ Z.of_nat fuel * PAGE_SIZE) → (1 ≤ fuel)%nat →
  wp (copy_from_loop fuel mem a ptr cur end_) dst (λ dst' r, r = Ok tt ∧
    dst' = take (Z.to_nat (cur - ptr)) dst ++ user_bytes mem a cur (Z.to_nat (end_ - cur))).
Proof.
  intros Hdm. induction fuel as [|fuel IH]; intros cur dst Hp Hc He Hlen Hr Hf H1; [lia|].
  cbn [copy_from_loop]. case_bool_decide as Hlt.
  2:{ red; cbn [ret]. split; [done|]. replace (end_ - cur) with 0 by lia. cbn.
      rewrite app_nil_r, take_ge; [done|lia]. }
  pose proof (round_props cur end_ fuel) as Hro. destruct Hro as [-> Hpos Hpg Hend Hnx Hfn Hf1]; [lia|done|done|by apply Hf|].
  set (run := Z.min _ _) in *. cbv zeta.
  assert (Hok : page_ok mem a false (page_base_of cur) = true) by (apply Hr; lia).
  unfold page_ok in Hok. destruct (translate mem a (page_base_of cur)) as [[f flags]|] eqn:Htr; [|done].
  rewrite andb_true_r in Hok. rewrite Hok. cbn [negb].
  destruct (Hdm _ _ _ Htr) as [kptr Hkp]. rewrite Hkp, Hnx.
  apply wp_bind. red; cbn [modify].
  rewrite (Z.mod_small (cur - ptr)) by (unfold U64_MAX in *; lia).
  rewrite (read_bytes_run mem a cur _ f flags kptr) by (first [done | lia]).
  set (bs := user_bytes mem a cur (Z.to_nat run)).
  assert (Hbs : length bs = Z.to_nat run) by apply length_user_bytes.
  eapply wp_mono; [apply IH; try done; try lia|].
  - rewrite length_splice by lia. done.
  - intros va Hva. apply Hr. lia.
  - intros dst' r (-> & ->). split; [done|].
    replace (Z.to_nat (cur + run - ptr)) with (Z.to_nat (cur - ptr) + length bs)%nat by lia.
    rewrite splice_app by lia. rewrite <- app_assoc. f_equal.
    replace (Z.to_nat (end_ - cur)) with (Z.to_nat run + Z.to_nat (end_ - (cur + run)))%nat by lia.
    rewrite user_bytes_app. unfold bs. rewrite Z2Nat.id by lia. done.
Qed.

Lemma copy_from_user_wp mem a window ptr dst : direct_mapped mem a →
  0 ≤ ptr ≤ U64_MAX → 0 ≤ base window ≤ U64_MAX → 
  let n := Z.of_nat (length dst) in
  wp (copy_from_user mem a window ptr) dst (λ dst' r,
    (r = Ok tt ∧ validate window ptr n = Ok tt ∧ range_ok mem a false ptr n ∧
     dst' = user_bytes mem a ptr (length dst)) ∨
    (r = Err FaultAddress ∧ dst' = dst ∧
     (validate window ptr n = Err FaultAddress ∨ (0 < n ∧ ¬ range_ok mem a false ptr n)))).
Proof.
  intros Hdm Hp Hw. cbv zeta. unfold copy_from_user. apply wp_bind. red; cbn [gets].
  apply wp_bind. red. unfold reads.
  assert (Hv : validate window ptr (Z.of_nat (length dst)) = Ok tt ∨
               validate window ptr (Z.of_nat (length dst)) = Err FaultAddress).
  { unfold validate. repeat case_match; auto. }
  destruct Hv as [Hv|Hv]; rewrite Hv; [|right; auto].
  case_bool_decide as H0.
  { red; cbn [ret]. left. split_and!; [done|done|intros va; lia|]. by destruct dst. }
  assert (He : ptr + Z.of_nat (length dst) ≤ U64_MAX).
  { unfold validate in Hv. rewrite bool_decide_false in Hv by done.
    unfold checked_add64 in Hv. by case_bool_decide. }
  apply wp_bind. red. unfold reads.
  destruct (probe_user_pages_spec mem a false ptr (Z.of_nat (length dst))) as (r & -> & [(-> & Hr)|(-> & Hr)]);
    [lia|lia|done| |right; split_and!; [done|done|right; lia || (split; [lia|done])]].
  unfold checked_add64. rewrite bool_decide_true by done.
  eapply wp_mono; [apply copy_from_loop_wp; try done; try lia|].
  - intros va Hva. apply Hr. lia.
  - intros _. apply page_rounds_enough; unfold U64_MAX in *; lia.
  - unfold page_rounds. lia.
  - intros dst' r (-> & ->). left. split_and!; [done|done|done|].
    replace (ptr + Z.of_nat (length dst) - ptr) with (Z.of_nat (length dst)) by lia.
    by rewrite Z.sub_diag, Nat2Z.id.
Qed.

(** ** Copying to the user *)

(** [bs] written byte by byte at the user addresses from [va] on. *)
Fixpoint write_user (tr : Z → Z) (va : Z) (bs : list Z) (m : Mem) : Mem :=
  match bs with
  | [] => m
  | b :: bs => write_user tr (va + 1) bs (λ x, if bool_decide (x = tr va) then b else m x)
  end.

Lemma write_user_app tr b1 : ∀ va b2 m,
  write_user tr va (b1 ++ b2) m = write_user tr (va + Z.of_nat (length b1)) b2 (write_user tr va b1 m).
Proof.
  induction b1 as [|b b1 IH]; intros va b2 m; cbn [write_user app length].
  - by rewrite Z.add_0_r.
  - rewrite IH. f_equal. lia.
Qed.

Lemma write_user_ext tr bs : ∀ va m m', (∀ x, m x = m' x) →
  ∀ x, write_user tr va bs m x = write_user tr va bs m' x.
Proof.
  induction bs as [|b bs IH]; intros va m m' Hm x; cbn [write_user]; [done|].
  apply IH. intros y. by case_bool_decide.
Qed.

Lemma write_user_other tr bs : ∀ va m x,
  (∀ k, 0 ≤ k < Z.of_nat (length bs) → x ≠ tr (va + k)) → write_user tr va bs m x = m x.
Proof.
  induction bs as [|b bs IH]; intros va m x Hx; cbn [write_user length] in *; [done|].
  rewrite IH.
  - rewrite bool_decide_false; [done|]. rewrite <- (Z.add_0_r va). apply Hx. lia.
  - intros k Hk. replace (va + 1 + k) with (va + (k + 1)) by lia. apply Hx. lia.
Qed.

Lemma write_user_hit tr bs : ∀ va m k b,
  (∀ i j, 0 ≤ i < Z.of_nat (length bs) → 0 ≤ j < Z.of_nat (length bs) →
     tr (va + i) = tr (va + j) → i = j) →
  bs !! k = Some b → write_user tr va bs m (tr (va + Z.of_nat k)) = b.
Proof.
  induction bs as [|c bs IH]; intros va m k b Hinj Hk; cbn [write_user length] in *; [done|].
  destruct k as [|k]; cbn in Hk.
  - injection Hk as ->. rewrite Z.add_0_r, write_user_other.
    + by rewrite bool_decide_true.
    + intros j Hj E. replace (va + 1 + j) with (va + (j + 1)) in E by lia.
      rewrite <- (Z.add_0_r va) in E at 1. apply Hinj in E; lia.
  - replace (va + Z.of_nat (S k)) with (va + 1 + Z.of_nat k) by lia. apply IH; [|done].
    intros i j Hi Hj E. replace (va + 1 + i) with (va + (i + 1)) in E by lia.
    replace (va + 1 + j) with (va + (j + 1)) in E by lia. apply Hinj in E; lia.
Qed.

(** A run written through the direct map is the run written byte by byte. *)
Lemma write_bytes_run tr bs : ∀ va p m x,
  (∀ k, 0 ≤ k < Z.of_nat (length bs) → tr (va + k) = p + k) →
  write_bytes m p bs x = write_user tr va bs m x.
Proof.
  induction bs as [|b bs IH]; intros va p m x Htr; cbn [write_user length] in *.
  - unfold write_bytes. by case_bool_decide.
  - rewrite <- (IH (va + 1) (p + 1)).
    + assert (tr va = p) as -> by (rewrite <- (Z.add_0_r va), Htr by lia; lia).
      unfold write_bytes. repeat case_bool_decide; try lia.
      * replace (Z.to_nat (x - p)) with (S (Z.to_nat (x - (p + 1)))) by lia. cbn.
        by destruct (bs !! _).
      * subst x. by rewrite Z.sub_diag.
    + intros k Hk. replace (va + 1 + k) with (va + (k + 1)) by lia. rewrite Htr by lia. lia.
Qed.

(** The page tables do not lie in the user's buffer: a memory that differs there only
    translates alike. *)
Definition tables_outside mem a ptr n : Prop :=
  ∀ m', (∀ x, (∀ k, 0 ≤ k < n → x ≠ uaddr mem a (ptr + k)) → m' x = mem x) →
    ∀ page, translate m' a page = translate mem a page.

Section copy_to.
Context (mem : Mem) (a : AS) (ptr : Z) (src : list Z).
Context (Hdm : direct_mapped mem a) (Hto : tables_outside mem a ptr (Z.of_nat (length src))).

(** [m] is the memory with the bytes below [cur] written. *)
Definition written m cur : Prop :=
  ∀ x, m x = write_user (uaddr mem a) ptr (take (Z.to_nat (cur - ptr)) src) mem x.

Lemma written_translate m cur page : ptr ≤ cur ≤ ptr + Z.of_nat (length src) → written m cur →
  translate m a page = translate mem a page.
Proof.
  intros Hc Hm. apply Hto. intros x Hx. rewrite Hm. apply write_user_other.
  intros k Hk. apply Hx. rewrite length_take in Hk. lia.
Qed.

Lemma written_next m cur run f flags kptr : 0 ≤ ptr ≤ cur → 0 ≤ run →
  cur + run ≤ ptr + Z.of_nat (length src) → ptr + Z.of_nat (length src) ≤ U64_MAX →
  run ≤ PAGE_SIZE - (cur - page_base_of cur) →
  translate mem a (page_base_of cur) = Ok (f, flags) → phys_frame_kernel_ptr f = Some kptr →
  written m cur →
  written (write_bytes m (kptr + (cur - page_base_of cur))
             (take (Z.to_nat run) (drop (Z.to_nat (cur - ptr)) src))) (cur + run).
Proof.
  intros Hp Hrun Hend He Hpg Htr Hkp Hm x. unfold U64_MAX in He.
  set (bs := take (Z.to_nat run) (drop (Z.to_nat (cur - ptr)) src)).
  assert (Hbs : length bs = Z.to_nat run) by (unfold bs; rewrite length_take, length_drop; lia).
  rewrite (write_bytes_run (uaddr mem a) bs cur).
  2:{ intros k Hk. rewrite Hbs in Hk. eapply uaddr_run; [lia|lia|lia|lia|done|done]. }
  replace (take (Z.to_nat (cur + run - ptr)) src) with (take (Z.to_nat (cur - ptr)) src ++ bs).
  - rewrite write_user_app. rewrite length_take.
    replace (ptr + Z.of_nat (Z.to_nat (cur - ptr) `min` length src)%nat) with cur by lia.
    by apply write_user_ext.
  - unfold bs. replace (Z.to_nat (cur + run - ptr)) with (Z.to_nat (cur - ptr) + Z.to_nat run)%nat by lia.
    by rewrite take_take_drop.
Qed.

Lemma copy_to_loop_wp end_ fuel : end_ = ptr + Z.of_nat (length src) → ∀ cur m,
  0 ≤ ptr ≤ cur → cur ≤ end_ → end_ ≤ U64_MAX → range_ok mem a true cur (end_ - cur) →
  (cur < end_ → end_ - page_base_of cur + PAGE_SIZE ≤ Z.of_nat fuel * PAGE_SIZE) → (1 ≤ fuel)%nat →
  written m cur →
  wp (copy_to_loop fuel a src ptr cur end_) m (λ m' r, r = Ok tt ∧ written m' end_).
Proof.
  intros Hend. induction fuel as [|fuel IH]; intros cur m Hp Hc He Hr Hf H1 Hm; [lia|].
  cbn [copy_to_loop]. case_bool_decide as Hlt.
  2:{ red; cbn [ret]. split; [done|]. by assert (end_ = cur) as -> by lia. }
  pose proof (round_props cur end_ fuel) as Hro.
  destruct Hro as [-> Hpos Hpg Hle Hnx Hfn Hf1]; [lia|done|done|by apply Hf|].
  set (run := Z.min _ _) in *. cbv zeta.
  assert (Hok : page_ok mem a true (page_base_of cur) = true) by (apply Hr; lia).
  unfold page_ok in Hok. apply wp_bind. red. unfold reads.
  rewrite (written_translate m cur) by (first [done | lia]).
  destruct (translate mem a (page_base_of cur)) as [[f flags]|] eqn:Htr; [|done].
  cbn [negb orb fst snd] in *. apply andb_true_iff in Hok as [Hu Hw]. rewrite Hu, Hw. cbn [negb orb].
  destruct (Hdm _ _ _ Htr) as [kptr Hkp]. rewrite Hkp, Hnx.
  apply wp_bind. red; cbn [modify].
  rewrite (Z.mod_small (cur - ptr)) by (unfold U64_MAX in *; lia).
  apply IH; try done; try lia.
  - intros va Hva. apply Hr. lia.
  - eapply written_next; first [done | lia].
Qed.

Lemma copy_to_user_wp window : 0 ≤ ptr ≤ U64_MAX → 0 ≤ base window ≤ U64_MAX →
  let n := Z.of_nat (length src) in
  wp (copy_to_user a window ptr src) mem (λ mem' r,
    (r = Ok tt ∧ validate window ptr n = Ok tt ∧ range_ok mem a true ptr n ∧
     ∀ x, mem' x = write_user (uaddr mem a) ptr src mem x) ∨
    (r = Err FaultAddress ∧ mem' = mem ∧
     (validate window ptr n = Err FaultAddress ∨ (0 < n ∧ ¬ range_ok mem a true ptr n)))).
Proof.
  intros Hp Hw. cbv zeta. unfold copy_to_user. cbv zeta. apply wp_bind. red. unfold reads.
  assert (Hv : validate window ptr (Z.of_nat (length src)) = Ok tt ∨
               validate window ptr (Z.of_nat (length src)) = Err FaultAddress).
  { unfold validate. repeat case_match; auto. }
  destruct Hv as [Hv|Hv]; rewrite Hv; [|right; auto].
  case_bool_decide as H0.
  { red; cbn [ret]. left. split_and!; [done|done|intros va; lia|]. by destruct src. }
  assert (He : ptr + Z.of_nat (length src) ≤ U64_MAX).
  { unfold validate in Hv. rewrite bool_decide_false in Hv by done.
    unfold checked_add64 in Hv. by case_bool_decide. }
  apply wp_bind. red. unfold reads.
  destruct (probe_user_pages_spec mem a true ptr (Z.of_nat (length src))) as (r & -> & [(-> & Hr)|(-> & Hr)]);
    [lia|lia|done| |right; split_and!; [done|done|right; lia || (split; [lia|done])]].
  unfold checked_add64. rewrite bool_decide_true by done.
  eapply wp_mono; [apply copy_to_loop_wp; try done; try lia|].
  - intros va Hva. apply Hr. lia.
  - intros _. apply page_rounds_enough; unfold U64_MAX in *; lia.
  - unfold page_rounds. lia.
  - intros x. by rewrite Z.sub_diag.
  - intros m' r (-> & Hm). left. split_and!; [done|done|done|]. intros x. rewrite Hm. f_equal.
    replace (ptr + Z.of_nat (length src) - ptr) with (Z.of_nat (length src)) by lia.
    by rewrite Nat2Z.id, take_ge.
Qed.
End copy_to.
End access.
