(* ===== verification/UserAccessProps.v ===== *)
(** * Properties of user memory access

The two copies are total and all-or-nothing: they move exactly the bytes of a
range that lies in the task's window and in pages the task may access, and
otherwise change nothing. *)

From S2P Require Import Prelude.
From S2P Require Import Hal.
From S2P Require Import Arena.
From S2P Require Import Objects.
From S2P Require Import Caps.
From S2P Require Import CapTable.
From S2P Require Import Ipc.
From S2P Require Import SyscallError.
From S2P Require Import UserAccess.
From S2P Require Import UserAccessOps.
Local Open Scope Z_scope.

(** The range lies in the window, as integers without wrap-around. *)
Definition in_window (w : UserAccessWindow) (ptr n : Z) : Prop :=
  base w ≤ ptr ∧ ptr + n ≤ base w + len w ∧ base w + len w ≤ U64_MAX.

Lemma validate_iff w ptr n : 0 < n →
  validate w ptr n = Ok tt ↔ in_window w ptr n.
Proof.
  intros Hn. unfold validate, in_window, checked_add64. rewrite bool_decide_false by lia.
  repeat case_bool_decide; cbn; split; try done; try lia.
Qed.

Lemma validate_cases w ptr n : validate w ptr n = Ok tt ∨ validate w ptr n = Err FaultAddress.
Proof. unfold validate. repeat case_match; auto. Qed.

Section props.
Context `{Translate AS}.

(** When a copy of [n] bytes at [ptr] goes through. *)
Definition accessible (mem : Mem) (a : AS) (window : UserAccessWindow) (w : bool) (ptr n : Z) : Prop :=
  n = 0 ∨ in_window window ptr n ∧ range_ok mem a w ptr n.

Lemma copy_condition mem a window w ptr n r : 0 ≤ n →
  (r = Ok tt ∧ validate window ptr n = Ok tt ∧ range_ok mem a w ptr n ∨
   r = Err FaultAddress ∧ (validate window ptr n = Err FaultAddress ∨ 0 < n ∧ ¬ range_ok mem a w ptr n)) →
  (r = Ok tt ↔ accessible mem a window w ptr n) ∧ (r ≠ Ok tt → r = Err FaultAddress).
Proof.
  intros Hn. unfold accessible. destruct (decide (n = 0)) as [->|H0].
  - assert (validate window ptr 0 = Ok tt) as Hv by (unfold validate; by rewrite bool_decide_true).
    intros [(-> & _)|(-> & [Hc|[? _]])]; [by split; [split; [by left|]|]|congruence|lia].
  - rewrite <- (validate_iff window ptr n) by lia.
    intros [(-> & Hv & Hr)|(-> & Hc)]; (split; [split|]); try done; [by right|].
    intros [?|[Hv Hr]]; [lia|]. destruct Hc as [Hc|[_ Hc]]; congruence.
Qed.

(** C26: [copy_from_user] is total and all-or-nothing.  For a translation whose frames
    lie in the kernel's direct map and any pointer, window and buffer, it neither
    panics nor runs on.  It succeeds exactly when the range is empty, or lies in the
    window and every page it touches is mapped with user access; then the buffer
    holds the bytes of the range, each read through the translation of its own page.
    Otherwise it answers [FaultAddress] and the buffer is untouched. *)
Theorem copy_from_user_exact mem a window ptr (dst : list Z) :
  direct_mapped mem a → 0 ≤ ptr ≤ U64_MAX → 0 ≤ base window ≤ U64_MAX →
  let n := Z.of_nat (length dst) in
  ∃ dst' r, copy_from_user mem a window ptr dst = Some (dst', r) ∧
    (r = Ok tt ↔ accessible mem a window false ptr n) ∧
    (r = Ok tt → dst' = user_bytes mem a ptr (length dst)) ∧
    (r ≠ Ok tt → r = Err FaultAddress ∧ dst' = dst).
Proof.
  intros Hdm Hp Hw n. pose proof (copy_from_user_wp mem a window ptr dst Hdm Hp Hw) as Hwp.
  apply wp_run in Hwp as (dst' & r & Hr & Hc). exists dst', r. split; [done|].
  destruct (copy_condition mem a window false ptr n r) as [Hiff Hne]; [lia|naive_solver|].
  split; [done|]. split; [|intros Hr'; split; [by apply Hne|]]; destruct Hc as [(-> & _ & _ & ->)|(-> & -> & _)]; done.
Qed.

(** C27: [copy_to_user] is total and all-or-nothing.  Under the same conditions, and
    when the address space's page tables do not lie in the destination, it succeeds
    exactly when the range is empty, or lies in the window and every page it touches
    is mapped with user and write access.  Then memory outside the destination is
    untouched, and, where no two addresses of the range share a byte, every byte of
    the range is the source's.  Otherwise it answers [FaultAddress] and memory is
    untouched. *)
Theorem copy_to_user_exact mem a window ptr (src : list Z) :
  direct_mapped mem a → tables_outside mem a ptr (Z.of_nat (length src)) →
  0 ≤ ptr ≤ U64_MAX → 0 ≤ base window ≤ U64_MAX →
  let n := Z.of_nat (length src) in
  let addr := uaddr mem a in
  ∃ mem' r, copy_to_user a window ptr src mem = Some (mem', r) ∧
    (r = Ok tt ↔ accessible mem a window true ptr n) ∧
    (r = Ok tt →
       (∀ x, (∀ k, 0 ≤ k < n → x ≠ addr (ptr + k)) → mem' x = mem x) ∧
       ((∀ i j, 0 ≤ i < n → 0 ≤ j < n → addr (ptr + i) = addr (ptr + j) → i = j) →
        ∀ k b, src !! k = Some b → mem' (addr (ptr + Z.of_nat k)) = b)) ∧
    (r ≠ Ok tt → r = Err FaultAddress ∧ mem' = mem).
Proof.
  intros Hdm Hto Hp Hw n addr. pose proof (copy_to_user_wp mem a ptr src Hdm Hto window Hp Hw) as Hwp.
  apply wp_run in Hwp as (mem' & r & Hr & Hc). exists mem', r. split; [done|].
  destruct (copy_condition mem a window true ptr n r) as [Hiff Hne]; [lia|naive_solver|].
  split; [done|]. split; [|intros Hr'; split; [by apply Hne|]];
    destruct Hc as [(-> & _ & _ & Hm)|(-> & -> & _)]; try done.
  intros _. split.
  - intros x Hx. rewrite Hm. by apply write_user_other.
  - intros Hinj k b Hk. rewrite Hm. by apply write_user_hit.
Qed.
End props.

(** ** A sample address space: two user pages, the second read-only *)

Definition two_pages : Translate unit :=
  {| translate := λ _ _ page,
       if bool_decide (page = 0x1000) then Ok ({| frame_addr := 0x40005000 |}, flags_union USER WRITE)
       else if bool_decide (page = 0x2000) then Ok ({| frame_addr := 0x40003000 |}, USER)
       else Err NotMapped |}.

Definition counting : Mem := λ x, x `mod` 256.

Lemma two_pages_direct mem : direct_mapped (H := two_pages) mem tt.
Proof.
  intros page f flags. cbn. repeat case_bool_decide; intros [= <- <-];
    eexists; (vm_compute; reflexivity).
Qed.

Definition sample_window : UserAccessWindow := {| base := 0x1000; len := 0x2000 |}.

Lemma copy_from_user_exact_witness :
  copy_from_user (H := two_pages) counting tt sample_window 0x1FFE [0; 0; 0; 0]
    = Some (user_bytes (H := two_pages) counting tt 0x1FFE 4, Ok tt) ∧
  user_bytes (H := two_pages) counting tt 0x1FFE 4 = [254; 255; 0; 1].
Proof.
  split; [|vm_compute; reflexivity].
  destruct (copy_from_user_exact (H := two_pages) counting tt sample_window 0x1FFE [0; 0; 0; 0])
    as (dst' & r & Hr & Hiff & Hok & _).
  - apply two_pages_direct.
  - unfold U64_MAX. lia.
  - unfold U64_MAX. cbn. lia.
  - assert (Hd : r = Ok tt).
    { vm_compute in Hr. injection Hr as _ <-. reflexivity. }
    rewrite Hr, (Hok Hd), Hd. reflexivity.
Defined.

Lemma copy_to_user_exact_witness :
  (∃ mem', copy_to_user (H := two_pages) tt sample_window 0x1010 [7; 8] counting = Some (mem', Ok tt) ∧
     mem' (uaddr (H := two_pages) counting tt 0x1011) = 8) ∧
  copy_to_user (H := two_pages) tt sample_window 0x1FFF [7; 8] counting = Some (counting, Err FaultAddress).
Proof.
  assert (Hto : ∀ ptr n, tables_outside (H := two_pages) counting tt ptr n) by (intros ptr n m' _ page; reflexivity).
  split.
  - destruct (copy_to_user_exact (H := two_pages) counting tt sample_window 0x1010 [7; 8])
      as (mem' & r & Hr & Hiff & Hok & _); [apply two_pages_direct|apply Hto|unfold U64_MAX; lia|unfold U64_MAX; cbn; lia|].
    exists mem'. assert (Hd : r = Ok tt).
    { apply Hiff. right. split; [unfold in_window, U64_MAX; cbn; lia|]. intros va Hva. cbn in Hva.
      assert (va = 0x1010 ∨ va = 0x1011) as [-> | ->] by lia; vm_compute; reflexivity. }
    split; [by rewrite Hr, Hd|]. destruct (Hok Hd) as [_ Hhit].
    apply (Hhit) with (k := 1%nat); [|reflexivity].
    intros i j Hi Hj E. cbn in Hi, Hj. assert (Hc : ∀ k, k = 0 ∨ k = 1 → uaddr (H := two_pages) counting tt (0x1010 + k) = 0xFFFFFFFF40005010 + k).
    { intros k [->| ->]; vm_compute; reflexivity. }
    rewrite !Hc in E by lia. lia.
  - destruct (copy_to_user_exact (H := two_pages) counting tt sample_window 0x1FFF [7; 8])
      as (mem' & r & Hr & Hiff & _ & Hno); [apply two_pages_direct|apply Hto|unfold U64_MAX; lia|unfold U64_MAX; cbn; lia|].
    assert (Hd : r ≠ Ok tt).
    { intros [?|[_ Hrange]]%Hiff; [done|]. assert (Hva : 0x1FFF ≤ 0x2000 < 0x1FFF + 2) by lia.
      apply Hrange in Hva. vm_compute in Hva. discriminate. }
    destruct (Hno Hd) as [H1 H2]. by rewrite Hr, H1, H2.
Defined.
