(* ===== verification/Dispatch.v ===== *)
(** * The syscall dispatcher (kernel/src/syscall/dispatch.rs)

[dispatch] and the data-plane syscalls over the context the board hands in.  The
console is the bytes written to it so far. *)

From S2P Require Import Prelude.
From S2P Require Import Hal.
From S2P Require Import Arena.
From S2P Require Import Objects.
From S2P Require Import Caps.
From S2P Require Import CapTable.
From S2P Require Import Ipc.
From S2P Require Import SyscallError.
From S2P Require Import Abi.
From S2P Require Import UserAccess.
Local Open Scope Z_scope.

Definition CONSOLE_WRITE_CHUNK : Z := 256.

(** The [&mut] fields [queues] and [caller_table] are [sc_ipc]; memory is part of the
    context because [translate] and the copies read it. *)
Record SyscallContext (AS : Type) := {
  ep_arena : EndpointArena;
  sc_ipc : Ipc;
  console : list Z;
  user_window : UserAccessWindow;
  sc_mem : Mem;
  task_as : AS;
  has_current_task : bool;
}.
Arguments ep_arena {AS} _.
Arguments sc_ipc {AS} _.
Arguments console {AS} _.
Arguments user_window {AS} _.
Arguments sc_mem {AS} _.
Arguments task_as {AS} _.
Arguments has_current_task {AS} _.

Section dispatch.
Context `{Build} `{Translate AS}.

Definition set_ipc (i : Ipc) (c : SyscallContext AS) : SyscallContext AS :=
  {| ep_arena := ep_arena c; sc_ipc := i; console := console c; user_window := user_window c;
     sc_mem := sc_mem c; task_as := task_as c; has_current_task := has_current_task c |}.

(** [Console::write_bytes] *)
Definition console_write_bytes (bs : list Z) (c : SyscallContext AS) : SyscallContext AS :=
  {| ep_arena := ep_arena c; sc_ipc := sc_ipc c; console := console c ++ bs;
     user_window := user_window c; sc_mem := sc_mem c; task_as := task_as c;
     has_current_task := has_current_task c |}.

Notation Sys E A := (M (SyscallContext AS) E A).

Definition caller_table (c : SyscallContext AS) : CapabilityTable := table (sc_ipc c).

Definition on_sys_ipc {E A} (m : EndpointArena → M Ipc E A) : Sys E A := λ c,
  zoom sc_ipc set_ipc (m (ep_arena c)) c.

Definition sys_send {E} (xs : list Z) : Sys E SyscallReturn :=
  let ep_cap := decode_required_cap_handle (arg xs 0) in
  let msg := decode_send_message xs in
  let transfer := decode_cap_handle (arg xs 5) in
  let* r := attempt (on_sys_ipc (λ ep_arena, ipc_send ep_arena ep_cap msg transfer)) in
  match r with
  | Ok outcome => ret (with_payload 0 ret_ok (encode_send_outcome outcome))
  | Err e => ret (ret_error (EIpc e))
  end.

Definition sys_recv {E} (xs : list Z) : Sys E SyscallReturn :=
  let ep_cap := decode_required_cap_handle (arg xs 0) in
  let* r := attempt (on_sys_ipc (λ ep_arena, ipc_recv ep_arena ep_cap)) in
  match r with
  | Ok outcome => ret (encode_recv_outcome outcome)
  | Err e => ret (ret_error (EIpc e))
  end.

Definition validate_debug_console_cap (t : CapabilityTable) (cons_cap : CapHandle) : P CapError unit :=
  let? cap := lookup t cons_cap in
  if negb (bool_decide (cap_kind cap = KDebugConsole)) then perr WrongKind else
  if negb (contains (rights cap) CONSOLE_WRITE) then perr InsufficientRights else
  pret tt.

(** The copy-and-emit loop; one round per chunk, so [len / CONSOLE_WRITE_CHUNK + 2]
    rounds are enough. *)
Fixpoint console_loop (fuel : nat) (ptr len offset : Z) (buf : list Z) : Sys SyscallError unit :=
  match fuel with
  | O => panic
  | S fuel =>
      if bool_decide (offset < len) then
        let remaining := (len - offset) `mod` 2 ^ 64 in
        let chunk := Z.min remaining CONSOLE_WRITE_CHUNK in
        match checked_add64 ptr offset with
        | None => throw FaultAddress
        | Some chunk_ptr => λ c,
            match copy_from_user (sc_mem c) (task_as c) (user_window c) chunk_ptr
                    (take (Z.to_nat chunk) buf) with
            | None => None
            | Some (_, Err e) => Some (c, Err e)
            | Some (bs, Ok _) =>
                let buf := bs ++ drop (Z.to_nat chunk) buf in
                (modify (console_write_bytes (take (Z.to_nat chunk) buf)) ;;
                 match checked_add64 offset chunk with
                 | None => throw FaultAddress
                 | Some next => console_loop fuel ptr len next buf
                 end) c
            end
        end
      else ret tt
  end.

Definition console_rounds (len : Z) : nat := S (S (Z.to_nat (len `div` CONSOLE_WRITE_CHUNK))).

(** Every early [return SyscallReturn::error(e)] is [throw e] here. *)
Definition console_write_body (xs : list Z) : Sys SyscallError SyscallReturn :=
  let cons_cap := decode_required_cap_handle (arg xs 0) in
  let ptr := arg xs 1 in
  let len := arg xs 2 in
  let* _ := reads (λ c, pmap_err ECap (validate_debug_console_cap (caller_table c) cons_cap)) in
  let* _ := reads (λ c, Some (validate (user_window c) ptr len)) in
  let* _ := (if bool_decide (0 < len)
             then reads (λ c, probe_user_pages (sc_mem c) (task_as c) ptr len false)
             else ret tt) in
  console_loop (console_rounds len) ptr len 0 (replicate (Z.to_nat CONSOLE_WRITE_CHUNK) 0) ;;
  ret (with_payload 0 ret_ok len).

Definition sys_console_write {E} (xs : list Z) : Sys E SyscallReturn :=
  let* r := attempt (console_write_body xs) in
  match r with
  | Ok r => ret r
  | Err e => ret (ret_error e)
  end.

Definition dispatch {E} (a : SyscallArgs) : Sys E SyscallEffect :=
  match decode (number a) with
  | None => ret (Resume (ret_error BadSyscallNumber))
  | Some Send => let* r := sys_send (args a) in ret (Resume r)
  | Some Recv => let* r := sys_recv (args a) in ret (Resume r)
  | Some TaskYield =>
      let* cur := gets has_current_task in
      if cur then ret Reschedule else ret (Resume (ret_error (ECap InvalidHandle)))
  | Some TaskExit =>
      let* cur := gets has_current_task in
      if cur then ret (Terminate (arg (args a) 0))
      else ret (Resume (ret_error (ECap InvalidHandle)))
  | Some ConsoleWrite => let* r := sys_console_write (args a) in ret (Resume r)
  end.
End dispatch.
