(* ===== verification/IpcSpec.v ===== *)
(** * Specifications of the IPC operations

An endpoint's queue slot is reset lazily when its generation is stale, so the
state of an endpoint is read through [ep_state].  With the queues well formed for
the endpoint arena, each operation is a transition of that state machine, an
error that leaves every endpoint and the table as they were, and never a panic. *)

From S2P Require Import Prelude.
From S2P Require Import Chain.
From S2P Require Import Arena.
From S2P Require Import Objects.
From S2P Require Import Caps.
From S2P Require Import CapTable.
From S2P Require Import CapTableInv.
From S2P Require Import CapTableOps.
From S2P Require Import Ipc.

(** ** The queues *)

Definition ep_index (h : EndpointHandle) : nat := id_index (endpoint_slot h).
Definition ep_gen (h : EndpointHandle) : Z := id_generation (endpoint_slot h).

(** The state of the endpoint [h] names: [Idle] while its slot is stale. *)
Definition ep_state (q : IpcQueues) (h : EndpointHandle) : EndpointState :=
  if decide (slot_generations q !! ep_index h = Some (ep_gen h))
  then default Idle (states q !! ep_index h) else Idle.

(** The queues with [h]'s endpoint in state [st]. *)
Definition put (h : EndpointHandle) (st : EndpointState) (q : IpcQueues) : IpcQueues :=
  {| states := <[ep_index h := st]> (states q);
     slot_generations := <[ep_index h := ep_gen h]> (slot_generations q) |}.

(** The queues are sized for the arena, and no slot whose endpoint has been replaced
    still holds a capability in flight (the drain-before-destroy discipline). *)
Record IpcWF (ep_arena : EndpointArena) (q : IpcQueues) : Prop := {
  iw_states : length (states q) = ENDPOINT_ARENA_CAPACITY;
  iw_gens : length (slot_generations q) = ENDPOINT_ARENA_CAPACITY;
  iw_arena : length (Arena.slots ep_arena) = ENDPOINT_ARENA_CAPACITY;
  iw_drained : ∀ i s st, Arena.slots ep_arena !! i = Some s → states q !! i = Some st →
    slot_generations q !! i ≠ Some (Arena.generation s) → in_flight_cap st = None;
}.

Definition live_ep (ep_arena : EndpointArena) (h : EndpointHandle) : Prop :=
  is_Some (get ep_arena (endpoint_slot h)).

Section queues.
Context (ep_arena : EndpointArena) (h : EndpointHandle) (Hlive : live_ep ep_arena h).

Lemma live_slot : ∃ s, Arena.slots ep_arena !! ep_index h = Some s ∧ Arena.generation s = ep_gen h.
Proof. destruct Hlive as [v (s & Hs & Hg & _)%get_Some]. eauto. Qed.

Lemma live_bound q : IpcWF ep_arena q → ep_index h < ENDPOINT_ARENA_CAPACITY.
Proof.
  intros Hq. destruct live_slot as (s & Hs & _). apply lookup_lt_Some in Hs.
  by rewrite (iw_arena _ _ Hq) in Hs.
Qed.

Lemma ep_state_put q st : IpcWF ep_arena q → ep_state (put h st q) h = st.
Proof.
  intros Hq. pose proof (live_bound q Hq). unfold ep_state, put; simpl.
  rewrite !list_lookup_insert_eq by (rewrite ?(iw_states _ _ Hq), ?(iw_gens _ _ Hq); lia).
  by rewrite decide_True.
Qed.

Lemma ep_state_put_ne q st h' : ep_index h' ≠ ep_index h → ep_state (put h st q) h' = ep_state q h'.
Proof. intros Hne. unfold ep_state, put; simpl. by rewrite !list_lookup_insert_ne. Qed.

Lemma put_put q st st' : put h st (put h st' q) = put h st q.
Proof. unfold put; simpl. by rewrite !list_insert_insert_eq. Qed.

Lemma set_state_put q st st' : set_state (ep_index h) st (put h st' q) = put h st q.
Proof. unfold set_state, put; simpl. by rewrite !list_insert_insert_eq. Qed.

Lemma lookup_put q st : IpcWF ep_arena q → states (put h st q) !! ep_index h = Some st.
Proof.
  intros Hq. pose proof (live_bound q Hq). simpl. apply list_lookup_insert_eq.
  rewrite (iw_states _ _ Hq). lia.
Qed.

Lemma put_WF q st : IpcWF ep_arena q → IpcWF ep_arena (put h st q).
Proof.
  intros Hq. pose proof (live_bound q Hq) as Hb. split; simpl.
  - rewrite length_insert. apply Hq.
  - rewrite length_insert. apply Hq.
  - apply Hq.
  - intros i s st' Hs. destruct (decide (i = ep_index h)) as [->|Hne].
    + rewrite !list_lookup_insert_eq by (rewrite ?(iw_states _ _ Hq), ?(iw_gens _ _ Hq); lia).
      destruct live_slot as (s' & Hs' & Hg). congruence.
    + rewrite !list_lookup_insert_ne by done. by apply Hq.
Qed.

(** When the slot's recorded generation is stale, its state carries nothing. *)
Lemma put_ep_state_current q : IpcWF ep_arena q →
  slot_generations q !! ep_index h = Some (ep_gen h) → put h (ep_state q h) q = q.
Proof.
  intros Hq Hg. pose proof (live_bound q Hq) as Hb. unfold put, ep_state.
  rewrite decide_True by done.
  destruct (lookup_lt_is_Some_2 (states q) (ep_index h)) as [st Hst]; [rewrite (iw_states _ _ Hq); lia|].
  rewrite Hst. simpl. rewrite !list_insert_id by done. by destruct q.
Qed.

Context `{Build}.

Lemma reset_eq {E} q : IpcWF ep_arena q →
  reset_if_stale_generation (E := E) h q = Some (put h (ep_state q h) q, Ok (ep_index h)).
Proof.
  intros Hq. pose proof (live_bound q Hq) as Hb.
  destruct (lookup_lt_is_Some_2 (slot_generations q) (ep_index h)) as [g Hg]; [rewrite (iw_gens _ _ Hq); lia|].
  destruct (lookup_lt_is_Some_2 (states q) (ep_index h)) as [st Hst]; [rewrite (iw_states _ _ Hq); lia|].
  unfold reset_if_stale_generation, bind, idx.
  change (id_index (endpoint_slot h)) with (ep_index h).
  change (id_generation (endpoint_slot h)) with (ep_gen h).
  rewrite Hg. case_bool_decide as Hgen; cbn [negb].
  - subst g. rewrite put_ep_state_current by done. done.
  - rewrite Hst. destruct live_slot as (s & Hs & Hsg).
    assert (Hnone : in_flight_cap st = None) by (apply (iw_drained _ _ Hq _ s st Hs Hst); congruence).
    unfold debug_assert, put_state, bind, idx, modify, ret. rewrite Hnone. simpl.
    rewrite andb_false_r, Hst. simpl. rewrite Hg.
    unfold ep_state. rewrite decide_False by congruence. done.
Qed.

Lemma peek_eq {E} q : IpcWF ep_arena q →
  peek_state (E := E) h q = Some (put h (ep_state q h) q, Ok (ep_state q h)).
Proof.
  intros Hq. unfold peek_state, bind. rewrite reset_eq by done.
  unfold idx. by rewrite lookup_put.
Qed.

Lemma state_of_eq {E} q : IpcWF ep_arena q →
  state_of (E := E) h q = Some (put h (ep_state q h) q, Ok (ep_index h)).
Proof.
  intros Hq. unfold state_of, bind. rewrite reset_eq by done.
  unfold idx. by rewrite lookup_put.
Qed.

Lemma put_state_eq {E} q st st' : IpcWF ep_arena q →
  put_state (E := E) (ep_index h) st (put h st' q) = Some (put h st q, Ok tt).
Proof.
  intros Hq. unfold put_state, bind, idx. rewrite lookup_put by done.
  unfold modify. by rewrite set_state_put.
Qed.

Lemma take_state_eq {E} q st : IpcWF ep_arena q →
  take_state (E := E) (ep_index h) (put h st q) = Some (put h Idle q, Ok st).
Proof.
  intros Hq. unfold take_state, bind, idx. rewrite lookup_put by done.
  by rewrite put_state_eq.
Qed.
End queues.

Lemma IpcQueues_new_WF ep_arena : Arena.WF ENDPOINT_ARENA_CAPACITY ep_arena →
  IpcWF ep_arena IpcQueues_new.
Proof.
  intros Ha. split.
  - done.
  - done.
  - apply Ha.
  - intros i s st _ Hst _. unfold IpcQueues_new in Hst. cbn [states] in Hst.
    apply list_lookup_fmap_Some in Hst as (? & -> & _). done.
Qed.

(** ** The capabilities in the system *)

(** The capabilities a table holds, and those parked in endpoint states. *)
Definition held (t : CapabilityTable) : list Capability :=
  pick (λ i, capability <$> ent t i) (seq 0 CAP_TABLE_CAPACITY).
Definition in_flight (q : IpcQueues) : list Capability :=
  pick (λ i, states q !! i ≫= in_flight_cap) (seq 0 ENDPOINT_ARENA_CAPACITY).

Arguments held : simpl never.
Arguments in_flight : simpl never.

Lemma held_Cut t t' i e : WF t → Cut t t' i e → held t ≡ₚ capability e :: held t'.
Proof.
  intros Hwf Hc. apply (pick_add _ _ _ i).
  - apply NoDup_seq.
  - apply elem_of_seq. pose proof (ent_lt t Hwf i e (cut_live _ _ _ _ Hc)). lia.
  - by rewrite (cut_ent _ _ _ _ Hc), decide_True.
  - by rewrite (cut_live _ _ _ _ Hc).
  - intros j Hj. rewrite (cut_ent _ _ _ _ Hc), decide_False by done. by destruct (ent t j).
Qed.

Lemma held_Inserted t t' i e : WF t → Inserted t t' i e → held t' ≡ₚ capability e :: held t.
Proof.
  intros Hwf Hi. apply (pick_add _ _ _ i).
  - apply NoDup_seq.
  - apply elem_of_seq. pose proof (free_head_empty t Hwf i (ins_head _ _ _ _ Hi)). lia.
  - by rewrite (ins_fresh _ _ _ _ Hi).
  - by rewrite (ins_ent _ _ _ _ Hi), decide_True.
  - intros j Hj. rewrite (ins_ent _ _ _ _ Hi), decide_False by done.
    unfold relink. case_decide; by destruct (ent t j).
Qed.

Section in_flight.
Context (ep_arena : EndpointArena) (h : EndpointHandle) (Hlive : live_ep ep_arena h).
Context (q : IpcQueues) (Hq : IpcWF ep_arena q).

Lemma in_flight_slot :
  states q !! ep_index h ≫= in_flight_cap = in_flight_cap (ep_state q h).
Proof.
  pose proof (live_bound _ _ Hlive q Hq) as Hb. unfold ep_state.
  destruct (lookup_lt_is_Some_2 (states q) (ep_index h)) as [st Hst]; [rewrite (iw_states _ _ Hq); lia|].
  rewrite Hst. simpl. case_decide as Hg; [done|].
  destruct (live_slot _ _ Hlive) as (s & Hs & Hsg).
  by rewrite (iw_drained _ _ Hq _ s st Hs Hst) by congruence.
Qed.

Lemma in_flight_put_same st : in_flight_cap st = in_flight_cap (ep_state q h) →
  in_flight (put h st q) = in_flight q.
Proof.
  intros Hst. apply pick_ext. intros i _. pose proof (live_bound _ _ Hlive q Hq) as Hb.
  simpl. rewrite lookup_upd by (rewrite (iw_states _ _ Hq); lia).
  case_decide; [|done]. subst. simpl. by rewrite in_flight_slot.
Qed.

Lemma in_flight_put_add st c : in_flight_cap (ep_state q h) = None → in_flight_cap st = Some c →
  in_flight (put h st q) ≡ₚ c :: in_flight q.
Proof.
  intros Hn Hs. pose proof (live_bound _ _ Hlive q Hq) as Hb. apply (pick_add _ _ _ (ep_index h)).
  - apply NoDup_seq.
  - apply elem_of_seq. lia.
  - by rewrite in_flight_slot.
  - simpl. rewrite list_lookup_insert_eq by (rewrite (iw_states _ _ Hq); lia). done.
  - intros j Hj. simpl. by rewrite list_lookup_insert_ne.
Qed.

Lemma in_flight_put_remove st c : in_flight_cap (ep_state q h) = Some c → in_flight_cap st = None →
  in_flight q ≡ₚ c :: in_flight (put h st q).
Proof.
  intros Hn Hs. pose proof (live_bound _ _ Hlive q Hq) as Hb. apply (pick_add _ _ _ (ep_index h)).
  - apply NoDup_seq.
  - apply elem_of_seq. lia.
  - simpl. rewrite list_lookup_insert_eq by (rewrite (iw_states _ _ Hq); lia). done.
  - by rewrite in_flight_slot.
  - intros j Hj. simpl. by rewrite list_lookup_insert_ne.
Qed.
End in_flight.

(** ** Authority checks *)

(** [ep_cap] names the endpoint [h] with [right]. *)
Definition grants (t : CapabilityTable) (ep_cap : CapHandle) (right : CapRights)
    (h : EndpointHandle) : Prop :=
  ∃ e, named t ep_cap = Some e ∧ object (capability e) = OEndpoint h ∧
       contains (rights (capability e)) right = true.

(** Why the endpoint capability is rejected. *)
Definition ep_cap_error (t : CapabilityTable) (ep_cap : CapHandle) (right : CapRights)
    (x : IpcError) : Prop :=
  match x with
  | StaleHandle => named t ep_cap = None
  | WrongObjectKind => ∃ e, named t ep_cap = Some e ∧ ∀ h, object (capability e) ≠ OEndpoint h
  | MissingRight => ∃ e h, named t ep_cap = Some e ∧ object (capability e) = OEndpoint h ∧
                           contains (rights (capability e)) right = false
  | _ => False
  end.

(** Why the transfer capability is rejected before the endpoint is looked at. *)
Definition untransferable (t : CapabilityTable) (transfer : option CapHandle) : Prop :=
  ∃ x, transfer = Some x ∧
    (named t x = None ∨
     ∃ e, named t x = Some e ∧ contains (rights (capability e)) TRANSFER = false).

Section checks.
Context `{Build} {S A : Type} (s : S) (Q : S → result IpcError A → Prop).

Lemma wp_validate_ep t ep_cap right (k : EndpointHandle → M S IpcError A) :
  (∀ x, ep_cap_error t ep_cap right x → Q s (Err x)) →
  (∀ h, grants t ep_cap right h → wp (k h) s Q) →
  wp (bind (reads (λ _, validate_ep_cap t ep_cap right)) k) s Q.
Proof.
  intros He Hok. apply wp_bind. unfold wp, reads, validate_ep_cap.
  rewrite lookup_eq. destruct (named t ep_cap) as [e|] eqn:Hn; cbn.
  2:{ by apply (He StaleHandle). }
  destruct (object (capability e)) as [| h | | |] eqn:Ho;
    try (apply (He WrongObjectKind); exists e; split; [done|]; intros; congruence).
  destruct (contains (rights (capability e)) right) eqn:Hr; cbn.
  - apply Hok. by exists e.
  - apply (He MissingRight). by exists e, h.
Qed.

Lemma wp_check_transfer t transfer (k : unit → M S IpcError A) :
  (untransferable t transfer → Q s (Err InvalidTransferCap)) →
  ((∀ x, transfer = Some x → ∃ e, named t x = Some e ∧
      contains (rights (capability e)) TRANSFER = true) → wp (k tt) s Q) →
  wp (bind (reads (λ _, check_transfer t transfer)) k) s Q.
Proof.
  intros He Hok. apply wp_bind. unfold wp, reads, check_transfer.
  destruct transfer as [x|]; cbn; [|apply Hok; done].
  rewrite lookup_eq. destruct (named t x) as [e|] eqn:Hn; cbn.
  2:{ apply He. exists x. auto. }
  destruct (contains (rights (capability e)) TRANSFER) eqn:Hr; cbn.
  - apply Hok. intros ? [= <-]. eauto.
  - apply He. exists x. split; [done|]. right. eauto.
Qed.

Lemma wp_endpoint_live ep_arena h (k : unit → M S IpcError A) :
  (¬ live_ep ep_arena h → Q s (Err StaleHandle)) →
  (live_ep ep_arena h → wp (k tt) s Q) →
  wp (bind (reads (λ _, endpoint_live ep_arena h)) k) s Q.
Proof.
  intros He Hok. apply wp_bind. unfold wp, reads, endpoint_live. unfold live_ep in *.
  destruct (get ep_arena (endpoint_slot h)) as [v|]; cbn.
  - apply Hok. by eexists.
  - apply He. by intros [? ?].
Qed.
End checks.

Lemma wp_on_queues {E A B} (m : M IpcQueues E A) (k : A → M Ipc E B) s q a Q :
  m (queues s) = Some (q, Ok a) →
  wp (k a) {| queues := q; table := table s |} Q →
  wp (bind (on_queues m) k) s Q.
Proof. intros Hm Hk. apply wp_bind. unfold wp, on_queues, zoom. by rewrite Hm. Qed.

(** ** ipc_send *)

(** What [ipc_send] takes from the sender's table. *)
Definition taken (t : CapabilityTable) (transfer : option CapHandle) (owned : option Capability)
    (t' : CapabilityTable) : Prop :=
  match transfer with
  | None => owned = None ∧ t' = t
  | Some x => ∃ e, named t x = Some e ∧ contains (rights (capability e)) TRANSFER = true ∧
                   owned = Some (capability e) ∧ Cut t t' (ch_index x) e ∧ WF t'
  end.

Definition send_step (old : EndpointState) (msg : Message) (owned : option Capability)
    (new : EndpointState) (out : SendOutcome) : Prop :=
  (old = RecvWaiting ∧ new = RecvComplete msg owned ∧ out = Delivered) ∨
  (old = Idle ∧ new = SendPending msg owned ∧ out = Enqueued).

(** An error leaves the table alone and at most refreshes the slot of the endpoint that
    [ep_cap] names. *)
Definition unchanged (ep_arena : EndpointArena) (ep_cap : CapHandle) (right : CapRights) (s s' : Ipc) : Prop :=
  table s' = table s ∧
  (queues s' = queues s ∨
   ∃ h, grants (table s) ep_cap right h ∧ live_ep ep_arena h ∧
     queues s' = put h (ep_state (queues s) h) (queues s)).

(** Two live handles with the same index are the same handle. *)
Lemma live_ep_inj ep_arena h h' : live_ep ep_arena h → live_ep ep_arena h' →
  ep_index h' = ep_index h → h' = h.
Proof.
  intros [v Hv] [v' Hv'] Hi. apply get_Some in Hv as (s & Hs & Hg & _), Hv' as (s' & Hs' & Hg' & _).
  unfold ep_index in Hi. rewrite Hi in Hs'. assert (s' = s) as -> by congruence.
  destruct h as [[]], h' as [[]]; simpl in *; congruence.
Qed.

Lemma unchanged_states ep_arena c right s s' : IpcWF ep_arena (queues s) → unchanged ep_arena c right s s' →
  ∀ h', live_ep ep_arena h' → ep_state (queues s') h' = ep_state (queues s) h'.
Proof.
  intros Hq [_ [-> | (h & _ & Hl & ->)]] h' Hl'; [done|].
  destruct (decide (ep_index h' = ep_index h)) as [Hi|Hne].
  - rewrite (live_ep_inj ep_arena h h') by done. by rewrite (ep_state_put ep_arena).
  - by apply ep_state_put_ne.
Qed.

Definition send_error (ep_arena : EndpointArena) (s : Ipc) (ep_cap : CapHandle)
    (transfer : option CapHandle) (x : IpcError) : Prop :=
  ep_cap_error (table s) ep_cap SEND x ∨
  (x = StaleHandle ∧ ∃ h, grants (table s) ep_cap SEND h ∧ ¬ live_ep ep_arena h) ∨
  (x = InvalidTransferCap ∧
    (untransferable (table s) transfer ∨
     ∃ c e, transfer = Some c ∧ named (table s) c = Some e ∧ first_child e ≠ None)) ∨
  (x = QueueFull ∧ ∃ h, grants (table s) ep_cap SEND h ∧
    match ep_state (queues s) h with SendPending _ _ | RecvComplete _ _ => True | _ => False end).

Section operations.
Context `{Build} (ep_arena : EndpointArena) (s : Ipc).
Context (Hq : IpcWF ep_arena (queues s)) (Ht : WF (table s)).

Lemma take_cap_if_some_wp transfer :
  (∀ x, transfer = Some x → ∃ e, named (table s) x = Some e ∧
    contains (rights (capability e)) TRANSFER = true) →
  wp (take_cap_if_some transfer) (table s) (λ t' r,
    match r with
    | Ok owned => taken (table s) transfer owned t'
    | Err x => x = InvalidTransferCap ∧ t' = table s ∧
               ∃ c e, transfer = Some c ∧ named (table s) c = Some e ∧ first_child e ≠ None
    end).
Proof.
  intros Hx. destruct transfer as [x|]; cbn [take_cap_if_some]; [|red; cbn; done].
  destruct (Hx x eq_refl) as (e & He & Hr).
  apply wp_map_err, wp_bind. eapply wp_mono; [by apply cap_take_wp|].
  intros t' [c|err].
  - intros (e' & He' & -> & Hc & Hw). red; cbn. exists e'. split_and!; try done. congruence.
  - intros (-> & Herr). cbn. split; [done|]. split; [done|].
    destruct err; try done; [congruence|]. destruct Herr as (e' & He' & Hf). eauto.
Qed.

Definition send_post (ep_cap : CapHandle) (msg : Message) (transfer : option CapHandle)
    (s' : Ipc) (r : result IpcError SendOutcome) : Prop :=
  match r with
  | Err x => unchanged ep_arena ep_cap SEND s s' ∧ send_error ep_arena s ep_cap transfer x
  | Ok out => ∃ h owned new,
      grants (table s) ep_cap SEND h ∧ live_ep ep_arena h ∧
      taken (table s) transfer owned (table s') ∧
      send_step (ep_state (queues s) h) msg owned new out ∧
      queues s' = put h new (queues s)
  end.

(** The commit of a send, once the queue is known to have room. *)
Lemma send_commit_wp ep_cap msg transfer h :
  grants (table s) ep_cap SEND h → live_ep ep_arena h →
  (∀ x, transfer = Some x → ∃ e, named (table s) x = Some e ∧
    contains (rights (capability e)) TRANSFER = true) →
  ep_state (queues s) h = Idle ∨ ep_state (queues s) h = RecvWaiting →
  wp (let* owned := on_table (take_cap_if_some transfer) in
      let* i := on_queues (state_of h) in
      let* old := on_queues (take_state i) in
      match old with
      | RecvWaiting => on_queues (put_state i (RecvComplete msg owned)) ;; ret Delivered
      | Idle => on_queues (put_state i (SendPending msg owned)) ;; ret Enqueued
      | SendPending _ _ | RecvComplete _ _ => panic
      end)
     {| queues := put h (ep_state (queues s) h) (queues s); table := table s |}
     (send_post ep_cap msg transfer).
Proof.
  intros Hh Hlive Hx Hst. apply wp_bind, wp_zoom. cbn [table].
  eapply wp_mono; [by apply take_cap_if_some_wp|]. intros t' [owned|x].
  2:{ intros (-> & -> & Hc). split; [split; [done|]; right; eauto|]. right; right; left. auto. }
  intros Htaken. cbn [queues]. set (s2 := {| queues := _; table := t' |}).
  assert (Hq2 : IpcWF ep_arena (queues s2)) by (by apply put_WF).
  eapply wp_on_queues; [by apply (state_of_eq ep_arena)|].
  assert (ep_state (queues s2) h = ep_state (queues s) h) as -> by (by eapply ep_state_put).
  unfold s2 at 1; cbn [queues table]. rewrite put_put.
  eapply wp_on_queues; [by apply (take_state_eq ep_arena)|]. cbn [queues table].
  destruct Hst as [Hep|Hep]; rewrite Hep;
    (eapply wp_on_queues; [by apply (put_state_eq ep_arena)|]); red; cbn.
  - exists h, owned, (SendPending msg owned). split_and!; try done. right. auto.
  - exists h, owned, (RecvComplete msg owned). split_and!; try done. left. auto.
Qed.

Lemma ipc_send_wp ep_cap msg transfer :
  wp (ipc_send ep_arena ep_cap msg transfer) s (send_post ep_cap msg transfer).
Proof.
  unfold ipc_send. apply wp_validate_ep.
  { intros x Hx. split; [by split; [|left]|]. by left. }
  intros h Hh. apply wp_check_transfer.
  { intros Hu. split; [by split; [|left]|]. right; right; left. auto. }
  intros Hx. apply wp_endpoint_live.
  { intros Hn. split; [by split; [|left]|]. right; left. eauto. }
  intros Hlive. eapply wp_on_queues; [by apply (peek_eq ep_arena)|]. cbv beta.
  assert (Hfull : match ep_state (queues s) h with
                  | SendPending _ _ | RecvComplete _ _ => True | _ => False end →
    send_post ep_cap msg transfer
      {| queues := put h (ep_state (queues s) h) (queues s); table := table s |} (Err QueueFull)).
  { intros Hf. split; [split; [done|]; right; eauto|]. right; right; right. eauto. }
  pose proof (send_commit_wp ep_cap msg transfer h Hh Hlive Hx) as Hcommit.
  destruct (ep_state (queues s) h) eqn:Hep; auto; by apply Hfull.
Qed.

(** ** ipc_recv *)

(** What [ipc_recv] puts into the receiver's table. *)
Definition installed (t : CapabilityTable) (cap : option Capability) (got : option CapHandle)
    (t' : CapabilityTable) : Prop :=
  match cap with
  | None => got = None ∧ t' = t
  | Some c => ∃ x, got = Some x ∧
      inserted_at t t' x {| capability := c; parent := None; first_child := None;
                            next_sibling := None; depth := 0 |}
  end.

Definition recv_step (old : EndpointState) (t : CapabilityTable)
    (new : EndpointState) (t' : CapabilityTable) (out : RecvOutcome) : Prop :=
  match old with
  | SendPending msg cap | RecvComplete msg cap =>
      new = Idle ∧ ∃ got, out = Received msg got ∧ installed t cap got t'
  | Idle => new = RecvWaiting ∧ out = Pending ∧ t' = t
  | RecvWaiting => False
  end.

Definition recv_error (x : IpcError) (ep_cap : CapHandle) : Prop :=
  ep_cap_error (table s) ep_cap RECV x ∨
  (x = StaleHandle ∧ ∃ h, grants (table s) ep_cap RECV h ∧ ¬ live_ep ep_arena h) ∨
  (x = ReceiverTableFull ∧ is_full (table s) = true ∧
    ∃ h, grants (table s) ep_cap RECV h ∧ is_Some (in_flight_cap (ep_state (queues s) h))) ∨
  (x = QueueFull ∧ ∃ h, grants (table s) ep_cap RECV h ∧ ep_state (queues s) h = RecvWaiting).

Lemma install_cap_if_some_wp cap :
  (is_Some cap → is_full (table s) = false) →
  wp (install_cap_if_some cap) (table s) (λ t' r,
    match r with
    | Ok got => installed (table s) cap got t'
    | Err _ => False
    end).
Proof.
  intros Hf. destruct cap as [c|]; cbn [install_cap_if_some]; [|red; cbn; done].
  apply wp_map_err, wp_bind. eapply wp_mono; [by apply insert_root_wp|].
  intros t' [x|err].
  - intros Hi. red; cbn. eauto.
  - intros (_ & _ & Hfull). rewrite Hf in Hfull; [done|by eexists].
Qed.

Definition recv_post (ep_cap : CapHandle) (s' : Ipc) (r : result IpcError RecvOutcome) : Prop :=
  match r with
  | Err x => unchanged ep_arena ep_cap RECV s s' ∧ recv_error x ep_cap
  | Ok out => ∃ h new,
      grants (table s) ep_cap RECV h ∧ live_ep ep_arena h ∧
      recv_step (ep_state (queues s) h) (table s) new (table s') out ∧
      queues s' = put h new (queues s)
  end.

(** The commit of a receive, once there is room for what it delivers. *)
Lemma recv_commit_wp ep_cap h :
  grants (table s) ep_cap RECV h → live_ep ep_arena h →
  (is_Some (in_flight_cap (ep_state (queues s) h)) → is_full (table s) = false) →
  wp (let* i := on_queues (state_of h) in
      let* old := on_queues (take_state i) in
      match old with
      | SendPending msg cap | RecvComplete msg cap =>
          let* xfer := on_table (install_cap_if_some cap) in ret (Received msg xfer)
      | Idle => on_queues (put_state i RecvWaiting) ;; ret Pending
      | RecvWaiting => on_queues (put_state i RecvWaiting) ;; throw QueueFull
      end)
     {| queues := put h (ep_state (queues s) h) (queues s); table := table s |}
     (recv_post ep_cap).
Proof.
  intros Hh Hlive Hroom. set (s1 := {| queues := _; table := table s |}).
  assert (Hq1 : IpcWF ep_arena (queues s1)) by (by apply put_WF).
  eapply wp_on_queues; [by apply (state_of_eq ep_arena)|].
  assert (ep_state (queues s1) h = ep_state (queues s) h) as -> by (by eapply ep_state_put).
  unfold s1 at 1; cbn [queues table]; rewrite put_put.
  eapply wp_on_queues; [by apply (take_state_eq ep_arena)|]; cbn [queues table].
  assert (Hinst : ∀ msg cap,
    ep_state (queues s) h = SendPending msg cap ∨ ep_state (queues s) h = RecvComplete msg cap →
    wp (let* xfer := on_table (install_cap_if_some cap) in ret (Received msg xfer))
       {| queues := put h Idle (queues s); table := table s |} (recv_post ep_cap)).
  { intros msg cap Hst. apply wp_bind, wp_zoom; cbn [table queues].
    eapply wp_mono; [apply install_cap_if_some_wp|].
    { intros Hc. apply Hroom. by destruct Hst as [-> | ->]. }
    intros t' [got|x]; [|done]; intros Hi; red; cbn; exists h, Idle; split_and!; try done.
    destruct Hst as [-> | ->]; cbn; eauto. }
  destruct (ep_state (queues s) h) as [|msg cap| |msg cap] eqn:Hep.
  - eapply wp_on_queues; [by apply (put_state_eq ep_arena)|]; red; cbn.
    exists h, RecvWaiting. split_and!; try done. by rewrite Hep.
  - apply Hinst. auto.
  - eapply wp_on_queues; [by apply (put_state_eq ep_arena)|]; red; cbn. split.
    + split; [done|]; right; exists h; split; [done|]; cbn; by rewrite Hep.
    + right; right; right. split; [done|]. by exists h.
  - apply Hinst. auto.
Qed.

Lemma ipc_recv_wp ep_cap : wp (ipc_recv ep_arena ep_cap) s (recv_post ep_cap).
Proof.
  unfold ipc_recv. apply wp_validate_ep.
  { intros x Hx. split; [by split; [|left]|]. by left. }
  intros h Hh. apply wp_endpoint_live.
  { intros Hn. split; [by split; [|left]|]. right; left. eauto. }
  intros Hlive. eapply wp_on_queues; [by apply (peek_eq ep_arena)|]. cbv beta zeta.
  apply wp_bind. red; cbn [gets]. cbn [table].
  assert (Hpend : (match ep_state (queues s) h with
                   | SendPending _ (Some _) | RecvComplete _ (Some _) => true | _ => false end)
                  = bool_decide (is_Some (in_flight_cap (ep_state (queues s) h)))).
  { destruct (ep_state (queues s) h) as [|m [c|]| |m [c|]]; done. }
  rewrite Hpend. case_bool_decide as Hc; destruct (is_full (table s)) eqn:Hfull; cbn [andb];
    try (by apply recv_commit_wp).
  split; [split; [done|]; right; eauto|]. right; right; left. eauto.
Qed.
End operations.
