(* ===== verification/IpcProps.v ===== *)
(** * Properties of IPC

The transition theorems of [ipc_send] and [ipc_recv], the rendezvous round trip,
cancellation, notification, and the conservation of capabilities by any sequence
of operations of any number of tasks. *)

From S2P Require Import Prelude.
From S2P Require Import Chain.
From S2P Require Import Arena.
From S2P Require Import Objects.
From S2P Require Import Caps.
From S2P Require Import CapTable.
From S2P Require Import CapTableInv.
From S2P Require Import CapTableOps.
From S2P Require Import CapRevoke.
From S2P Require Import CapSpec.
From S2P Require Import Ipc.
From S2P Require Import IpcSpec.

(** ** Cancellation *)

(** Where [ipc_cancel_recv] leaves the endpoint. *)
Definition cancelled (st : EndpointState) : EndpointState :=
  match st with RecvWaiting => Idle | _ => st end.

Lemma ipc_cancel_recv_wp `{Build} ep_arena t q ep_cap : IpcWF ep_arena q →
  wp (ipc_cancel_recv ep_arena t ep_cap) q (λ q' r,
    match r with
    | Ok _ => ∃ h, grants t ep_cap RECV h ∧ live_ep ep_arena h ∧
                   q' = put h (cancelled (ep_state q h)) q
    | Err x => q' = q ∧ (ep_cap_error t ep_cap RECV x ∨
        (x = StaleHandle ∧ ∃ h, grants t ep_cap RECV h ∧ ¬ live_ep ep_arena h))
    end).
Proof.
  intros Hq. unfold ipc_cancel_recv. apply wp_validate_ep; [by auto|].
  intros h Hh. apply wp_endpoint_live; [intros Hn; split; [done|]; right; eauto|]. intros Hlive.
  apply wp_bind. red. rewrite (state_of_eq ep_arena) by done. apply wp_bind.
  red. unfold idx. rewrite lookup_put with (ep_arena := ep_arena) by done.
  destruct (ep_state q h) eqn:Hep; try (red; cbn; exists h; by rewrite Hep).
  red. rewrite (put_state_eq ep_arena) by done. exists h. by rewrite Hep.
Qed.

(** ** Conservation *)

(** Tasks and their tables; the endpoint arena is fixed while messages move. *)
Record sys := { sys_queues : IpcQueues; sys_tables : list CapabilityTable }.

Inductive ipc_op :=
| ISend (task : nat) (ep_cap : CapHandle) (msg : Message) (transfer : option CapHandle)
| IRecv (task : nat) (ep_cap : CapHandle)
| ICancel (task : nat) (ep_cap : CapHandle).

Definition op_task (o : ipc_op) : nat :=
  match o with ISend i _ _ _ | IRecv i _ | ICancel i _ => i end.

Section system.
Context `{Build} (ep_arena : EndpointArena).

Definition run_ipc (o : ipc_op) : M Ipc IpcError unit :=
  match o with
  | ISend _ ep_cap msg transfer => let* _ := ipc_send ep_arena ep_cap msg transfer in ret tt
  | IRecv _ ep_cap => let* _ := ipc_recv ep_arena ep_cap in ret tt
  | ICancel _ ep_cap =>
      let* t := gets table in on_queues (ipc_cancel_recv ep_arena t ep_cap)
  end.

(** One call of one task; a call by a task that does not exist does nothing. *)
Definition sys_step (o : ipc_op) (s : sys) : option sys :=
  match sys_tables s !! op_task o with
  | None => Some s
  | Some t =>
      match run_ipc o {| queues := sys_queues s; table := t |} with
      | None => None
      | Some (s', _) =>
          Some {| sys_queues := queues s';
                  sys_tables := <[op_task o := table s']> (sys_tables s) |}
      end
  end.

Fixpoint sys_run (os : list ipc_op) (s : sys) : option sys :=
  match os with
  | [] => Some s
  | o :: os => match sys_step o s with None => None | Some s' => sys_run os s' end
  end.

(** Every capability of the system: parked in an endpoint or held by a table. *)
Definition all_caps (s : sys) : list Capability :=
  in_flight (sys_queues s) ++ concat (held <$> sys_tables s).

Definition sys_ok (s : sys) : Prop :=
  IpcWF ep_arena (sys_queues s) ∧ Forall WF (sys_tables s).

Definition ipc_caps (s : Ipc) : list Capability := in_flight (queues s) ++ held (table s).

Definition ipc_ok (s : Ipc) : Prop := IpcWF ep_arena (queues s) ∧ WF (table s).

Lemma unchanged_ok c right s s' : ipc_ok s → unchanged ep_arena c right s s' →
  ipc_ok s' ∧ ipc_caps s' ≡ₚ ipc_caps s.
Proof.
  intros [Hq Ht] [Htab [Hsame|(h & _ & Hl & Hput)]]; unfold ipc_ok, ipc_caps; rewrite Htab.
  - by rewrite Hsame.
  - rewrite Hput. split; [split; [by apply put_WF|done]|].
    rewrite in_flight_put_same with (ep_arena := ep_arena); done.
Qed.

Lemma send_ok s ep_cap msg transfer : ipc_ok s →
  wp (ipc_send ep_arena ep_cap msg transfer) s (λ s' _, ipc_ok s' ∧ ipc_caps s' ≡ₚ ipc_caps s).
Proof.
  intros [Hq Ht]. eapply wp_mono; [by apply ipc_send_wp|].
  intros s' [out|x]; [|intros [Hu _]; by eapply unchanged_ok].
  intros (h & owned & new & _ & Hl & Htk & Hst & Hput). unfold ipc_ok, ipc_caps. rewrite Hput.
  assert (Hfl : in_flight_cap (ep_state (queues s) h) = None ∧ in_flight_cap new = owned).
  { destruct Hst as [(-> & -> & _)|(-> & -> & _)]; done. }
  destruct Hfl as [Hn Ho]. unfold taken in Htk. destruct transfer as [x|].
  - destruct Htk as (e & He & _ & -> & Hc & Hw). split; [split; [by apply put_WF|done]|].
    rewrite (in_flight_put_add ep_arena h Hl (queues s) Hq new (capability e)) by done.
    rewrite (held_Cut _ _ _ _ Ht Hc). simpl. by rewrite Permutation_middle.
  - destruct Htk as [-> ->]. split; [split; [by apply put_WF|done]|].
    rewrite in_flight_put_same with (ep_arena := ep_arena); [done..|]. by rewrite Hn, Ho.
Qed.

Lemma recv_ok s ep_cap : ipc_ok s →
  wp (ipc_recv ep_arena ep_cap) s (λ s' _, ipc_ok s' ∧ ipc_caps s' ≡ₚ ipc_caps s).
Proof.
  intros [Hq Ht]. eapply wp_mono; [by apply ipc_recv_wp|].
  intros s' [out|x]; [|intros [Hu _]; by eapply unchanged_ok].
  intros (h & new & _ & Hl & Hst & Hput). unfold ipc_ok, ipc_caps. rewrite Hput.
  assert (Hmsg : ∀ msg cap,
    (ep_state (queues s) h = SendPending msg cap ∨ ep_state (queues s) h = RecvComplete msg cap) →
    new = Idle → (∃ got, installed (table s) cap got (table s')) →
    (IpcWF ep_arena (put h new (queues s)) ∧ WF (table s')) ∧
    in_flight (put h new (queues s)) ++ held (table s') ≡ₚ in_flight (queues s) ++ held (table s)).
  { intros msg cap Hep -> [got Hi].
    assert (Hcap : in_flight_cap (ep_state (queues s) h) = cap) by (by destruct Hep as [-> | ->]).
    destruct cap as [c|].
    - destruct Hi as (y & -> & _ & _ & Hins & Hw). split; [split; [by apply put_WF|done]|].
      rewrite (held_Inserted _ _ _ _ Ht Hins). simpl.
      rewrite (in_flight_put_remove ep_arena h Hl (queues s) Hq Idle c) by done.
      simpl. by rewrite <- Permutation_middle.
    - destruct Hi as [-> ->]. split; [split; [by apply put_WF|done]|].
      rewrite in_flight_put_same with (ep_arena := ep_arena); done. }
  unfold recv_step in Hst. destruct (ep_state (queues s) h) as [|msg cap| |msg cap] eqn:Hep; [| |done|].
  - destruct Hst as (-> & _ & ->). split; [split; [by apply put_WF|done]|].
    rewrite in_flight_put_same with (ep_arena := ep_arena); [done..|]. by rewrite Hep.
  - destruct Hst as (-> & got & _ & Hi). eapply Hmsg; eauto.
  - destruct Hst as (-> & got & _ & Hi). eapply Hmsg; eauto.
Qed.

Lemma cancel_ok s ep_cap : ipc_ok s →
  wp (on_queues (ipc_cancel_recv ep_arena (table s) ep_cap)) s
     (λ s' _, ipc_ok s' ∧ ipc_caps s' ≡ₚ ipc_caps s).
Proof.
  intros [Hq Ht]. apply wp_zoom. eapply wp_mono; [by apply ipc_cancel_recv_wp|].
  intros q' [[]|x]; [|by intros [-> _]].
  intros (h & _ & Hl & ->). unfold ipc_ok, ipc_caps; cbn [queues table].
  split; [split; [by apply put_WF|done]|].
  rewrite in_flight_put_same with (ep_arena := ep_arena); [done..|].
  by destruct (ep_state (queues s) h).
Qed.

Lemma run_ipc_ok o s : ipc_ok s →
  wp (run_ipc o) s (λ s' _, ipc_ok s' ∧ ipc_caps s' ≡ₚ ipc_caps s).
Proof.
  intros Hs. destruct o; cbn [run_ipc]; apply wp_bind.
  - eapply wp_mono; [by apply send_ok|]. by intros s' [].
  - eapply wp_mono; [by apply recv_ok|]. by intros s' [].
  - red; cbn [gets]. by apply cancel_ok.
Qed.

(** One table of the system replaced. *)
Lemma concat_insert_perm (ts : list CapabilityTable) i t t' l l' :
  ts !! i = Some t → l' ++ held t' ≡ₚ l ++ held t →
  l' ++ concat (held <$> <[i := t']> ts) ≡ₚ l ++ concat (held <$> ts).
Proof.
  intros Ht Hp. rewrite <- (take_drop_middle ts i t Ht) at 2.
  rewrite insert_take_drop by (by eapply lookup_lt_Some).
  rewrite !fmap_app, !fmap_cons, !concat_app. simpl.
  rewrite (Permutation_app_swap_app l'), (Permutation_app_swap_app l), !(app_assoc _ (held _)).
  by rewrite Hp.
Qed.

Lemma sys_step_ok o s : sys_ok s → ∃ s', sys_step o s = Some s' ∧ sys_ok s' ∧ all_caps s' ≡ₚ all_caps s.
Proof.
  intros [Hq Hts]. unfold sys_step. destruct (sys_tables s !! op_task o) as [t|] eqn:Ht; [|by eexists].
  assert (Hok : ipc_ok {| queues := sys_queues s; table := t |}).
  { split; [done|]. by eapply Forall_lookup_1 in Hts. }
  pose proof (run_ipc_ok o _ Hok) as Hw. unfold wp in Hw.
  destruct (run_ipc o _) as [[s' r]|]; [|done]. destruct Hw as [[Hq' Ht'] Hp].
  eexists. split; [done|]. split.
  - split; [done|]. by apply Forall_insert.
  - unfold all_caps; cbn [sys_queues sys_tables]. by eapply concat_insert_perm.
Qed.

Lemma sys_run_ok os s : sys_ok s →
  ∃ s', sys_run os s = Some s' ∧ sys_ok s' ∧ all_caps s' ≡ₚ all_caps s.
Proof.
  revert s; induction os as [|o os IH]; intros s Hs; [eauto|].
  destruct (sys_step_ok o s Hs) as (s1 & H1 & Hs1 & Hp1). cbn [sys_run]. rewrite H1.
  destruct (IH s1 Hs1) as (s' & H' & Hs' & Hp'). exists s'. split_and!; [done..|].
  by rewrite Hp'.
Qed.
End system.

(** ** A sample system: one endpoint, a sender and a receiver *)

Definition ep_h : EndpointHandle := EndpointHandle_from_slot first_slot.

Definition sample_arena : EndpointArena :=
  match create_endpoint (H := debug_build) {| endpoint_id := 0 |} (Arena.new ENDPOINT_ARENA_CAPACITY) with
  | Some (a, _) => a
  | None => Arena.new 0
  end.

Lemma sample_arena_WF : Arena.WF ENDPOINT_ARENA_CAPACITY sample_arena.
Proof.
  pose proof (create_wp (H := debug_build) EndpointHandle_from_slot {| endpoint_id := 0 |}
    ENDPOINT_ARENA_CAPACITY (Arena.new ENDPOINT_ARENA_CAPACITY)) as Hc.
  assert (HN : ENDPOINT_ARENA_CAPACITY < 2 ^ 16) by (apply Nat.ltb_lt; vm_compute; reflexivity).
  specialize (Hc (arena_new_WF _ HN)). apply wp_run in Hc as (a & r & Hr & Hwf & _).
  unfold sample_arena, create_endpoint. by rewrite Hr.
Qed.

(** A table whose slot 0 is the endpoint with every right, slot 1 a transferable
    task capability. *)
Definition task_cap : Capability :=
  {| rights := union TRANSFER DUPLICATE; object := OTask (TaskHandle_from_slot first_slot) |}.
Definition sender_table : CapabilityTable :=
  default new (run_ops (H := debug_build)
    [InsertRoot {| rights := KNOWN_BITS; object := OEndpoint ep_h |}; InsertRoot task_cap] new).
Definition receiver_table : CapabilityTable :=
  default new (run_ops (H := debug_build)
    [InsertRoot {| rights := RECV; object := OEndpoint ep_h |}] new).

Lemma sender_table_WF : WF sender_table.
Proof.
  unfold sender_table.
  match goal with |- context [run_ops ?os _] =>
    destruct (run_ops_WF (H := debug_build) os new new_WF) as (t & Ht & Hw); by rewrite Ht end.
Qed.

Lemma receiver_table_WF : WF receiver_table.
Proof.
  unfold receiver_table.
  match goal with |- context [run_ops ?os _] =>
    destruct (run_ops_WF (H := debug_build) os new new_WF) as (t & Ht & Hw); by rewrite Ht end.
Qed.

Lemma sample_queues_WF : IpcWF sample_arena IpcQueues_new.
Proof. apply IpcQueues_new_WF, sample_arena_WF. Qed.

Definition h0 : CapHandle := CapHandle_from_raw 0 0.
Definition h1 : CapHandle := CapHandle_from_raw 1 0.
Definition hello : Message := {| label := 42; params := (1, 2, 3)%Z |}.

(** ** Properties *)

(** C28: [ipc_send] on every branch.  It never panics (its [unreachable!] arm and the
    in-flight assertion included).  On success the endpoint's state machine moves by
    exactly [RecvWaiting -> RecvComplete] (delivered) or [Idle -> SendPending]
    (enqueued), with the message and the taken capability, and the sender's table
    loses exactly the transferred capability; every error names its cause and leaves
    every endpoint's state and the table as they were. *)
Theorem ipc_send_transitions `{Build} ep_arena s ep_cap msg transfer :
  IpcWF ep_arena (queues s) → WF (table s) →
  ∃ s' r, ipc_send ep_arena ep_cap msg transfer s = Some (s', r) ∧
  IpcWF ep_arena (queues s') ∧ WF (table s') ∧
  match r with
  | Ok out => ∃ h owned,
      grants (table s) ep_cap SEND h ∧ live_ep ep_arena h ∧
      taken (table s) transfer owned (table s') ∧
      send_step (ep_state (queues s) h) msg owned (ep_state (queues s') h) out ∧
      ∀ h', ep_index h' ≠ ep_index h → ep_state (queues s') h' = ep_state (queues s) h'
  | Err x => send_error ep_arena s ep_cap transfer x ∧ table s' = table s ∧
             ∀ h', live_ep ep_arena h' → ep_state (queues s') h' = ep_state (queues s) h'
  end.
Proof.
  intros Hq Ht. pose proof (wp_and _ _ _ _ (send_ok ep_arena s ep_cap msg transfer (conj Hq Ht))
    (ipc_send_wp ep_arena s Hq Ht ep_cap msg transfer)) as Hw.
  apply wp_run in Hw as (s' & r & Hr & [[Hq' Ht'] _] & Hp).
  exists s', r. split; [done|]. split; [done|]. split; [done|]. destruct r as [out|x].
  - destruct Hp as (h & owned & new & Hg & Hl & Htk & Hst & Hput). exists h, owned.
    split_and!; [done..| |].
    + rewrite Hput. by rewrite (ep_state_put ep_arena).
    + intros h' Hne. rewrite Hput. by apply ep_state_put_ne.
  - destruct Hp as [[Htab Hqs] He]. split; [done|]. split; [done|]. intros h' Hl'.
    by eapply (unchanged_states ep_arena _ _ s s' Hq).
Qed.

Lemma ipc_send_transitions_witness :
  ∃ s', ipc_send (H := debug_build) sample_arena h0 hello (Some h1)
          {| queues := IpcQueues_new; table := sender_table |} = Some (s', Ok Enqueued) ∧
        ep_state (queues s') ep_h = SendPending hello (Some task_cap).
Proof.
  destruct (ipc_send_transitions (H := debug_build) sample_arena
    {| queues := IpcQueues_new; table := sender_table |} h0 hello (Some h1)
    sample_queues_WF sender_table_WF) as (s' & r & Hr & _ & _ & Hp).
  exists s'. assert (r = Ok Enqueued) as -> by (vm_compute in Hr; congruence).
  split; [exact Hr|]. clear Hp. vm_compute in Hr. injection Hr as <-. vm_compute. reflexivity.
Defined.

(** C29: [ipc_recv] on every branch.  It never panics.  A pending or delivered message
    is handed over exactly as it was sent, its capability (if any) becomes a new root
    of the receiver's table and the endpoint returns to [Idle]; on an idle endpoint
    the receiver is registered; every error (a second receiver, a full table, a bad
    capability) names its cause and leaves every endpoint and the table alone, so a
    full table never loses the message. *)
Theorem ipc_recv_transitions `{Build} ep_arena s ep_cap :
  IpcWF ep_arena (queues s) → WF (table s) →
  ∃ s' r, ipc_recv ep_arena ep_cap s = Some (s', r) ∧
  IpcWF ep_arena (queues s') ∧ WF (table s') ∧
  match r with
  | Ok out => ∃ h,
      grants (table s) ep_cap RECV h ∧ live_ep ep_arena h ∧
      recv_step (ep_state (queues s) h) (table s) (ep_state (queues s') h) (table s') out ∧
      ∀ h', ep_index h' ≠ ep_index h → ep_state (queues s') h' = ep_state (queues s) h'
  | Err x => recv_error ep_arena s x ep_cap ∧ table s' = table s ∧
             ∀ h', live_ep ep_arena h' → ep_state (queues s') h' = ep_state (queues s) h'
  end.
Proof.
  intros Hq Ht. pose proof (wp_and _ _ _ _ (recv_ok ep_arena s ep_cap (conj Hq Ht))
    (ipc_recv_wp ep_arena s Hq Ht ep_cap)) as Hw.
  apply wp_run in Hw as (s' & r & Hr & [[Hq' Ht'] _] & Hp).
  exists s', r. split; [done|]. split; [done|]. split; [done|]. destruct r as [out|x].
  - destruct Hp as (h & new & Hg & Hl & Hst & Hput). exists h. split_and!; [done..| |].
    + rewrite Hput. by rewrite (ep_state_put ep_arena).
    + intros h' Hne. rewrite Hput. by apply ep_state_put_ne.
  - destruct Hp as [[Htab Hqs] He]. split; [done|]. split; [done|]. intros h' Hl'.
    by eapply (unchanged_states ep_arena _ _ s s' Hq).
Qed.

Lemma ipc_recv_transitions_witness :
  ∃ s', ipc_recv (H := debug_build) sample_arena h0
          {| queues := IpcQueues_new; table := receiver_table |} = Some (s', Ok Pending) ∧
        ep_state (queues s') ep_h = RecvWaiting.
Proof.
  destruct (ipc_recv_transitions (H := debug_build) sample_arena
    {| queues := IpcQueues_new; table := receiver_table |} h0
    sample_queues_WF receiver_table_WF) as (s' & r & Hr & _ & _ & Hp).
  exists s'. assert (r = Ok Pending) as -> by (vm_compute in Hr; congruence).
  split; [exact Hr|]. clear Hp. vm_compute in Hr. injection Hr as <-. vm_compute. reflexivity.
Defined.

(** C22: capabilities are neither duplicated nor lost.  Any number of tasks, each with
    its own table, may send, receive and cancel on any endpoints in any order, with
    any capability handles and whatever the outcome of each call: the run never
    panics, and the capabilities of the whole system (held in tables or parked in an
    endpoint) are the same collection, counted with repetition, before and after. *)
Theorem ipc_conserves_capabilities `{Build} ep_arena (os : list ipc_op) (s : sys) :
  sys_ok ep_arena s →
  ∃ s', sys_run ep_arena os s = Some s' ∧ sys_ok ep_arena s' ∧ all_caps s' ≡ₚ all_caps s.
Proof. intros Hs. by apply sys_run_ok. Qed.

Lemma ipc_conserves_capabilities_witness :
  let s := {| sys_queues := IpcQueues_new; sys_tables := [sender_table; receiver_table] |} in
  sys_ok sample_arena s ∧
  ∃ s', sys_run (H := debug_build) sample_arena
          [IRecv 1 h0; ISend 0 h0 hello (Some h1); IRecv 1 h0; ICancel 1 h0] s = Some s' ∧
        all_caps s' ≡ₚ all_caps s.
Proof.
  intros s. assert (Hs : sys_ok sample_arena s).
  { split; [exact sample_queues_WF|].
    apply Forall_cons_2; [exact sender_table_WF|].
    apply Forall_cons_2; [exact receiver_table_WF|]. apply Forall_nil_2. }
  split; [exact Hs|].
  destruct (ipc_conserves_capabilities (H := debug_build) sample_arena
    [IRecv 1 h0; ISend 0 h0 hello (Some h1); IRecv 1 h0; ICancel 1 h0] s Hs) as (s' & H1 & _ & H2).
  by exists s'.
Defined.

(** What a transfer amounts to once the receiver has it: the sender's handle is dead,
    the receiver's new handle names the same capability. *)
Definition moved (ts ts' tr' : CapabilityTable) (transfer got : option CapHandle) : Prop :=
  match transfer, got with
  | None, None => ts' = ts
  | Some x, Some y => ∃ c, lookup ts x = Some (Ok c) ∧
      lookup ts' x = Some (Err InvalidHandle) ∧ lookup tr' y = Some (Ok c)
  | _, _ => False
  end.

Lemma lookup_Cut t t' x e : Cut t t' (ch_index x) e → lookup t' x = Some (Err InvalidHandle).
Proof.
  intros Hc. rewrite lookup_eq. unfold named. rewrite (cut_ent _ _ _ _ Hc).
  rewrite (decide_True (P := ch_index x = ch_index x)) by done. by case_decide.
Qed.

Lemma lookup_inserted t t' x e : inserted_at t t' x e → lookup t' x = Some (Ok (capability e)).
Proof.
  intros (_ & Hg & Hi & _). rewrite lookup_eq. unfold named.
  rewrite (ins_gen _ _ _ _ Hi), Hg, decide_True by done.
  by rewrite (ins_ent _ _ _ _ Hi), decide_True.
Qed.

Lemma grants_fun t c r a b : grants t c r a → grants t c r b → a = b.
Proof. intros (e & He & Ho & _) (e' & He' & Ho' & _). congruence. Qed.

Lemma grants_no_error t c r h x : grants t c r h → ¬ ep_cap_error t c r x.
Proof.
  intros (e & He & Ho & Hr). unfold ep_cap_error. destruct x; try tauto.
  - congruence.
  - intros (e' & He' & Hn). apply (Hn h). congruence.
  - intros (e' & h' & He' & _ & Hr'). congruence.
Qed.

Lemma no_send_error ep_arena s ep_s h transfer x :
  grants (table s) ep_s SEND h → live_ep ep_arena h →
  ep_state (queues s) h = Idle ∨ ep_state (queues s) h = RecvWaiting →
  (∀ x, transfer = Some x → ∃ e, named (table s) x = Some e ∧
     contains (rights (capability e)) TRANSFER = true ∧ first_child e = None) →
  ¬ send_error ep_arena s ep_s transfer x.
Proof.
  intros Hgs Hl Hst Hx [He|[(_ & h' & Hg' & Hn)|[(_ & Hu)|(_ & h' & Hg' & Hfull)]]].
  - by eapply grants_no_error in He.
  - apply Hn. by rewrite (grants_fun _ _ _ h' h Hg' Hgs).
  - destruct Hu as [(y & Hy & [Hn|(e & He & Hc)])|(y & e & Hy & He & Hf)];
      destruct (Hx y Hy) as (e' & He' & Hr' & Hf'); congruence.
  - rewrite (grants_fun _ _ _ h' h Hg' Hgs) in Hfull.
    destruct Hst as [Hst|Hst]; by rewrite Hst in Hfull.
Qed.

Lemma send_succeeds `{Build} ep_arena s ep_s h msg transfer :
  IpcWF ep_arena (queues s) → WF (table s) →
  grants (table s) ep_s SEND h → live_ep ep_arena h →
  ep_state (queues s) h = Idle ∨ ep_state (queues s) h = RecvWaiting →
  (∀ x, transfer = Some x → ∃ e, named (table s) x = Some e ∧
     contains (rights (capability e)) TRANSFER = true ∧ first_child e = None) →
  ∃ ts1 out owned new,
    ipc_send ep_arena ep_s msg transfer s
      = Some ({| queues := put h new (queues s); table := ts1 |}, Ok out) ∧
    taken (table s) transfer owned ts1 ∧
    (new = SendPending msg owned ∨ new = RecvComplete msg owned).
Proof.
  intros Hq Ht Hgs Hl Hst Hx. pose proof (ipc_send_wp ep_arena s Hq Ht ep_s msg transfer) as Hw.
  apply wp_run in Hw as ([q1 ts1] & r & Hr & Hp). destruct r as [out|x].
  - destruct Hp as (h' & owned & new & Hg' & _ & Htk & Hstep & Hput).
    rewrite (grants_fun _ _ _ h' h Hg' Hgs) in Hput. cbn [queues table] in *. subst q1.
    exists ts1, out, owned, new. split_and!; [done..|].
    destruct Hstep as [(_ & -> & _)|(_ & -> & _)]; auto.
  - exfalso. destruct Hp as [_ He]. by eapply no_send_error.
Qed.

Lemma no_recv_error ep_arena s ep_r h x :
  grants (table s) ep_r RECV h → live_ep ep_arena h → is_full (table s) = false →
  ep_state (queues s) h ≠ RecvWaiting → ¬ recv_error ep_arena s x ep_r.
Proof.
  intros Hgr Hl Hroom Hst [He|[(_ & h' & Hg' & Hn)|[(_ & Hf & _)|(_ & h' & Hg' & Hfull)]]].
  - by eapply grants_no_error in He.
  - apply Hn. by rewrite (grants_fun _ _ _ h' h Hg' Hgr).
  - congruence.
  - rewrite (grants_fun _ _ _ h' h Hg' Hgr) in Hfull. done.
Qed.

Lemma recv_succeeds `{Build} ep_arena s ep_r h msg cap :
  IpcWF ep_arena (queues s) → WF (table s) →
  grants (table s) ep_r RECV h → live_ep ep_arena h → is_full (table s) = false →
  ep_state (queues s) h = SendPending msg cap ∨ ep_state (queues s) h = RecvComplete msg cap →
  ∃ tr1 got,
    ipc_recv ep_arena ep_r s
      = Some ({| queues := put h Idle (queues s); table := tr1 |}, Ok (Received msg got)) ∧
    installed (table s) cap got tr1.
Proof.
  intros Hq Ht Hgr Hl Hroom Hst. pose proof (ipc_recv_wp ep_arena s Hq Ht ep_r) as Hw.
  apply wp_run in Hw as ([q1 tr1] & r & Hr & Hp). destruct r as [out|x].
  - destruct Hp as (h' & new & Hg' & _ & Hstep & Hput).
    rewrite (grants_fun _ _ _ h' h Hg' Hgr) in Hput, Hstep. cbn [queues table] in *. subst q1.
    assert (new = Idle ∧ ∃ got, out = Received msg got ∧ installed (table s) cap got tr1)
      as (-> & got & -> & Hi) by (by destruct Hst as [Hst|Hst]; rewrite Hst in Hstep).
    eauto.
  - exfalso. destruct Hp as [_ He]. eapply no_recv_error in He; [done..|]. by destruct Hst as [-> | ->].
Qed.

Lemma taken_installed_moved ts ts1 tr tr2 transfer owned got :
  taken ts transfer owned ts1 → installed tr owned got tr2 → moved ts ts1 tr2 transfer got.
Proof.
  unfold taken. destruct transfer as [x|].
  - intros (e & He & _ & -> & Hc & _) (y & -> & Hi).
    exists (capability e). split; [by rewrite lookup_eq, He|].
    split; [by eapply lookup_Cut|by apply (lookup_inserted _ _ _ _ Hi)].
  - intros [-> ->]. by intros [-> _].
Qed.

(** A rendezvous delivers.  A sender and a receiver with the right capabilities
    on a live endpoint, whichever of the two comes first (the endpoint is [Idle], or
    a receiver is registered), and a transferable capability without children or
    none: the send succeeds, the receive that follows returns exactly the message
    sent and the capability sent, under a fresh handle of the receiver's table, and
    the endpoint is [Idle] again. *)
Theorem ipc_rendezvous `{Build} ep_arena q ts tr ep_s ep_r h msg transfer :
  IpcWF ep_arena q → WF ts → WF tr →
  grants ts ep_s SEND h → grants tr ep_r RECV h → live_ep ep_arena h →
  ep_state q h = Idle ∨ ep_state q h = RecvWaiting →
  (∀ x, transfer = Some x → ∃ e, named ts x = Some e ∧
     contains (rights (capability e)) TRANSFER = true ∧ first_child e = None) →
  is_full tr = false →
  ∃ q1 ts1 out q2 tr2 got,
    ipc_send ep_arena ep_s msg transfer {| queues := q; table := ts |}
      = Some ({| queues := q1; table := ts1 |}, Ok out) ∧
    ipc_recv ep_arena ep_r {| queues := q1; table := tr |}
      = Some ({| queues := q2; table := tr2 |}, Ok (Received msg got)) ∧
    moved ts ts1 tr2 transfer got ∧ ep_state q2 h = Idle.
Proof.
  intros Hq Hts Htr Hgs Hgr Hl Hst Hx Hroom.
  destruct (send_succeeds ep_arena {| queues := q; table := ts |} ep_s h msg transfer)
    as (ts1 & out & owned & new & Hsend & Htk & Hnew); try done. cbn [queues table] in *.
  set (s1 := {| queues := put h new q; table := tr |}).
  assert (Hst1 : ep_state (queues s1) h = new) by (by apply (ep_state_put ep_arena)).
  destruct (recv_succeeds ep_arena s1 ep_r h msg owned) as (tr2 & got & Hrecv & Hi); try done.
  { by apply put_WF. }
  { by rewrite Hst1. }
  exists (put h new q), ts1, out, (put h Idle (put h new q)), tr2, got.
  split; [exact Hsend|]. split; [exact Hrecv|]. split.
  2:{ apply (ep_state_put ep_arena); [done|]. by apply put_WF. }
  by eapply taken_installed_moved.
Qed.

Lemma ipc_rendezvous_witness :
  ∃ q1 ts1 out q2 tr2 got,
    ipc_send (H := debug_build) sample_arena h0 hello (Some h1)
        {| queues := IpcQueues_new; table := sender_table |}
      = Some ({| queues := q1; table := ts1 |}, Ok out) ∧
    ipc_recv (H := debug_build) sample_arena h0 {| queues := q1; table := receiver_table |}
      = Some ({| queues := q2; table := tr2 |}, Ok (Received hello got)) ∧
    moved sender_table ts1 tr2 (Some h1) got ∧ ep_state q2 ep_h = Idle.
Proof.
  apply (ipc_rendezvous (H := debug_build) sample_arena IpcQueues_new sender_table receiver_table
           h0 h0 ep_h hello (Some h1)).
  - exact sample_queues_WF.
  - exact sender_table_WF.
  - exact receiver_table_WF.
  - eexists. split; [vm_compute; reflexivity|]. split; [reflexivity|]. vm_compute. reflexivity.
  - eexists. split; [vm_compute; reflexivity|]. split; [reflexivity|]. vm_compute. reflexivity.
  - eexists. vm_compute. reflexivity.
  - left. vm_compute. reflexivity.
  - intros x [= <-]. eexists. split; [vm_compute; reflexivity|]. split; vm_compute; reflexivity.
  - vm_compute. reflexivity.
Defined.

(** [ipc_cancel_recv] undoes exactly a receiver's registration.  After a receive
    that went [Pending] the cancel with the same capability restores the state of
    every endpoint and the table; a second cancel changes nothing; and a cancel never
    touches a pending or delivered message. *)
Theorem ipc_cancel_recv_undoes `{Build} ep_arena s s1 ep_cap :
  IpcWF ep_arena (queues s) → WF (table s) →
  ipc_recv ep_arena ep_cap s = Some (s1, Ok Pending) →
  ∃ q2 q3, ipc_cancel_recv ep_arena (table s1) ep_cap (queues s1) = Some (q2, Ok tt) ∧
    table s1 = table s ∧
    (∀ h, live_ep ep_arena h → ep_state q2 h = ep_state (queues s) h) ∧
    ipc_cancel_recv ep_arena (table s1) ep_cap q2 = Some (q3, Ok tt) ∧ q3 = q2.
Proof.
  intros Hq Ht Hrun. pose proof (ipc_recv_wp ep_arena s Hq Ht ep_cap) as Hw.
  eapply wp_det in Hw; [|done]. destruct Hw as (h & new & Hg & Hl & Hstep & Hput).
  assert (Hep : ep_state (queues s) h = Idle ∧ new = RecvWaiting ∧ table s1 = table s).
  { destruct (ep_state (queues s) h); naive_solver. }
  destruct Hep as (Hep & -> & Htab).
  assert (Hcancel : ∀ q st, IpcWF ep_arena q →
    ipc_cancel_recv ep_arena (table s) ep_cap (put h st q) = Some (put h (cancelled st) q, Ok tt)).
  { intros q st Hq0.
    pose proof (ipc_cancel_recv_wp ep_arena (table s) (put h st q) ep_cap (put_WF _ _ Hl _ _ Hq0)) as Hw.
    apply wp_run in Hw as (q' & r & Hr & Hp). destruct r as [[]|x].
    - destruct Hp as (h' & Hg' & _ & ->). rewrite (grants_fun _ _ _ h' h Hg' Hg) in Hr.
      rewrite (ep_state_put ep_arena h Hl q st Hq0), put_put in Hr. exact Hr.
    - exfalso. destruct Hp as [_ [He|(_ & h' & Hg' & Hn)]]; [by eapply grants_no_error in He|].
      apply Hn. by rewrite (grants_fun _ _ _ h' h Hg' Hg). }
  exists (put h Idle (queues s)), (put h Idle (queues s)). rewrite Htab, Hput.
  split; [by rewrite Hcancel|]. split; [done|]. split; [|by rewrite Hcancel].
  intros h' Hl'. destruct (decide (ep_index h' = ep_index h)) as [Hi|Hi].
  - rewrite (live_ep_inj ep_arena h h' Hl Hl' Hi), Hep. by apply (ep_state_put ep_arena).
  - by apply ep_state_put_ne.
Qed.

(** The sample system with the receiver registered. *)
Definition waiting : Ipc :=
  match ipc_recv (H := debug_build) sample_arena h0
          {| queues := IpcQueues_new; table := receiver_table |} with
  | Some (s, _) => s
  | None => {| queues := IpcQueues_new; table := receiver_table |}
  end.

Lemma ipc_cancel_recv_undoes_witness :
  ipc_recv (H := debug_build) sample_arena h0 {| queues := IpcQueues_new; table := receiver_table |}
    = Some (waiting, Ok Pending) ∧
  ep_state (queues waiting) ep_h = RecvWaiting ∧
  ∃ q2, ipc_cancel_recv (H := debug_build) sample_arena (table waiting) h0 (queues waiting)
          = Some (q2, Ok tt) ∧
        ∀ h, live_ep sample_arena h → ep_state q2 h = ep_state IpcQueues_new h.
Proof.
  assert (Hrun : ipc_recv (H := debug_build) sample_arena h0
            {| queues := IpcQueues_new; table := receiver_table |} = Some (waiting, Ok Pending))
    by (vm_compute; reflexivity).
  split; [exact Hrun|]. split; [vm_compute; reflexivity|].
  destruct (ipc_cancel_recv_undoes (H := debug_build) sample_arena
      {| queues := IpcQueues_new; table := receiver_table |} waiting h0
      sample_queues_WF receiver_table_WF Hrun) as (q2 & q3 & Hc & _ & Hs & _).
  exists q2. split; [exact Hc|exact Hs].
Defined.
