(* ===== verification/DispatchProps.v ===== *)
(** * Properties of the syscall dispatcher

[dispatch] is total on any register values, a failing syscall changes nothing, the
console is written exactly when every gate passes, and a message sent by one
task's registers arrives in another's. *)

From S2P Require Import Prelude.
From S2P Require Import Hal.
From S2P Require Import Chain.
From S2P Require Import Arena.
From S2P Require Import Objects.
From S2P Require Import Caps.
From S2P Require Import CapTable.
From S2P Require Import CapTableInv.
From S2P Require Import CapTableOps.
From S2P Require Import CapRevoke.
From S2P Require Import CapSpec.
From S2P Require Import Ipc.
From S2P Require Import SyscallError.
From S2P Require Import Abi.
From S2P Require Import UserAccess.
From S2P Require Import UserAccessOps.
From S2P Require Import UserAccessProps.
From S2P Require Import Dispatch.
From S2P Require Import IpcSpec.
From S2P Require Import IpcProps.
Local Open Scope Z_scope.

Section dispatch.
Context `{Build} `{Translate AS}.
Implicit Types (c : SyscallContext AS).

(** What the board guarantees about the context: a well-formed table and queues, and
    a window and page tables of the running task within the address space. *)
Record ctx_ok c : Prop := {
  co_ipc : ipc_ok (ep_arena c) (sc_ipc c);
  co_window : 0 ≤ base (user_window c) ≤ U64_MAX;
  co_mapped : direct_mapped (sc_mem c) (task_as c);
}.

(** ** The console *)

(** Why the console capability is refused. *)
Definition console_cap_error (t : CapabilityTable) (h : CapHandle) (e : CapError) : Prop :=
  match e with
  | InvalidHandle => named t h = None
  | WrongKind => ∃ x, named t h = Some x ∧ object (capability x) ≠ ODebugConsole
  | InsufficientRights => ∃ x, named t h = Some x ∧ object (capability x) = ODebugConsole ∧
      contains (rights (capability x)) CONSOLE_WRITE = false
  | _ => False
  end.

Definition console_granted (t : CapabilityTable) (h : CapHandle) : Prop :=
  ∃ x, named t h = Some x ∧ object (capability x) = ODebugConsole ∧
       contains (rights (capability x)) CONSOLE_WRITE = true.

Lemma validate_console t h :
  ∃ r, validate_debug_console_cap t h = Some r ∧
    match r with Ok _ => console_granted t h | Err e => console_cap_error t h e end.
Proof.
  unfold validate_debug_console_cap. rewrite lookup_eq. destruct (named t h) as [x|] eqn:Hn; cbn.
  2:{ eexists. split; [done|]. done. }
  case_bool_decide as Hk; cbn [negb].
  - assert (Ho : object (capability x) = ODebugConsole).
    { unfold cap_kind in Hk. by destruct (object (capability x)). }
    destruct (contains (rights (capability x)) CONSOLE_WRITE) eqn:Hr; cbn [negb];
      (eexists; split; [done|]; by exists x).
  - eexists. split; [done|]. exists x. split; [done|]. intros Ho. apply Hk.
    unfold cap_kind. by rewrite Ho.
Qed.

Lemma console_write_bytes_app bs1 bs2 c :
  console_write_bytes bs2 (console_write_bytes bs1 c) = console_write_bytes (bs1 ++ bs2) c.
Proof. unfold console_write_bytes; cbn. by rewrite app_assoc. Qed.

Lemma console_loop_wp ptr len fuel : 0 ≤ ptr → ptr + len ≤ U64_MAX → ∀ offset buf c,
  ctx_ok c → in_window (user_window c) ptr len → range_ok (sc_mem c) (task_as c) false ptr len →
  0 ≤ offset ≤ len → length buf = 256%nat →
  (offset < len → len - offset + 256 ≤ Z.of_nat fuel * 256) → (1 ≤ fuel)%nat →
  wp (console_loop fuel ptr len offset buf) c (λ c' r, r = Ok tt ∧
    c' = console_write_bytes (user_bytes (sc_mem c) (task_as c) (ptr + offset) (Z.to_nat (len - offset))) c).
Proof.
  intros Hp He. induction fuel as [|fuel IH]; intros offset buf c Hc Hw Hr Ho Hb Hf H1; [lia|].
  cbn [console_loop]. case_bool_decide as Hlt.
  2:{ red; cbn [ret]. split; [done|]. replace (len - offset) with 0 by lia. cbn.
      unfold console_write_bytes. rewrite app_nil_r. by destruct c. }
  unfold CONSOLE_WRITE_CHUNK. unfold U64_MAX in He. rewrite (Z.mod_small (len - offset)) by lia.
  set (chunk := Z.min (len - offset) 256).
  assert (Hch : 1 ≤ chunk ≤ 256 ∧ chunk ≤ len - offset ∧ (chunk = 256 ∨ chunk = len - offset)) by (unfold chunk; lia).
  clearbody chunk. unfold checked_add64. rewrite bool_decide_true by (unfold U64_MAX; lia).
  assert (Hdst : length (take (Z.to_nat chunk) buf) = Z.to_nat chunk) by (rewrite length_take; lia).
  pose proof (copy_from_user_wp (sc_mem c) (task_as c) (user_window c) (ptr + offset)
    (take (Z.to_nat chunk) buf) (co_mapped _ Hc)) as Hcp.
  rewrite Hdst, Z2Nat.id in Hcp by lia.
  specialize (Hcp ltac:(unfold U64_MAX; lia) (co_window _ Hc)).
  apply wp_run in Hcp as (bs & r & Hrun & Hres).
  red. rewrite Hrun.
  destruct Hres as [(-> & _ & _ & ->)|(_ & _ & [Hv|[_ Hv]])]; cycle 1.
  { exfalso. rewrite (proj2 (validate_iff (user_window c) (ptr + offset) chunk ltac:(lia))) in Hv; [done|].
    destruct Hw as (Hw1 & Hw2 & Hw3). split_and!; lia. }
  { exfalso. apply Hv. intros va Hva. apply Hr. lia. }
  set (bs := user_bytes _ _ _ _). assert (Hbs : length bs = Z.to_nat chunk) by apply length_user_bytes.
  rewrite take_app_length' by done. change (wp (modify (console_write_bytes bs) ;;
    match (if bool_decide (offset + chunk ≤ U64_MAX) then Some (offset + chunk) else None) with
    | None => throw FaultAddress
    | Some next => console_loop fuel ptr len next (bs ++ drop (Z.to_nat chunk) buf)
    end) c (λ c' r, r = Ok tt ∧ c' = console_write_bytes
      (user_bytes (sc_mem c) (task_as c) (ptr + offset) (Z.to_nat (len - offset))) c)).
  rewrite bool_decide_true by (unfold U64_MAX; lia). apply wp_bind. red; cbn [modify].
  eapply wp_mono; [apply IH; try done; try lia|].
  - by destruct Hc.
  - rewrite length_app, length_drop. lia.
  - cbn [sc_mem task_as console_write_bytes]. intros c' r (-> & ->). split; [done|].
    rewrite console_write_bytes_app. f_equal.
    replace (Z.to_nat (len - offset)) with (Z.to_nat chunk + Z.to_nat (len - (offset + chunk)))%nat by lia.
    rewrite user_bytes_app. unfold bs. do 2 f_equal. lia.
Qed.

(** [console_write] on every branch. *)
Definition console_post c (xs : list Z) c' (r : SyscallReturn) : Prop :=
  let h := decode_required_cap_handle (arg xs 0) in
  let ptr := arg xs 1 in
  let n := arg xs 2 in
  let ok := accessible (sc_mem c) (task_as c) (user_window c) false ptr n in
  (r = with_payload 0 ret_ok n ∧ console_granted (caller_table c) h ∧ ok ∧
   c' = console_write_bytes (user_bytes (sc_mem c) (task_as c) ptr (Z.to_nat n)) c) ∨
  (r = ret_error FaultAddress ∧ console_granted (caller_table c) h ∧ ¬ ok ∧ c' = c) ∨
  (∃ e, r = ret_error (ECap e) ∧ console_cap_error (caller_table c) h e ∧ c' = c).

Lemma sys_console_write_wp {E} xs c : ctx_ok c → is_u64 (arg xs 1) → is_u64 (arg xs 2) →
  wp (sys_console_write (E := E) xs) c (λ c' r, ∃ v, r = Ok v ∧ console_post c xs c' v).
Proof.
  intros Hc Hp Hn. unfold is_u64 in *. unfold sys_console_write. apply wp_bind, wp_attempt.
  unfold console_write_body. cbv zeta. apply wp_bind. red. unfold reads, pmap_err.
  destruct (validate_console (caller_table c) (decode_required_cap_handle (arg xs 0)))
    as (rv & -> & Hv). destruct rv as [[]|e]; cbn [fmap option_fmap option_map res_map_err].
  2:{ red; cbn [ret]. eexists. split; [done|]. right; right. by exists e. }
  set (ptr := arg xs 1) in *. set (n := arg xs 2) in *.
  apply wp_bind. red. unfold reads. destruct (validate_cases (user_window c) ptr n) as [Hval|Hval]; rewrite Hval.
  2:{ red; cbn [ret]. eexists. split; [done|]. right; left. split_and!; [done|done| |done].
      intros [Hz|[Hin _]]; [unfold validate in Hval; by rewrite bool_decide_true in Hval|].
      destruct (decide (n = 0)) as [Hz|Hz]; [unfold validate in Hval; by rewrite bool_decide_true in Hval|].
      rewrite (proj2 (validate_iff (user_window c) ptr n ltac:(lia)) Hin) in Hval. done. }
  apply wp_bind. case_bool_decide as Hlen.
  - pose proof (proj1 (validate_iff _ _ _ Hlen) Hval) as Hin.
    assert (He : ptr + n ≤ U64_MAX) by (destruct Hin as (_ & ? & ?); lia).
    red. unfold reads. destruct (probe_user_pages_spec (sc_mem c) (task_as c) false ptr n)
      as (r & -> & [(-> & Hr)|(-> & Hr)]); [lia|lia|done| |].
    2:{ red; cbn [ret]. eexists. split; [done|]. right; left. split_and!; [done|done| |done].
        intros [?|[_ ?]]; [lia|done]. }
    apply wp_bind. eapply wp_mono; [apply console_loop_wp; try done; try lia|].
    + intros _. unfold console_rounds, CONSOLE_WRITE_CHUNK. pose proof (Z.div_mod n 256).
      pose proof (Z.mod_pos_bound n 256). rewrite !Nat2Z.inj_succ, Z2Nat.id by (apply Z.div_pos; lia). lia.
    + unfold console_rounds. lia.
    + intros c' r (-> & ->). red; cbn [ret]. red; cbn [ret]. eexists. split; [done|]. left.
      rewrite Z.add_0_r, Z.sub_0_r. split_and!; [done|done|by right|done].
  - red; cbn [ret]. assert (n = 0) as Hn0 by lia. rewrite Hn0.
    apply wp_bind. red. cbn. eexists. split; [done|]. left.
    fold n. rewrite Hn0. cbn. split_and!; [done|done|by left|].
    unfold console_write_bytes. rewrite app_nil_r. by destruct c.
Qed.

(** ** The dispatcher *)

Definition args_ok (a : SyscallArgs) : Prop := is_u64 (number a) ∧ ∀ i, is_u64 (arg (args a) i).

Definition dispatch_post c (a : SyscallArgs) c' (eff : SyscallEffect) : Prop :=
  let xs := args a in
  match decode (number a) with
  | None => eff = Resume (ret_error BadSyscallNumber) ∧ c' = c
  | Some Send => ∃ i' r,
      ipc_send (ep_arena c) (decode_required_cap_handle (arg xs 0)) (decode_send_message xs)
        (decode_cap_handle (arg xs 5)) (sc_ipc c) = Some (i', r) ∧
      c' = set_ipc i' c ∧
      eff = Resume (match r with
                    | Ok o => with_payload 0 ret_ok (encode_send_outcome o)
                    | Err e => ret_error (EIpc e)
                    end)
  | Some Recv => ∃ i' r,
      ipc_recv (ep_arena c) (decode_required_cap_handle (arg xs 0)) (sc_ipc c) = Some (i', r) ∧
      c' = set_ipc i' c ∧
      eff = Resume (match r with Ok o => encode_recv_outcome o | Err e => ret_error (EIpc e) end)
  | Some TaskYield => c' = c ∧
      eff = if has_current_task c then Reschedule else Resume (ret_error (ECap InvalidHandle))
  | Some TaskExit => c' = c ∧
      eff = if has_current_task c then Terminate (arg xs 0) else Resume (ret_error (ECap InvalidHandle))
  | Some ConsoleWrite => ∃ r, eff = Resume r ∧ console_post c xs c' r
  end.

Lemma dispatch_post_wp {E} c a : ctx_ok c → args_ok a →
  wp (dispatch (E := E) a) c (λ c' r, ∃ eff, r = Ok eff ∧ dispatch_post c a c' eff).
Proof.
  intros Hc [Hn Ha]. unfold dispatch, dispatch_post. destruct (decode (number a)) as [[]|].
  - apply wp_bind. unfold sys_send. cbv zeta. apply wp_bind, wp_attempt. unfold on_sys_ipc. red.
    unfold zoom. pose proof (send_ok (ep_arena c) (sc_ipc c) (decode_required_cap_handle (arg (args a) 0))
      (decode_send_message (args a)) (decode_cap_handle (arg (args a) 5)) (co_ipc _ Hc)) as Hw.
    apply wp_run in Hw as (i' & r & Hr & _). rewrite Hr.
    destruct r; unfold wp, ret; eexists; (split; [reflexivity|]); eexists _, _; split_and!; reflexivity.
  - apply wp_bind. unfold sys_recv. cbv zeta. apply wp_bind, wp_attempt. unfold on_sys_ipc. red.
    unfold zoom. pose proof (recv_ok (ep_arena c) (sc_ipc c) (decode_required_cap_handle (arg (args a) 0))
      (co_ipc _ Hc)) as Hw.
    apply wp_run in Hw as (i' & r & Hr & _). rewrite Hr.
    destruct r; unfold wp, ret; eexists; (split; [reflexivity|]); eexists _, _; split_and!; reflexivity.
  - apply wp_bind. red; cbn [gets]. destruct (has_current_task c); red; cbn; eauto.
  - apply wp_bind. red; cbn [gets]. destruct (has_current_task c); red; cbn; eauto.
  - apply wp_bind. eapply wp_mono; [apply sys_console_write_wp; auto|].
    intros c' r (v & -> & Hpost). red; cbn [ret]. eauto.
  - red; cbn [ret]. eauto.
Qed.

Lemma console_post_ok c xs c' r : ctx_ok c → console_post c xs c' r → ctx_ok c'.
Proof. intros [] [(_ & _ & _ & ->)|[(_ & _ & _ & ->)|(e & _ & _ & ->)]]; by split. Qed.

Lemma dispatch_post_ok c a c' eff : ctx_ok c → dispatch_post c a c' eff → ctx_ok c'.
Proof.
  intros Hc. unfold dispatch_post. destruct (decode (number a)) as [[]|].
  - intros (i' & r & Hr & -> & _). destruct Hc as [Hi Hw Hm]. split; [|done|done]. cbn.
    pose proof (send_ok (ep_arena c) (sc_ipc c) (decode_required_cap_handle (arg (args a) 0))
      (decode_send_message (args a)) (decode_cap_handle (arg (args a) 5)) Hi) as Hs.
    by eapply wp_det in Hs as [? _].
  - intros (i' & r & Hr & -> & _). destruct Hc as [Hi Hw Hm]. split; [|done|done]. cbn.
    pose proof (recv_ok (ep_arena c) (sc_ipc c) (decode_required_cap_handle (arg (args a) 0)) Hi) as Hs.
    by eapply wp_det in Hs as [? _].
  - by intros [-> _].
  - by intros [-> _].
  - intros (r & _ & Hp). by eapply console_post_ok.
  - by intros [_ ->].
Qed.

(** C10: no register value makes a syscall panic.  In every build, for any syscall
    number and argument words and any well-formed context, [dispatch] returns: the
    context stays well formed, an unknown number (0, above the ceiling, or
    [console_write] in a release build) is answered with [BadSyscallNumber] and
    touches nothing, and the control-plane directives are given exactly when a task
    is current. *)
Theorem dispatch_never_panics {E} c a : ctx_ok c → args_ok a →
  ∃ c' eff, dispatch (E := E) a c = Some (c', Ok eff) ∧ ctx_ok c' ∧
    (decode (number a) = None → eff = Resume (ret_error BadSyscallNumber) ∧ c' = c) ∧
    (eff = Reschedule ↔ number a = 3 ∧ has_current_task c = true) ∧
    (∀ code, eff = Terminate code ↔ number a = 4 ∧ has_current_task c = true ∧ code = arg (args a) 0).
Proof.
  intros Hc Ha. pose proof (dispatch_post_wp (E := E) c a Hc Ha) as Hw.
  apply wp_run in Hw as (c' & r & Hr & eff & -> & Hp). exists c', eff. split; [done|].
  split; [by eapply dispatch_post_ok|]. unfold dispatch_post in Hp.
  assert (Hd : ∀ k, decode (number a) = Some k → number a = as_u64 k).
  { intros k. unfold decode. repeat case_bool_decide; try (intros [= <-]; done).
    destruct debug_assertions; cbn; [intros [= <-]|]; done. }
  assert (H3 : number a = 3 → decode (number a) = Some TaskYield) by (intros ->; reflexivity).
  assert (H4 : number a = 4 → decode (number a) = Some TaskExit) by (intros ->; reflexivity).
  destruct (decode (number a)) as [k|] eqn:Hk.
  - specialize (Hd k eq_refl). split; [done|]. destruct k; cbn in Hd.
    + destruct Hp as (i' & r & _ & _ & ->). split; [|intros code]; (split; [done|]); lia.
    + destruct Hp as (i' & r & _ & _ & ->). split; [|intros code]; (split; [done|]); lia.
    + destruct Hp as [-> ->]. destruct (has_current_task c); split; try intros code; split; naive_solver lia.
    + destruct Hp as [-> ->]. destruct (has_current_task c); split; try intros code; split; naive_solver lia.
    + destruct Hp as (r & -> & _). split; [|intros code]; (split; [done|]); lia.
  - destruct Hp as [-> ->]. split; [done|]. split; [|intros code]; (split; [done|]).
    + intros [Hx _]. by apply H3 in Hx.
    + intros [Hx _]. by apply H4 in Hx.
Qed.

(** C30: a failing syscall changes nothing.  When [dispatch] resumes the caller with a
    status other than success, not a byte was written to the console, the caller's
    capability table is what it was, and so is the state of every endpoint. *)
Theorem failed_syscall_changes_nothing {E} c a c' r : ctx_ok c → args_ok a →
  dispatch (E := E) a c = Some (c', Ok (Resume r)) → status r ≠ OK_STATUS →
  console c' = console c ∧ caller_table c' = caller_table c ∧
  ∀ h, live_ep (ep_arena c) h →
    ep_state (queues (sc_ipc c')) h = ep_state (queues (sc_ipc c)) h.
Proof.
  intros Hc Ha Hrun Hst. pose proof (dispatch_post_wp (E := E) c a Hc Ha) as Hw.
  pose proof (wp_det _ _ _ _ _ Hw Hrun) as (eff & Heff & Hp). injection Heff as <-. destruct (co_ipc _ Hc) as [Hq Ht].
  unfold dispatch_post in Hp. destruct (decode (number a)) as [[]|].
  - destruct Hp as (i' & v & Hv & -> & [= ->]). destruct v as [o|e]; [done|].
    pose proof (ipc_send_wp _ _ Hq Ht (decode_required_cap_handle (arg (args a) 0))
      (decode_send_message (args a)) (decode_cap_handle (arg (args a) 5))) as Hs.
    pose proof (wp_det _ _ _ _ _ Hs Hv) as [Hu _]. split; [done|]. split; [apply Hu|].
    intros h Hh. by eapply (unchanged_states (ep_arena c) _ _ (sc_ipc c) i').
  - destruct Hp as (i' & v & Hv & -> & [= ->]). destruct v as [o|e].
    { exfalso. apply Hst. destruct o as [msg cap|]; [|done]. cbn. by destruct (params msg) as [[p0 p1] p2]. }
    pose proof (ipc_recv_wp _ _ Hq Ht (decode_required_cap_handle (arg (args a) 0))) as Hs.
    pose proof (wp_det _ _ _ _ _ Hs Hv) as [Hu _]. split; [done|]. split; [apply Hu|].
    intros h Hh. by eapply (unchanged_states (ep_arena c) _ _ (sc_ipc c) i').
  - by destruct Hp as [-> _].
  - by destruct Hp as [-> _].
  - destruct Hp as (v & [= ->] & [(-> & _)|[(_ & _ & _ & ->)|(e & _ & _ & ->)]]); done.
  - by destruct Hp as [_ ->].
Qed.

(** C31: the console is written exactly when every gate passes.  In a debug build
    syscall 5 with a capability, a pointer and a length emits the [len] bytes of the
    buffer, in order and in one piece however many chunks it takes, and answers the
    length, exactly when the capability names the debug console with
    [CONSOLE_WRITE] and the buffer is empty or lies in the window in accessible user
    pages; the capability is checked first, and a refusal emits nothing. *)
Theorem console_write_gates {E} c a : ctx_ok c → args_ok a →
  number a = 5 → debug_assertions = true →
  let h := decode_required_cap_handle (arg (args a) 0) in
  let ptr := arg (args a) 1 in
  let n := arg (args a) 2 in
  let granted := console_granted (caller_table c) h in
  let readable := accessible (sc_mem c) (task_as c) (user_window c) false ptr n in
  ∃ c' r, dispatch (E := E) a c = Some (c', Ok (Resume r)) ∧
    (status r = OK_STATUS ↔ granted ∧ readable) ∧
    (status r = OK_STATUS →
       payload r !! 0%nat = Some n ∧
       c' = console_write_bytes (user_bytes (sc_mem c) (task_as c) ptr (Z.to_nat n)) c) ∧
    (status r ≠ OK_STATUS → c' = c ∧ (r = ret_error FaultAddress ↔ granted)).
Proof.
  intros Hc Ha Hn Hdbg h ptr n granted readable. pose proof (dispatch_post_wp (E := E) c a Hc Ha) as Hw.
  apply wp_run in Hw as (c' & v & Hr & eff & -> & Hp). unfold dispatch_post in Hp.
  assert (decode (number a) = Some ConsoleWrite) as Hd by (rewrite Hn; unfold decode; cbn; by rewrite Hdbg).
  rewrite Hd in Hp. destruct Hp as (r & -> & Hp). exists c', r. split; [done|].
  destruct Hp as [(-> & Hg & Hok & ->)|[(-> & Hg & Hno & ->)|(e & -> & He & ->)]].
  - split; [by split|]. split; [|done]. done.
  - split; [by split; [|intros [_ ?]]|]. split; [done|]. by split.
  - assert (Hng : ¬ granted).
    { intros (x & Hx & Ho & Hr'). fold h in He. destruct e; cbn in He; try done; [congruence|..].
      - destruct He as (y & Hy & _ & Hc'). congruence.
      - destruct He as (y & Hy & Ho'). congruence. }
    assert (Hne : status (ret_error (ECap e)) ≠ OK_STATUS) by (by destruct e).
    split; [by split; [|intros [? _]]|]. split; [done|]. split; [done|].
    split; [|done]. intros Hbad. exfalso. destruct e; discriminate.
Qed.

(** ** A message through the registers *)

Lemma inserted_handle_ok t t' h e : inserted_at t t' h e → handle_ok h.
Proof.
  intros (_ & Hg & Hi & Hw). split.
  - assert (ch_index h < CAP_TABLE_CAPACITY)%nat as Hlt.
    { pose proof (ins_ent _ _ _ _ Hi (ch_index h)) as He. rewrite decide_True in He by done.
      by apply (ent_lt t') in He. }
    unfold CAP_TABLE_CAPACITY in Hlt. lia.
  - apply (wf_gen _ Hw (ch_index h)). by rewrite (ins_gen _ _ _ _ Hi).
Qed.

Lemma dispatch_send {E} c a i' o : number a = 1 →
  ipc_send (ep_arena c) (decode_required_cap_handle (arg (args a) 0)) (decode_send_message (args a))
    (decode_cap_handle (arg (args a) 5)) (sc_ipc c) = Some (i', Ok o) →
  dispatch (E := E) a c
    = Some (set_ipc i' c, Ok (Resume (with_payload 0 ret_ok (encode_send_outcome o)))).
Proof.
  intros Hn Hs. unfold dispatch.
  assert (decode (number a) = Some Send) as -> by (by rewrite Hn). unfold bind, sys_send, attempt, on_sys_ipc, zoom, bind.
  by rewrite Hs.
Qed.

Lemma dispatch_recv {E} c a i' o : number a = 2 →
  ipc_recv (ep_arena c) (decode_required_cap_handle (arg (args a) 0)) (sc_ipc c) = Some (i', Ok o) →
  dispatch (E := E) a c = Some (set_ipc i' c, Ok (Resume (encode_recv_outcome o))).
Proof.
  intros Hn Hs. unfold dispatch.
  assert (decode (number a) = Some Recv) as -> by (by rewrite Hn). unfold bind, sys_recv, attempt, on_sys_ipc, zoom, bind.
  by rewrite Hs.
Qed.

(** The context of another task, once the queues have changed. *)
Definition with_queues (q : IpcQueues) c : SyscallContext AS :=
  set_ipc {| queues := q; table := caller_table c |} c.

(** C37: what one task puts in its registers, another gets in its own.  A [send]
    syscall on an endpoint that can take it, then a [recv] syscall by a task with the
    right on the same endpoint: both succeed, the receiver's [x2] to [x5] are the
    sender's [x1] to [x4], and [x6] is the sentinel when no capability was sent and
    otherwise packs the handle under which the receiver's table now holds exactly the
    capability the sender named in [x5] and no longer holds. *)
Theorem syscall_message_roundtrip {E} cA cB a b h :
  ctx_ok cA → ctx_ok cB → ep_arena cB = ep_arena cA → number a = 1 → number b = 2 →
  grants (caller_table cA) (decode_required_cap_handle (arg (args a) 0)) SEND h →
  grants (caller_table cB) (decode_required_cap_handle (arg (args b) 0)) RECV h →
  live_ep (ep_arena cA) h →
  ep_state (queues (sc_ipc cA)) h = Idle ∨ ep_state (queues (sc_ipc cA)) h = RecvWaiting →
  (∀ x, decode_cap_handle (arg (args a) 5) = Some x → ∃ e, named (caller_table cA) x = Some e ∧
     contains (rights (capability e)) TRANSFER = true ∧ first_child e = None) →
  is_full (caller_table cB) = false →
  ∃ cA' rA cB' rB got,
    dispatch (E := E) a cA = Some (cA', Ok (Resume rA)) ∧ status rA = OK_STATUS ∧
    dispatch (E := E) b (with_queues (queues (sc_ipc cA')) cB) = Some (cB', Ok (Resume rB)) ∧
    status rB = OK_STATUS ∧ payload rB !! 0%nat = Some RECV_OUTCOME_RECEIVED ∧
    (∀ i, (1 ≤ i ≤ 4)%nat → payload rB !! i = Some (arg (args a) i)) ∧
    payload rB !! 5%nat = Some (encode_cap_handle got) ∧
    decode_cap_handle (encode_cap_handle got) = got ∧
    moved (caller_table cA) (caller_table cA') (caller_table cB')
      (decode_cap_handle (arg (args a) 5)) got.
Proof.
  intros HA HB Harena Hna Hnb Hgs Hgr Hl Hst Hx Hroom.
  destruct (co_ipc _ HA) as [HqA HtA]. destruct (co_ipc _ HB) as [_ HtB].
  destruct (send_succeeds (ep_arena cA) (sc_ipc cA) (decode_required_cap_handle (arg (args a) 0)) h
    (decode_send_message (args a)) (decode_cap_handle (arg (args a) 5)))
    as (ts1 & out & owned & new & Hsend & Htk & Hnew); try done.
  set (q1 := put h new (queues (sc_ipc cA))) in *.
  assert (Hst1 : ep_state q1 h = new) by (by apply (ep_state_put (ep_arena cA))).
  destruct (recv_succeeds (ep_arena cB) {| queues := q1; table := caller_table cB |}
    (decode_required_cap_handle (arg (args b) 0)) h (decode_send_message (args a)) owned)
    as (tr2 & got & Hrecv & Hi); try done.
  { rewrite Harena. by apply put_WF. }
  { by rewrite Harena. }
  { cbn [queues]. by rewrite Hst1. }
  eexists _, _, _, _, got. split; [by apply dispatch_send|]. split; [done|].
  split; [by apply dispatch_recv|]. split; [done|]. split; [done|]. split.
  { intros i Hi'. assert (i = 1 ∨ i = 2 ∨ i = 3 ∨ i = 4)%nat as [-> | [-> | [-> | ->]]] by lia; done. }
  split; [done|]. split.
  - destruct owned as [cap|]; [|by destruct Hi as [-> _]]. destruct Hi as (y & -> & Hi).
    pose proof (inserted_handle_ok _ _ _ _ Hi) as Hy. unfold decode_cap_handle.
    destruct (encode_Some y Hy) as [_ Hr]. rewrite bool_decide_false by (unfold NULL_CAP_HANDLE, U64_MAX; lia).
    f_equal. by apply decode_required_encode.
  - by eapply taken_installed_moved.
Qed.
End dispatch.

(** ** A sample context *)

#[local] Existing Instance debug_build.
#[local] Existing Instance two_pages.

Definition console_table : CapabilityTable :=
  default new (run_ops [InsertRoot {| rights := CONSOLE_WRITE; object := ODebugConsole |}] new).

Lemma console_table_WF : WF console_table.
Proof.
  unfold console_table.
  match goal with |- context [run_ops ?os _] =>
    destruct (run_ops_WF os new new_WF) as (t & Ht & Hw); by rewrite Ht end.
Qed.

Definition sample_context (t : CapabilityTable) : SyscallContext unit :=
  {| ep_arena := sample_arena; sc_ipc := {| queues := IpcQueues_new; table := t |}; console := [];
     user_window := sample_window; sc_mem := counting; task_as := tt; has_current_task := true |}.

Lemma sample_context_ok t : WF t → ctx_ok (sample_context t).
Proof.
  intros Ht. split; [by split; [apply sample_queues_WF|]| |apply two_pages_direct].
  cbn. unfold U64_MAX. lia.
Qed.

Lemma arg_u64 xs : Forall is_u64 xs → ∀ i, is_u64 (arg xs i).
Proof.
  intros Hall i. unfold arg. destruct (xs !! i) as [x|] eqn:Hi; cbn; [|unfold is_u64; lia].
  by apply (Forall_lookup_1 _ _ _ _ Hall Hi).
Qed.

Definition call (n : Z) (xs : list Z) : SyscallArgs := {| number := n; args := xs |}.

Lemma call_ok n xs : is_u64 n → Forall is_u64 xs → args_ok (call n xs).
Proof. intros Hn Hxs. split; [done|]. by apply arg_u64. Qed.

Lemma dispatch_never_panics_witness :
  ∃ c', dispatch (E := unit) (call 4 [17; 0; 0; 0; 0; 0]) (sample_context console_table)
          = Some (c', Ok (Terminate 17)).
Proof.
  destruct (dispatch_never_panics (E := unit) (sample_context console_table) (call 4 [17; 0; 0; 0; 0; 0]))
    as (c' & eff & Hr & _ & _ & _ & Hterm).
  - exact (sample_context_ok _ console_table_WF).
  - apply call_ok; [unfold is_u64; lia|]. repeat constructor; unfold is_u64; lia.
  - exists c'. rewrite Hr. f_equal. f_equal. f_equal. apply Hterm. split_and!; reflexivity.
Defined.

Lemma failed_syscall_changes_nothing_witness :
  dispatch (E := unit) (call 1 [0; 1; 2; 3; 4; 0]) (sample_context console_table)
    = Some (sample_context console_table, Ok (Resume (ret_error (EIpc WrongObjectKind)))) ∧
  console (sample_context console_table) = [].
Proof.
  assert (Hrun : dispatch (E := unit) (call 1 [0; 1; 2; 3; 4; 0]) (sample_context console_table)
    = Some (sample_context console_table, Ok (Resume (ret_error (EIpc WrongObjectKind))))) by reflexivity.
  split; [exact Hrun|].
  assert (Hargs : args_ok (call 1 [0; 1; 2; 3; 4; 0])).
  { apply call_ok; [unfold is_u64; lia|]. repeat constructor; unfold is_u64; lia. }
  exact (proj1 (failed_syscall_changes_nothing (E := unit) _ _ _ _
    (sample_context_ok _ console_table_WF) Hargs Hrun ltac:(discriminate))).
Defined.

Lemma console_write_gates_witness :
  ∃ c' r, dispatch (E := unit) (call 5 [0; 0x1FFE; 4; 0; 0; 0]) (sample_context console_table)
            = Some (c', Ok (Resume r)) ∧ console c' = [254; 255; 0; 1].
Proof.
  destruct (console_write_gates (E := unit) (sample_context console_table) (call 5 [0; 0x1FFE; 4; 0; 0; 0]))
    as (c' & r & Hr & Hiff & Hok & _).
  - exact (sample_context_ok _ console_table_WF).
  - apply call_ok; [unfold is_u64; lia|]. repeat constructor; unfold is_u64; lia.
  - reflexivity.
  - reflexivity.
  - exists c', r. split; [exact Hr|].
    assert (Hst : status r = OK_STATUS).
    { apply Hiff. split.
      - eexists. split; [vm_compute; reflexivity|]. split; [reflexivity|]. vm_compute. reflexivity.
      - right. split; [unfold in_window, U64_MAX; cbn; lia|]. intros va Hva. cbn in Hva.
        assert (va = 0x1FFE ∨ va = 0x1FFF ∨ va = 0x2000 ∨ va = 0x2001) as [-> | [-> | [-> | ->]]] by lia;
          vm_compute; reflexivity. }
    destruct (Hok Hst) as [_ ->]. vm_compute. reflexivity.
Defined.

Lemma syscall_message_roundtrip_witness :
  ∃ cA' rA cB' rB got,
    dispatch (E := unit) (call 1 [0; 42; 7; 8; 9; 1]) (sample_context sender_table)
      = Some (cA', Ok (Resume rA)) ∧
    dispatch (E := unit) (call 2 [0; 0; 0; 0; 0; 0])
        (with_queues (queues (sc_ipc cA')) (sample_context receiver_table))
      = Some (cB', Ok (Resume rB)) ∧
    payload rB !! 1%nat = Some 42 ∧ payload rB !! 4%nat = Some 9 ∧
    moved sender_table (caller_table cA') (caller_table cB') (Some h1) got.
Proof.
  destruct (syscall_message_roundtrip (E := unit) (sample_context sender_table) (sample_context receiver_table)
    (call 1 [0; 42; 7; 8; 9; 1]) (call 2 [0; 0; 0; 0; 0; 0]) ep_h)
    as (cA' & rA & cB' & rB & got & H1 & _ & H2 & _ & _ & Hp & _ & _ & Hm).
  - exact (sample_context_ok _ sender_table_WF).
  - exact (sample_context_ok _ receiver_table_WF).
  - reflexivity.
  - reflexivity.
  - reflexivity.
  - eexists. split; [vm_compute; reflexivity|]. split; [reflexivity|]. vm_compute. reflexivity.
  - eexists. split; [vm_compute; reflexivity|]. split; [reflexivity|]. vm_compute. reflexivity.
  - eexists. vm_compute. reflexivity.
  - left. vm_compute. reflexivity.
  - intros x Hx. assert (x = h1) as -> by (vm_compute in Hx; injection Hx as <-; reflexivity).
    eexists. split; [vm_compute; reflexivity|]. split; vm_compute; reflexivity.
  - vm_compute. reflexivity.
  - exists cA', rA, cB', rB, got. split; [exact H1|]. split; [exact H2|].
    split; [apply (Hp 1%nat); lia|]. split; [apply (Hp 4%nat); lia|]. exact Hm.
Defined.
