(* ===== verification/Pmm.v ===== *)
(** * The physical memory manager (kernel/src/mm/pmm.rs)

The frame bitmap, its helpers and the operations of [Pmm].  Frame indices are
[nat] ([usize] values bounded by the bitmap), addresses and counters [Z].  The
state of an operation that touches frames is the manager with memory. *)

From S2P Require Import Prelude.
From S2P Require Import Hal.
From S2P Require Import Arena.
From S2P Require Import Objects.
From S2P Require Import Caps.
From S2P Require Import CapTable.
From S2P Require Import Ipc.
From S2P Require Import SyscallError.
From S2P Require Import UserAccess.

Inductive PmmError :=
| PMisalignedAddress
| OutOfRange
| TooManyReservedRanges
| OverlappingReservedRanges
| DoubleFree.

#[export] Instance PmmError_eq_dec : EqDecision PmmError.
Proof. solve_decision. Defined.

Record PmmStats := {
  total_frames : Z;
  reserved_frames : Z;
  allocated_frames : Z;
  free_frames : Z;
}.

Record Pmm := {
  bitmap : list Z;
  extent : PhysFrameRange;
  reserved_ranges : list (option PhysFrameRange);
  hint : nat;
  free_count : Z;
  reserved_count : Z;
  allocated_count : Z;
}.

(** ** Bitmap helpers *)

(** The [debug_assert!] of each helper states the bound the indexing checks in every
    build. *)
Definition set_bit (bm : list Z) (idx : nat) : option (list Z) :=
  let byte := idx `div` 8 in
  let bit := idx `mod` 8 in
  b ← bm !! byte;
  Some (<[byte := Z.lor b (Z.shiftl 1 (Z.of_nat bit))]> bm).

Definition read_bit (bm : list Z) (idx : nat) : option bool :=
  let byte := idx `div` 8 in
  let bit := idx `mod` 8 in
  b ← bm !! byte;
  Some (bool_decide (Z.land (Z.shiftr b (Z.of_nat bit)) 1 = 1)%Z).

(** [!(1u8 << bit)] complements the eight bits. *)
Definition clear_bit (bm : list Z) (idx : nat) : option (list Z) :=
  let byte := idx `div` 8 in
  let bit := idx `mod` 8 in
  b ← bm !! byte;
  Some (<[byte := Z.land b (Z.lxor (Z.shiftl 1 (Z.of_nat bit)) U8_MAX)]> bm).

(** [(idx..idx + n).find(|&i| !read_bit(bm, i))] *)
Fixpoint find_zero (bm : list Z) (n idx : nat) : option (option nat) :=
  match n with
  | O => Some None
  | S n =>
      b ← read_bit bm idx;
      if b : bool then find_zero bm n (idx + 1) else Some (Some idx)
  end.

Definition first_zero_bit (bm : list Z) (frame_count : nat) : option (option nat) :=
  find_zero bm frame_count 0.

(** ** Construction *)

Definition overlaps (a b : PhysFrameRange) : bool :=
  bool_decide (start a < end_ b)%Z && bool_decide (start b < end_ a)%Z.

(** Validation (ii), in list order. *)
Fixpoint check_ranges (ext : PhysFrameRange) (reserved : list PhysFrameRange) : result PmmError unit :=
  match reserved with
  | [] => Ok tt
  | r :: rs =>
      if negb (is_aligned r) then Err PMisalignedAddress else
      if bool_decide (start r < start ext)%Z || bool_decide (end_ r > end_ ext)%Z then Err OutOfRange else
      if bool_decide (end_ r < start r)%Z then Err OutOfRange else
      check_ranges ext rs
  end.

(** Validation (iv): each range against the later ones. *)
Fixpoint check_overlaps (reserved : list PhysFrameRange) : result PmmError unit :=
  match reserved with
  | [] => Ok tt
  | r :: rs => if existsb (overlaps r) rs then Err OverlappingReservedRanges else check_overlaps rs
  end.

(** [for off in 0..n { set_bit(bitmap, start + off) }] *)
Fixpoint set_bits (bm : list Z) (start n : nat) : option (list Z) :=
  match n with
  | O => Some bm
  | S n => bm ← set_bit bm start; set_bits bm (start + 1) n
  end.

(** The index of the frame at [pa], for [pa] in the extent. *)
Definition frame_index (ext : PhysFrameRange) (pa : Z) : nat :=
  Z.to_nat (saturating_sub64 pa (start ext) `div` PAGE_SIZE)%Z.

(** The population loop: the bitmap and [reserved_count]. *)
Fixpoint mark_reserved (ext : PhysFrameRange) (reserved : list PhysFrameRange)
    (bm : list Z) (count : Z) : option (list Z * Z) :=
  match reserved with
  | [] => Some (bm, count)
  | r :: rs =>
      let n := frame_count r in
      bm ← set_bits bm (frame_index ext (start r)) (Z.to_nat n);
      mark_reserved ext rs bm (saturating_add64 count n)
  end.

(** [N] and [R] are the const generics. *)
Definition Pmm_new (N R : nat) (ext : PhysFrameRange) (reserved : list PhysFrameRange)
  : P PmmError Pmm :=
  if negb (is_aligned ext) then perr PMisalignedAddress else
  let total := frame_count ext in
  if bool_decide (total > Z.min (Z.of_nat N * 8) U64_MAX)%Z then perr OutOfRange else
  if bool_decide (R < length reserved) then perr TooManyReservedRanges else
  let? _ := Some (check_ranges ext reserved) in
  let? _ := Some (check_overlaps reserved) in
  match mark_reserved ext reserved (replicate N 0%Z) 0 with
  | None => ppanic
  | Some (bm, reserved_count) =>
      match first_zero_bit bm (Z.to_nat total) with
      | None => ppanic
      | Some h =>
          pret {| bitmap := bm; extent := ext;
                  reserved_ranges := (Some <$> reserved) ++ replicate (R - length reserved) None;
                  hint := default (Z.to_nat total) h;
                  free_count := saturating_sub64 total reserved_count;
                  reserved_count := reserved_count;
                  allocated_count := 0 |}
      end
  end.

Definition stats (self : Pmm) : PmmStats :=
  {| total_frames := frame_count (extent self); reserved_frames := reserved_count self;
     allocated_frames := allocated_count self; free_frames := free_count self |}.

(** ** Allocation *)

Record PmmMem := { pmm : Pmm; pmem : Mem }.

Definition frame_total (self : Pmm) : nat := Z.to_nat (frame_count (extent self)).

(** [core::ptr::write_bytes(p, 0, PAGE_SIZE)] *)
Definition zero_page (p : Z) (m : Mem) : Mem := λ a,
  if bool_decide (p ≤ a < p + PAGE_SIZE)%Z then 0%Z else m a.

(** The forward scan from the hint, then the frames before it. *)
Definition find_free (self : Pmm) : option (option nat) :=
  let total := frame_total self in
  o ← find_zero (bitmap self) (total - hint self) (hint self);
  match o with
  | Some i => Some (Some i)
  | None => if bool_decide (0 < hint self) then find_zero (bitmap self) (hint self) 0 else Some None
  end.

(** [None] of the source is [Err tt]. *)
Definition alloc_frame : M PmmMem unit PhysFrame := λ s,
  let self := pmm s in
  match find_free self with
  | None => None
  | Some None => Some (s, Err tt)
  | Some (Some idx) =>
      let pa := saturating_add64 (start (extent self)) (Z.min (Z.of_nat idx * PAGE_SIZE) U64_MAX) in
      match from_aligned pa with
      | None => Some (s, Err tt)
      | Some frame =>
          match phys_to_kernel_va pa, set_bit (bitmap self) idx with
          | Some ptr, Some bm =>
              Some ({| pmm := {| bitmap := bm; extent := extent self;
                                 reserved_ranges := reserved_ranges self;
                                 hint := idx + 1;
                                 free_count := saturating_sub64 (free_count self) 1;
                                 reserved_count := reserved_count self;
                                 allocated_count := saturating_add64 (allocated_count self) 1 |};
                       pmem := zero_page ptr (pmem s) |}, Ok frame)
          | _, _ => None
          end
      end
  end.

(** [reserved_ranges.iter().flatten()] *)
Definition reserved_list (self : Pmm) : list PhysFrameRange := omap id (reserved_ranges self).

Definition free_frame (frame : PhysFrame) : M Pmm PmmError unit := λ self,
  let pa := frame_addr frame in
  if negb (range_contains (extent self) pa) then Some (self, Err OutOfRange) else
  let idx := frame_index (extent self) pa in
  if existsb (λ r, range_contains r pa) (reserved_list self) then Some (self, Err DoubleFree) else
  match read_bit (bitmap self) idx with
  | None => None
  | Some false => Some (self, Err DoubleFree)
  | Some true =>
      match clear_bit (bitmap self) idx with
      | None => None
      | Some bm =>
          Some ({| bitmap := bm; extent := extent self; reserved_ranges := reserved_ranges self;
                   hint := if bool_decide (idx < hint self) then idx else hint self;
                   free_count := saturating_add64 (free_count self) 1;
                   reserved_count := reserved_count self;
                   allocated_count := saturating_sub64 (allocated_count self) 1 |}, Ok tt)
      end
  end.

(** ** could_yield_pa_overlapping *)

(** The frame indices a reserved range covers. *)
Definition reserved_span (ext : PhysFrameRange) (r : PhysFrameRange) : nat * nat :=
  (frame_index ext (start r), frame_index ext (end_ r)).

(** The end of the first reserved range that covers [cursor]. *)
Fixpoint covering_end (ext : PhysFrameRange) (rs : list PhysFrameRange) (cursor : nat) : option nat :=
  match rs with
  | [] => None
  | r :: rs =>
      let '(a, b) := reserved_span ext r in
      if bool_decide (a ≤ cursor) && bool_decide (cursor < b) then Some b
      else covering_end ext rs cursor
  end.

(** The cursor moves at every round, so one round per frame of the window is enough. *)
Fixpoint cover_walk (fuel : nat) (self : Pmm) (cursor end_idx : nat) : option bool :=
  match fuel with
  | O => None
  | S fuel =>
      if bool_decide (cursor < end_idx) then
        match covering_end (extent self) (reserved_list self) cursor with
        | Some c => cover_walk fuel self c end_idx
        | None => Some true
        end
      else Some false
  end.

Definition could_yield_pa_overlapping (self : Pmm) (pa_start pa_end : Z) : option bool :=
  if bool_decide (pa_end ≤ pa_start)%Z then Some false else
  let es := start (extent self) in
  let ee := end_ (extent self) in
  if bool_decide (pa_end ≤ es)%Z || bool_decide (ee ≤ pa_start)%Z then Some false else
  let clipped_start := if bool_decide (pa_start > es)%Z then pa_start else es in
  let clipped_end := if bool_decide (pa_end < ee)%Z then pa_end else ee in
  let start_idx := frame_index (extent self) clipped_start in
  let end_idx := Z.to_nat (div_ceil (saturating_sub64 clipped_end es) PAGE_SIZE) in
  cover_walk (S (end_idx - start_idx)) self start_idx end_idx.
