(* ===== verification/PmmInv.v ===== *)
(** * The memory manager's invariant

The bitmap as a set of frame indices, the invariant of [Pmm] and what allocation,
release and construction do to it. *)

From S2P Require Import Prelude.
From S2P Require Import Hal.
From S2P Require Import Arena.
From S2P Require Import Objects.
From S2P Require Import Caps.
From S2P Require Import CapTable.
From S2P Require Import Ipc.
From S2P Require Import SyscallError.
From S2P Require Import UserAccess.
From S2P Require Import Pmm.

(** ** Bits *)

Lemma read_bit_eq bm i :
  read_bit bm i = (λ b, Z.testbit b (Z.of_nat (i `mod` 8))) <$> bm !! (i `div` 8).
Proof.
  unfold read_bit. generalize (Z.of_nat (i `mod` 8)) as k. intros k.
  destruct (bm !! (i `div` 8)) as [b|]; [|done]. cbn. f_equal.
  rewrite (Z.land_ones _ 1) by lia. change (2 ^ 1)%Z with 2%Z.
  rewrite Zmod_odd, Z.testbit_odd. destruct (Z.odd (Z.shiftr b k)); reflexivity.
Qed.

Lemma read_bit_lt bm i : i < 8 * length bm → is_Some (read_bit bm i).
Proof.
  intros Hi. rewrite read_bit_eq. apply fmap_is_Some, lookup_lt_is_Some_2.
  apply Nat.Div0.div_lt_upper_bound. lia.
Qed.

Lemma index_split i j : i = j ↔ i `div` 8 = j `div` 8 ∧ i `mod` 8 = j `mod` 8.
Proof.
  split; [by intros ->|]. intros [H1 H2].
  rewrite (Nat.div_mod_eq i 8), (Nat.div_mod_eq j 8). lia.
Qed.

(** The bitmap with the byte of [i] replaced: the bits of the byte decide. *)
Lemma read_bit_upd bm i b c j v : bm !! (i `div` 8) = Some b →
  (∀ k, (0 ≤ k < 8)%Z → Z.testbit c k = if decide (k = Z.of_nat (i `mod` 8)) then v else Z.testbit b k) →
  read_bit (<[i `div` 8 := c]> bm) j = if decide (j = i) then Some v else read_bit bm j.
Proof.
  intros Hb Hc. rewrite !read_bit_eq. assert (Hlt : i `div` 8 < length bm) by (by eapply lookup_lt_Some).
  pose proof (Nat.mod_upper_bound j 8) as Hj.
  destruct (decide (j `div` 8 = i `div` 8)) as [Hd|Hd].
  - rewrite Hd, Hb, list_lookup_insert_eq by done. cbn [fmap option_fmap option_map]. rewrite Hc by lia.
    destruct (decide (j = i)) as [->|Hne]; [by rewrite decide_True|].
    rewrite decide_False; [done|]. intros Hm. apply Hne, index_split. split; [done|lia].
  - rewrite list_lookup_insert_ne by done. rewrite decide_False; [done|]. by intros ->.
Qed.

Lemma set_bit_spec bm i : i < 8 * length bm → ∃ bm', set_bit bm i = Some bm' ∧
  length bm' = length bm ∧ ∀ j, read_bit bm' j = if decide (j = i) then Some true else read_bit bm j.
Proof.
  intros Hi. destruct (lookup_lt_is_Some_2 bm (i `div` 8)) as [b Hb].
  { apply Nat.Div0.div_lt_upper_bound. lia. }
  unfold set_bit. rewrite Hb. cbn [mbind option_bind]. eexists. split; [done|]. split; [apply length_insert|].
  intros j. eapply read_bit_upd; [done|]. intros k Hk.
  rewrite Z.lor_spec, Z.shiftl_1_l, Z.pow2_bits_eqb by lia.
  case_decide as Hd; [subst k; by rewrite Z.eqb_refl, orb_true_r|].
  assert ((Z.of_nat (i `mod` 8) =? k)%Z = false) as -> by lia. by rewrite orb_false_r.
Qed.

Lemma clear_bit_spec bm i : i < 8 * length bm → ∃ bm', clear_bit bm i = Some bm' ∧
  length bm' = length bm ∧ ∀ j, read_bit bm' j = if decide (j = i) then Some false else read_bit bm j.
Proof.
  intros Hi. destruct (lookup_lt_is_Some_2 bm (i `div` 8)) as [b Hb].
  { apply Nat.Div0.div_lt_upper_bound. lia. }
  unfold clear_bit. rewrite Hb. cbn [mbind option_bind]. eexists. split; [done|]. split; [apply length_insert|].
  intros j. eapply read_bit_upd; [done|]. intros k Hk.
  rewrite Z.land_spec, Z.lxor_spec, Z.shiftl_1_l, Z.pow2_bits_eqb by lia.
  change U8_MAX with (Z.ones 8). rewrite Z.ones_spec_low by lia.
  case_decide as Hd; [subst k; by rewrite Z.eqb_refl, andb_false_r|].
  assert ((Z.of_nat (i `mod` 8) =? k)%Z = false) as -> by lia. by rewrite andb_true_r.
Qed.

(** Bit [i], [false] outside the bitmap. *)
Definition bit (bm : list Z) (i : nat) : bool := default false (read_bit bm i).

Lemma bit_read bm i : i < 8 * length bm → read_bit bm i = Some (bit bm i).
Proof. intros Hi. unfold bit. by destruct (read_bit_lt bm i Hi) as [b ->]. Qed.

Lemma find_zero_spec bm n : ∀ idx, idx + n ≤ 8 * length bm → ∃ r, find_zero bm n idx = Some r ∧
  match r with
  | None => ∀ k, idx ≤ k < idx + n → bit bm k = true
  | Some i => idx ≤ i < idx + n ∧ bit bm i = false ∧ ∀ k, idx ≤ k < i → bit bm k = true
  end.
Proof.
  induction n as [|n IH]; intros idx Hle; cbn [find_zero].
  - exists None. split; [done|]. lia.
  - rewrite bit_read by lia. cbn [mbind option_bind]. destruct (bit bm idx) eqn:Hb.
    + destruct (IH (idx + 1)) as (r & Hr & Hs); [lia|]. exists r. split; [done|].
      destruct r as [i|].
      * destruct Hs as (H1 & H2 & H3). split; [lia|]. split; [done|]. intros k Hk.
        destruct (decide (k = idx)) as [->|]; [done|]. apply H3. lia.
      * intros k Hk. destruct (decide (k = idx)) as [->|]; [done|]. apply Hs. lia.
    + exists (Some idx). split; [done|]. split; [lia|]. split; [done|]. lia.
Qed.

(** ** Counting *)

(** How many of the first [n] indices satisfy [P]. *)
Fixpoint count (P : nat → bool) (n : nat) : nat :=
  match n with
  | O => 0
  | S n => count P n + (if P n then 1 else 0)
  end.

Lemma count_ext P Q n : (∀ i, i < n → P i = Q i) → count P n = count Q n.
Proof.
  induction n as [|n IH]; intros H; cbn; [done|]. rewrite IH, H by (intros; try apply H; lia). done.
Qed.

Lemma count_le P n : count P n ≤ n.
Proof. induction n as [|n IH]; cbn; [done|]. destruct (P n); lia. Qed.

Lemma count_add P Q n i : i < n → P i = false → Q i = true → (∀ j, j ≠ i → Q j = P j) →
  count Q n = S (count P n).
Proof.
  intros Hi HP HQ Ho. induction n as [|n IH]; [lia|]. cbn.
  destruct (decide (i = n)) as [->|Hne].
  - rewrite HP, HQ, (count_ext Q P) by (intros j Hj; apply Ho; lia). lia.
  - rewrite IH, (Ho n) by lia. lia.
Qed.

Lemma count_zero P n : count P n = 0 ↔ ∀ i, i < n → P i = false.
Proof.
  split.
  - intros H i Hi. induction n as [|n IH]; [lia|]. cbn in H.
    destruct (P n) eqn:Hn; [lia|]. destruct (decide (i = n)) as [->|]; [done|]. apply IH; lia.
  - intros H. rewrite (count_ext P (λ _, false)); [|done]. clear H. induction n; cbn; lia.
Qed.

Lemma count_split P Q n : count (λ i, P i && Q i) n + count (λ i, P i && negb (Q i)) n = count P n.
Proof. induction n as [|n IH]; cbn; [done|]. destruct (P n), (Q n); cbn; lia. Qed.

Lemma count_negb P n : count P n + count (λ i, negb (P i)) n = n.
Proof. induction n as [|n IH]; cbn; [done|]. destruct (P n); cbn; lia. Qed.

(** ** The invariant *)

Definition frame_pa (p : Pmm) (i : nat) : Z := (start (extent p) + Z.of_nat i * PAGE_SIZE)%Z.

Definition is_reserved (p : Pmm) (i : nat) : bool :=
  existsb (λ r, range_contains r (frame_pa p i)) (reserved_list p).

(** Frame [i] has been handed out. *)
Definition is_allocated (p : Pmm) (i : nat) : bool := bit (bitmap p) i && negb (is_reserved p i).

(** An extent in whole pages inside the kernel's direct map. *)
Definition extent_ok (e : PhysFrameRange) : Prop :=
  is_aligned e = true ∧ (0 ≤ start e)%Z ∧ (end_ e ≤ 0x100000000)%Z ∧ (0 ≤ end_ e)%Z.

(** A reserved range in whole pages inside the extent. *)
Definition reserved_ok (e r : PhysFrameRange) : Prop :=
  is_aligned r = true ∧ (start e ≤ start r ≤ end_ r)%Z ∧ (end_ r ≤ end_ e)%Z.

Record PWF (p : Pmm) : Prop := {
  pw_extent : extent_ok (extent p);
  pw_ranges : Forall (reserved_ok (extent p)) (reserved_list p);
  pw_total : frame_total p ≤ 8 * length (bitmap p);
  pw_bits : ∀ i, i < frame_total p → is_reserved p i = true → bit (bitmap p) i = true;
  pw_hint : hint p ≤ frame_total p ∧ ∀ i, i < hint p → bit (bitmap p) i = true;
  pw_free : free_count p = Z.of_nat (count (λ i, negb (bit (bitmap p) i)) (frame_total p));
  pw_rescount : reserved_count p = Z.of_nat (count (is_reserved p) (frame_total p));
  pw_alloc : allocated_count p = Z.of_nat (count (is_allocated p) (frame_total p));
}.

Lemma aligned_mod e : is_aligned e = true → (start e `mod` PAGE_SIZE = 0 ∧ end_ e `mod` PAGE_SIZE = 0)%Z.
Proof. unfold is_aligned. by intros [?%bool_decide_eq_true ?%bool_decide_eq_true]%andb_true_iff. Qed.

(** The frames are the pages of the extent. *)
Lemma frame_total_eq p : PWF p →
  frame_total p = Z.to_nat ((end_ (extent p) - start (extent p)) `div` PAGE_SIZE).
Proof.
  intros Hp. destruct (pw_extent _ Hp) as (Ha & H0 & He & _). unfold frame_total, frame_count, len_bytes, saturating_sub64.
  destruct (Z.le_ge_cases 0 (end_ (extent p) - start (extent p))) as [H|H]; [by rewrite Z.max_l|].
  rewrite Z.max_r by lia. unfold PAGE_SIZE. change (Z.to_nat (0 `div` 4096)) with 0.
  pose proof (Z.div_le_upper_bound (end_ (extent p) - start (extent p)) 4096 0). lia.
Qed.

Lemma frame_in_extent p i : PWF p → i < frame_total p →
  (start (extent p) ≤ frame_pa p i ∧ frame_pa p i + PAGE_SIZE ≤ end_ (extent p) ∧
   0 ≤ frame_pa p i < 0x100000000 ∧ frame_pa p i `mod` PAGE_SIZE = 0)%Z.
Proof.
  intros Hp Hi. rewrite frame_total_eq in Hi by done. destruct (pw_extent _ Hp) as (Ha & H0 & He & _).
  apply aligned_mod in Ha as [Hs Hen]. unfold frame_pa, PAGE_SIZE in *.
  pose proof (Z.mul_div_le (end_ (extent p) - start (extent p)) 4096).
  split_and!; try lia. rewrite Z.mod_add by lia. done.
Qed.

Lemma frame_pa_inj p i j : frame_pa p i = frame_pa p j → i = j.
Proof. unfold frame_pa, PAGE_SIZE. lia. Qed.

(** An aligned address of the extent is a frame. *)
Lemma frame_index_spec p pa : PWF p → range_contains (extent p) pa = true →
  (pa `mod` PAGE_SIZE = 0)%Z →
  frame_index (extent p) pa < frame_total p ∧ frame_pa p (frame_index (extent p) pa) = pa.
Proof.
  intros Hp Hc Hm. rewrite frame_total_eq by done. destruct (pw_extent _ Hp) as (Ha & H0 & He & _).
  apply aligned_mod in Ha as [Hs Hen]. unfold range_contains in Hc.
  apply andb_true_iff in Hc as [Hc1%bool_decide_eq_true Hc2%bool_decide_eq_true].
  unfold frame_index, frame_pa, saturating_sub64, PAGE_SIZE in *. rewrite Z.max_l by lia.
  pose proof (Z.div_mod pa 4096). pose proof (Z.div_mod (start (extent p)) 4096).
  pose proof (Z.div_mod (end_ (extent p)) 4096).
  assert (Hdiv : ∀ a b, (a `mod` 4096 = 0 → b `mod` 4096 = 0 → (a - b) `div` 4096 = a `div` 4096 - b `div` 4096)%Z).
  { intros a b Ha Hb. pose proof (Z.div_mod a 4096). pose proof (Z.div_mod b 4096).
    replace (a - b)%Z with ((a `div` 4096 - b `div` 4096) * 4096)%Z by lia. by rewrite Z.div_mul. }
  rewrite !Hdiv by done. lia.
Qed.

(** ** Allocation *)

Lemma find_free_spec p : PWF p → ∃ r, find_free p = Some r ∧
  match r with
  | None => ∀ i, i < frame_total p → bit (bitmap p) i = true
  | Some i => i < frame_total p ∧ bit (bitmap p) i = false ∧ ∀ k, k < i → bit (bitmap p) k = true
  end.
Proof.
  intros Hp. pose proof (pw_total _ Hp). destruct (pw_hint _ Hp) as [Hh Hset]. unfold find_free. cbv zeta.
  destruct (find_zero_spec (bitmap p) (frame_total p - hint p) (hint p)) as (r & -> & Hr); [lia|]. cbn.
  destruct r as [i|].
  - exists (Some i). split; [done|]. destruct Hr as (H1 & H2 & H3). split; [lia|]. split; [done|].
    intros k Hk. destruct (decide (k < hint p)); [by apply Hset|]. apply H3. lia.
  - assert (Hall : ∀ i, i < frame_total p → bit (bitmap p) i = true).
    { intros i Hi. destruct (decide (i < hint p)); [by apply Hset|]. apply Hr. lia. }
    case_bool_decide; [|by exists None].
    destruct (find_zero_spec (bitmap p) (hint p) 0) as (r & -> & Hr'); [lia|].
    exists r. split; [done|]. destruct r as [i|]; [|done].
    destruct Hr' as (H1 & H2 & _). rewrite Hset in H2 by lia. done.
Qed.

Lemma bit_upd bm bm' i v : (∀ j, read_bit bm' j = if decide (j = i) then Some v else read_bit bm j) →
  ∀ j, bit bm' j = if decide (j = i) then v else bit bm j.
Proof. intros H j. unfold bit. rewrite H. by case_decide. Qed.

(** The manager after bit [i] became [v], with the given hint and counters. *)
Definition pmm_upd (p : Pmm) bm h fc ac : Pmm :=
  {| bitmap := bm; extent := extent p; reserved_ranges := reserved_ranges p; hint := h;
     free_count := fc; reserved_count := reserved_count p; allocated_count := ac |}.

Lemma pmm_alloc_ok p bm i : PWF p → i < frame_total p → bit (bitmap p) i = false →
  (∀ k, k < i → bit (bitmap p) k = true) → length bm = length (bitmap p) →
  (∀ j, bit bm j = if decide (j = i) then true else bit (bitmap p) j) →
  PWF (pmm_upd p bm (i + 1) (saturating_sub64 (free_count p) 1) (saturating_add64 (allocated_count p) 1)).
Proof.
  intros Hp Hi Hb Hlow Hlen Hbm. pose proof (count_le (is_allocated p) (frame_total p)) as Hca.
  assert (Hnr : is_reserved p i = false).
  { destruct (is_reserved p i) eqn:Hr; [|done]. apply (pw_bits _ Hp) in Hr; congruence. }
  assert (Hsmall : (Z.of_nat (frame_total p) ≤ 0x100000000)%Z).
  { rewrite frame_total_eq by done. destruct (pw_extent _ Hp) as (_ & H0 & He & H0').
    unfold PAGE_SIZE. pose proof (Z.div_le_upper_bound (end_ (extent p) - start (extent p)) 4096 0x100000). lia. }
  split; try apply Hp.
  - change (frame_total (pmm_upd p bm (i + 1) _ _)) with (frame_total p). cbn [bitmap pmm_upd].
    rewrite Hlen. apply Hp.
  - intros j Hj Hr. cbn [bitmap pmm_upd]. rewrite Hbm. case_decide; [done|]. by apply (pw_bits _ Hp).
  - change (frame_total (pmm_upd p bm (i + 1) _ _)) with (frame_total p). cbn [hint bitmap pmm_upd].
    split; [lia|]. intros k Hk. rewrite Hbm. case_decide; [done|]. apply Hlow. lia.
  - cbn [free_count bitmap pmm_upd]. change (frame_total (pmm_upd p bm (i + 1) _ _)) with (frame_total p).
    rewrite (pw_free _ Hp). rewrite (count_add (λ i, negb (bit bm i)) (λ i, negb (bit (bitmap p) i)) _ i).
    + unfold saturating_sub64. lia.
    + done.
    + by rewrite Hbm, decide_True.
    + by rewrite Hb.
    + intros j Hj. by rewrite Hbm, decide_False.
  - cbn [allocated_count]. change (frame_total (pmm_upd p bm (i + 1) _ _)) with (frame_total p).
    rewrite (pw_alloc _ Hp).
    rewrite (count_add (is_allocated p) (is_allocated (pmm_upd p bm (i + 1) _ _)) _ i).
    + cbn [allocated_count pmm_upd]. unfold saturating_add64, U64_MAX. lia.
    + done.
    + unfold is_allocated. by rewrite Hb.
    + unfold is_allocated. cbn [bitmap pmm_upd]. rewrite Hbm, decide_True by done.
      change (is_reserved (pmm_upd p bm (i + 1) _ _) i) with (is_reserved p i). by rewrite Hnr.
    + intros j Hj. unfold is_allocated. cbn [bitmap pmm_upd]. by rewrite Hbm, decide_False.
Qed.

Lemma alloc_frame_wp s : PWF (pmm s) →
  wp alloc_frame s (λ s' r, PWF (pmm s') ∧
    match r with
    | Err _ => s' = s ∧ ∀ i, i < frame_total (pmm s) → bit (bitmap (pmm s)) i = true
    | Ok f => ∃ i, i < frame_total (pmm s) ∧ bit (bitmap (pmm s)) i = false ∧
        (∀ k, k < i → bit (bitmap (pmm s)) k = true) ∧
        f = {| frame_addr := frame_pa (pmm s) i |} ∧
        (∀ j, bit (bitmap (pmm s')) j = if decide (j = i) then true else bit (bitmap (pmm s)) j) ∧
        extent (pmm s') = extent (pmm s) ∧ reserved_ranges (pmm s') = reserved_ranges (pmm s) ∧
        pmem s' = zero_page (KERNEL_HIGH_HALF_OFFSET + frame_pa (pmm s) i) (pmem s)
    end).
Proof.
  intros Hp. red. unfold alloc_frame. destruct (find_free_spec (pmm s) Hp) as (r & -> & Hr).
  destruct r as [i|]; [|by split]. destruct Hr as (Hi & Hb & Hlow).
  destruct (frame_in_extent _ _ Hp Hi) as (H1 & H2 & H3 & H4).
  assert (Hpa : saturating_add64 (start (extent (pmm s))) (Z.min (Z.of_nat i * PAGE_SIZE) U64_MAX)
                = frame_pa (pmm s) i).
  { unfold saturating_add64, frame_pa, U64_MAX, PAGE_SIZE in *. destruct (pw_extent _ Hp) as (_ & ? & _). lia. }
  rewrite Hpa. unfold from_aligned. rewrite bool_decide_true by done.
  rewrite phys_to_kernel_va_Some by done.
  pose proof (pw_total _ Hp) as Htot.
  destruct (set_bit_spec (bitmap (pmm s)) i) as (bm & -> & Hlen & Hbm); [lia|].
  pose proof (bit_upd _ _ _ _ Hbm) as Hbit. cbn [pmm pmem].
  split; [by apply (pmm_alloc_ok (pmm s) bm i)|]. exists i. done.
Qed.

(** ** Release *)

Lemma pmm_free_ok p bm i h : PWF p → i < frame_total p → bit (bitmap p) i = true →
  is_reserved p i = false → length bm = length (bitmap p) →
  (∀ j, bit bm j = if decide (j = i) then false else bit (bitmap p) j) →
  h = (if bool_decide (i < hint p) then i else hint p) →
  PWF (pmm_upd p bm h (saturating_add64 (free_count p) 1) (saturating_sub64 (allocated_count p) 1)).
Proof.
  intros Hp Hi Hb Hnr Hlen Hbm ->. destruct (pw_hint _ Hp) as [Hh Hset].
  pose proof (count_le (λ j, negb (bit (bitmap p) j)) (frame_total p)) as Hcf.
  assert (Hsmall : (Z.of_nat (frame_total p) ≤ 0x100000000)%Z).
  { rewrite frame_total_eq by done. destruct (pw_extent _ Hp) as (_ & H0 & He & H0').
    unfold PAGE_SIZE. pose proof (Z.div_le_upper_bound (end_ (extent p) - start (extent p)) 4096 0x100000). lia. }
  set (p' := pmm_upd _ _ _ _ _). change (frame_total p) with (frame_total p') in *.
  split; try apply Hp.
  - cbn [bitmap p' pmm_upd]. rewrite Hlen. apply Hp.
  - intros j Hj Hr. cbn [bitmap p' pmm_upd]. rewrite Hbm. case_decide; [subst j|by apply (pw_bits _ Hp)].
    change (is_reserved p i = true) in Hr. congruence.
  - cbn [hint bitmap p' pmm_upd]. case_bool_decide.
    + split; [lia|]. intros k Hk. rewrite Hbm. case_decide; [lia|]. apply Hset. lia.
    + split; [done|]. intros k Hk. rewrite Hbm. case_decide; [lia|]. by apply Hset.
  - cbn [free_count p' pmm_upd]. rewrite (pw_free _ Hp). change (frame_total p) with (frame_total p').
    rewrite (count_add (λ i, negb (bit (bitmap p) i)) (λ i, negb (bit (bitmap p') i)) _ i);
      cbn [bitmap p' pmm_upd].
    + unfold saturating_add64, U64_MAX. lia.
    + done.
    + by rewrite Hb.
    + by rewrite Hbm, decide_True.
    + intros j Hj. by rewrite Hbm, decide_False.
  - cbn [allocated_count p' pmm_upd]. rewrite (pw_alloc _ Hp). change (frame_total p) with (frame_total p').
    rewrite (count_add (is_allocated p') (is_allocated p) _ i).
    + unfold saturating_sub64. lia.
    + done.
    + unfold is_allocated. cbn [bitmap p' pmm_upd]. by rewrite Hbm, decide_True.
    + unfold is_allocated. by rewrite Hb, Hnr.
    + intros j Hj. unfold is_allocated. cbn [bitmap p' pmm_upd]. by rewrite Hbm, decide_False.
Qed.

Lemma free_frame_wp p f : PWF p → (frame_addr f `mod` PAGE_SIZE = 0)%Z →
  wp (free_frame f) p (λ p' r, PWF p' ∧ extent p' = extent p ∧ reserved_ranges p' = reserved_ranges p ∧
    match r with
    | Ok _ => ∃ i, i < frame_total p ∧ is_allocated p i = true ∧ frame_addr f = frame_pa p i ∧
        (∀ j, bit (bitmap p') j = if decide (j = i) then false else bit (bitmap p) j)
    | Err e => p' = p ∧ match e with
        | OutOfRange => range_contains (extent p) (frame_addr f) = false
        | DoubleFree => ∃ i, i < frame_total p ∧ frame_addr f = frame_pa p i ∧ is_allocated p i = false
        | _ => False
        end
    end).
Proof.
  intros Hp Hm. red. unfold free_frame. cbv zeta.
  destruct (range_contains (extent p) (frame_addr f)) eqn:Hc; cbn [negb]; [|done].
  destruct (frame_index_spec p _ Hp Hc Hm) as [Hi Hpa].
  set (i := frame_index (extent p) (frame_addr f)) in *. pose proof (pw_total _ Hp) as Htot.
  assert (Hrs : existsb (λ r, range_contains r (frame_addr f)) (reserved_list p) = is_reserved p i).
  { unfold is_reserved. by rewrite Hpa. }
  rewrite Hrs. destruct (is_reserved p i) eqn:Hr.
  { split; [done|]. split; [done|]. split; [done|]. split; [done|]. exists i.
    split; [done|]. split; [done|]. unfold is_allocated. by rewrite Hr, andb_false_r. }
  rewrite bit_read by lia. destruct (bit (bitmap p) i) eqn:Hb.
  2:{ split; [done|]. split; [done|]. split; [done|]. split; [done|]. exists i.
      split; [done|]. split; [done|]. unfold is_allocated. by rewrite Hb. }
  destruct (clear_bit_spec (bitmap p) i) as (bm & -> & Hlen & Hbm); [lia|].
  pose proof (bit_upd _ _ _ _ Hbm) as Hbit.
  split; [by apply (pmm_free_ok p bm i)|]. split; [done|]. split; [done|].
  exists i. split; [done|]. split; [unfold is_allocated; by rewrite Hb, Hr|]. done.
Qed.
