(* ===== verification/PmmNew.v ===== *)
(** * Construction of the memory manager

The validations of [Pmm::new] as predicates, and the bitmap and counters it
builds. *)

From S2P Require Import Prelude.
From S2P Require Import Hal.
From S2P Require Import Arena.
From S2P Require Import Objects.
From S2P Require Import Caps.
From S2P Require Import CapTable.
From S2P Require Import Ipc.
From S2P Require Import SyscallError.
From S2P Require Import UserAccess.
From S2P Require Import Pmm.
From S2P Require Import PmmInv.

(** ** The validations *)

Lemma check_ranges_iff e rs : check_ranges e rs = Ok tt ↔ Forall (reserved_ok e) rs.
Proof.
  induction rs as [|r rs IH]; cbn [check_ranges]; [by split|]. rewrite Forall_cons.
  unfold reserved_ok at 1. destruct (is_aligned r); cbn [negb]; [|by split; [|intros [(? & _) _]]].
  repeat case_bool_decide; cbn [orb]; split; try done; try lia; rewrite ?IH.
  - intros ?. split; [|done]. split; [done|]. lia.
  - by intros [_ ?].
Qed.

(** No two ranges of the list overlap. *)
Fixpoint disjoint_ranges (rs : list PhysFrameRange) : Prop :=
  match rs with
  | [] => True
  | r :: rs => Forall (λ r', overlaps r r' = false) rs ∧ disjoint_ranges rs
  end.

Lemma check_overlaps_iff rs : check_overlaps rs = Ok tt ↔ disjoint_ranges rs.
Proof.
  induction rs as [|r rs IH]; cbn [check_overlaps disjoint_ranges]; [done|]. rewrite <- IH.
  destruct (existsb (overlaps r) rs) eqn:Hx.
  - split; [done|]. intros [Hall _]. apply existsb_exists in Hx as (x & Hin & Hx).
    apply list_elem_of_In in Hin. rewrite Forall_forall in Hall. by rewrite (Hall x Hin) in Hx.
  - split; [|by intros [_ ?]]. intros ?. split; [|done]. apply Forall_forall. intros x Hin.
    destruct (overlaps r x) eqn:Ho; [|done]. assert (existsb (overlaps r) rs = true); [|congruence].
    apply existsb_exists. exists x. split; [by apply list_elem_of_In|done].
Qed.

(** ** Marking *)

Definition page_at (e : PhysFrameRange) (i : nat) : Z := (start e + Z.of_nat i * PAGE_SIZE)%Z.

Lemma div_sub_pages a b : (a `mod` 4096 = 0 → b `mod` 4096 = 0 →
  (a - b) `div` 4096 = a `div` 4096 - b `div` 4096 ∧ a = 4096 * (a `div` 4096) ∧ b = 4096 * (b `div` 4096))%Z.
Proof.
  intros Ha Hb. pose proof (Z.div_mod a 4096). pose proof (Z.div_mod b 4096).
  split; [|lia]. replace (a - b)%Z with ((a `div` 4096 - b `div` 4096) * 4096)%Z by lia. by rewrite Z.div_mul.
Qed.

(** A reserved range is a run of frames of the extent. *)
Lemma reserved_span_spec e r : extent_ok e → reserved_ok e r →
  let a := frame_index e (start r) in
  let n := Z.to_nat (frame_count r) in
  Z.of_nat n = frame_count r ∧ a + n ≤ Z.to_nat (frame_count e) ∧ frame_index e (end_ r) = a + n ∧
  ∀ i, (a ≤ i < a + n) ↔ range_contains r (page_at e i) = true.
Proof.
  intros (Ha & H0 & He & _) (Hr & H1 & H2) a n.
  apply aligned_mod in Ha as [Hs Hen]. apply aligned_mod in Hr as [Hrs Hre].
  unfold a, n, frame_index, frame_count, len_bytes, saturating_sub64, page_at, range_contains, PAGE_SIZE in *.
  rewrite !Z.max_l by lia.
  destruct (div_sub_pages (start r) (start e)) as (-> & E1 & E2); [done..|].
  destruct (div_sub_pages (end_ r) (start r)) as (-> & E3 & _); [done..|].
  destruct (div_sub_pages (end_ e) (start e)) as (-> & E4 & _); [done..|].
  destruct (div_sub_pages (end_ r) (start e)) as (-> & _ & _); [done..|].
  split_and!; try lia. intros i. rewrite andb_true_iff, !bool_decide_eq_true. lia.
Qed.

Lemma set_bits_spec n : ∀ bm a t, a + n ≤ 8 * length bm → a + n ≤ t →
  (∀ j, a ≤ j < a + n → bit bm j = false) →
  ∃ bm', set_bits bm a n = Some bm' ∧ length bm' = length bm ∧
    (∀ j, bit bm' j = bool_decide (a ≤ j < a + n) || bit bm j) ∧
    count (bit bm') t = count (bit bm) t + n.
Proof.
  induction n as [|n IH]; intros bm a t Hle Ht Hclr; cbn [set_bits].
  - exists bm. split; [done|]. split; [done|]. split; [|lia]. intros j.
    by rewrite bool_decide_false by lia.
  - destruct (set_bit_spec bm a) as (bm1 & -> & Hlen & Hbm); [lia|]. cbn [mbind option_bind].
    pose proof (bit_upd _ _ _ _ Hbm) as Hbit.
    destruct (IH bm1 (a + 1) t) as (bm' & -> & Hlen' & Hb' & Hc'); [lia|lia| |].
    { intros j Hj. rewrite Hbit, decide_False by lia. apply Hclr. lia. }
    exists bm'. split; [done|]. split; [lia|]. split.
    + intros j. rewrite Hb', Hbit. case_decide as Hd.
      * subst j. by rewrite (bool_decide_true (a ≤ a < a + S n)), orb_true_r by lia.
      * f_equal. apply bool_decide_ext. lia.
    + rewrite Hc'. rewrite (count_add (bit bm) (bit bm1) t a); [lia|lia|apply Hclr; lia| |].
      * by rewrite Hbit, decide_True.
      * intros j Hj. by rewrite Hbit, decide_False.
Qed.

Definition in_ranges (e : PhysFrameRange) (rs : list PhysFrameRange) (i : nat) : bool :=
  existsb (λ r, range_contains r (page_at e i)) rs.

(** A frame is in at most one of two ranges that do not overlap. *)
Lemma overlaps_false r r' pa : overlaps r r' = false →
  range_contains r pa = true → range_contains r' pa = false.
Proof.
  unfold overlaps, range_contains. rewrite andb_true_iff, !bool_decide_eq_true.
  repeat case_bool_decide; cbn; try done; lia.
Qed.

Lemma mark_reserved_spec e rs : extent_ok e → Forall (reserved_ok e) rs → disjoint_ranges rs →
  let t := Z.to_nat (frame_count e) in
  (Z.of_nat t ≤ 0x100000)%Z → ∀ bm c, t ≤ 8 * length bm → c = Z.of_nat (count (bit bm) t) →
  (∀ j, bit bm j = true → in_ranges e rs j = false) →
  ∃ bm', mark_reserved e rs bm c = Some (bm', Z.of_nat (count (bit bm') t)) ∧
    length bm' = length bm ∧ ∀ j, bit bm' j = in_ranges e rs j || bit bm j.
Proof.
  intros He. induction rs as [|r rs IH]; intros Hok Hdj t Hsm bm c Hle -> Hclr; cbn [mark_reserved].
  - exists bm. done.
  - apply Forall_cons in Hok as [Hr Hok]. destruct Hdj as [Hdj1 Hdj].
    destruct (reserved_span_spec e r He Hr) as (Hn & Hat & _ & Hin).
    set (a := frame_index e (start r)) in *. set (n := Z.to_nat (frame_count r)) in *.
    assert (Hclr1 : ∀ j, a ≤ j < a + n → bit bm j = false).
    { intros j Hj. destruct (bit bm j) eqn:Hb; [|done]. apply Hclr in Hb. cbn in Hb.
      apply orb_false_iff in Hb as [Hb _]. apply Hin in Hj. congruence. }
    destruct (set_bits_spec n bm a t) as (bm1 & -> & Hlen & Hb1 & Hc1); [lia|lia|done|].
    cbn [mbind option_bind]. pose proof (count_le (bit bm1) t) as Hcl.
    destruct (IH Hok Hdj Hsm bm1 (saturating_add64 (Z.of_nat (count (bit bm) t)) (frame_count r)))
      as (bm' & -> & Hlen' & Hb').
    + lia.
    + change (Z.to_nat (frame_count e)) with t. rewrite Hc1. unfold saturating_add64, U64_MAX. lia.
    + intros j Hj. rewrite Hb1 in Hj. apply orb_true_iff in Hj as [Hj|Hj].
      * apply bool_decide_eq_true, Hin in Hj. unfold in_ranges.
        destruct (existsb (λ r0, range_contains r0 (page_at e j)) rs) eqn:Hx; [|done].
        apply existsb_exists in Hx as (x & Hxin & Hx). apply list_elem_of_In in Hxin.
        rewrite Forall_forall in Hdj1. by rewrite (overlaps_false r x _ (Hdj1 x Hxin) Hj) in Hx.
      * apply Hclr in Hj. cbn in Hj. by apply orb_false_iff in Hj as [_ ?].
    + exists bm'. split; [done|]. split; [lia|]. intros j. rewrite Hb', Hb1. cbn [in_ranges existsb].
      assert (bool_decide (a ≤ j < a + n) = range_contains r (page_at e j)) as ->.
      { destruct (range_contains r (page_at e j)) eqn:Hc; [by apply bool_decide_eq_true, Hin|].
        apply bool_decide_eq_false. intros Hj%Hin. congruence. }
      unfold in_ranges. by destruct (range_contains r (page_at e j)), (existsb _ rs).
Qed.
