(* ===== verification/PmmProps.v ===== *)
(** * Properties of the memory manager

Construction accepts exactly the well-formed layouts, a frame is handed out to one
owner at a time, and the overlap query is exact. *)

From S2P Require Import Prelude.
From S2P Require Import Hal.
From S2P Require Import Arena.
From S2P Require Import Objects.
From S2P Require Import Caps.
From S2P Require Import CapTable.
From S2P Require Import Ipc.
From S2P Require Import SyscallError.
From S2P Require Import UserAccess.
From S2P Require Import Pmm.
From S2P Require Import PmmInv.
From S2P Require Import PmmNew.

(** What [Pmm::new] asks for. *)
Definition valid_layout (N R : nat) (e : PhysFrameRange) (rs : list PhysFrameRange) : Prop :=
  is_aligned e = true ∧ (frame_count e ≤ 8 * Z.of_nat N)%Z ∧ length rs ≤ R ∧
  Forall (reserved_ok e) rs ∧ disjoint_ranges rs.

Lemma bit_fresh N i : bit (replicate N 0%Z) i = false.
Proof.
  unfold bit. rewrite read_bit_eq. destruct (replicate N 0%Z !! (i `div` 8)) as [b|] eqn:Hb; [|done].
  apply lookup_replicate in Hb as [-> _]. cbn [fmap option_fmap option_map default]. apply Z.bits_0.
Qed.

Lemma count_none P n : (∀ i, i < n → P i = false) → count P n = 0.
Proof. intros H. by apply count_zero. Qed.

Lemma omap_id_some {X} (l : list X) n : omap id ((Some <$> l) ++ replicate n None) = l.
Proof.
  induction l as [|x l IH]; cbn; [by induction n|]. f_equal. done.
Qed.

Lemma frame_count_small e : (0 ≤ start e)%Z → (end_ e ≤ 0x100000000)%Z →
  (0 ≤ frame_count e ≤ 0x100000)%Z.
Proof.
  intros H0 H1. unfold frame_count, len_bytes, saturating_sub64, PAGE_SIZE. split.
  - apply Z.div_pos; lia.
  - apply Z.div_le_upper_bound; lia.
Qed.

(** The manager built from a marked bitmap. *)
Lemma built_ok N R e rs bm h : extent_ok e → Forall (reserved_ok e) rs →
  (frame_count e ≤ 8 * Z.of_nat N)%Z → length bm = N →
  (∀ j, bit bm j = in_ranges e rs j || false) →
  find_zero bm (Z.to_nat (frame_count e)) 0 = Some h →
  let t := Z.to_nat (frame_count e) in
  let p := {| bitmap := bm; extent := e;
              reserved_ranges := (Some <$> rs) ++ replicate (R - length rs) None;
              hint := default t h;
              free_count := saturating_sub64 (frame_count e) (Z.of_nat (count (bit bm) t));
              reserved_count := Z.of_nat (count (bit bm) t);
              allocated_count := 0 |} in
  PWF p ∧ reserved_list p = rs ∧ ∀ i, is_allocated p i = false.
Proof.
  intros He Hok Hfit Hlen Hbm Hz t p. pose proof He as (Ha & H0 & H1 & _).
  pose proof (frame_count_small e H0 H1) as Hfc.
  assert (Hrl : reserved_list p = rs) by apply omap_id_some.
  assert (Hres : ∀ i, is_reserved p i = bit bm i).
  { intros i. unfold is_reserved. rewrite Hrl, Hbm, orb_false_r. done. }
  assert (Hal : ∀ i, is_allocated p i = false).
  { intros i. unfold is_allocated. rewrite Hres. cbn [bitmap p]. by destruct (bit bm i). }
  split; [|done]. change (frame_total p) with t. split; cbn [extent bitmap p].
  - done.
  - by rewrite Hrl.
  - change (frame_total p) with t. lia.
  - intros i _. by rewrite Hres.
  - change (frame_total p) with t. cbn [hint p].
    destruct (find_zero_spec bm t 0) as (r & Hr & Hs); [lia|]. change (Z.to_nat (frame_count e)) with t in Hz.
    assert (r = h) as -> by congruence. destruct h as [i|]; cbn.
    + destruct Hs as (Hi & _ & Hlow). split; [lia|]. intros k Hk. apply Hlow. lia.
    + split; [done|]. intros k Hk. apply Hs. lia.
  - change (frame_total p) with t. cbn [free_count p]. pose proof (count_negb (bit bm) t).
    unfold saturating_sub64. lia.
  - change (frame_total p) with t. cbn [reserved_count p]. f_equal. apply count_ext. intros i _. by rewrite Hres.
  - change (frame_total p) with t. cbn [allocated_count p]. rewrite count_none; [done|]. auto.
Qed.

Lemma Pmm_new_spec N R e rs : (0 ≤ start e)%Z → (0 ≤ end_ e ≤ 0x100000000)%Z →
  ∃ r, Pmm_new N R e rs = Some r ∧
    match r with
    | Ok p => valid_layout N R e rs ∧ PWF p ∧ extent p = e ∧ reserved_list p = rs ∧
              ∀ i, is_allocated p i = false
    | Err x => ¬ valid_layout N R e rs ∧ x ≠ DoubleFree
    end.
Proof.
  intros H0 H1. pose proof (frame_count_small e H0 (proj2 H1)) as Hfc. unfold Pmm_new, valid_layout.
  destruct (is_aligned e) eqn:Ha; cbn [negb].
  2:{ eexists. split; [done|]. split; [by intros [? _]|done]. }
  case_bool_decide as Hn.
  { eexists. split; [done|]. split; [|done]. intros (_ & ? & _). unfold U64_MAX in *. lia. }
  case_bool_decide as Hr.
  { eexists. split; [done|]. split; [|done]. intros (_ & _ & ? & _). lia. }
  unfold pbind at 1. destruct (check_ranges e rs) as [[]|x] eqn:Hcr.
  2:{ eexists. split; [done|]. split.
      - intros (_ & _ & _ & Hok & _). apply check_ranges_iff in Hok. congruence.
      - clear -Hcr. induction rs as [|r rs IH]; cbn in Hcr; [done|]. repeat case_match; naive_solver. }
  unfold pbind at 1. destruct (check_overlaps rs) as [[]|x] eqn:Hco.
  2:{ eexists. split; [done|]. split.
      - intros (_ & _ & _ & _ & Hdj). apply check_overlaps_iff in Hdj. congruence.
      - clear -Hco. induction rs as [|r rs IH]; cbn in Hco; [done|]. repeat case_match; naive_solver. }
  apply check_ranges_iff in Hcr. apply check_overlaps_iff in Hco.
  assert (Hext : extent_ok e) by (split_and!; try done; lia).
  destruct (mark_reserved_spec e rs Hext Hcr Hco ltac:(lia) (replicate N 0%Z) 0) as (bm & Hbm & Hlen & Hbit).
  { rewrite length_replicate. unfold U64_MAX in *. lia. }
  { rewrite count_none; [done|]. intros i _. apply bit_fresh. }
  { intros j. by rewrite bit_fresh. }
  rewrite Hbm. rewrite length_replicate in Hlen. unfold first_zero_bit.
  destruct (find_zero_spec bm (Z.to_nat (frame_count e)) 0) as (h & Hh & _); [unfold U64_MAX in *; lia|].
  rewrite Hh. eexists. split; [done|].
  split; [split_and!; try done; unfold U64_MAX in *; lia|].
  destruct (built_ok N R e rs bm h Hext Hcr) as (HP & HL & HA); try done.
  - unfold U64_MAX in *. lia.
  - intros j. rewrite Hbit. by rewrite bit_fresh.
Qed.

(** The memory manager is built exactly for well-formed layouts.  For an extent
    in the kernel's direct map, [Pmm::new] never panics; it succeeds exactly when the
    extent is in whole pages and fits the bitmap, there are at most [R] reserved
    ranges, each in whole pages, not inverted and inside the extent, and no two
    overlap.  Then a frame's bit is set exactly when it lies in a reserved range, no
    frame is allocated, and the counters add up to the extent. *)
Theorem pmm_new_validates N R e rs : (0 ≤ start e)%Z → (0 ≤ end_ e ≤ 0x100000000)%Z →
  ∃ r, Pmm_new N R e rs = Some r ∧
    ((∃ p, r = Ok p) ↔ valid_layout N R e rs) ∧
    ∀ p, r = Ok p →
      (∀ i, i < frame_total p →
         bit (bitmap p) i = existsb (λ r, range_contains r (start e + Z.of_nat i * PAGE_SIZE)%Z) rs) ∧
      allocated_frames (stats p) = 0%Z ∧
      (reserved_frames (stats p) + free_frames (stats p) = total_frames (stats p))%Z.
Proof.
  intros H0 H1. destruct (Pmm_new_spec N R e rs H0 H1) as (r & Hr & Hs). exists r. split; [done|].
  split.
  { split; [intros [p ->]; apply Hs|]. intros Hv. destruct r as [p|x]; [by exists p|]. by destruct Hs. }
  intros p ->. destruct Hs as (Hv & Hp & He & Hrl & Hal).
  assert (Hbit : ∀ i, i < frame_total p → bit (bitmap p) i = is_reserved p i).
  { intros i Hi. pose proof (Hal i) as Ha. unfold is_allocated in Ha.
    destruct (is_reserved p i) eqn:Hres; [by apply (pw_bits _ Hp)|]. by rewrite andb_true_r in Ha. }
  split.
  - intros i Hi. rewrite Hbit by done. unfold is_reserved. by rewrite Hrl, <- He.
  - cbn [stats allocated_frames reserved_frames free_frames total_frames].
    rewrite (pw_alloc _ Hp), (pw_free _ Hp), (pw_rescount _ Hp).
    rewrite (count_none (is_allocated p)) by auto. split; [done|].
    rewrite (count_ext (is_reserved p) (bit (bitmap p))) by (intros i Hi; by rewrite Hbit).
    pose proof (count_negb (bit (bitmap p)) (frame_total p)) as Hc.
    pose proof (frame_count_small e H0 (proj2 H1)) as Hfc. unfold frame_total in *. rewrite He in *. lia.
Qed.

(** A board with 16 frames, two ranges reserved. *)
Definition sample_extent : PhysFrameRange := {| start := 0x40000000%Z; end_ := 0x40010000%Z |}.
Definition sample_reserved : list PhysFrameRange :=
  [{| start := 0x40000000%Z; end_ := 0x40003000%Z |}; {| start := 0x40008000%Z; end_ := 0x40009000%Z |}].

Lemma sample_extent_bounds :
  (0 ≤ start sample_extent)%Z ∧ (0 ≤ end_ sample_extent ≤ 0x100000000)%Z.
Proof. cbn. lia. Qed.

Definition sample_pmm : Pmm :=
  match Pmm_new 2 4 sample_extent sample_reserved with
  | Some (Ok p) => p
  | _ => {| bitmap := []; extent := sample_extent; reserved_ranges := []; hint := 0;
            free_count := 0; reserved_count := 0; allocated_count := 0 |}
  end.

Lemma sample_pmm_new : Pmm_new 2 4 sample_extent sample_reserved = Some (Ok sample_pmm).
Proof. vm_compute. reflexivity. Qed.

Lemma pmm_new_validates_witness :
  Pmm_new 2 4 sample_extent sample_reserved = Some (Ok sample_pmm) ∧ free_frames (stats sample_pmm) = 12%Z ∧
  bit (bitmap sample_pmm) 8 = true ∧ bit (bitmap sample_pmm) 9 = false.
Proof.
  destruct (pmm_new_validates 2 4 sample_extent sample_reserved (proj1 sample_extent_bounds) (proj2 sample_extent_bounds))
    as (r & Hr & _ & Hp).
  rewrite sample_pmm_new in Hr. injection Hr as <-. destruct (Hp sample_pmm eq_refl) as (Hbit & _ & Hsum).
  split; [exact sample_pmm_new|]. split; [vm_compute; reflexivity|].
  split; (rewrite Hbit; [vm_compute; reflexivity|]); apply Nat.ltb_lt; vm_compute; reflexivity.
Defined.

(** ** Frames have one owner *)

Inductive pmm_op := PAlloc | PFree (f : PhysFrame).

(** One call, and the frames outstanding after it. *)
Definition pmm_step (o : pmm_op) (w : PmmMem * list PhysFrame) : option (PmmMem * list PhysFrame) :=
  match o with
  | PAlloc =>
      match alloc_frame w.1 with
      | Some (s, Ok f) => Some (s, f :: w.2)
      | Some (s, Err _) => Some (s, w.2)
      | None => None
      end
  | PFree f =>
      match zoom pmm (λ p s, {| pmm := p; pmem := pmem s |}) (free_frame f) w.1 with
      | Some (s, Ok _) => Some (s, filter (λ x, x ≠ f) w.2)
      | Some (s, Err _) => Some (s, w.2)
      | None => None
      end
  end.

Fixpoint pmm_run (os : list pmm_op) (w : PmmMem * list PhysFrame) : option (PmmMem * list PhysFrame) :=
  match os with
  | [] => Some w
  | o :: os => match pmm_step o w with Some w' => pmm_run os w' | None => None end
  end.

(** A [PhysFrame] is page aligned by construction. *)
Definition op_ok (o : pmm_op) : Prop :=
  match o with PAlloc => True | PFree f => (frame_addr f `mod` PAGE_SIZE = 0)%Z end.

Record owned (p : Pmm) (out : list PhysFrame) : Prop := {
  ow_pmm : PWF p;
  ow_nodup : NoDup out;
  ow_frames : ∀ f, f ∈ out ↔ ∃ i, i < frame_total p ∧ is_allocated p i = true ∧
                                  f = {| frame_addr := frame_pa p i |};
}.

Lemma owned_step e rs o s out : owned (pmm s) out → op_ok o → extent (pmm s) = e → reserved_list (pmm s) = rs →
  ∃ s' out', pmm_step o (s, out) = Some (s', out') ∧ owned (pmm s') out' ∧
    extent (pmm s') = e ∧ reserved_list (pmm s') = rs.
Proof.
  intros [Hp Hnd Hfr] Hop <- <-. destruct o as [|f]; cbn [pmm_step fst snd].
  - pose proof (alloc_frame_wp s Hp) as Hw. apply wp_run in Hw as (s' & r & -> & Hp' & Hr).
    destruct r as [f|[]]; [|destruct Hr as [-> _]; exists s, out; split_and!; done].
    destruct Hr as (i & Hi & Hb & _ & -> & Hbit & He & Hrr & _).
    assert (Ht : frame_total (pmm s') = frame_total (pmm s)) by (unfold frame_total; by rewrite He).
    assert (Hpa : ∀ j, frame_pa (pmm s') j = frame_pa (pmm s) j) by (intros j; unfold frame_pa; by rewrite He).
    assert (Hrl : reserved_list (pmm s') = reserved_list (pmm s)) by (unfold reserved_list; by rewrite Hrr).
    assert (Hres : ∀ j, is_reserved (pmm s') j = is_reserved (pmm s) j).
    { intros j. unfold is_reserved. by rewrite Hrl, Hpa. }
    assert (Hnr : is_reserved (pmm s) i = false).
    { destruct (is_reserved (pmm s) i) eqn:Hx; [|done]. apply (pw_bits _ Hp) in Hx; congruence. }
    exists s', ({| frame_addr := frame_pa (pmm s) i |} :: out). split; [done|]. split; [|done]. split; [done|..].
    + constructor; [|done]. intros (j & Hj & Ha & [= Hpj%frame_pa_inj])%Hfr. subst j.
      unfold is_allocated in Ha. by rewrite Hb in Ha.
    + intros f. rewrite elem_of_cons, Hfr, Ht. unfold is_allocated. setoid_rewrite Hbit. setoid_rewrite Hres.
      setoid_rewrite Hpa. split.
      * intros [->|(j & Hj & Ha & ->)]; [exists i|exists j]; (split; [done|]).
        -- by rewrite decide_True, Hnr.
        -- split; [|done]. case_decide; [subst j; by rewrite Hnr|done].
      * intros (j & Hj & Ha & ->). case_decide as Hji; [subst j; by left|]. right. by exists j.
  - red in Hop. unfold zoom. pose proof (free_frame_wp (pmm s) f Hp Hop) as Hw.
    apply wp_run in Hw as (p' & r & -> & Hp' & He & Hrr & Hr).
    destruct r as [[]|x]; [|destruct Hr as [-> _]; eexists _, out; split_and!; done].
    destruct Hr as (i & Hi & Ha & Hfa & Hbit).
    assert (Ht : frame_total p' = frame_total (pmm s)) by (unfold frame_total; by rewrite He).
    assert (Hpa : ∀ j, frame_pa p' j = frame_pa (pmm s) j) by (intros j; unfold frame_pa; by rewrite He).
    assert (Hrl : reserved_list p' = reserved_list (pmm s)) by (unfold reserved_list; by rewrite Hrr).
    assert (Hres : ∀ j, is_reserved p' j = is_reserved (pmm s) j).
    { intros j. unfold is_reserved. by rewrite Hrl, Hpa. }
    eexists _, (filter (λ x, x ≠ f) out). split; [done|]. cbn [pmm]. split; [|done].
    assert (Hf : f = {| frame_addr := frame_pa (pmm s) i |}) by (destruct f; cbn in *; congruence).
    split; [done|by apply NoDup_filter|].
    intros x. rewrite list_elem_of_filter, Hfr, Ht. unfold is_allocated. setoid_rewrite Hbit. setoid_rewrite Hres.
    setoid_rewrite Hpa. split.
    + intros (Hne & j & Hj & Haj & ->). exists j. split; [done|]. split; [|done].
      case_decide as Hji; [subst j; congruence|done].
    + intros (j & Hj & Haj & ->). case_decide as Hji; [done|]. split; [|by exists j].
      rewrite Hf. intros [= Hpj%frame_pa_inj]. done.
Qed.

Lemma owned_run e rs os : Forall op_ok os → ∀ s out, owned (pmm s) out → extent (pmm s) = e →
  reserved_list (pmm s) = rs →
  ∃ s' out', pmm_run os (s, out) = Some (s', out') ∧ owned (pmm s') out' ∧
    extent (pmm s') = e ∧ reserved_list (pmm s') = rs.
Proof.
  induction 1 as [|o os Ho _ IH]; intros s out Hown He Hrs; cbn [pmm_run].
  { exists s, out. by split_and!. }
  destruct (owned_step e rs o s out Hown Ho He Hrs) as (s1 & out1 & -> & Hown1 & He1 & Hrs1).
  by apply IH.
Qed.

(** The allocated frames are as many as the counter says. *)
Lemma count_filter Q n : count Q n = length (filter (λ i, Q i = true) (seq 0 n)).
Proof.
  induction n as [|n IH]; [done|]. rewrite seq_S, filter_app, length_app. cbn [count]. rewrite IH. f_equal.
  cbn [Nat.add]. destruct (Q n) eqn:HQ.
  - by rewrite filter_cons_True.
  - rewrite filter_cons_False by congruence. done.
Qed.

Lemma owned_length p out : owned p out → length out = count (is_allocated p) (frame_total p).
Proof.
  intros [Hp Hnd Hfr]. rewrite count_filter.
  rewrite <- (length_fmap (λ i, {| frame_addr := frame_pa p i |})). apply Permutation_length.
  apply NoDup_Permutation; [done|..].
  - apply NoDup_fmap_2; [|apply NoDup_filter, NoDup_seq]. intros i j [= H%frame_pa_inj]. done.
  - intros f. rewrite Hfr, list_elem_of_fmap. split.
    + intros (i & Hi & Ha & ->). exists i. split; [done|]. apply list_elem_of_filter.
      split; [done|]. apply elem_of_seq. lia.
    + intros (i & -> & (Ha & Hi%elem_of_seq)%list_elem_of_filter). exists i. split_and!; [lia|done..].
Qed.

(** Free frames are the ones neither reserved nor allocated. *)
Lemma free_count_eq p : PWF p →
  (free_count p + reserved_count p + allocated_count p = Z.of_nat (frame_total p))%Z.
Proof.
  intros Hp. rewrite (pw_free _ Hp), (pw_rescount _ Hp), (pw_alloc _ Hp).
  pose proof (count_negb (bit (bitmap p)) (frame_total p)) as H1.
  pose proof (count_split (bit (bitmap p)) (is_reserved p) (frame_total p)) as H2.
  rewrite (count_ext (λ i, bit (bitmap p) i && is_reserved p i) (is_reserved p)) in H2.
  - change (λ i, bit (bitmap p) i && negb (is_reserved p i)) with (is_allocated p) in H2. lia.
  - intros i Hi. destruct (is_reserved p i) eqn:Hr; [by rewrite (pw_bits _ Hp)|by rewrite andb_false_r].
Qed.

Lemma owned_safe p out f : owned p out → f ∈ out →
  (frame_addr f `mod` PAGE_SIZE = 0 ∧ start (extent p) ≤ frame_addr f ∧
   frame_addr f + PAGE_SIZE ≤ end_ (extent p))%Z ∧
  ∀ r, r ∈ reserved_list p → range_contains r (frame_addr f) = false.
Proof.
  intros [Hp _ Hfr] (i & Hi & Ha & ->)%Hfr. destruct (frame_in_extent _ _ Hp Hi) as (H1 & H2 & _ & H4).
  split; [done|]. intros r Hr. cbn [frame_addr]. apply andb_true_iff in Ha as [_ Ha%negb_true_iff].
  destruct (range_contains r (frame_pa p i)) eqn:Hx; [|done].
  assert (is_reserved p i = true); [|congruence]. apply existsb_exists. exists r.
  split; [by apply list_elem_of_In|done].
Qed.

(** Allocation in a state whose outstanding frames are known. *)
Lemma owned_alloc s out : owned (pmm s) out →
  ∃ s' r, alloc_frame s = Some (s', r) ∧
    match r with
    | Err _ => free_frames (stats (pmm s)) = 0%Z ∧ s' = s
    | Ok f => (free_frames (stats (pmm s)) > 0)%Z ∧ f ∉ out ∧
        let va := (KERNEL_HIGH_HALF_OFFSET + frame_addr f)%Z in
        ∀ a, pmem s' a = if bool_decide (va ≤ a < va + PAGE_SIZE)%Z then 0%Z else pmem s a
    end.
Proof.
  intros [Hp _ Hfr]. pose proof (alloc_frame_wp s Hp) as Hw. apply wp_run in Hw as (s' & r & -> & _ & Hr).
  exists s', r. split; [done|]. cbn [stats free_frames]. rewrite (pw_free _ Hp). destruct r as [f|[]].
  - destruct Hr as (i & Hi & Hb & _ & -> & _ & _ & _ & Hm). split_and!.
    + destruct (count (λ i, negb (bit (bitmap (pmm s)) i)) (frame_total (pmm s))) eqn:Hc; [|lia].
      pose proof (proj1 (count_zero _ _) Hc i Hi) as Hn. cbn beta in Hn. by rewrite Hb in Hn.
    + intros (j & Hj & Ha & [= Hij%frame_pa_inj])%Hfr. subst j. unfold is_allocated in Ha. by rewrite Hb in Ha.
    + cbv zeta. intros a. by rewrite Hm.
  - destruct Hr as [-> Hall]. split; [|done]. rewrite count_none; [done|]. intros i Hi. by rewrite Hall.
Qed.

Lemma owned_free p out f : owned p out → (frame_addr f `mod` PAGE_SIZE = 0)%Z →
  ∃ p' r, free_frame f p = Some (p', r) ∧ (r = Ok tt ↔ f ∈ out) ∧ (r = Err DoubleFree ∨ r = Err OutOfRange → p' = p).
Proof.
  intros [Hp _ Hfr] Hm. pose proof (free_frame_wp p f Hp Hm) as Hw.
  apply wp_run in Hw as (p' & r & -> & _ & _ & _ & Hr). exists p', r. split; [done|].
  rewrite Hfr. destruct r as [[]|x].
  - destruct Hr as (i & Hi & Ha & Hf & _). split; [|by intros [?|?]]. split; [|done]. intros _. exists i.
    split_and!; [done..|]. destruct f; cbn in *; congruence.
  - destruct Hr as [-> Hx]. split; [|done]. split; [done|]. intros (i & Hi & Ha & ->).
    destruct x; cbn in Hx; try done.
    + destruct (frame_in_extent _ _ Hp Hi) as (H1 & H2 & _). exfalso.
      unfold range_contains, PAGE_SIZE in *. rewrite !bool_decide_true in Hx by lia. done.
    + destruct Hx as (j & Hj & Hij%frame_pa_inj & Hn). subst. congruence.
Qed.

(** C23: a frame has one owner at a time.  Start from a freshly built manager and run
    any sequence of allocations and releases (releases may name any frame, handed out
    or not).  Nothing panics, the outstanding frames are distinct, each is a page of
    the extent outside every reserved range, and the counters are exact.  In the state
    reached, allocation fails only when no frame is free, and otherwise yields a frame
    nobody holds, zeroed, with the rest of memory unchanged; a release succeeds
    exactly when the frame is outstanding and changes nothing when it fails. *)
Theorem pmm_hands_out_each_frame_once N R e rs p m os :
  (0 ≤ start e)%Z → (0 ≤ end_ e ≤ 0x100000000)%Z → Pmm_new N R e rs = Some (Ok p) → Forall op_ok os →
  ∃ s out, pmm_run os ({| pmm := p; pmem := m |}, []) = Some (s, out) ∧
    NoDup out ∧
    (∀ f, f ∈ out → (frame_addr f `mod` PAGE_SIZE = 0 ∧ start e ≤ frame_addr f ∧
                     frame_addr f + PAGE_SIZE ≤ end_ e)%Z ∧
                    ∀ r, r ∈ rs → range_contains r (frame_addr f) = false) ∧
    allocated_frames (stats (pmm s)) = Z.of_nat (length out) ∧
    (free_frames (stats (pmm s)) + reserved_frames (stats (pmm s)) + allocated_frames (stats (pmm s))
     = total_frames (stats (pmm s)))%Z ∧
    (∃ s' r, alloc_frame s = Some (s', r) ∧
      match r with
      | Err _ => free_frames (stats (pmm s)) = 0%Z ∧ s' = s
      | Ok f => (free_frames (stats (pmm s)) > 0)%Z ∧ f ∉ out ∧
          let va := (KERNEL_HIGH_HALF_OFFSET + frame_addr f)%Z in
          ∀ a, pmem s' a = if bool_decide (va ≤ a < va + PAGE_SIZE)%Z then 0%Z else pmem s a
      end) ∧
    ∀ f, (frame_addr f `mod` PAGE_SIZE = 0)%Z →
      ∃ p' r, free_frame f (pmm s) = Some (p', r) ∧ (r = Ok tt ↔ f ∈ out) ∧
        (r = Err DoubleFree ∨ r = Err OutOfRange → p' = pmm s).
Proof.
  intros H0 H1 Hn Hos. destruct (Pmm_new_spec N R e rs H0 H1) as (r & Hr & Hs).
  rewrite Hn in Hr. injection Hr as <-. destruct Hs as (_ & Hp & He & Hrs & Hal).
  assert (Hown : owned p []).
  { split; [done|constructor|]. intros f. split; [by intros ?%elem_of_nil|].
    intros (i & _ & Ha & _). by rewrite Hal in Ha. }
  destruct (owned_run e rs os Hos {| pmm := p; pmem := m |} [] Hown He Hrs)
    as (s & out & Hrun & Ho & He' & Hrs'). exists s, out.
  pose proof (ow_pmm _ _ Ho) as Hp'.
  split_and!; [done|apply Ho|..|by apply owned_alloc|by intros f; apply owned_free].
  - intros f Hf. rewrite <- He', <- Hrs'. by apply owned_safe with out.
  - rewrite (owned_length _ _ Ho). apply (pw_alloc _ Hp').
  - cbn [stats free_frames reserved_frames allocated_frames total_frames].
    rewrite (free_count_eq _ Hp'). unfold frame_total.
    pose proof (frame_count_small e H0 (proj2 H1)). rewrite He' in *. lia.
Qed.

(** Allocate twice, release the first frame twice (and one that never was), allocate. *)
Definition sample_ops : list pmm_op :=
  [PAlloc; PAlloc; PFree {| frame_addr := 0x40003000%Z |}; PFree {| frame_addr := 0x40003000%Z |};
   PFree {| frame_addr := 0x40008000%Z |}; PAlloc].

Lemma sample_ops_ok : Forall op_ok sample_ops.
Proof. repeat constructor. Qed.

Lemma pmm_hands_out_each_frame_once_witness :
  ∃ s, pmm_run sample_ops ({| pmm := sample_pmm; pmem := λ _, 1%Z |}, []) =
         Some (s, [{| frame_addr := 0x40003000%Z |}; {| frame_addr := 0x40004000%Z |}]) ∧
       allocated_frames (stats (pmm s)) = 2%Z.
Proof.
  destruct (pmm_hands_out_each_frame_once 2 4 sample_extent sample_reserved sample_pmm (λ _, 1%Z) sample_ops
    (proj1 sample_extent_bounds) (proj2 sample_extent_bounds) sample_pmm_new sample_ops_ok)
    as (s & out & Hrun & _ & _ & Hal & _).
  exists s. assert (out = [{| frame_addr := 0x40003000%Z |}; {| frame_addr := 0x40004000%Z |}]) as ->.
  { apply (f_equal (fmap snd)) in Hrun. vm_compute in Hrun. injection Hrun as <-. reflexivity. }
  split; [exact Hrun|exact Hal].
Defined.

(** ** The overlap query *)

Lemma covering_end_spec p c : PWF p →
  match covering_end (extent p) (reserved_list p) c with
  | Some d => c < d ∧ ∀ k, c ≤ k < d → is_reserved p k = true
  | None => is_reserved p c = false
  end.
Proof.
  intros Hp. unfold is_reserved. pose proof (pw_ranges _ Hp) as Hok.
  induction (reserved_list p) as [|r rs IH]; cbn [covering_end existsb]; [done|].
  apply Forall_cons_1 in Hok as [Hr Hok]. specialize (IH Hok).
  destruct (reserved_span_spec (extent p) r (pw_extent _ Hp) Hr) as (_ & _ & Hend & Hin).
  cbn [reserved_span]. unfold reserved_span. rewrite Hend.
  set (a := frame_index (extent p) (start r)) in *. set (n := Z.to_nat (frame_count r)) in *.
  assert (Hin' : ∀ k, range_contains r (frame_pa p k) = true ↔ a ≤ k < a + n) by (intros k; symmetry; apply Hin).
  case_bool_decide as H1; [case_bool_decide as H2|]; cbn [andb].
  - split; [done|]. intros k Hk. rewrite (proj2 (Hin' k)) by lia. done.
  - destruct covering_end as [d|].
    + destruct IH as [? IH]. split; [done|]. intros k Hk. rewrite IH by done. apply orb_true_r.
    + rewrite IH, orb_false_r. apply not_true_iff_false. rewrite Hin'. lia.
  - destruct covering_end as [d|].
    + destruct IH as [? IH]. split; [done|]. intros k Hk. rewrite IH by done. apply orb_true_r.
    + rewrite IH, orb_false_r. apply not_true_iff_false. rewrite Hin'. lia.
Qed.

Lemma cover_walk_spec p e : PWF p → ∀ fuel c, e - c < fuel →
  ∃ b, cover_walk fuel p c e = Some b ∧ (b = true ↔ ∃ i, c ≤ i < e ∧ is_reserved p i = false).
Proof.
  intros Hp. induction fuel as [|fuel IH]; intros c Hf; [lia|]. cbn [cover_walk].
  case_bool_decide as Hc.
  2:{ exists false. split; [done|]. split; [done|]. intros (i & ? & _). lia. }
  pose proof (covering_end_spec p c Hp) as Hs. destruct covering_end as [d|].
  - destruct Hs as [Hd Hres]. destruct (IH d ltac:(lia)) as (b & -> & Hb). exists b. split; [done|].
    rewrite Hb. split; intros (i & Hi & Hn); exists i; split; try done; [lia|].
    destruct (decide (i < d)); [|lia]. rewrite Hres in Hn by lia. done.
  - exists true. split; [done|]. split; [|done]. intros _. exists c. split; [lia|done].
Qed.

(** The walk's window is the frames that meet the queried range. *)
Lemma window_spec (es ee a b : Z) (i : nat) : (es `mod` 4096 = 0)%Z → (ee `mod` 4096 = 0)%Z → (0 ≤ es)%Z →
  (a < b)%Z → (es < b)%Z → (a < ee)%Z →
  let cs := if bool_decide (a > es)%Z then a else es in
  let ce := if bool_decide (b < ee)%Z then b else ee in
  Z.to_nat (Z.max (cs - es) 0 `div` 4096) ≤ i < Z.to_nat (div_ceil (Z.max (ce - es) 0) 4096) ↔
  i < Z.to_nat ((ee - es) `div` 4096) ∧
  (es + Z.of_nat i * 4096 < b)%Z ∧ (a < es + Z.of_nat i * 4096 + 4096)%Z.
Proof.
  intros Hs He H0 Hab Hb Ha cs ce. destruct (div_sub_pages ee es He Hs) as (-> & E1 & E2).
  unfold cs, ce, div_ceil. repeat case_bool_decide; Z.to_euclidean_division_equations; lia.
Qed.

Lemma could_yield_spec p a b : PWF p →
  ∃ y, could_yield_pa_overlapping p a b = Some y ∧
    (y = true ↔ ∃ f, (frame_addr f `mod` PAGE_SIZE = 0)%Z ∧ range_contains (extent p) (frame_addr f) = true ∧
                     (∀ r, r ∈ reserved_list p → range_contains r (frame_addr f) = false) ∧
                     (a < b)%Z ∧ (frame_addr f < b)%Z ∧ (a < frame_addr f + PAGE_SIZE)%Z).
Proof.
  intros Hp. destruct (pw_extent _ Hp) as (Ha & H0 & He & _). apply aligned_mod in Ha as [Hs Hen].
  unfold could_yield_pa_overlapping. case_bool_decide as Hab.
  { exists false. split; [done|]. split; [done|]. intros (f & _ & _ & _ & ? & _). lia. }
  case_bool_decide as Hb; [|case_bool_decide as Hc]; cbn [orb].
  1,2: exists false; split; [done|]; split; [done|]; intros (f & Hm & Hcn & _ & _ & Hfb & Hfa);
    unfold range_contains in Hcn; apply andb_true_iff in Hcn as [?%bool_decide_eq_true ?%bool_decide_eq_true];
    unfold PAGE_SIZE in *; Z.to_euclidean_division_equations; lia.
  cbv zeta. unfold frame_index at 1 2, saturating_sub64, PAGE_SIZE.
  pose proof (λ i, window_spec (start (extent p)) (end_ (extent p)) a b i Hs Hen H0 ltac:(lia) ltac:(lia) ltac:(lia))
    as Hwin. cbv zeta in Hwin.
  edestruct (cover_walk_spec p) as (y & Hy & Hiff); [done|apply Nat.lt_succ_diag_r|].
  exists y. split; [exact Hy|]. rewrite Hiff. pose proof (frame_total_eq p Hp) as Htot. unfold PAGE_SIZE in Htot. split.
  - intros (i & Hi%Hwin & Hres). rewrite <- Htot in Hi. destruct Hi as (Hi & Hib & Hia).
    exists {| frame_addr := frame_pa p i |}. destruct (frame_in_extent p i Hp Hi) as (F1 & F2 & _ & F4).
    cbn [frame_addr]. unfold frame_pa, PAGE_SIZE in *. split_and!; try done; try lia.
    + unfold range_contains. rewrite !bool_decide_true by lia. done.
    + intros r Hr. apply not_true_iff_false. intros Hx. assert (is_reserved p i = true); [|congruence].
      apply existsb_exists. exists r. split; [by apply list_elem_of_In|done].
  - intros (f & Hm & Hcn & Hres & _ & Hfb & Hfa). destruct (frame_index_spec p _ Hp Hcn Hm) as [Hi Hpa].
    exists (frame_index (extent p) (frame_addr f)). rewrite Hwin, <- Htot.
    set (i := frame_index (extent p) (frame_addr f)) in *. rewrite <- Hpa in *.
    unfold frame_pa, PAGE_SIZE in *. split; [split_and!; done|].
    apply not_true_iff_false. intros (r & Hr & Hx)%existsb_exists. apply list_elem_of_In in Hr.
    rewrite Hres in Hx; done.
Qed.

(** The overlap query is exact.  In every state the manager reaches,
    [could_yield_pa_overlapping] returns, and it answers yes exactly when some frame
    of the extent outside every reserved range meets the queried addresses: a no
    means no future allocation can touch them. *)
Theorem could_yield_pa_overlapping_exact N R e rs p m os a b :
  (0 ≤ start e)%Z → (0 ≤ end_ e ≤ 0x100000000)%Z → Pmm_new N R e rs = Some (Ok p) → Forall op_ok os →
  ∃ s out y, pmm_run os ({| pmm := p; pmem := m |}, []) = Some (s, out) ∧
    could_yield_pa_overlapping (pmm s) a b = Some y ∧
    (y = true ↔ ∃ f, (frame_addr f `mod` PAGE_SIZE = 0)%Z ∧ range_contains e (frame_addr f) = true ∧
                     (∀ r, r ∈ rs → range_contains r (frame_addr f) = false) ∧
                     (a < b)%Z ∧ (frame_addr f < b)%Z ∧ (a < frame_addr f + PAGE_SIZE)%Z).
Proof.
  intros H0 H1 Hn Hos. destruct (Pmm_new_spec N R e rs H0 H1) as (r & Hr & Hs).
  rewrite Hn in Hr. injection Hr as <-. destruct Hs as (_ & Hp & He & Hrs & Hal).
  assert (Hown : owned p []).
  { split; [done|constructor|]. intros f. split; [by intros ?%elem_of_nil|].
    intros (i & _ & Ha & _). by rewrite Hal in Ha. }
  destruct (owned_run e rs os Hos {| pmm := p; pmem := m |} [] Hown He Hrs)
    as (s & out & Hrun & Ho & He' & Hrs'). exists s, out.
  destruct (could_yield_spec (pmm s) a b (ow_pmm _ _ Ho)) as (y & Hy & Hiff). exists y.
  split_and!; [done..|]. by rewrite Hiff, He', Hrs'.
Qed.

Lemma could_yield_pa_overlapping_exact_witness :
  ∃ s out y, pmm_run sample_ops ({| pmm := sample_pmm; pmem := λ _, 1%Z |}, []) = Some (s, out) ∧
    could_yield_pa_overlapping (pmm s) 0x40002fff 0x40003001 = Some y ∧ y = true.
Proof.
  destruct (could_yield_pa_overlapping_exact 2 4 sample_extent sample_reserved sample_pmm (λ _, 1%Z) sample_ops
    0x40002fff 0x40003001 (proj1 sample_extent_bounds) (proj2 sample_extent_bounds) sample_pmm_new sample_ops_ok)
    as (s & out & y & Hrun & Hy & Hiff).
  exists s, out, y. split; [exact Hrun|]. split; [exact Hy|]. apply Hiff.
  exists {| frame_addr := 0x40003000%Z |}. split_and!; [reflexivity|vm_compute; reflexivity| |done..].
  apply Forall_forall. repeat constructor.
Defined.
