(* ===== verification/Timer.v ===== *)
(** * Clock arithmetic (hal/src/timer.rs)

The conversions between counter ticks and nanoseconds.  They multiply in 128 bits,
where a product that does not fit would panic, and saturate to 64 bits. *)

From S2P Require Import Prelude.
Local Open Scope Z_scope.

Definition NANOS_PER_SECOND : Z := 1000000000.

Definition U128_MAX : Z := 2 ^ 128 - 1.

(** [u128] multiplication: overflow is a panic. *)
Definition mul128 (x y : Z) : option Z := if bool_decide (x * y ≤ U128_MAX) then Some (x * y) else None.

(** [if x > u64::MAX as u128 { u64::MAX } else { x as u64 }] *)
Definition to_u64 (x : Z) : Z := if bool_decide (U64_MAX < x) then U64_MAX else x.

Definition ticks_to_ns (count frequency_hz : Z) : option Z :=
  if bool_decide (frequency_hz = 0) then None else
  match mul128 count NANOS_PER_SECOND with
  | None => None
  | Some intermediate => Some (to_u64 (intermediate `div` frequency_hz))
  end.

Definition resolution_ns_for_freq (frequency_hz : Z) : option Z :=
  if bool_decide (frequency_hz = 0) then None else
  match checked_add64 NANOS_PER_SECOND (frequency_hz `div` 2) with
  | None => None
  | Some sum => let raw := sum `div` frequency_hz in Some (if bool_decide (raw = 0) then 1 else raw)
  end.

Definition ns_to_ticks (ns frequency_hz : Z) : option Z :=
  if bool_decide (frequency_hz = 0) then None else
  match mul128 ns frequency_hz with
  | None => None
  | Some intermediate => Some (to_u64 (div_ceil intermediate NANOS_PER_SECOND))
  end.

(** ** Facts *)

Lemma mul128_u64 x y : is_u64 x → is_u64 y → mul128 x y = Some (x * y).
Proof. intros [] []. unfold mul128. rewrite bool_decide_true; [done|]. unfold U128_MAX. nia. Qed.

Lemma to_u64_min x : to_u64 x = Z.min x U64_MAX.
Proof. unfold to_u64. case_bool_decide; lia. Qed.

(** Rounding up meets a bound exactly when the exact quotient does. *)
Lemma div_ceil_le x y z : 0 < y → div_ceil x y ≤ z ↔ x ≤ z * y.
Proof.
  intros Hy. unfold div_ceil. split.
  - intros Hle. pose proof (Z.mul_succ_div_gt (x + y - 1) y Hy). nia.
  - intros Hle. apply Z.lt_succ_r, Z.div_lt_upper_bound; lia.
Qed.

Lemma le_div x y z : 0 < y → z ≤ x `div` y ↔ z * y ≤ x.
Proof.
  intros Hy. split.
  - intros Hle. pose proof (Z.mul_div_le x y Hy). nia.
  - intros Hle. apply Z.div_le_lower_bound; lia.
Qed.

Section clock.
  Context (f : Z) (Hf : is_u64 f) (Hf0 : f ≠ 0).

Lemma ticks_to_ns_eq c : is_u64 c → ticks_to_ns c f = Some (Z.min ((c * NANOS_PER_SECOND) `div` f) U64_MAX).
Proof.
  intros Hc. unfold ticks_to_ns. rewrite bool_decide_false, mul128_u64, to_u64_min by (done || by split). done.
Qed.

Lemma ns_to_ticks_eq d : is_u64 d → ns_to_ticks d f = Some (Z.min (div_ceil (d * f) NANOS_PER_SECOND) U64_MAX).
Proof.
  intros Hd. unfold ns_to_ticks. rewrite bool_decide_false, mul128_u64, to_u64_min by (done || by split). done.
Qed.
End clock.

(** C40: a deadline is neither early nor late.  For every nonzero 64-bit frequency, count
    and deadline, neither conversion overflows its 128-bit product, and the answers fit
    64 bits.  The clock never runs backwards.  The comparator value of a deadline is the
    first count at which the clock has reached it: an interrupt at that count is never
    early and one tick sooner would be.  The one exception is a deadline beyond the last
    count, which saturates: the clock never reaches it, yet the comparator matches the
    last count.  A zero frequency panics. *)
Theorem deadline_is_on_time f d c : is_u64 f → is_u64 d → is_u64 c → f ≠ 0 →
  ∃ t n, ns_to_ticks d f = Some t ∧ ticks_to_ns c f = Some n ∧ is_u64 t ∧ is_u64 n ∧
    (d * f ≤ U64_MAX * NANOS_PER_SECOND → t ≤ c ↔ d ≤ n) ∧
    (U64_MAX * NANOS_PER_SECOND < d * f → t = U64_MAX ∧ n < d) ∧
    (∀ c' n', c ≤ c' → is_u64 c' → ticks_to_ns c' f = Some n' → n ≤ n') ∧
    ns_to_ticks d 0 = None ∧ ticks_to_ns c 0 = None.
Proof.
  intros Hf Hd Hc Hf0. assert (HU : U64_MAX = 2 ^ 64 - 1) by done. assert (0 < f) as Hfp by (destruct Hf; lia).
  assert (HN : 0 < NANOS_PER_SECOND) by done. pose proof Hd as [Hd0 Hd1]. pose proof Hc as [Hc0 Hc1].
  pose proof (div_ceil_le (d * f) NANOS_PER_SECOND) as Hup. pose proof (le_div (c * NANOS_PER_SECOND) f) as Hdown.
  do 2 eexists. rewrite ns_to_ticks_eq, ticks_to_ns_eq by done. do 2 (split; [done|]).
  assert (Hn0 : 0 ≤ (c * NANOS_PER_SECOND) `div` f) by (apply Z.div_pos; lia).
  assert (Ht0 : 0 ≤ div_ceil (d * f) NANOS_PER_SECOND) by (apply Z.div_pos; nia).
  split; [split; lia|]. split; [split; lia|]. split; [|split; [|split]].
  - intros Hsat. apply (Hup U64_MAX HN) in Hsat. rewrite Z.min_l by done. rewrite Hup by done.
    rewrite Z.min_glb_iff, Hdown by done. split; [intros; split; [done|lia]|by intros []].
  - intros Hsat. split.
    + apply Z.min_r, Z.lt_le_incl, Z.nle_gt. rewrite Hup by done. lia.
    + apply Z.min_lt_iff. left. apply Z.nle_gt. rewrite Hdown by done. nia.
  - intros c' n' Hle Hc'. rewrite ticks_to_ns_eq by done. intros [= <-]. apply Z.min_le_compat_r, Z.div_le_mono; [done|nia].
  - done.
Qed.

Lemma deadline_is_on_time_witness :
  (∃ t n, ns_to_ticks 1000 62500000 = Some t ∧ ticks_to_ns 62 62500000 = Some n ∧ t = 63 ∧ n = 992 ∧ n < 1000) ∧
  ∃ t n, ns_to_ticks U64_MAX 2000000000 = Some t ∧ ticks_to_ns U64_MAX 2000000000 = Some n ∧ t = U64_MAX ∧ n < U64_MAX.
Proof.
  split.
  - destruct (deadline_is_on_time 62500000 1000 62) as (t & n & Ht & Hn & _ & _ & Hiff & _); [by split..|done|].
    assert (t = 63) as -> by (vm_compute in Ht; by injection Ht). exists 63, n. do 2 (split; [done|]). split; [done|].
    assert (¬ 1000 ≤ n) as Hlt by (rewrite <- Hiff by done; lia).
    vm_compute in Hn. injection Hn as <-. split; [done|lia].
  - destruct (deadline_is_on_time 2000000000 U64_MAX U64_MAX) as (t & n & Ht & Hn & _ & _ & _ & Hsat & _); [by split..|done|].
    exists t, n. do 2 (split; [done|]). by apply Hsat.
Defined.

(** The reported resolution is the period rounded to the nearest nanosecond, at least 1. *)
Lemma resolution_rounds f : is_u64 f → f ≠ 0 → ∃ r, resolution_ns_for_freq f = Some r ∧ 1 ≤ r ≤ NANOS_PER_SECOND ∧
  (2 * Z.abs (r * f - NANOS_PER_SECOND) ≤ f ∨ r = 1 ∧ 2 * NANOS_PER_SECOND < f).
Proof.
  intros [Hf0 Hf1] Hne. unfold resolution_ns_for_freq, checked_add64.
  rewrite bool_decide_false, bool_decide_true by (done || (unfold NANOS_PER_SECOND, U64_MAX; Z.to_euclidean_division_equations; lia)).
  eexists. split; [done|]. unfold NANOS_PER_SECOND. case_bool_decide as Hr.
  - split; [lia|]. right. split; [done|]. apply Z.div_small_iff in Hr; [|lia].
    destruct Hr as [Hr|Hr]; [|Z.to_euclidean_division_equations; lia].
    pose proof (Z.div_mod f 2). pose proof (Z.mod_pos_bound f 2). lia.
  - pose proof (Z.div_mod (1000000000 + f `div` 2) f Hne). pose proof (Z.mod_pos_bound (1000000000 + f `div` 2) f).
    pose proof (Z.div_mod f 2). pose proof (Z.mod_pos_bound f 2).
    assert (0 ≤ (1000000000 + f `div` 2) `div` f) by (apply Z.div_pos; lia).
    set (r := (1000000000 + f `div` 2) `div` f) in *. split; [|left; lia]. split; [lia|].
    apply Z.div_le_upper_bound; nia.
Qed.
