(* ===== verification/Gic.v ===== *)
(** * The interrupt path of the QEMU board (bsp-qemu-virt/src/gic.rs, cpu.rs, exceptions.rs)

The GICv2 driver over a memory-mapped device, the generic timer's deadline registers
and the interrupt entry.  The device is not code of the repository: a class with one
32-bit read and one write, each free to change the device. *)

From S2P Require Import Prelude.
From S2P Require Import Timer.
Local Open Scope Z_scope.

Definition QEMU_VIRT_GIC_DISTRIBUTOR_BASE : Z := 0x08000000.
Definition QEMU_VIRT_GIC_CPU_INTERFACE_BASE : Z := 0x08010000.
Definition GICD_CTLR : Z := 0x000.
Definition GICD_TYPER : Z := 0x004.
Definition GICD_ISENABLER_BASE : Z := 0x100.
Definition GICD_ICENABLER_BASE : Z := 0x180.
Definition GICD_IPRIORITYR_BASE : Z := 0x400.
Definition GICD_ITARGETSR_BASE : Z := 0x800.
Definition GICC_CTLR : Z := 0x000.
Definition GICC_PMR : Z := 0x004.
Definition GICC_IAR : Z := 0x00C.
Definition GICC_EOIR : Z := 0x010.
Definition GIC_SPURIOUS_INTID : Z := 1023.
Definition GICC_IAR_INTID_MASK : Z := 0x3FF.
Definition FIRST_SPI : Z := 32.
Definition DEFAULT_PRIORITY_BYTE : Z := 0xA0.
Definition TARGET_CPU0_BYTE : Z := 0x01.
Definition GIC_MAX_IRQ : Z := 1020.

Record IrqNumber := { irq_id : Z }.

(** Volatile accesses at an address. *)
Class Mmio (D : Type) := {
  read_volatile : Z → D → D * Z;
  write_volatile : Z → Z → D → D;
}.

Record QemuVirtGic := { distributor_base : Z; cpu_interface_base : Z }.

Definition gic_new (distributor_base cpu_interface_base : Z) : QemuVirtGic :=
  {| distributor_base := distributor_base; cpu_interface_base := cpu_interface_base |}.

(** [b | (b << 8) | (b << 16) | (b << 24)] *)
Definition byte_word (b : Z) : Z :=
  Z.lor (Z.lor (Z.lor b (Z.shiftl b 8)) (Z.shiftl b 16)) (Z.shiftl b 24).

Section gic.
  Context `{Mmio D} {E : Type}.
  Implicit Types self : QemuVirtGic.

Definition read_distributor self (offset : Z) : M D E Z := λ d,
  let r := read_volatile (saturating_add64 (distributor_base self) offset) d in Some (r.1, Ok r.2).
Definition write_distributor self (offset value : Z) : M D E unit :=
  modify (write_volatile (saturating_add64 (distributor_base self) offset) value).
Definition read_cpu_interface self (offset : Z) : M D E Z := λ d,
  let r := read_volatile (saturating_add64 (cpu_interface_base self) offset) d in Some (r.1, Ok r.2).
Definition write_cpu_interface self (offset value : Z) : M D E unit :=
  modify (write_volatile (saturating_add64 (cpu_interface_base self) offset) value).

(** [while n.saturating_mul(32) < irq_count]: disable register after register. *)
Fixpoint disable_loop (fuel : nat) self (n irq_count : Z) : M D E unit :=
  match fuel with
  | O => panic
  | S fuel =>
      if bool_decide (saturating_mul64 n 32 < irq_count) then
        write_distributor self (saturating_add64 GICD_ICENABLER_BASE (saturating_mul64 n 4)) 0xFFFFFFFF ;;
        disable_loop fuel self (saturating_add64 n 1) irq_count
      else ret tt
  end.

(** [while byte_idx < irq_count]: one word of a byte-per-line register file. *)
Fixpoint word_loop (fuel : nat) self (file word byte_idx irq_count : Z) : M D E unit :=
  match fuel with
  | O => panic
  | S fuel =>
      if bool_decide (byte_idx < irq_count) then
        write_distributor self (saturating_add64 file byte_idx) word ;;
        word_loop fuel self file word (saturating_add64 byte_idx 4) irq_count
      else ret tt
  end.

Definition init self : M D E unit :=
  write_distributor self GICD_CTLR 0 ;;
  let* typer := read_distributor self GICD_TYPER in
  let it_lines_field := Z.land typer 0x1F in
  let irq_count := saturating_mul64 (saturating_add64 it_lines_field 1) 32 in
  disable_loop 32 self 1 irq_count ;;
  word_loop 249 self GICD_IPRIORITYR_BASE (byte_word DEFAULT_PRIORITY_BYTE) FIRST_SPI irq_count ;;
  word_loop 249 self GICD_ITARGETSR_BASE (byte_word TARGET_CPU0_BYTE) FIRST_SPI irq_count ;;
  write_distributor self GICD_CTLR 1 ;;
  write_cpu_interface self GICC_PMR 0xFF ;;
  write_cpu_interface self GICC_CTLR 1.

(** The one write of [enable] and of [disable]; both assert the line number. *)
Definition write_line self (bank : Z) (irq : IrqNumber) : M D E unit :=
  if negb (bool_decide (irq_id irq < GIC_MAX_IRQ)) then panic else
  let n := irq_id irq in
  write_distributor self (saturating_add64 bank (saturating_mul64 (n `div` 32) 4)) (Z.shiftl 1 (n `mod` 32)).

Definition enable self (irq : IrqNumber) : M D E unit := write_line self GICD_ISENABLER_BASE irq.
Definition disable self (irq : IrqNumber) : M D E unit := write_line self GICD_ICENABLER_BASE irq.

Definition acknowledge self : M D E (option IrqNumber) :=
  let* raw := read_cpu_interface self GICC_IAR in
  let intid := Z.land raw GICC_IAR_INTID_MASK in
  ret (if bool_decide (intid = GIC_SPURIOUS_INTID) then None else Some {| irq_id := intid |}).

Definition end_of_interrupt self (irq : IrqNumber) : M D E unit :=
  write_cpu_interface self GICC_EOIR (irq_id irq).
End gic.

(** ** The timer of the CPU *)

Definition TIMER_IRQ : IrqNumber := {| irq_id := 27 |}.
Definition TIMER_IRQ_ID : Z := 27.

Record QemuVirtCpu := { frequency_hz : Z; resolution_ns : Z }.

(** [QemuVirtCpu::new] for the value [CNTFRQ_EL0] reads. *)
Definition cpu_new (cntfrq_el0 : Z) : option QemuVirtCpu :=
  if negb (bool_decide (0 < cntfrq_el0)) then None else
  match resolution_ns_for_freq cntfrq_el0 with
  | None => None
  | Some r => Some {| frequency_hz := cntfrq_el0; resolution_ns := r |}
  end.

(** The machine the interrupt path works on: the device behind the GIC and the
    virtual-timer registers. *)
Record Machine (D : Type) := { device : D; cntv_cval_el0 : Z; cntv_ctl_el0 : Z }.
Arguments Build_Machine {D} device cntv_cval_el0 cntv_ctl_el0.
Arguments device {D} m.
Arguments cntv_cval_el0 {D} m.
Arguments cntv_ctl_el0 {D} m.

Section machine.
  Context `{Mmio D} {E : Type}.
  Implicit Types m : Machine D.

Definition set_device (d : D) m : Machine D := Build_Machine d (cntv_cval_el0 m) (cntv_ctl_el0 m).
Definition on_device {A} (op : M D E A) : M (Machine D) E A := zoom device set_device op.
Definition msr_cval (v : Z) : M (Machine D) E unit := modify (λ m, Build_Machine (device m) v (cntv_ctl_el0 m)).
Definition msr_ctl (v : Z) : M (Machine D) E unit := modify (λ m, Build_Machine (device m) (cntv_cval_el0 m) v).

(** [now_ns] for the value [CNTVCT_EL0] reads. *)
Definition now_ns (self : QemuVirtCpu) (cntvct_el0 : Z) : option Z := ticks_to_ns cntvct_el0 (frequency_hz self).

Definition arm_deadline (gic : QemuVirtGic) (self : QemuVirtCpu) (deadline_ns : Z) : M (Machine D) E unit :=
  match ns_to_ticks deadline_ns (frequency_hz self) with
  | None => panic
  | Some target_ticks =>
      msr_cval target_ticks ;;
      msr_ctl 1 ;;
      on_device (enable gic TIMER_IRQ)
  end.

Definition cancel_deadline (gic : QemuVirtGic) : M (Machine D) E unit :=
  msr_ctl 2 ;;
  on_device (disable gic TIMER_IRQ).

Definition irq_entry (gic : QemuVirtGic) : M (Machine D) E unit :=
  let* o := on_device (acknowledge gic) in
  match o with
  | None => ret tt
  | Some irq =>
      if bool_decide (irq_id irq = TIMER_IRQ_ID) then
        msr_ctl 2 ;;
        on_device (end_of_interrupt gic irq)
      else
        on_device (end_of_interrupt gic irq) ;;
        panic
  end.
End machine.
