(* ===== verification/GicProps.v ===== *)
(** * Properties of the interrupt path

Initialisation ends and programs exactly the interrupt lines the controller has; an
acknowledged interrupt is ended, a spurious one is not. *)

From S2P Require Import Prelude.
From S2P Require Import Timer.
From S2P Require Import Gic.
Local Open Scope Z_scope.

(** ** The writes of [init] *)

(** A register write: its offset and its value. *)
Definition disables (lines : Z) : list (Z * Z) := (λ n, (GICD_ICENABLER_BASE + 4 * n, 0xFFFFFFFF)) <$> seqZ 1 lines.
Definition words (file word lines : Z) : list (Z * Z) := (λ q, (file + 4 * q, word)) <$> seqZ 8 (8 * lines).

(** What [init] writes to the distributor after reading how many lines there are. *)
Definition init_writes (lines : Z) : list (Z * Z) :=
  disables lines ++ words GICD_IPRIORITYR_BASE 0xA0A0A0A0 lines ++ words GICD_ITARGETSR_BASE 0x01010101 lines ++
  [(GICD_CTLR, 1)].

Section init.
  Context `{Mmio D} {E : Type} (self : QemuVirtGic).
  Context (Hbase : 0 ≤ distributor_base self ∧ distributor_base self + 0xFFF ≤ U64_MAX).
  Implicit Types (d : D).

Definition dist_write (d : D) (w : Z * Z) : D := write_volatile (distributor_base self + w.1) w.2 d.
Definition cpu_write (d : D) (w : Z * Z) : D := write_volatile (saturating_add64 (cpu_interface_base self) w.1) w.2 d.

Lemma write_distributor_eq o v d : 0 ≤ o ≤ 0xFFF → write_distributor (E := E) self o v d = Some (dist_write d (o, v), Ok tt).
Proof. intros Ho. unfold write_distributor, modify, dist_write. rewrite saturating_add64_eq by lia. done. Qed.

Lemma seqZ_succ q r : seqZ q (Z.of_nat (S r)) = q :: seqZ (q + 1) (Z.of_nat r).
Proof. rewrite seqZ_cons by lia. f_equal; f_equal; lia. Qed.

Lemma disable_loop_eq r : ∀ fuel n d, (r < fuel)%nat → 0 ≤ n → n + Z.of_nat r ≤ 32 →
  disable_loop (E := E) fuel self n ((n + Z.of_nat r) * 32) d =
    Some (foldl dist_write d ((λ n, (GICD_ICENABLER_BASE + 4 * n, 0xFFFFFFFF)) <$> seqZ n (Z.of_nat r)), Ok tt).
Proof.
  induction r as [|r IH]; intros [|fuel] n d Hf Hn Hlim; try lia; cbn [disable_loop].
  - rewrite saturating_mul64_eq, bool_decide_false by (unfold U64_MAX; lia). done.
  - rewrite !saturating_mul64_eq, bool_decide_true by (unfold U64_MAX; lia).
    rewrite !saturating_add64_eq by (unfold U64_MAX, GICD_ICENABLER_BASE; lia).
    unfold bind. rewrite write_distributor_eq by (unfold GICD_ICENABLER_BASE; lia).
    replace (n + Z.of_nat (S r)) with (n + 1 + Z.of_nat r) by lia. rewrite IH, seqZ_succ by lia.
    replace (GICD_ICENABLER_BASE + n * 4) with (GICD_ICENABLER_BASE + 4 * n) by lia. done.
Qed.

Lemma word_loop_eq file word r : ∀ fuel q d, (r < fuel)%nat → 0 ≤ q → 0 ≤ file → file + 4 * (q + Z.of_nat r) ≤ 0xFFF →
  word_loop (E := E) fuel self file word (4 * q) (4 * (q + Z.of_nat r)) d =
    Some (foldl dist_write d ((λ q, (file + 4 * q, word)) <$> seqZ q (Z.of_nat r)), Ok tt).
Proof.
  induction r as [|r IH]; intros [|fuel] q d Hf Hq Hfl Hlim; try lia; cbn [word_loop].
  - rewrite bool_decide_false by lia. done.
  - rewrite bool_decide_true by lia. rewrite !saturating_add64_eq by (unfold U64_MAX; lia).
    unfold bind. rewrite write_distributor_eq by lia.
    replace (4 * q + 4) with (4 * (q + 1)) by lia.
    replace (q + Z.of_nat (S r)) with (q + 1 + Z.of_nat r) by lia. rewrite IH, seqZ_succ by lia. done.
Qed.

(** [init] as its sequence of writes. *)
Lemma init_eq d typer d1 : read_volatile (distributor_base self + GICD_TYPER) (dist_write d (GICD_CTLR, 0)) = (d1, typer) →
  init (E := E) self d = Some (foldl cpu_write (foldl dist_write d1 (init_writes (Z.land typer 0x1F)))
                                     [(GICC_PMR, 0xFF); (GICC_CTLR, 1)], Ok tt).
Proof.
  intros Hr. unfold init, bind at 1. rewrite write_distributor_eq by done. unfold bind at 1, read_distributor.
  rewrite (saturating_add64_eq (distributor_base self)), Hr by (unfold GICD_TYPER; lia). cbn [fst snd].
  change 0x1F with (Z.ones 5). rewrite Z.land_ones by done. set (lines := typer `mod` 2 ^ 5).
  assert (0 ≤ lines < 32) as Hl by (apply Z.mod_pos_bound; lia).
  rewrite saturating_add64_eq, saturating_mul64_eq by (unfold U64_MAX; lia).
  assert (Hln : lines = Z.of_nat (Z.to_nat lines)) by lia. set (k := Z.to_nat lines) in *.
  unfold bind at 1. replace ((lines + 1) * 32) with ((1 + Z.of_nat k) * 32) by lia. rewrite disable_loop_eq by lia.
  unfold bind at 1. replace ((1 + Z.of_nat k) * 32) with (4 * (8 + Z.of_nat (8 * k))) by lia.
  change FIRST_SPI with (4 * 8). rewrite word_loop_eq by (unfold GICD_IPRIORITYR_BASE; lia).
  unfold bind at 1. rewrite word_loop_eq by (unfold GICD_ITARGETSR_BASE; lia).
  unfold bind at 1. rewrite write_distributor_eq by done.
  unfold init_writes, disables, words. rewrite !foldl_app, Hln. replace (8 * Z.of_nat k) with (Z.of_nat (8 * k)) by lia. done.
Qed.
End init.

(** Word [w] of a register file with a byte per line holds the byte of line [i]. *)
Definition holds_line (file i : Z) (w : Z * Z) : Prop := w.1 ≤ file + i < w.1 + 4.

(** Each line of the controller lies under exactly one of the words. *)
Lemma words_cover file word lines i : 0 ≤ lines → 32 ≤ i < (lines + 1) * 32 →
  ∃ j, (∃ w, words file word lines !! j = Some w ∧ holds_line file i w) ∧
    ∀ j' w', words file word lines !! j' = Some w' → holds_line file i w' → j' = j.
Proof.
  intros Hl Hi. unfold words, holds_line. exists (Z.to_nat (i `div` 4 - 8)). split.
  - exists (file + 4 * (i `div` 4), word). cbn [fst]. split; [|Z.to_euclidean_division_equations; lia].
    rewrite list_lookup_fmap, lookup_seqZ_lt by (Z.to_euclidean_division_equations; lia). cbn. do 3 f_equal.
    Z.to_euclidean_division_equations; lia.
  - intros j' w' Hw' Hh. rewrite list_lookup_fmap in Hw'. apply fmap_Some in Hw' as (q & [-> Hq]%lookup_seqZ & ->).
    cbn [fst] in Hh. Z.to_euclidean_division_equations; lia.
Qed.

(** Which register file a write belongs to. *)
Definition in_bank (lo hi : Z) (w : Z * Z) : Prop := lo ≤ w.1 ∧ w.1 + 4 ≤ hi ∧ w.1 `mod` 4 = 0.

Lemma words_bank file word lines : 0 ≤ lines < 32 → file `mod` 4 = 0 →
  Forall (in_bank (file + 32) (file + 32 * (lines + 1))) (words file word lines).
Proof.
  intros Hl Hf. apply Forall_fmap, Forall_forall. intros q Hq%elem_of_seqZ. unfold in_bank. cbn.
  split; [lia|]. split; [lia|]. Z.to_euclidean_division_equations; lia.
Qed.

Lemma disables_bank lines : 0 ≤ lines < 32 →
  Forall (in_bank (GICD_ICENABLER_BASE + 4) (GICD_ICENABLER_BASE + 4 * (lines + 1))) (disables lines).
Proof.
  intros Hl. apply Forall_fmap, Forall_forall. intros q Hq%elem_of_seqZ. unfold in_bank, GICD_ICENABLER_BASE. cbn.
  split; [lia|]. split; [lia|]. Z.to_euclidean_division_equations; lia.
Qed.

(** C39: initialising the interrupt controller ends, and programs exactly the lines the
    controller has.  On any device, in any state and whatever its type register reads,
    [init] returns: its loops end.  What it did is one sequence of writes: distributor
    off; for the [32 * lines] shared lines every disable register, one priority word and
    one target word for each four lines, so that the byte of every line is written
    exactly once in each register file; distributor on; then the two registers of the
    CPU interface.  No write leaves the registers of its bank. *)
Theorem gic_init_programs_each_line `{Mmio D} {E} (self : QemuVirtGic) (d : D) :
  0 ≤ distributor_base self → distributor_base self + 0xFFF ≤ U64_MAX →
  let d0 := dist_write self d (GICD_CTLR, 0) in
  let d1 := (read_volatile (distributor_base self + GICD_TYPER) d0).1 in
  let lines := Z.land (read_volatile (distributor_base self + GICD_TYPER) d0).2 0x1F in
  init (E := E) self d =
    Some (foldl (cpu_write self) (foldl (dist_write self) d1 (init_writes lines)) [(GICC_PMR, 0xFF); (GICC_CTLR, 1)], Ok tt) ∧
  0 ≤ lines < 32 ∧
  Forall (in_bank GICD_ICENABLER_BASE 0x200) (disables lines) ∧
  Forall (in_bank GICD_IPRIORITYR_BASE GICD_ITARGETSR_BASE) (words GICD_IPRIORITYR_BASE 0xA0A0A0A0 lines) ∧
  Forall (in_bank GICD_ITARGETSR_BASE 0xC00) (words GICD_ITARGETSR_BASE 0x01010101 lines) ∧
  (∀ i n, 32 ≤ i < (lines + 1) * 32 → n = i `div` 32 → (GICD_ICENABLER_BASE + 4 * n, 0xFFFFFFFF) ∈ disables lines) ∧
  ∀ file word i, 32 ≤ i < (lines + 1) * 32 → ∃ j, (∃ w, words file word lines !! j = Some w ∧ holds_line file i w) ∧
    ∀ j' w', words file word lines !! j' = Some w' → holds_line file i w' → j' = j.
Proof.
  intros H0 H1 d0 d1 lines.
  assert (Hl : 0 ≤ lines < 32).
  { subst lines. change 0x1F with (Z.ones 5). rewrite Z.land_ones by done. apply Z.mod_pos_bound. lia. }
  assert (Hmono : ∀ lo hi lo' hi' ws, Forall (in_bank lo hi) ws → lo' ≤ lo → hi ≤ hi' → Forall (in_bank lo' hi') ws).
  { intros lo hi lo' hi' ws Hf Hlo Hhi. eapply Forall_impl; [exact Hf|]. unfold in_bank. intros w. lia. }
  split.
  { apply init_eq; [done|]. by destruct (read_volatile _ _). }
  split; [done|]. split; [|split; [|split; [|split]]].
  - eapply Hmono; [by apply disables_bank|unfold GICD_ICENABLER_BASE; lia..].
  - eapply Hmono; [by apply words_bank|unfold GICD_IPRIORITYR_BASE, GICD_ITARGETSR_BASE; lia..].
  - eapply Hmono; [by apply words_bank|unfold GICD_ITARGETSR_BASE; lia..].
  - intros i n Hi ->. apply list_elem_of_fmap. eexists. split; [done|]. apply elem_of_seqZ.
    Z.to_euclidean_division_equations; lia.
  - intros file word i Hi. apply words_cover; lia.
Qed.

(** A device that logs its writes and whose type register names two blocks of lines. *)
#[export] Instance logger : Mmio (list (Z * Z)) :=
  {| read_volatile a d := (d, 2); write_volatile a v d := d ++ [(a, v)] |}.

Lemma gic_init_programs_each_line_witness :
  ∃ d, init (E := unit) (gic_new QEMU_VIRT_GIC_DISTRIBUTOR_BASE QEMU_VIRT_GIC_CPU_INTERFACE_BASE) [] = Some (d, Ok tt) ∧
    length d = 38%nat.
Proof.
  destruct (gic_init_programs_each_line (E := unit) (gic_new QEMU_VIRT_GIC_DISTRIBUTOR_BASE QEMU_VIRT_GIC_CPU_INTERFACE_BASE)
    (@nil (Z * Z))) as [Hrun _]; [by vm_compute|by vm_compute|].
  eexists. split; [exact Hrun|]. vm_compute. reflexivity.
Defined.

(** ** Interrupts *)

Section entry.
  Context `{Mmio D} {E : Type} (gic : QemuVirtGic).

(** The line of [enable] and [disable] is read back from the write. *)
Lemma write_line_eq bank irq (d : D) : 0 ≤ distributor_base gic ∧ distributor_base gic + 0xFFF ≤ U64_MAX →
  0 ≤ irq_id irq → 0 ≤ bank ≤ 0x180 →
  write_line (E := E) gic bank irq d =
    (if bool_decide (irq_id irq < GIC_MAX_IRQ) then
       Some (dist_write gic d (bank + 4 * (irq_id irq `div` 32), 2 ^ (irq_id irq `mod` 32)), Ok tt)
     else None).
Proof.
  intros Hb Hi Hbank. unfold write_line. case_bool_decide as Hlt; [|done]. cbn [negb]. unfold GIC_MAX_IRQ in Hlt.
  assert (0 ≤ irq_id irq `div` 32 < 32) by (Z.to_euclidean_division_equations; lia).
  rewrite saturating_mul64_eq, saturating_add64_eq by (unfold U64_MAX; lia).
  rewrite write_distributor_eq by (done || lia). rewrite Z.shiftl_1_l, (Z.mul_comm _ 4). done.
Qed.

(** [irq_entry]: a spurious acknowledge touches nothing more; the timer interrupt is
    masked and ended; any other is a panic. *)
Lemma irq_entry_cases (m : Machine D) :
  let r := read_volatile (saturating_add64 (cpu_interface_base gic) GICC_IAR) (device m) in
  let intid := Z.land r.2 GICC_IAR_INTID_MASK in
  irq_entry (E := E) gic m =
    if bool_decide (intid = GIC_SPURIOUS_INTID) then Some (set_device r.1 m, Ok tt) else
    if bool_decide (intid = TIMER_IRQ_ID) then
      Some (Build_Machine (cpu_write gic r.1 (GICC_EOIR, TIMER_IRQ_ID)) (cntv_cval_el0 m) 2, Ok tt)
    else None.
Proof.
  intros r intid. unfold irq_entry, bind, on_device, zoom, acknowledge, read_cpu_interface, bind.
  fold r. cbn [fst snd ret]. fold intid. case_bool_decide; [done|]. cbn [irq_id]. case_bool_decide as Ht; [|done].
  by rewrite Ht.
Qed.
End entry.
