(* ===== verification/Uart.v ===== *)
(** * The console of the QEMU board (bsp-qemu-virt/src/console.rs, hal/src/console.rs)

The PL011 transmits from a FIFO; the driver polls the flag register and writes a byte
when there is room.  The UART is a device behind [Mmio]; what is known of it is the
class [Pl011]. *)

From S2P Require Import Prelude.
From S2P Require Import Timer.
From S2P Require Import Gic.
Local Open Scope Z_scope.

Record Pl011Uart := { uart_base : Z }.

Definition UARTDR : Z := 0x00.
Definition UARTFR : Z := 0x18.
Definition UARTFR_TXFF : Z := Z.shiftl 1 5.

Section uart.
  Context `{Mmio D} {E : Type}.

(** [while read_volatile(fr) & UARTFR_TXFF != 0] *)
Fixpoint wait_for_room (fuel : nat) (self : Pl011Uart) : M D E unit :=
  match fuel with
  | O => panic
  | S fuel => λ d,
      let '(d, fr) := read_volatile (saturating_add64 (uart_base self) UARTFR) d in
      if bool_decide (Z.land fr UARTFR_TXFF ≠ 0) then wait_for_room fuel self d else Some (d, Ok tt)
  end.

Fixpoint write_bytes (fuel : nat) (self : Pl011Uart) (bytes : list Z) : M D E unit :=
  match bytes with
  | [] => ret tt
  | byte :: bytes =>
      wait_for_room fuel self ;;
      modify (write_volatile (saturating_add64 (uart_base self) UARTDR) byte) ;;
      write_bytes fuel self bytes
  end.
End uart.

(** ** What the device does *)

(** The bytes the FIFO has taken so far, whether it is full, and how many reads of the
    flags it can answer before it has room.  Reading the flags takes no byte and loses
    none; a byte written while there is room is taken, and leaves at most [depth] such
    reads.  What a write does to a full FIFO is not said. *)
Class Pl011 (D : Type) `{Mmio D} (base : Z) (depth : nat) := {
  taken : D → list Z;
  full : D → bool;
  backlog : D → nat;
  flags_report d : Z.testbit (read_volatile (base + UARTFR) d).2 5 = full d;
  flags_keep d : taken (read_volatile (base + UARTFR) d).1 = taken d;
  flags_drain d : full d = true → (backlog (read_volatile (base + UARTFR) d).1 < backlog d)%nat;
  flags_room d : full d = false → full (read_volatile (base + UARTFR) d).1 = false;
  data_taken d byte : full d = false → taken (write_volatile (base + UARTDR) byte d) = taken d ++ [byte];
  data_backlog d byte : full d = false → (backlog (write_volatile (base + UARTDR) byte d) ≤ depth)%nat;
}.

Section uart_ok.
  Context `{Pl011 D base depth} {E : Type}.
  Hypothesis base_ok : 0 ≤ base < 2 ^ 64 - 0x1000.

Lemma txff_bit fr : bool_decide (Z.land fr UARTFR_TXFF ≠ 0) = Z.testbit fr 5.
Proof.
  change UARTFR_TXFF with (2 ^ 5). destruct (Z.testbit fr 5) eqn:Hb; [apply bool_decide_eq_true_2|apply bool_decide_eq_false_2].
  - intros Hz. assert (Hc : Z.testbit (Z.land fr (2 ^ 5)) 5 = true) by (rewrite Z.land_spec, Hb; done). by rewrite Hz in Hc.
  - intros Hn. apply Hn. apply Z.bits_inj'. intros k Hk. rewrite Z.land_spec, Z.bits_0, Z.pow2_bits_eqb by lia.
    destruct (Z.eqb_spec 5 k) as [<-|]; [by rewrite Hb|]. apply andb_false_r.
Qed.

Lemma uart_register off : 0 ≤ off < 0x1000 → saturating_add64 base off = base + off.
Proof. intros. unfold saturating_add64, U64_MAX. lia. Qed.

Lemma wait_for_room_ok fuel : ∀ d, (backlog d < fuel)%nat ∨ full d = false ∧ (0 < fuel)%nat →
  ∃ d', wait_for_room (E := E) fuel {| uart_base := base |} d = Some (d', Ok tt) ∧ full d' = false ∧ taken d' = taken d.
Proof.
  induction fuel as [|fuel IH]; intros d Hf; [lia|]. cbn [wait_for_room uart_base]. rewrite uart_register by (unfold UARTFR; lia).
  pose proof (flags_report d) as Hr. pose proof (flags_keep d) as Hk. pose proof (flags_drain d) as Hd. pose proof (flags_room d) as Hm.
  destruct (read_volatile (base + UARTFR) d) as [d1 fr]. cbn [fst snd] in *. rewrite txff_bit, Hr. destruct (full d) eqn:Hfull.
  - destruct (IH d1) as (d' & Hw & Hroom & Ht); [specialize (Hd eq_refl); destruct Hf as [|[]]; [lia|done]|].
    exists d'. split; [exact Hw|]. by rewrite Ht, Hk.
  - exists d1. by rewrite Hm, Hk.
Qed.

(** The driver waits for room before each byte, and the wait ends within the FIFO's
    backlog. *)
Lemma write_bytes_sent fuel bytes (d : D) : (backlog d < fuel)%nat → (depth < fuel)%nat →
  ∃ d', write_bytes (E := E) fuel {| uart_base := base |} bytes d = Some (d', Ok tt) ∧ taken d' = taken d ++ bytes ∧
    (backlog d' < fuel)%nat.
Proof.
  intros Hb Hdepth. revert d Hb. induction bytes as [|byte bytes IH]; intros d Hb; cbn [write_bytes].
  { exists d. by rewrite app_nil_r. }
  destruct (wait_for_room_ok fuel d) as (d1 & Hw & Hroom & Ht); [by left|]. unfold bind. rewrite Hw. cbn [uart_base].
  rewrite uart_register by (unfold UARTDR; lia). cbn.
  destruct (IH (write_volatile (base + UARTDR) byte d1)) as (d' & Hrun & Ht' & Hb').
  { pose proof (data_backlog d1 byte Hroom). lia. }
  exists d'. split; [exact Hrun|]. split; [|exact Hb']. rewrite Ht', data_taken, Ht by done. by rewrite <- app_assoc.
Qed.

(** Every byte is taken, in order, and nothing else. *)
Theorem write_bytes_transmits fuel bytes (d : D) : (backlog d < fuel)%nat → (depth < fuel)%nat →
  ∃ d', write_bytes (E := E) fuel {| uart_base := base |} bytes d = Some (d', Ok tt) ∧ taken d' = taken d ++ bytes.
Proof. intros Hb Hd. destruct (write_bytes_sent fuel bytes d Hb Hd) as (d' & ? & ? & _). by exists d'. Qed.
End uart_ok.

(** ** A FIFO of sixteen bytes *)

(** Each read of the flags finds one byte more on the wire. *)
Record Fifo := { waiting : nat; accepted : list Z }.

#[export] Instance Fifo_mmio : Mmio Fifo := {
  read_volatile a d :=
    ({| waiting := pred (waiting d); accepted := accepted d |}, if bool_decide (16 ≤ waiting d)%nat then UARTFR_TXFF else 0);
  write_volatile a v d :=
    if bool_decide (16 ≤ waiting d)%nat then d else {| waiting := S (waiting d); accepted := accepted d ++ [v] |};
}.

#[export] Program Instance Fifo_pl011 : Pl011 Fifo 0x09000000 17 := {
  taken := accepted; full d := bool_decide (16 ≤ waiting d)%nat; backlog := waiting;
}.
Next Obligation. intros d. cbn. by case_bool_decide. Qed.
Next Obligation. done. Qed.
Next Obligation. intros d H. apply bool_decide_eq_true in H. cbn. lia. Qed.
Next Obligation. intros d H. apply bool_decide_eq_false in H. cbn. apply bool_decide_eq_false. lia. Qed.
Next Obligation. intros d b H. cbn. by rewrite H. Qed.
Next Obligation. intros d b H. cbn. rewrite H. cbn. apply bool_decide_eq_false in H. lia. Qed.

Lemma write_bytes_transmits_witness :
  ∃ d', write_bytes (E := unit) 18 {| uart_base := 0x09000000 |} (replicate 40 88) {| waiting := 16; accepted := [] |} = Some (d', Ok tt) ∧
    accepted d' = replicate 40 88.
Proof.
  destruct (write_bytes_transmits (base := 0x09000000) (depth := 17) (E := unit) ltac:(lia) 18 (replicate 40 88)
    {| waiting := 16; accepted := [] |}) as (d' & Hr & Ht); [cbn; lia..|].
  exists d'. split; [exact Hr|exact Ht].
Defined.
