(* ===== verification/Vmsav8.v ===== *)
(** * Page-table descriptors (hal/src/mmu/vmsav8.rs)

The encoders of block, page and table descriptors, the translation of mapping
flags into descriptor fields and its inverse, and the system-register constants.
Descriptors are [u64] values in [Z]; [u8] fields are widened as in the code. *)

From Stdlib Require Import Btauto.
From S2P Require Import Prelude.
From S2P Require Import Hal.
Local Open Scope Z_scope.

Local Infix "|||" := Z.lor (at level 50, left associativity).

(** ** Constants *)

Definition ATTR_IDX_DEVICE : Z := 0.
Definition ATTR_IDX_NORMAL : Z := 1.
Definition MAIR_EL1_VALUE : Z := 0xFF00.

Definition SH_NON_SHAREABLE : Z := 0.
Definition SH_OUTER_SHAREABLE : Z := 2.
Definition SH_INNER_SHAREABLE : Z := 3.

Definition AP_KERNEL_RW : Z := 0.
Definition AP_USER_RW : Z := 1.
Definition AP_KERNEL_RO : Z := 2.
Definition AP_USER_RO : Z := 3.

(** The fields in the order of the source. *)
Definition TCR_EL1_VALUE : Z :=
  16
    ||| (Z.shiftl 0 7)
    ||| (Z.shiftl 1 8)
    ||| (Z.shiftl 1 10)
    ||| (Z.shiftl 3 12)
    ||| (Z.shiftl 0 14)
    ||| (Z.shiftl 16 16)
    ||| (Z.shiftl 0 22)
    ||| (Z.shiftl 1 23)
    ||| (Z.shiftl 1 24)
    ||| (Z.shiftl 1 26)
    ||| (Z.shiftl 3 28)
    ||| (Z.shiftl 2 30)
    ||| (Z.shiftl 2 32)
    ||| (Z.shiftl 0 36).

Definition TCR_EL1_EPD0_BIT : Z := Z.shiftl 1 7.
Definition TCR_EL1_EPD1_BIT : Z := Z.shiftl 1 23.

(** [!x] on a [u64]. *)
Definition not64 (x : Z) : Z := Z.lxor x U64_MAX.

Definition TCR_EL1_VALUE_HIGH_HALF : Z := Z.land TCR_EL1_VALUE (not64 TCR_EL1_EPD1_BIT).
Definition SCTLR_EL1_MMU_ENABLE_MASK : Z :=
  Z.shiftl 1 0 ||| Z.shiftl 1 2 ||| Z.shiftl 1 12.

Definition DESC_VALID_BIT : Z := Z.shiftl 1 0.
Definition DESC_TABLE_OR_PAGE_BIT : Z := Z.shiftl 1 1.
Definition DESC_AF_BIT : Z := Z.shiftl 1 10.
Definition DESC_NG_BIT : Z := Z.shiftl 1 11.
Definition DESC_PXN_BIT : Z := Z.shiftl 1 53.
Definition DESC_UXN_BIT : Z := Z.shiftl 1 54.

Definition BLOCK_OA_MASK_L2 : Z := 0x0000FFFFFFE00000.
Definition PAGE_OA_MASK_L3 : Z := 0x0000FFFFFFFFF000.
Definition TABLE_NLA_MASK : Z := 0x0000FFFFFFFFF000.

(** ** Flags and fields *)

Record DescriptorBits := {
  attr_idx : Z;
  ap : Z;
  sh : Z;
  pxn : bool;
  uxn : bool;
  ng : bool;
}.

Definition flags_to_descriptor_bits (flags : MappingFlags) : DescriptorBits :=
  let device := flags_contains flags DEVICE in
  let write := flags_contains flags WRITE in
  let execute := flags_contains flags EXECUTE in
  let user := flags_contains flags USER in
  let global := flags_contains flags GLOBAL in
  let xn :=
    if device then (true, true)
    else if execute && negb user then (false, true)
    else if execute && user then (true, false)
    else (true, true) in
  {| attr_idx := if device then ATTR_IDX_DEVICE else ATTR_IDX_NORMAL;
     ap := match user, write with
           | false, true => AP_KERNEL_RW
           | false, false => AP_KERNEL_RO
           | true, true => AP_USER_RW
           | true, false => AP_USER_RO
           end;
     sh := if device then SH_NON_SHAREABLE else SH_INNER_SHAREABLE;
     pxn := xn.1; uxn := xn.2;
     ng := negb global |}.

Definition descriptor_bits_to_flags (desc : Z) : MappingFlags :=
  let attr_idx := Z.land (Z.shiftr desc 2) 0x7 in
  let ap := Z.land (Z.shiftr desc 6) 0x3 in
  let device := bool_decide (attr_idx = ATTR_IDX_DEVICE) in
  let user := bool_decide (Z.land ap 1 ≠ 0) in
  let write := bool_decide (Z.land ap 2 = 0) in
  let pxn := bool_decide (Z.land desc DESC_PXN_BIT ≠ 0) in
  let uxn := bool_decide (Z.land desc DESC_UXN_BIT ≠ 0) in
  let execute := if user then negb uxn else negb pxn in
  let global := bool_decide (Z.land desc DESC_NG_BIT = 0) in
  let flags := FLAGS_EMPTY in
  let flags := if write then flags_union flags WRITE else flags in
  let flags := if execute then flags_union flags EXECUTE else flags in
  let flags := if user then flags_union flags USER else flags in
  let flags := if device then flags_union flags DEVICE else flags in
  if global then flags_union flags GLOBAL else flags.

(** ** Encoders *)

Definition block_descriptor (pa : Z) (bits : DescriptorBits) : Z :=
  DESC_VALID_BIT
    ||| (Z.shiftl (Z.land (attr_idx bits) 0x7) 2)
    ||| (Z.shiftl (Z.land (ap bits) 0x3) 6)
    ||| (Z.shiftl (Z.land (sh bits) 0x3) 8)
    ||| DESC_AF_BIT
    ||| (if ng bits then DESC_NG_BIT else 0)
    ||| (Z.land pa BLOCK_OA_MASK_L2)
    ||| (if pxn bits then DESC_PXN_BIT else 0)
    ||| (if uxn bits then DESC_UXN_BIT else 0).

Definition page_descriptor (pa : Z) (bits : DescriptorBits) : Z :=
  DESC_VALID_BIT
    ||| DESC_TABLE_OR_PAGE_BIT
    ||| (Z.shiftl (Z.land (attr_idx bits) 0x7) 2)
    ||| (Z.shiftl (Z.land (ap bits) 0x3) 6)
    ||| (Z.shiftl (Z.land (sh bits) 0x3) 8)
    ||| DESC_AF_BIT
    ||| (if ng bits then DESC_NG_BIT else 0)
    ||| (Z.land pa PAGE_OA_MASK_L3)
    ||| (if pxn bits then DESC_PXN_BIT else 0)
    ||| (if uxn bits then DESC_UXN_BIT else 0).

Definition table_descriptor (next_level_pa : Z) : Z :=
  DESC_VALID_BIT ||| DESC_TABLE_OR_PAGE_BIT ||| Z.land next_level_pa TABLE_NLA_MASK.

(** ** Splitting a descriptor into its address and its attributes *)

(** The descriptor of address 0: the attribute fields alone. *)
Lemma page_descriptor_split pa bits :
  page_descriptor pa bits = Z.land pa PAGE_OA_MASK_L3 ||| page_descriptor 0 bits.
Proof.
  unfold page_descriptor. rewrite Z.land_0_l. apply Z.bits_inj'. intros n _.
  rewrite !Z.lor_spec, Z.bits_0. btauto.
Qed.

Lemma block_descriptor_split pa bits :
  block_descriptor pa bits = Z.land pa BLOCK_OA_MASK_L2 ||| block_descriptor 0 bits.
Proof.
  unfold block_descriptor. rewrite Z.land_0_l. apply Z.bits_inj'. intros n _.
  rewrite !Z.lor_spec, Z.bits_0. btauto.
Qed.

(** A field outside the address mask reads the attributes. *)
Lemma land_split x mask c field : Z.land mask field = 0 →
  Z.land (Z.land x mask ||| c) field = Z.land c field.
Proof. intros H. by rewrite Z.land_lor_distr_l, <- Z.land_assoc, H, Z.land_0_r, Z.lor_0_l. Qed.

Lemma shift_split x mask c k field : Z.land (Z.shiftr mask k) field = 0 →
  Z.land (Z.shiftr (Z.land x mask ||| c) k) field = Z.land (Z.shiftr c k) field.
Proof. intros H. rewrite Z.shiftr_lor, Z.shiftr_land. by apply land_split. Qed.

(** The address mask reads the address. *)
Lemma address_split x mask c : Z.land c mask = 0 → Z.land (Z.land x mask ||| c) mask = Z.land x mask.
Proof. intros H. by rewrite Z.land_lor_distr_l, H, <- Z.land_assoc, Z.land_diag, Z.lor_0_r. Qed.

(** The flags of a descriptor are the flags of its attributes. *)
Lemma decode_split x mask c :
  mask = PAGE_OA_MASK_L3 ∨ mask = BLOCK_OA_MASK_L2 →
  descriptor_bits_to_flags (Z.land x mask ||| c) = descriptor_bits_to_flags c.
Proof.
  intros Hm. unfold descriptor_bits_to_flags.
  rewrite !shift_split, !land_split by (by destruct Hm as [->| ->]). done.
Qed.

(** An aligned address below 2^48 passes the page mask. *)
Lemma page_mask_aligned pa : 0 ≤ pa < 2 ^ 48 → pa `mod` PAGE_SIZE = 0 → Z.land pa PAGE_OA_MASK_L3 = pa.
Proof.
  intros Hr Hm. apply Z.bits_inj'. intros n Hn. rewrite Z.land_spec.
  destruct (Z.ltb_spec n 12); [|destruct (Z.ltb_spec n 48)].
  - replace (Z.testbit pa n) with false; [done|]. symmetry.
    rewrite <- (Z.mod_pow2_bits_low pa 12 n) by done. change (2 ^ 12) with PAGE_SIZE. rewrite Hm. apply Z.bits_0.
  - replace (Z.testbit PAGE_OA_MASK_L3 n) with true; [apply andb_true_r|].
    change PAGE_OA_MASK_L3 with (Z.shiftl (Z.ones 36) 12). rewrite Z.shiftl_spec by done.
    symmetry. apply Z.ones_spec_low. lia.
  - replace (Z.testbit pa n) with false; [done|]. symmetry.
    rewrite <- (Z.mod_small pa (2 ^ 48)) by done. apply Z.mod_pow2_bits_high. lia.
Qed.

(** ** Flags *)

(** The flags the kernel knows. *)
Definition known_flags (f : MappingFlags) : MappingFlags :=
  {| flags_raw := Z.land (flags_raw f) (Z.ones 5) |}.

Lemma flags_contains_bit f k : (0 ≤ k) →
  flags_contains f {| flags_raw := Z.shiftl 1 k |} = Z.testbit (flags_raw f) k.
Proof.
  intros Hk. unfold flags_contains. cbn [flags_raw]. rewrite Z.shiftl_1_l. symmetry.
  case_bool_decide as H.
  - apply (f_equal (λ x, Z.testbit x k)) in H. rewrite Z.land_spec, Z.pow2_bits_true, andb_true_r in H by done. done.
  - apply not_true_iff_false. intros Ht. apply H. apply Z.bits_inj'. intros n Hn.
    rewrite Z.land_spec, Z.pow2_bits_eqb by done. destruct (Z.eqb_spec k n); [by subst; rewrite Ht|apply andb_false_r].
Qed.

(** The known flags from their five bits. *)
Definition flags_of (w x u d g : bool) : MappingFlags :=
  {| flags_raw := Z.b2z w + 2 * Z.b2z x + 4 * Z.b2z u + 8 * Z.b2z d + 16 * Z.b2z g |}.

Lemma known_flags_of f : known_flags f =
  flags_of (flags_contains f WRITE) (flags_contains f EXECUTE) (flags_contains f USER)
           (flags_contains f DEVICE) (flags_contains f GLOBAL).
Proof.
  unfold WRITE, EXECUTE, USER, DEVICE, GLOBAL, known_flags, flags_of. rewrite !flags_contains_bit by done.
  f_equal. generalize (flags_raw f) as x. intros x. rewrite Z.land_ones by done.
  rewrite !Z.testbit_spec' by done. change (2 ^ 0) with 1. change (2 ^ 1) with 2. change (2 ^ 2) with 4.
  change (2 ^ 3) with 8. change (2 ^ 4) with 16. change (2 ^ 5) with 32. rewrite Z.div_1_r.
  assert (H2 : x `div` 4 = x `div` 2 `div` 2) by (by rewrite Z.div_div).
  assert (H3 : x `div` 8 = x `div` 4 `div` 2) by (by rewrite Z.div_div).
  assert (H4 : x `div` 16 = x `div` 8 `div` 2) by (by rewrite Z.div_div).
  assert (H5 : x `div` 32 = x `div` 16 `div` 2) by (by rewrite Z.div_div).
  Z.to_euclidean_division_equations; lia.
Qed.

(** The encoder consults the known flags only. *)
Lemma encode_known f : flags_to_descriptor_bits (known_flags f) = flags_to_descriptor_bits f.
Proof.
  assert (H : ∀ k, 0 ≤ k < 5 → flags_contains (known_flags f) {| flags_raw := Z.shiftl 1 k |} =
                                flags_contains f {| flags_raw := Z.shiftl 1 k |}).
  { intros k Hk. rewrite !flags_contains_bit by lia. unfold known_flags. cbn [flags_raw].
    rewrite Z.land_spec, Z.ones_spec_low by lia. apply andb_true_r. }
  unfold flags_to_descriptor_bits, WRITE, EXECUTE, USER, DEVICE, GLOBAL. by rewrite !H.
Qed.

(** ** Round trip *)

(** What the fields of [c] say, for attributes without an address. *)
Definition decoded (c : Z) (f : MappingFlags) : Prop :=
  Z.land c PAGE_OA_MASK_L3 = 0 ∧ descriptor_bits_to_flags c = f.

Lemma attrs_of_flags w x u d g : d && x = false →
  decoded (page_descriptor 0 (flags_to_descriptor_bits (flags_of w x u d g))) (flags_of w x u d g) ∧
  decoded (block_descriptor 0 (flags_to_descriptor_bits (flags_of w x u d g))) (flags_of w x u d g).
Proof. by destruct w, x, u, d, g; try done; vm_compute. Qed.

(** Two-mebibyte alignment, as for pages. *)
Lemma block_mask_aligned pa : 0 ≤ pa < 2 ^ 48 → pa `mod` 2 ^ 21 = 0 → Z.land pa BLOCK_OA_MASK_L2 = pa.
Proof.
  intros Hr Hm. apply Z.bits_inj'. intros n Hn. rewrite Z.land_spec.
  destruct (Z.ltb_spec n 21); [|destruct (Z.ltb_spec n 48)].
  - replace (Z.testbit pa n) with false; [done|]. symmetry.
    rewrite <- (Z.mod_pow2_bits_low pa 21 n), Hm by done. apply Z.bits_0.
  - replace (Z.testbit BLOCK_OA_MASK_L2 n) with true; [apply andb_true_r|].
    change BLOCK_OA_MASK_L2 with (Z.shiftl (Z.ones 27) 21). rewrite Z.shiftl_spec by done.
    symmetry. apply Z.ones_spec_low. lia.
  - replace (Z.testbit pa n) with false; [done|]. symmetry.
    rewrite <- (Z.mod_small pa (2 ^ 48)) by done. apply Z.mod_pow2_bits_high. lia.
Qed.

Definition is_valid (desc : Z) : bool := bool_decide (Z.land desc DESC_VALID_BIT ≠ 0).
Definition is_table (desc : Z) : bool := bool_decide (Z.land desc DESC_TABLE_OR_PAGE_BIT ≠ 0).
Definition is_accessed (desc : Z) : bool := bool_decide (Z.land desc DESC_AF_BIT ≠ 0).

Lemma page_attr_bits bits : let d := page_descriptor 0 bits in
  is_valid d = true ∧ is_table d = true ∧ is_accessed d = true.
Proof.
  intros d. unfold is_valid, is_table, is_accessed. rewrite !bool_decide_eq_true.
  assert (H : ∀ k, Z.testbit d k = true → 0 ≤ k → Z.land d (Z.shiftl 1 k) ≠ 0).
  { intros k Ht Hk H0. apply (f_equal (λ x, Z.testbit x k)) in H0.
    rewrite Z.land_spec, Ht, Z.bits_0, Z.shiftl_1_l, Z.pow2_bits_true in H0 by done. done. }
  split_and!; apply H; try done; unfold d, page_descriptor; rewrite !Z.lor_spec; cbn; rewrite ?orb_true_r; done.
Qed.

Lemma page_descriptor_fields pa bits : let d := page_descriptor pa bits in
  is_valid d = true ∧ is_table d = true ∧ is_accessed d = true.
Proof.
  intros d. unfold d. rewrite page_descriptor_split. unfold is_valid, is_table, is_accessed.
  rewrite !land_split by done. apply page_attr_bits.
Qed.

Lemma page_descriptor_decodes pa flags :
  flags_contains flags DEVICE && flags_contains flags EXECUTE = false →
  0 ≤ pa < 2 ^ 48 → pa `mod` PAGE_SIZE = 0 →
  let d := page_descriptor pa (flags_to_descriptor_bits flags) in
  Z.land d PAGE_OA_MASK_L3 = pa ∧ descriptor_bits_to_flags d = known_flags flags.
Proof.
  intros Hx Hr Hm d. unfold d. rewrite page_descriptor_split, <- encode_known, known_flags_of.
  destruct (attrs_of_flags (flags_contains flags WRITE) (flags_contains flags EXECUTE)
    (flags_contains flags USER) (flags_contains flags DEVICE) (flags_contains flags GLOBAL) Hx) as [[Ha Hf] _].
  rewrite address_split by done. rewrite decode_split by (by left). split; [by apply page_mask_aligned|done].
Qed.

Lemma table_descriptor_fields pa : 0 ≤ pa < 2 ^ 48 → pa `mod` PAGE_SIZE = 0 →
  let d := table_descriptor pa in
  is_valid d = true ∧ is_table d = true ∧ Z.land d TABLE_NLA_MASK = pa.
Proof.
  intros Hr Hm d. unfold d, table_descriptor. rewrite Z.lor_comm. unfold is_valid, is_table.
  rewrite !land_split by done. split_and!; [done|done|]. rewrite address_split by done.
  by apply page_mask_aligned.
Qed.

(** Descriptors say what was asked.  For any flags that do not combine [DEVICE]
    with [EXECUTE] (which [map] rejects) and any aligned address below 2^48, the page
    descriptor is valid, a page and accessed, and decodes to that address and to
    exactly the flags the kernel knows; the block descriptor is valid, is not a table
    and decodes likewise; a table descriptor is a table at its address. *)
Theorem descriptor_roundtrip pa flags :
  flags_contains flags DEVICE && flags_contains flags EXECUTE = false →
  0 ≤ pa < 2 ^ 48 → pa `mod` PAGE_SIZE = 0 →
  let bits := flags_to_descriptor_bits flags in
  let page := page_descriptor pa bits in
  let block := block_descriptor pa bits in
  let table := table_descriptor pa in
  (is_valid page = true ∧ is_table page = true ∧ is_accessed page = true ∧
   Z.land page PAGE_OA_MASK_L3 = pa ∧ descriptor_bits_to_flags page = known_flags flags) ∧
  (is_valid block = true ∧ is_table block = false ∧ is_accessed block = true ∧
   (pa `mod` 2 ^ 21 = 0 → Z.land block BLOCK_OA_MASK_L2 = pa) ∧
   descriptor_bits_to_flags block = known_flags flags) ∧
  (is_valid table = true ∧ is_table table = true ∧ Z.land table TABLE_NLA_MASK = pa).
Proof.
  intros Hx Hr Hm bits page block table. split; [|split; [|by apply table_descriptor_fields]].
  { destruct (page_descriptor_fields pa bits) as (H1 & H2 & H3).
    destruct (page_descriptor_decodes pa flags Hx Hr Hm) as [H4 H5]. done. }
  unfold block, bits. rewrite block_descriptor_split, <- encode_known, known_flags_of.
  unfold is_valid, is_table, is_accessed. rewrite !land_split by done. rewrite decode_split by (by right).
  set (w := flags_contains flags WRITE). set (x := flags_contains flags EXECUTE) in *.
  set (u := flags_contains flags USER). set (d := flags_contains flags DEVICE) in *.
  set (g := flags_contains flags GLOBAL). destruct (attrs_of_flags w x u d g Hx) as [_ [Ha Hf]].
  split_and!; [..|intros Hb; rewrite address_split; [by apply block_mask_aligned|]|done];
    clear -Hx; destruct w, x, u, d, g; done.
Qed.

Lemma descriptor_roundtrip_witness :
  let flags := flags_union WRITE USER in
  let page := page_descriptor 0x40201000 (flags_to_descriptor_bits flags) in
  Z.land page PAGE_OA_MASK_L3 = 0x40201000 ∧ descriptor_bits_to_flags page = flags.
Proof.
  destruct (descriptor_roundtrip 0x40201000 (flags_union WRITE USER)) as ((_ & _ & _ & H4 & H5) & _);
    [reflexivity|lia|reflexivity|]. split; [exact H4|exact H5].
Defined.

(** No page is executable on both sides.  Whatever the flags, also with stray
    bits, the kernel cannot execute a user page and user code cannot execute a kernel
    page, nothing executes device memory, a page without [EXECUTE] is executable by
    nobody, and user code reaches a page exactly when [USER] was asked, writing only
    when [WRITE] was.  Decoding any word at all gives known flags only. *)
Theorem descriptor_permissions_lock_shut flags pa desc :
  let d := page_descriptor pa (flags_to_descriptor_bits flags) in
  let kernel_executes := negb (Z.testbit d 53) in
  let user_executes := negb (Z.testbit d 54) in
  let user_reads := Z.testbit d 6 in
  let read_only := Z.testbit d 7 in
  (kernel_executes = flags_contains flags EXECUTE && negb (flags_contains flags USER)
                     && negb (flags_contains flags DEVICE)) ∧
  (user_executes = flags_contains flags EXECUTE && flags_contains flags USER
                   && negb (flags_contains flags DEVICE)) ∧
  user_reads = flags_contains flags USER ∧
  read_only = negb (flags_contains flags WRITE) ∧
  known_flags (descriptor_bits_to_flags desc) = descriptor_bits_to_flags desc.
Proof.
  cbv zeta. assert (Hbit : ∀ k, 0 ≤ k → Z.testbit PAGE_OA_MASK_L3 k = false →
    Z.testbit (page_descriptor pa (flags_to_descriptor_bits flags)) k =
    Z.testbit (page_descriptor 0 (flags_to_descriptor_bits flags)) k).
  { intros k Hk Hm. rewrite page_descriptor_split, Z.lor_spec, Z.land_spec, Hm. by rewrite andb_false_r. }
  rewrite !Hbit by done. unfold flags_to_descriptor_bits.
  destruct (flags_contains flags WRITE), (flags_contains flags EXECUTE), (flags_contains flags USER),
    (flags_contains flags DEVICE), (flags_contains flags GLOBAL); split_and!; try done;
    unfold descriptor_bits_to_flags; cbv zeta; repeat case_bool_decide; reflexivity.
Qed.

(** The register values are the documented ones: in TCR the high-half value differs
    from the boot value in [EPD1] alone. *)
Remark tcr_high_half_clears_only_epd1 :
  Z.lxor TCR_EL1_VALUE TCR_EL1_VALUE_HIGH_HALF = TCR_EL1_EPD1_BIT ∧
  Z.testbit TCR_EL1_VALUE_HIGH_HALF 23 = false ∧ Z.testbit TCR_EL1_VALUE_HIGH_HALF 7 = false.
Proof. by vm_compute. Qed.
