(* ===== verification/Words.v ===== *)
(** * 64-bit words in memory

The volatile word accesses of the page-table walker, over the byte memory of the
user-access layer (little-endian), and the laws of reading what was written. *)

From S2P Require Import Prelude.
From S2P Require Import Hal.
From S2P Require Import Arena.
From S2P Require Import Objects.
From S2P Require Import Caps.
From S2P Require Import CapTable.
From S2P Require Import Ipc.
From S2P Require Import SyscallError.
From S2P Require Import UserAccess.
Local Open Scope Z_scope.

(** [n] little-endian bytes at [a]. *)
Fixpoint le_read (m : Mem) (a : Z) (n : nat) : Z :=
  match n with
  | O => 0
  | S n => m a + 256 * le_read m (a + 1) n
  end.

Fixpoint le_bytes (v : Z) (n : nat) : list Z :=
  match n with
  | O => []
  | S n => v `mod` 256 :: le_bytes (v `div` 256) n
  end.

(** [core::ptr::read_volatile] and [write_volatile] at [u64]. *)
Definition read64 (m : Mem) (a : Z) : Z := le_read m a 8.
Definition write64 (m : Mem) (a v : Z) : Mem := write_bytes m a (le_bytes v 8).

(** Words are closed under the bit operations. *)
Lemma is_u64_land x : is_u64 x ↔ Z.land x (Z.ones 64) = x.
Proof.
  unfold is_u64. rewrite Z.land_ones by done. split; [apply Z.mod_small|].
  intros <-. by apply Z.mod_pos_bound.
Qed.

Lemma lor_u64 x y : is_u64 x → is_u64 y → is_u64 (Z.lor x y).
Proof. rewrite !is_u64_land, Z.land_lor_distr_l. congruence. Qed.

Lemma land_u64_r x y : is_u64 y → is_u64 (Z.land x y).
Proof. rewrite !is_u64_land, <- Z.land_assoc. congruence. Qed.

Lemma le_bytes_length v n : length (le_bytes v n) = n.
Proof. revert v. induction n as [|n IH]; intros v; cbn; [done|]. by rewrite IH. Qed.

Lemma write_bytes_nil m a b : write_bytes m a [] b = m b.
Proof. unfold write_bytes. by case_bool_decide. Qed.

Lemma write_bytes_cons m a x bs b :
  write_bytes m a (x :: bs) b = if bool_decide (b = a) then x else write_bytes m (a + 1) bs b.
Proof.
  unfold write_bytes. repeat case_bool_decide; try lia; try done.
  - subst. by rewrite Z.sub_diag.
  - replace (Z.to_nat (b - a)) with (S (Z.to_nat (b - (a + 1)))) by lia. done.
Qed.

Lemma le_read_ext m m' n : ∀ a, (∀ b, a ≤ b < a + Z.of_nat n → m b = m' b) → le_read m a n = le_read m' a n.
Proof.
  induction n as [|n IH]; intros a H; cbn [le_read]; [done|].
  rewrite (H a) by lia. rewrite (IH (a + 1)); [done|]. intros b Hb. apply H. lia.
Qed.

Lemma le_read_bytes n : ∀ m a v, 0 ≤ v < 256 ^ Z.of_nat n → le_read (write_bytes m a (le_bytes v n)) a n = v.
Proof.
  induction n as [|n IH]; intros m a v Hv; [cbn in *; lia|].
  rewrite Nat2Z.inj_succ, Z.pow_succ_r in Hv by lia. cbn [le_read le_bytes].
  rewrite write_bytes_cons, bool_decide_true by done.
  rewrite (le_read_ext _ (write_bytes m (a + 1) (le_bytes (v `div` 256) n))).
  - rewrite IH; [pose proof (Z.div_mod v 256); lia|]. split; [by apply Z.div_pos; lia|].
    apply Z.div_lt_upper_bound; lia.
  - intros b Hb. rewrite write_bytes_cons, bool_decide_false by lia. done.
Qed.

Lemma write_bytes_out m bs : ∀ a b, b < a ∨ a + Z.of_nat (length bs) ≤ b → write_bytes m a bs b = m b.
Proof.
  induction bs as [|x bs IH]; intros a b H; [apply write_bytes_nil|]. cbn [length] in H.
  rewrite write_bytes_cons, bool_decide_false by lia. apply IH. lia.
Qed.

Lemma read64_write64 m a v : is_u64 v → read64 (write64 m a v) a = v.
Proof. intros Hv. apply le_read_bytes. exact Hv. Qed.

Lemma read64_ext m m' a : (∀ b, a ≤ b < a + 8 → m b = m' b) → read64 m a = read64 m' a.
Proof. intros H. by apply le_read_ext. Qed.

Lemma write64_out m a v b : b < a ∨ a + 8 ≤ b → write64 m a v b = m b.
Proof. intros H. apply write_bytes_out. rewrite le_bytes_length. lia. Qed.

Lemma read64_write64_ne m a v a' : a' + 8 ≤ a ∨ a + 8 ≤ a' → read64 (write64 m a v) a' = read64 m a'.
Proof. intros H. apply read64_ext. intros b Hb. apply write64_out. lia. Qed.

Lemma read64_zero m a : (∀ b, a ≤ b < a + 8 → m b = 0) → read64 m a = 0.
Proof.
  intros H. unfold read64, le_read.
  rewrite !H by lia. done.
Qed.
