(* ===== verification/QemuMmu.v ===== *)
(** * The page-table walker of the QEMU board (bsp-qemu-virt/src/mmu.rs)

[map], [unmap] and [translate] of [QemuVirtMmu] and the walk they share, on byte
memory.  Page tables are reached through the high-half direct map, so each step
has [phys_to_kernel_va]'s assertion.  The frame provider is the HAL trait, here a
class: allocation may change memory (the frame comes zeroed). *)

From stdpp Require Import gmap.
From S2P Require Import Prelude.
From S2P Require Import Hal.
From S2P Require Import Arena.
From S2P Require Import Objects.
From S2P Require Import Caps.
From S2P Require Import CapTable.
From S2P Require Import Ipc.
From S2P Require Import SyscallError.
From S2P Require Import UserAccess.
From S2P Require Import Vmsav8.
From S2P Require Import Words.
Local Open Scope Z_scope.

Definition VA_L0_SHIFT : Z := 39.
Definition VA_L1_SHIFT : Z := 30.
Definition VA_L2_SHIFT : Z := 21.
Definition VA_L3_SHIFT : Z := 12.
Definition VA_INDEX_MASK : Z := 0x1FF.
Definition ENTRIES_PER_TABLE : Z := PAGE_SIZE `div` 8.

Record QemuVirtAddressSpace := { root : PhysFrame }.

#[export] Instance QemuVirtAddressSpace_eq_dec : EqDecision QemuVirtAddressSpace.
Proof. solve_decision. Defined.

Definition from_existing_root (root : PhysFrame) : QemuVirtAddressSpace := {| root := root |}.
Definition create_address_space (root : PhysFrame) : QemuVirtAddressSpace := {| root := root |}.
Definition address_space_root (as_ : QemuVirtAddressSpace) : PhysFrame := root as_.

(** [FrameProvider::alloc_frame]. *)
Class FrameProvider (F : Type) :=
  { provide_frame : F → Mem → option (F * Mem * option PhysFrame) }.

Record MmuState (F : Type) := { frames : F; mem : Mem }.
Arguments frames {F} _.
Arguments mem {F} _.

#[export] Instance NullFrameProvider : FrameProvider unit :=
  { provide_frame := λ f m, Some (f, m, None) }.

Definition va_index (va : VirtAddr) (shift : Z) : Z := Z.land (Z.shiftr va shift) VA_INDEX_MASK.

Section walk.
  Context `{Build} `{FrameProvider F}.

Definition walk_or_alloc_table (parent_table : PhysFrame) (idx : Z) (unmap : bool)
  : M (MmuState F) MmuError PhysFrame :=
  debug_assert (bool_decide (idx < ENTRIES_PER_TABLE)) ;;
  λ s,
  match phys_to_kernel_va (frame_addr parent_table) with
  | None => None
  | Some parent_ptr =>
      let slot_ptr := parent_ptr + 8 * idx in
      let existing := read64 (mem s) slot_ptr in
      if is_valid existing then
        if negb (is_table existing) then
          Some (s, Err (if unmap then BlockMapped else AlreadyMapped))
        else
          match from_aligned (Z.land existing TABLE_NLA_MASK) with
          | Some next => Some (s, Ok next)
          | None => Some (s, Err MisalignedAddress)
          end
      else if unmap then Some (s, Err NotMapped) else
        match provide_frame (frames s) (mem s) with
        | None => None
        | Some (f, m, None) => Some ({| frames := f; mem := m |}, Err OutOfFrames)
        | Some (f, m, Some new_table) =>
            Some ({| frames := f; mem := write64 m slot_ptr (table_descriptor (frame_addr new_table)) |},
                  Ok new_table)
        end
  end.

(** The leaf: read, then cleared or written. *)
Definition install_leaf (l3_table : PhysFrame) (idx : Z) (pa : PhysFrame) (flags : MappingFlags) (unmap : bool)
  : M (MmuState F) MmuError PhysFrame := λ s,
  match phys_to_kernel_va (frame_addr l3_table) with
  | None => None
  | Some l3_ptr =>
      let leaf_slot := l3_ptr + 8 * idx in
      let existing := read64 (mem s) leaf_slot in
      if unmap then
        if negb (is_valid existing) then Some (s, Err NotMapped) else
        let s' := {| frames := frames s; mem := write64 (mem s) leaf_slot 0 |} in
        match from_aligned (Z.land existing PAGE_OA_MASK_L3) with
        | Some leaf_frame => Some (s', Ok leaf_frame)
        | None => Some (s', Err MisalignedAddress)
        end
      else if is_valid existing then Some (s, Err AlreadyMapped) else
        let descriptor := page_descriptor (frame_addr pa) (flags_to_descriptor_bits flags) in
        Some ({| frames := frames s; mem := write64 (mem s) leaf_slot descriptor |}, Ok pa)
  end.

Definition walk_and_install_leaf (root : PhysFrame) (va : VirtAddr) (pa : PhysFrame)
    (flags : MappingFlags) (unmap : bool) : M (MmuState F) MmuError PhysFrame :=
  let l0_idx := va_index va VA_L0_SHIFT in
  let l1_idx := va_index va VA_L1_SHIFT in
  let l2_idx := va_index va VA_L2_SHIFT in
  let l3_idx := va_index va VA_L3_SHIFT in
  let* l1_table := walk_or_alloc_table root l0_idx unmap in
  let* l2_table := walk_or_alloc_table l1_table l1_idx unmap in
  let* l3_table := walk_or_alloc_table l2_table l2_idx unmap in
  install_leaf l3_table l3_idx pa flags unmap.

(** [MapperFlush] is the address to invalidate. *)
Definition map (as_ : QemuVirtAddressSpace) (va : VirtAddr) (pa : PhysFrame) (flags : MappingFlags)
  : M (MmuState F) MmuError VirtAddr :=
  if negb (bool_decide (va `mod` PAGE_SIZE = 0)) then throw MisalignedAddress else
  if flags_contains flags DEVICE && flags_contains flags EXECUTE then throw InvalidFlags else
  let* _ := walk_and_install_leaf (root as_) va pa flags false in
  ret va.
End walk.

Section null.
  Context `{Build}.

(** The operations that allocate nothing run the walk with [NullFrameProvider]. *)
Definition with_null {E A} (m : M (MmuState unit) E A) : M Mem E A :=
  zoom (λ m, {| frames := tt; mem := m |}) (λ s _, mem s) m.

Definition unmap (as_ : QemuVirtAddressSpace) (va : VirtAddr) : M Mem MmuError (VirtAddr * PhysFrame) :=
  if negb (bool_decide (va `mod` PAGE_SIZE = 0)) then throw MisalignedAddress else
  let* pa := with_null (walk_and_install_leaf (root as_) va (root as_) FLAGS_EMPTY true) in
  ret (va, pa).

Definition translate (as_ : QemuVirtAddressSpace) (va : VirtAddr)
  : M Mem MmuError (PhysFrame * MappingFlags) :=
  let l0_idx := va_index va VA_L0_SHIFT in
  let l1_idx := va_index va VA_L1_SHIFT in
  let l2_idx := va_index va VA_L2_SHIFT in
  let l3_idx := va_index va VA_L3_SHIFT in
  let* l3_table := with_null
    (let* l1 := walk_or_alloc_table (root as_) l0_idx true in
     let* l2 := walk_or_alloc_table l1 l1_idx true in
     walk_or_alloc_table l2 l2_idx true) in
  λ m,
  match phys_to_kernel_va (frame_addr l3_table) with
  | None => None
  | Some l3_ptr =>
      let leaf := read64 m (l3_ptr + 8 * l3_idx) in
      if negb (is_valid leaf) then Some (m, Err NotMapped) else
      if negb (is_table leaf) then Some (m, Err NotMapped) else
      if negb (is_accessed leaf) then Some (m, Err NotMapped) else
      match from_aligned (Z.land leaf PAGE_OA_MASK_L3) with
      | Some frame => Some (m, Ok (frame, descriptor_bits_to_flags leaf))
      | None => Some (m, Err MisalignedAddress)
      end
  end.
End null.
