(* ===== verification/QemuMmuInv.v ===== *)
(** * Page tables as a tree

The invariant of an address space (every table reachable from the root sits at one
place of the tree), the translation it denotes, and what a store into one slot
does to it. *)

From stdpp Require Import gmap.
From S2P Require Import Prelude.
From S2P Require Import Hal.
From S2P Require Import Arena.
From S2P Require Import Objects.
From S2P Require Import Caps.
From S2P Require Import CapTable.
From S2P Require Import Ipc.
From S2P Require Import SyscallError.
From S2P Require Import UserAccess.
From S2P Require Import Vmsav8.
From S2P Require Import Words.
From S2P Require Import QemuMmu.
Local Open Scope Z_scope.

(** The address of entry [i] of the table at physical address [t]. *)
Definition slot (t i : Z) : Z := KERNEL_HIGH_HALF_OFFSET + t + 8 * i.

Definition entry (m : Mem) (t i : Z) : Z := read64 m (slot t i).

(** A frame the direct map reaches. *)
Definition table_ok (t : Z) : Prop := t `mod` PAGE_SIZE = 0 ∧ 0 ≤ t < 0x100000000.

Definition index_ok (i : Z) : Prop := 0 ≤ i < 512.

(** Following table entries along a path. *)

Fixpoint walk_to (m : Mem) (t : Z) (idx : list Z) : option Z :=
  match idx with
  | [] => Some t
  | i :: rest =>
      let e := entry m t i in
      if is_valid e && is_table e then walk_to m (Z.land e TABLE_NLA_MASK) rest else None
  end.

Lemma walk_to_snoc m idx i : ∀ t n, walk_to m t idx = Some n →
  walk_to m t (idx ++ [i]) = walk_to m n [i].
Proof.
  induction idx as [|j idx IH]; intros t n; cbn [walk_to app]; [by intros [= ->]|].
  destruct (is_valid _ && is_table _); [|done]. apply IH.
Qed.

(** [T] maps each table to its path from the root: the indices taken. *)
Record PT (m : Mem) (rt : Z) (T : gmap Z (list Z)) : Prop := {
  pt_root : T !! rt = Some [];
  pt_table : ∀ t p, T !! t = Some p → table_ok t ∧ (length p ≤ 3)%nat ∧ Forall index_ok p;
  pt_next : ∀ t p i, T !! t = Some p → (length p < 3)%nat → index_ok i →
    is_valid (entry m t i) = true → is_table (entry m t i) = true →
    T !! Z.land (entry m t i) TABLE_NLA_MASK = Some (p ++ [i]);
  pt_leaf : ∀ t p i, T !! t = Some p → length p = 3%nat → index_ok i →
    is_valid (entry m t i) = true →
    is_table (entry m t i) = true ∧ is_accessed (entry m t i) = true;
  pt_reach : ∀ n p, T !! n = Some p → walk_to m rt p = Some n;
}.

(** ** Translation *)

Definition leaf_result (leaf : Z) : result MmuError (PhysFrame * MappingFlags) :=
  if negb (is_valid leaf) || negb (is_table leaf) || negb (is_accessed leaf) then Err NotMapped
  else Ok ({| frame_addr := Z.land leaf PAGE_OA_MASK_L3 |}, descriptor_bits_to_flags leaf).

(** The translation of a path, read off memory. *)
Fixpoint xlate_path (m : Mem) (t : Z) (idx : list Z) : result MmuError (PhysFrame * MappingFlags) :=
  match idx with
  | [] => Err NotMapped
  | i :: rest =>
      let e := entry m t i in
      match rest with
      | [] => leaf_result e
      | _ =>
          if negb (is_valid e) then Err NotMapped else
          if negb (is_table e) then Err BlockMapped else
          xlate_path m (Z.land e TABLE_NLA_MASK) rest
      end
  end.

Definition va_path (va : Z) : list Z :=
  [va_index va VA_L0_SHIFT; va_index va VA_L1_SHIFT; va_index va VA_L2_SHIFT; va_index va VA_L3_SHIFT].

Definition xlate (m : Mem) (rt va : Z) : result MmuError (PhysFrame * MappingFlags) :=
  xlate_path m rt (va_path va).

(** The page number of a 48-bit address. *)
Definition page_of (va : Z) : Z := (va `div` PAGE_SIZE) `mod` 2 ^ 36.

Lemma va_index_eq va k : 0 ≤ k → va_index va k = (va `div` 2 ^ k) `mod` 512.
Proof.
  intros Hk. unfold va_index, VA_INDEX_MASK. rewrite Z.shiftr_div_pow2 by done.
  change 0x1FF with (Z.ones 9). by rewrite Z.land_ones.
Qed.

Lemma va_index_ok va k : 0 ≤ k → index_ok (va_index va k).
Proof. intros Hk. rewrite va_index_eq by done. apply Z.mod_pos_bound. lia. Qed.

Lemma va_path_ok va : Forall index_ok (va_path va).
Proof. repeat constructor; by apply va_index_ok. Qed.

Lemma va_path_page va va' : va_path va = va_path va' ↔ page_of va = page_of va'.
Proof.
  unfold va_path, page_of, VA_L0_SHIFT, VA_L1_SHIFT, VA_L2_SHIFT, VA_L3_SHIFT, PAGE_SIZE.
  rewrite !va_index_eq by done.
  assert (H : ∀ v, v `div` 2 ^ 12 = v `div` 4096 ∧ v `div` 2 ^ 21 = v `div` 4096 `div` 512 ∧
    v `div` 2 ^ 30 = v `div` 4096 `div` 512 `div` 512 ∧
    v `div` 2 ^ 39 = v `div` 4096 `div` 512 `div` 512 `div` 512).
  { intros v. rewrite !Z.div_div by done. done. }
  destruct (H va) as (-> & -> & -> & ->). destruct (H va') as (-> & -> & -> & ->).
  generalize (va `div` 4096) as x. generalize (va' `div` 4096) as y. intros y x. clear H.
  change (2 ^ 36) with 68719476736. split.
  - intros [= H0 H1 H2 H3]. Z.to_euclidean_division_equations; lia.
  - intros Hp. assert (x = y + 68719476736 * ((x `div` 68719476736) - (y `div` 68719476736))) as ->.
    { Z.to_euclidean_division_equations; lia. }
    generalize (x `div` 68719476736 - y `div` 68719476736) as k. intros k.
    replace (y + 68719476736 * k) with (y + (134217728 * k) * 512) by lia. rewrite Z.div_add by done.
    replace (y `div` 512 + 134217728 * k) with (y `div` 512 + (262144 * k) * 512) by lia. rewrite Z.div_add by done.
    replace (y `div` 512 `div` 512 + 262144 * k) with (y `div` 512 `div` 512 + (512 * k) * 512) by lia.
    rewrite Z.div_add by done. rewrite !Z.mod_add by done.
    replace (512 * k) with (k * 512) by lia. by rewrite Z.mod_add.
Qed.

(** ** Slots *)

Lemma slot_disjoint t i t' i' : table_ok t → table_ok t' → index_ok i → index_ok i' →
  (t, i) ≠ (t', i') → slot t i + 8 ≤ slot t' i' ∨ slot t' i' + 8 ≤ slot t i.
Proof.
  intros (Hm & _) (Hm' & _) Hi Hi' Hne. unfold slot, index_ok, PAGE_SIZE in *.
  destruct (decide (t = t')) as [->|Ht].
  - assert (i ≠ i') by congruence. lia.
  - Z.to_euclidean_division_equations; lia.
Qed.

Lemma entry_write_ne m t i v t' i' : table_ok t → table_ok t' → index_ok i → index_ok i' →
  (t, i) ≠ (t', i') → entry (write64 m (slot t i) v) t' i' = entry m t' i'.
Proof. intros. unfold entry. apply read64_write64_ne. by destruct (slot_disjoint t i t' i'); auto. Qed.

Lemma entry_write m t i v : is_u64 v → entry (write64 m (slot t i) v) t i = v.
Proof. intros. by apply read64_write64. Qed.

Lemma slot_ptr t : table_ok t → phys_to_kernel_va t = Some (KERNEL_HIGH_HALF_OFFSET + t).
Proof. intros [_ Ht]. by apply phys_to_kernel_va_Some. Qed.

(** Writing elsewhere changes no entry of the tables. *)
Lemma entry_ext m m' t i : (∀ a, KERNEL_HIGH_HALF_OFFSET + t ≤ a < KERNEL_HIGH_HALF_OFFSET + t + PAGE_SIZE → m' a = m a) →
  index_ok i → entry m' t i = entry m t i.
Proof. intros H Hi. apply read64_ext. intros b Hb. apply H. unfold slot, index_ok, PAGE_SIZE in *. lia. Qed.

(** Masked addresses are aligned. *)
Lemma mask_aligned e : from_aligned (Z.land e TABLE_NLA_MASK) = Some {| frame_addr := Z.land e TABLE_NLA_MASK |}.
Proof.
  apply from_aligned_Some. split; [|done]. unfold PAGE_SIZE. change 4096 with (2 ^ 12).
  rewrite <- Z.land_ones, <- Z.land_assoc by done. change (Z.land TABLE_NLA_MASK (Z.ones 12)) with 0.
  apply Z.land_0_r.
Qed.

(** ** Frames *)

Definition in_frame (n a : Z) : Prop :=
  KERNEL_HIGH_HALF_OFFSET + n ≤ a < KERNEL_HIGH_HALF_OFFSET + n + PAGE_SIZE.

#[export] Instance in_frame_dec n a : Decision (in_frame n a).
Proof. unfold in_frame. apply _. Defined.

(** What the walker expects of a frame provider: frames not in [used], zeroed, within
    the direct map, one fewer left; it refuses only when none is left, and a refusal
    changes nothing. *)
Class FrameProviderSpec (F : Type) `{FrameProvider F} := {
  fp_inv : F → gset Z → Prop;
  fp_free : F → nat;
  fp_law f used m : fp_inv f used →
    match provide_frame f m with
    | None => False
    | Some (f', m', None) => f' = f ∧ m' = m ∧ fp_free f = 0%nat
    | Some (f', m', Some fr) =>
        fp_free f = S (fp_free f') ∧ fp_inv f' ({[frame_addr fr]} ∪ used) ∧ frame_addr fr ∉ used ∧ table_ok (frame_addr fr) ∧
        ∀ a, m' a = if decide (in_frame (frame_addr fr) a) then 0 else m a
    end;
}.

Lemma frames_disjoint n t a : table_ok n → table_ok t → n ≠ t → in_frame n a → ¬ in_frame t a.
Proof. unfold table_ok, in_frame, PAGE_SIZE. intros [] [] Hne ? ?. Z.to_euclidean_division_equations; lia. Qed.

Lemma in_frame_slot t i a : index_ok i → slot t i ≤ a < slot t i + 8 → in_frame t a.
Proof. unfold index_ok, slot, in_frame, PAGE_SIZE. lia. Qed.

Section zeroed.
  Context (m m' : Mem) (n : Z) (Hn : table_ok n).
  Context (Hm : ∀ a, m' a = if decide (in_frame n a) then 0 else m a).

Lemma entry_zeroed i : index_ok i → entry m' n i = 0.
Proof.
  intros Hi. apply read64_zero. intros b Hb. rewrite Hm, decide_True; [done|]. by apply in_frame_slot with i.
Qed.

Lemma entry_zeroed_ne t i : table_ok t → t ≠ n → index_ok i → entry m' t i = entry m t i.
Proof.
  intros Ht Hne Hi. apply entry_ext; [|done]. intros a Ha. rewrite Hm, decide_False; [done|].
  intros Hf. by apply (frames_disjoint n t a Hn Ht).
Qed.
End zeroed.

Lemma xlate_path_cons m t i j rest : xlate_path m t (i :: j :: rest) =
  if negb (is_valid (entry m t i)) then Err NotMapped else
  if negb (is_table (entry m t i)) then Err BlockMapped else
  xlate_path m (Z.land (entry m t i) TABLE_NLA_MASK) (j :: rest).
Proof. done. Qed.

Lemma walk_to_xlate m idx j rest : ∀ t n, walk_to m t idx = Some n →
  xlate_path m t (idx ++ j :: rest) = xlate_path m n (j :: rest).
Proof.
  induction idx as [|i idx IH]; intros t n; cbn [walk_to app]; [by intros [= ->]|].
  destruct (is_valid (entry m t i)) eqn:Hv; [|done]. destruct (is_table (entry m t i)) eqn:Ht; [|done].
  cbn [andb]. intros Hw. destruct (idx ++ j :: rest) as [|k l] eqn:Hl; [by destruct idx|].
  rewrite xlate_path_cons, Hv, Ht. cbn [negb]. by apply IH.
Qed.

Lemma walk_to_path m rt T : PT m rt T → ∀ idx t p n, T !! t = Some p → (length p + length idx ≤ 3)%nat →
  Forall index_ok idx → walk_to m t idx = Some n → T !! n = Some (p ++ idx).
Proof.
  intros HP. induction idx as [|i idx IH]; intros t p n Ht Hl Hok; cbn [walk_to length] in *.
  { intros [= <-]. by rewrite app_nil_r. }
  apply Forall_cons_1 in Hok as [Hi Hok]. destruct (is_valid (entry m t i)) eqn:Hv; [|done].
  destruct (is_table (entry m t i)) eqn:Htb; [|done]. cbn [andb]. intros Hw.
  replace (p ++ i :: idx) with ((p ++ [i]) ++ idx) by (by rewrite <- app_assoc).
  eapply IH; [apply (pt_next _ _ _ HP t p i)|..]; try done; [lia|]. rewrite length_app. cbn. lia.
Qed.

(** Entries in use at the upper levels are kept. *)
Definition keeps_tables (T : gmap Z (list Z)) (m m' : Mem) : Prop :=
  ∀ t p i, T !! t = Some p → (length p < 3)%nat → index_ok i →
    is_valid (entry m t i) = true → entry m' t i = entry m t i.

Lemma walk_to_mono m m' rt T : PT m rt T → keeps_tables T m m' →
  ∀ idx t p n, T !! t = Some p → (length p + length idx ≤ 3)%nat → Forall index_ok idx →
  walk_to m t idx = Some n → walk_to m' t idx = Some n.
Proof.
  intros HP Hk. induction idx as [|i idx IH]; intros t p n Ht Hl Hok; cbn [walk_to length] in *; [done|].
  apply Forall_cons_1 in Hok as [Hi Hok]. destruct (is_valid (entry m t i)) eqn:Hv; [|done].
  destruct (is_table (entry m t i)) eqn:Htb; [|done]. cbn [andb]. intros Hw.
  rewrite (Hk t p i) by (done || lia). rewrite Hv, Htb. cbn [andb].
  eapply IH; [apply (pt_next _ _ _ HP t p i)|..]; try done; [lia|]. rewrite length_app. cbn. lia.
Qed.

Lemma xlate_path_ext m m' rt T : PT m rt T →
  ∀ idx t p, T !! t = Some p → (length p + length idx = 4)%nat → Forall index_ok idx →
  (∀ t' i, is_Some (T !! t') → index_ok i → entry m' t' i = entry m t' i) →
  xlate_path m' t idx = xlate_path m t idx.
Proof.
  intros HP. induction idx as [|i idx IH]; intros t p Ht Hl Hok He; [done|].
  apply Forall_cons_1 in Hok as [Hi Hok]. destruct idx as [|j rest].
  { cbn [xlate_path]. by rewrite He. }
  rewrite !xlate_path_cons, He by done. destruct (is_valid (entry m t i)) eqn:Hv; [|done].
  destruct (is_table (entry m t i)) eqn:Htb; [|done]. cbn [negb]. cbn [length] in Hl.
  eapply IH; [apply (pt_next _ _ _ HP t p i)|..]; try done; [lia|]. rewrite length_app. cbn. lia.
Qed.

(** ** A fresh table in an empty slot *)

Section install.
  Context (m m1 : Mem) (rt : Z) (T : gmap Z (list Z)) (t i n : Z) (p : list Z).
  Context (HP : PT m rt T) (Ht : T !! t = Some p) (Hl : (length p < 3)%nat) (Hi : index_ok i).
  Context (Hempty : is_valid (entry m t i) = false) (Hn : T !! n = None) (Hnok : table_ok n).
  Context (Hm : ∀ a, m1 a = if decide (in_frame n a) then 0 else m a).
Let m2 := write64 m1 (slot t i) (table_descriptor n).

Lemma table_descriptor_u64 : is_u64 (table_descriptor n).
Proof. unfold table_descriptor. repeat apply lor_u64; [| |apply land_u64_r]; by vm_compute. Qed.

Lemma install_entry_new : entry m2 t i = table_descriptor n.
Proof. apply entry_write, table_descriptor_u64. Qed.

Lemma install_t_ok : table_ok t ∧ t ≠ n.
Proof. split; [by apply (pt_table _ _ _ HP) in Ht as (? & _)|]. intros ->. congruence. Qed.

Lemma install_entry_ne t' i' : is_Some (T !! t') → index_ok i' → (t', i') ≠ (t, i) → entry m2 t' i' = entry m t' i'.
Proof.
  intros [p' Ht'] Hi' Hne. destruct install_t_ok as [Htok Htn].
  destruct (pt_table _ _ _ HP _ _ Ht') as [Htok' _]. unfold m2.
  rewrite entry_write_ne by done. apply (entry_zeroed_ne m m1 n); [done..| |done].
  intros ->. congruence.
Qed.

Lemma install_entry_fresh i' : index_ok i' → entry m2 n i' = 0.
Proof.
  intros Hi'. destruct install_t_ok as [Htok Htn]. unfold m2.
  rewrite entry_write_ne by (done || congruence). by apply (entry_zeroed m m1).
Qed.

Lemma install_keeps : keeps_tables T m m2.
Proof. intros t' p' i' Ht' _ Hi' Hv. apply install_entry_ne; [by eexists|done|]. intros [= -> ->]. congruence. Qed.

Lemma install_reach : ∀ n' p', (<[n := p ++ [i]]> T) !! n' = Some p' → walk_to m2 rt p' = Some n'.
Proof.
  assert (Hold : ∀ n' p', T !! n' = Some p' → walk_to m2 rt p' = Some n').
  { intros n' p' Hn'. destruct (pt_table _ _ _ HP _ _ Hn') as (_ & Hl' & Hok').
    eapply (walk_to_mono m m2 rt T HP install_keeps p' rt []); [apply HP|exact Hl'|done|].
    by apply (pt_reach _ _ _ HP). }
  intros n' p' [[<- <-]|[_ Hn']]%lookup_insert_Some; [|by apply Hold].
  rewrite (walk_to_snoc _ _ _ rt t) by (by apply Hold). cbn [walk_to]. rewrite install_entry_new.
  destruct Hnok as [Hal Hr]. destruct (table_descriptor_fields n) as (-> & -> & ->); [lia|done|]. done.
Qed.

Lemma install_PT : PT m2 rt (<[n := p ++ [i]]> T).
Proof.
  split.
  - rewrite lookup_insert_ne; [apply HP|]. intros ->. by rewrite (pt_root _ _ _ HP) in Hn.
  - intros t' p' [[<- <-]|[_ Ht']]%lookup_insert_Some; [|by apply (pt_table _ _ _ HP)].
    split; [done|]. rewrite length_app. cbn. split; [lia|]. apply Forall_app. split; [|by constructor].
    by apply (pt_table _ _ _ HP t p).
  - intros t' p' i' [[<- <-]|[Hne Ht']]%lookup_insert_Some Hl' Hi'.
    { rewrite install_entry_fresh by done. done. }
    destruct (decide ((t', i') = (t, i))) as [[= -> ->]|Hti].
    + rewrite install_entry_new. intros _ _. rewrite Ht in Ht'. injection Ht' as <-.
      destruct Hnok as [Hal Hr]. destruct (table_descriptor_fields n) as (_ & _ & ->); [lia|done|].
      apply lookup_insert_eq.
    + rewrite install_entry_ne by done. intros Hv Htb. rewrite lookup_insert_ne.
      * by apply (pt_next _ _ _ HP).
      * intros Heq. pose proof (pt_next _ _ _ HP t' p' i' Ht' Hl' Hi' Hv Htb) as Hx. congruence.
  - intros t' p' i' [[<- <-]|[Hne Ht']]%lookup_insert_Some Hl' Hi'.
    { rewrite install_entry_fresh by done. done. }
    rewrite install_entry_ne; try done; [by apply (pt_leaf _ _ _ HP t' p')|].
    intros [= -> ->]. rewrite Ht in Ht'. injection Ht' as <-. lia.
  - apply install_reach.
Qed.

(** The fresh table translates nothing. *)
Lemma install_fresh_path rest : Forall index_ok rest → xlate_path m2 n rest = Err NotMapped.
Proof.
  intros Hr. destruct rest as [|j rest]; [done|]. apply Forall_cons_1 in Hr as [Hj _].
  destruct rest; [cbn [xlate_path]|rewrite xlate_path_cons]; by rewrite install_entry_fresh.
Qed.

Lemma install_xlate_path : ∀ idx t0 p0, T !! t0 = Some p0 → (length p0 + length idx = 4)%nat →
  Forall index_ok idx → xlate_path m2 t0 idx = xlate_path m t0 idx.
Proof.
  induction idx as [|j idx IH]; intros t0 p0 Ht0 Hl0 Hok; [done|].
  apply Forall_cons_1 in Hok as [Hj Hok]. cbn [length] in Hl0.
  destruct idx as [|k rest].
  { cbn [xlate_path]. rewrite install_entry_ne; [done|done|done|]. intros [= -> ->].
    rewrite Ht in Ht0. injection Ht0 as <-. cbn in Hl0. lia. }
  rewrite !xlate_path_cons. destruct (decide ((t0, j) = (t, i))) as [[= -> ->]|Hne].
  - rewrite Hempty, install_entry_new. cbn [negb]. destruct Hnok as [Hal Hr].
    destruct (table_descriptor_fields n) as (-> & -> & ->); [lia|done|]. cbn [negb].
    by apply install_fresh_path.
  - rewrite install_entry_ne by done. destruct (is_valid (entry m t0 j)) eqn:Hv; [|done].
    destruct (is_table (entry m t0 j)) eqn:Htb; [|done]. cbn [negb].
    eapply IH; [apply (pt_next _ _ _ HP t0 p0 j)|..]; try done; cbn [length] in *; [lia|].
    rewrite length_app. cbn. lia.
Qed.
End install.

(** ** A store into a leaf *)

Section leaf.
  Context (m : Mem) (rt : Z) (T : gmap Z (list Z)) (t i v : Z) (p : list Z).
  Context (HP : PT m rt T) (Ht : T !! t = Some p) (Hl : length p = 3%nat) (Hi : index_ok i).
  Context (Hv : is_u64 v).
  Context (Hleaf : is_valid v = true → is_table v = true ∧ is_accessed v = true).
Let m2 := write64 m (slot t i) v.

Lemma leaf_entry_ne t' i' : is_Some (T !! t') → index_ok i' → (t', i') ≠ (t, i) → entry m2 t' i' = entry m t' i'.
Proof.
  intros [p' Ht'] Hi' Hne. apply (pt_table _ _ _ HP) in Ht as (Htok & _).
  apply (pt_table _ _ _ HP) in Ht' as (Htok' & _). unfold m2. by rewrite entry_write_ne.
Qed.

Lemma leaf_keeps : keeps_tables T m m2.
Proof.
  intros t' p' i' Ht' Hl' Hi' _. apply leaf_entry_ne; [by eexists|done|].
  intros [= -> ->]. rewrite Ht in Ht'. injection Ht' as <-. lia.
Qed.

Lemma leaf_PT : PT m2 rt T.
Proof.
  split; [apply HP|apply HP|..].
  - intros t' p' i' Ht' Hl' Hi'. rewrite leaf_entry_ne; [by apply (pt_next _ _ _ HP)|done|done|].
    intros [= -> ->]. rewrite Ht in Ht'. injection Ht' as <-. lia.
  - intros t' p' i' Ht' Hl' Hi'. destruct (decide ((t', i') = (t, i))) as [[= -> ->]|Hne].
    + unfold m2. by rewrite entry_write.
    + rewrite leaf_entry_ne by done. by apply (pt_leaf _ _ _ HP t' p').
  - intros n' p' Hn'. destruct (pt_table _ _ _ HP _ _ Hn') as (_ & Hl' & Hok').
    eapply (walk_to_mono m m2 rt T HP leaf_keeps p' rt []); [apply HP|exact Hl'|done|].
    by apply (pt_reach _ _ _ HP).
Qed.

Lemma leaf_xlate_path : ∀ idx t0 p0, T !! t0 = Some p0 → (length p0 + length idx = 4)%nat →
  Forall index_ok idx → p0 ++ idx ≠ p ++ [i] → xlate_path m2 t0 idx = xlate_path m t0 idx.
Proof.
  induction idx as [|j idx IH]; intros t0 p0 Ht0 Hl0 Hok Hne; [done|].
  apply Forall_cons_1 in Hok as [Hj Hok]. cbn [length] in Hl0. destruct idx as [|k rest].
  { cbn [xlate_path]. rewrite leaf_entry_ne; [done|done|done|]. intros [= -> ->].
    rewrite Ht in Ht0. by injection Ht0 as <-. }
  rewrite !xlate_path_cons, leaf_entry_ne; [|done|done|].
  2:{ intros [= -> ->]. rewrite Ht in Ht0. injection Ht0 as <-. cbn in Hl0. lia. }
  destruct (is_valid (entry m t0 j)) eqn:Hvj; [|done].
  destruct (is_table (entry m t0 j)) eqn:Htb; [|done]. cbn [negb].
  eapply IH; [apply (pt_next _ _ _ HP t0 p0 j)|..]; try done; cbn [length] in *; [lia|..].
  - rewrite length_app. cbn. lia.
  - by rewrite <- app_assoc.
Qed.
End leaf.
