(* ===== verification/QemuMmuOps.v ===== *)
(** * The walk, step by step

What one level of the walk does to an address space, in the allocating and in the
read-only mode, and the three operations as total functions on the translation. *)

From stdpp Require Import gmap.
From S2P Require Import Prelude.
From S2P Require Import Hal.
From S2P Require Import Arena.
From S2P Require Import Objects.
From S2P Require Import Caps.
From S2P Require Import CapTable.
From S2P Require Import Ipc.
From S2P Require Import SyscallError.
From S2P Require Import UserAccess.
From S2P Require Import Vmsav8.
From S2P Require Import Words.
From S2P Require Import QemuMmu.
From S2P Require Import QemuMmuInv.
Local Open Scope Z_scope.

(** ** An address space with its provider *)

Section space.
  Context `{Build} `{FrameProviderSpec F}.
  Implicit Types (s : MmuState F) (T : gmap Z (list Z)) (used : gset Z).

Record space (s : MmuState F) (rt : Z) T used : Prop := {
  sp_pt : PT (mem s) rt T;
  sp_fp : fp_inv (frames s) used;
  sp_dom : dom T ⊆ used;
}.

(** From [m] with tables [T] to [m'] with tables [T'], translating the same. *)
Record grows T (m : Mem) T' (m' : Mem) : Prop := {
  gr_tables : T ⊆ T';
  gr_keeps : keeps_tables T m m';
  gr_xlate : ∀ idx t p, T !! t = Some p → (length p + length idx = 4)%nat → Forall index_ok idx →
    xlate_path m' t idx = xlate_path m t idx;
  gr_frame : ∀ a, (∀ t, is_Some (T' !! t) → ¬ in_frame t a) → m' a = m a;
}.

Lemma grows_refl T m : grows T m T m.
Proof. by split. Qed.

Lemma grows_trans T m T1 m1 T2 m2 : grows T m T1 m1 → grows T1 m1 T2 m2 → grows T m T2 m2.
Proof.
  intros [G1 K1 X1 F1] [G2 K2 X2 F2]. split.
  - by etrans.
  - intros t p i Ht Hl Hi Hv. rewrite (K2 t p i), (K1 t p i); try done; [by eapply lookup_weaken|].
    by rewrite (K1 t p i).
  - intros idx t p Ht Hl Hok. rewrite (X2 idx t p), (X1 idx t p); try done. by eapply lookup_weaken.
  - intros a Ha. rewrite F2, F1; [done| |done]. intros t [p Ht]. apply Ha.
    exists p. by eapply lookup_weaken.
Qed.

Definition has_path T (p : list Z) : Prop := ∃ t, T !! t = Some p.

(** From [T] and provider [f] to [T'] and [f']: each new table cost one frame, it was
    in use by nobody, and it has one of the paths [ps]. *)
Record accounted used T (f : F) T' (f' : F) (ps : list Z → Prop) : Prop := {
  ac_free : (size T' + fp_free f' = size T + fp_free f)%nat;
  ac_fresh : ∀ t, t ∈ dom T' → t ∈ dom T ∨ t ∉ used;
  ac_paths : ∀ p, has_path T' p → has_path T p ∨ ps p;
}.

Lemma accounted_refl used T f ps : accounted used T f T f ps.
Proof. split; [done|..]; by left. Qed.

Lemma accounted_trans used used1 T f T1 f1 T2 f2 ps1 ps2 ps : accounted used T f T1 f1 ps1 →
  accounted used1 T1 f1 T2 f2 ps2 → used ⊆ used1 →
  (∀ p, ps1 p → ps p) → (∀ p, ps2 p → ps p) → accounted used T f T2 f2 ps.
Proof.
  intros [A1 N1 P1] [A2 N2 P2] Hu I1 I2. split; [lia| |].
  { intros t Ht. destruct (N2 t Ht) as [Ht'|Ht']; [auto|]. right. set_solver. }
  intros p Hp. destruct (P2 p Hp) as [H3|H3]; [|auto].
  destruct (P1 p H3); auto.
Qed.

(** Why a level of the walk stops, on the allocating path. *)
Definition refused (s : MmuState F) : Prop :=
  provide_frame (frames s) (mem s) = Some (frames s, mem s, None).

Definition stopped (e : MmuError) (s : MmuState F) T (rt : Z) (pre : list Z) : Prop :=
  (e = AlreadyMapped ∧ ∀ j rest, xlate_path (mem s) rt (pre ++ j :: rest) = Err BlockMapped) ∨
  (e = OutOfFrames ∧ refused s ∧ fp_free (frames s) = 0%nat ∧ ¬ has_path T pre ∧
   ∀ j rest, xlate_path (mem s) rt (pre ++ j :: rest) = Err NotMapped).

(** A zeroed frame [n], handed out by the provider and stored as a table descriptor
    in the empty slot [i] of the table [t]: one more table, the same translation. *)
Lemma install_table s rt T used t p i f m1 n : space s rt T used →
  walk_to (mem s) rt p = Some t → T !! t = Some p → (length p < 3)%nat → index_ok i →
  is_valid (entry (mem s) t i) = false →
  provide_frame (frames s) (mem s) = Some (f, m1, Some {| frame_addr := n |}) →
  let s' := {| frames := f; mem := write64 m1 (slot t i) (table_descriptor n) |} in
  let T' := <[n := p ++ [i]]> T in
  space s' rt T' (used ∪ dom T') ∧ grows T (mem s) T' (mem s') ∧
  accounted used T (frames s) T' (frames s') (λ p', p' = p ++ [i]) ∧
  walk_to (mem s') rt (p ++ [i]) = Some n ∧ T' !! n = Some (p ++ [i]).
Proof.
  intros [HP Hfp Hdom] Hw Ht Hl Hi Hv Hpf s' T'.
  pose proof (fp_law _ _ (mem s) Hfp) as Hlaw. rewrite Hpf in Hlaw. cbn [frame_addr] in Hlaw.
  destruct Hlaw as (Hfree & Hfp' & Hnu & Hnok & Hm).
  assert (Hn : T !! n = None). { apply not_elem_of_dom. set_solver. }
  assert (Hkeep : keeps_tables T (mem s) (mem s')).
  { intros t' p' i' Ht' Hl' Hi' Hv'. apply (install_entry_ne (mem s) m1 rt T t i n p); try done.
    intros [= -> ->]. congruence. }
  unfold T', s'. cbn [mem frames]. split_and!.
  - split; cbn [mem frames].
    + by apply install_PT with (m := mem s).
    + replace (used ∪ dom (<[n:=p ++ [i]]> T)) with ({[n]} ∪ used) by set_solver. done.
    + set_solver.
  - split; [by apply insert_subseteq|exact Hkeep| |].
    + intros idx t' p' Ht' Hl' Hok. by eapply install_xlate_path.
    + intros a Ha. assert (Hnt : n ≠ t).
      { intros ->. by pose proof (eq_trans (eq_sym Ht) Hn). }
      rewrite write64_out, Hm, decide_False; [done| |].
      * apply Ha. by rewrite lookup_insert_eq.
      * destruct (decide (slot t i ≤ a < slot t i + 8)) as [Hin|]; [|lia]. exfalso.
        apply (Ha t); [by rewrite lookup_insert_ne, Ht|by apply in_frame_slot with i].
  - split.
    + rewrite map_size_insert_None by done. lia.
    + intros t'. rewrite dom_insert, elem_of_union, elem_of_singleton. intros [->|?]; [by right|by left].
    + intros p' (t' & [[_ <-]|[_ Ht']]%lookup_insert_Some); [by right|]. left. by exists t'.
  - erewrite walk_to_snoc.
    + cbn [walk_to]. rewrite install_entry_new by done. destruct Hnok as [Hal Hr].
      destruct (table_descriptor_fields n) as (-> & -> & ->); [lia|done|]. done.
    + eapply walk_to_mono; [exact HP|exact Hkeep|by apply (pt_root _ _ _ HP)|cbn; lia| |exact Hw].
      by apply (pt_table _ _ _ HP t p).
  - apply lookup_insert_eq.
Qed.

Lemma walk_or_alloc_wp s rt T used t p i : space s rt T used →
  walk_to (mem s) rt p = Some t → T !! t = Some p → (length p < 3)%nat → index_ok i →
  wp (walk_or_alloc_table {| frame_addr := t |} i false) s (λ s' r,
    ∃ T', space s' rt T' (used ∪ dom T') ∧ grows T (mem s) T' (mem s') ∧
      accounted used T (frames s) T' (frames s') (λ p', p' = p ++ [i]) ∧
      match r with
      | Ok n => walk_to (mem s') rt (p ++ [i]) = Some (frame_addr n) ∧ T' !! frame_addr n = Some (p ++ [i])
      | Err e => s' = s ∧ T' = T ∧ stopped e s T rt (p ++ [i])
      end).
Proof.
  intros [HP Hfp Hdom] Hw Ht Hl Hi. unfold walk_or_alloc_table. wp_bind.
  apply wp_debug_assert; [apply bool_decide_eq_true; apply Hi|]. red. cbn [frame_addr].
  destruct (pt_table _ _ _ HP _ _ Ht) as [Htok _]. rewrite slot_ptr by done.
  fold (slot t i). fold (entry (mem s) t i).
  assert (Hx : ∀ j rest, xlate_path (mem s) rt ((p ++ [i]) ++ j :: rest) = xlate_path (mem s) t (i :: j :: rest)).
  { intros j rest. rewrite <- app_assoc. by apply walk_to_xlate. }
  assert (Hself : space s rt T (used ∪ dom T)).
  { replace (used ∪ dom T) with used by set_solver. done. }
  pose proof (grows_refl T (mem s)) as Hg. pose proof (accounted_refl used T (frames s) (λ p', p' = p ++ [i])) as Hac.
  destruct (is_valid (entry (mem s) t i)) eqn:Hv.
  - destruct (is_table (entry (mem s) t i)) eqn:Htb; cbn [negb].
    + rewrite mask_aligned. exists T. cbn [frame_addr]. do 3 (split; [done|]).
      split; [|by apply (pt_next _ _ _ HP)]. erewrite walk_to_snoc by done. cbn [walk_to].
      by rewrite Hv, Htb.
    + exists T. do 5 (split; [done|]). left.
      split; [done|]. intros j rest. by rewrite Hx, xlate_path_cons, Hv, Htb.
  - assert (Hnew : ¬ has_path T (p ++ [i])).
    { intros [n Hn%(pt_reach _ _ _ HP)]. rewrite (walk_to_snoc _ _ _ _ _ Hw) in Hn. cbn [walk_to] in Hn.
      by rewrite Hv in Hn. }
    pose proof (fp_law _ _ (mem s) Hfp) as Hlaw.
    destruct (provide_frame (frames s) (mem s)) as [[[f m1] [[n]|]]|] eqn:Hpf; [| |done].
    2:{ destruct Hlaw as (-> & -> & Hz). destruct s as [f0 m0]. exists T.
        do 5 (split; [done|]). right. split; [done|]. do 3 (split; [done|]).
        intros j rest. rewrite Hx, xlate_path_cons. cbn [mem] in *. by rewrite Hv. }
    destruct (install_table s rt T used t p i f m1 n) as (Hs' & Hg' & Hac' & Hwt & HT'); [by split|done..|].
    by exists (<[n := p ++ [i]]> T).
Qed.
End space.

(** ** The read-only walk *)

Section readonly.
  Context `{Build} `{FrameProvider F}.

Lemma walk_read_wp (s : MmuState F) rt T t p i : PT (mem s) rt T →
  walk_to (mem s) rt p = Some t → T !! t = Some p → (length p < 3)%nat → index_ok i →
  wp (walk_or_alloc_table {| frame_addr := t |} i true) s (λ s' r, s' = s ∧
    match r with
    | Ok n => walk_to (mem s) rt (p ++ [i]) = Some (frame_addr n) ∧ T !! frame_addr n = Some (p ++ [i])
    | Err e => ∀ j rest, xlate_path (mem s) rt ((p ++ [i]) ++ j :: rest) = Err e
    end).
Proof.
  intros HP Hw Ht Hl Hi. unfold walk_or_alloc_table. wp_bind.
  apply wp_debug_assert; [apply bool_decide_eq_true; apply Hi|]. red. cbn [frame_addr].
  destruct (pt_table _ _ _ HP _ _ Ht) as [Htok _]. rewrite slot_ptr by done.
  fold (slot t i). fold (entry (mem s) t i).
  assert (Hx : ∀ j rest, xlate_path (mem s) rt ((p ++ [i]) ++ j :: rest) = xlate_path (mem s) t (i :: j :: rest)).
  { intros j rest. rewrite <- app_assoc. by apply walk_to_xlate. }
  destruct (is_valid (entry (mem s) t i)) eqn:Hv.
  2:{ split; [done|]. intros j rest. by rewrite Hx, xlate_path_cons, Hv. }
  destruct (is_table (entry (mem s) t i)) eqn:Htb; cbn [negb].
  2:{ split; [done|]. intros j rest. by rewrite Hx, xlate_path_cons, Hv, Htb. }
  rewrite mask_aligned. cbn [frame_addr]. split; [done|].
  split; [|by apply (pt_next _ _ _ HP)]. erewrite walk_to_snoc by done. cbn [walk_to]. by rewrite Hv, Htb.
Qed.

(** Three levels down to the table that holds the leaf. *)
Lemma walk_read3_wp {E} (s : MmuState F) rt T va (k : PhysFrame → M (MmuState F) MmuError E) Q :
  PT (mem s) rt T →
  (∀ e, xlate (mem s) rt va = Err e → Q s (Err e)) →
  (∀ n, walk_to (mem s) rt (take 3 (va_path va)) = Some (frame_addr n) →
        T !! frame_addr n = Some (take 3 (va_path va)) → wp (k n) s Q) →
  wp (let* l1 := walk_or_alloc_table {| frame_addr := rt |} (va_index va VA_L0_SHIFT) true in
      let* l2 := walk_or_alloc_table l1 (va_index va VA_L1_SHIFT) true in
      let* l3 := walk_or_alloc_table l2 (va_index va VA_L2_SHIFT) true in k l3) s Q.
Proof.
  intros HP Herr Hk. wp_bind.
  eapply wp_mono; [eapply (walk_read_wp s rt T rt []); [done|done|apply HP|cbn; lia|by apply va_index_ok]|].
  intros s1 [n1|e] [-> H1]; cbn [app] in *; [|apply Herr, H1]. destruct H1 as [Hw1 Ht1]. wp_bind.
  destruct n1 as [n1]. cbn [frame_addr] in *.
  eapply wp_mono; [eapply (walk_read_wp s rt T n1); [done|done|done|cbn; lia|by apply va_index_ok]|].
  intros s1 [n2|e] [-> H2]; cbn [app] in *; [|apply Herr, H2]. destruct H2 as [Hw2 Ht2]. wp_bind.
  destruct n2 as [n2]. cbn [frame_addr] in *.
  eapply wp_mono; [eapply (walk_read_wp s rt T n2); [done|done|done|cbn; lia|by apply va_index_ok]|].
  intros s1 [n3|e] [-> H3]; cbn [app] in *; [|apply Herr, H3]. destruct H3 as [Hw3 Ht3]. by apply Hk.
Qed.
End readonly.

Lemma leaf_entry m rt va n : walk_to m rt (take 3 (va_path va)) = Some n →
  xlate m rt va = leaf_result (entry m n (va_index va VA_L3_SHIFT)).
Proof. intros Hw. unfold xlate. by apply (walk_to_xlate m (take 3 (va_path va)) (va_index va VA_L3_SHIFT) [] rt n). Qed.

Lemma va_l3_ok va : index_ok (va_index va VA_L3_SHIFT).
Proof. by apply va_index_ok. Qed.

Section ops.
  Context `{Build}.

(** Translation is a pure reading of the tree. *)
Lemma translate_xlate m rt T va : PT m rt T →
  translate {| root := {| frame_addr := rt |} |} va m = Some (m, xlate m rt va).
Proof.
  intros HP. assert (Hw : wp (translate {| root := {| frame_addr := rt |} |} va) m
    (λ m' r, m' = m ∧ r = xlate m rt va)).
  2:{ apply wp_run in Hw as (m' & r & -> & -> & ->). done. }
  unfold translate. cbn [root]. wp_bind. unfold with_null. apply wp_zoom. cbn [mem]. apply wp_bind3_ret.
  eapply (walk_read3_wp _ rt T va); [done| |].
  { intros e He. cbn [mem] in He. by rewrite He. }
  intros n Hw Hn. cbn [mem] in Hw. red. cbn [ret mem]. red. destruct (pt_table _ _ _ HP _ _ Hn) as [Hok _].
  rewrite slot_ptr by done. fold (slot (frame_addr n) (va_index va VA_L3_SHIFT)).
  fold (entry m (frame_addr n) (va_index va VA_L3_SHIFT)).
  rewrite (leaf_entry m rt va _ Hw). unfold leaf_result.
  set (e := entry m (frame_addr n) (va_index va VA_L3_SHIFT)).
  destruct (is_valid e); cbn [negb orb]; [|done]. destruct (is_table e); cbn [negb orb]; [|done].
  destruct (is_accessed e); cbn [negb orb]; [|done]. change PAGE_OA_MASK_L3 with TABLE_NLA_MASK.
  by rewrite mask_aligned.
Qed.

(** Removal: the leaf is cleared and nothing else moves. *)
Lemma unmap_wp m rt T va : PT m rt T → va `mod` PAGE_SIZE = 0 →
  wp (unmap {| root := {| frame_addr := rt |} |} va) m (λ m' r, PT m' rt T ∧
    (∀ a, (∀ t, is_Some (T !! t) → ¬ in_frame t a) → m' a = m a) ∧
    match r with
    | Ok (v, f) => v = va ∧ (∃ fl, xlate m rt va = Ok (f, fl)) ∧ xlate m' rt va = Err NotMapped ∧
        ∀ va', page_of va' ≠ page_of va → xlate m' rt va' = xlate m rt va'
    | Err e => m' = m ∧ xlate m rt va = Err e
    end).
Proof.
  intros HP Hal. unfold unmap. rewrite bool_decide_true by done. cbn [negb root]. wp_bind.
  unfold with_null. apply wp_zoom. cbn [mem]. unfold walk_and_install_leaf.
  eapply (walk_read3_wp _ rt T va); [done| |].
  { intros e He. cbn [mem] in *. done. }
  intros n Hw Hn. red. unfold install_leaf. cbn [mem frames] in *.
  destruct (pt_table _ _ _ HP _ _ Hn) as [Hok _].
  rewrite slot_ptr by done. set (i := va_index va VA_L3_SHIFT). fold (slot (frame_addr n) i).
  fold (entry m (frame_addr n) i).
  pose proof (leaf_entry m rt va _ Hw) as Hx. fold i in Hx. unfold leaf_result in Hx.
  destruct (is_valid (entry m (frame_addr n) i)) eqn:Hv; cbn [negb].
  2:{ by rewrite Hx. }
  assert (Hi : index_ok i) by apply va_l3_ok.
  destruct (pt_leaf _ _ _ HP _ _ i Hn) as [Htb Haf]; [done..|]. rewrite Htb, Haf in Hx. cbn [negb orb] in Hx.
  change PAGE_OA_MASK_L3 with TABLE_NLA_MASK in *. rewrite mask_aligned.
  change (wp (ret (va, {| frame_addr := Z.land (entry m (frame_addr n) i) TABLE_NLA_MASK |}))
    (write64 m (slot (frame_addr n) i) 0) (λ m' r, PT m' rt T ∧
    (∀ a, (∀ t, is_Some (T !! t) → ¬ in_frame t a) → m' a = m a) ∧
    match r with
    | Ok (v, f) => v = va ∧ (∃ fl, xlate m rt va = Ok (f, fl)) ∧ xlate m' rt va = Err NotMapped ∧
        ∀ va', page_of va' ≠ page_of va → xlate m' rt va' = xlate m rt va'
    | Err e => m' = m ∧ xlate m rt va = Err e
    end)). red. cbn [ret].
  assert (H0 : is_u64 0) by (by split).
  split; [by apply (leaf_PT m rt T _ i 0 _ HP Hn)|]. split.
  { intros a Ha. apply write64_out. destruct (decide (slot (frame_addr n) i ≤ a < slot (frame_addr n) i + 8)); [|lia].
    exfalso. apply (Ha (frame_addr n)); [by eexists|by apply in_frame_slot with i]. }
  split; [done|]. split; [by eexists|]. split.
  - unfold xlate. erewrite (walk_to_xlate _ (take 3 (va_path va)) i [] rt).
    + cbn [xlate_path]. rewrite entry_write by done. done.
    + eapply walk_to_mono; [exact HP| |apply HP|cbn; lia| |exact Hw].
      * intros t p j Ht Hl Hj _. eapply (leaf_entry_ne m rt T _ i 0 _ HP Hn); try done.
        intros [= -> ->]. pose proof (eq_trans (eq_sym Hn) Ht) as Hq. injection Hq as <-. cbn in Hl. lia.
      * by apply (pt_table _ _ _ HP _ _ Hn).
  - intros va' Hp. unfold xlate. apply (leaf_xlate_path m rt T _ i 0 _ HP Hn eq_refl Hi _ rt []); [apply HP|done|apply va_path_ok|].
    intros Heq. apply Hp. apply va_path_page. exact Heq.
Qed.
End ops.

(** ** Installation *)

Lemma page_descriptor_u64 pa flags : is_u64 (page_descriptor pa (flags_to_descriptor_bits flags)).
Proof.
  rewrite page_descriptor_split. apply lor_u64; [by apply land_u64_r|].
  rewrite <- encode_known, known_flags_of.
  by destruct (flags_contains flags WRITE), (flags_contains flags EXECUTE), (flags_contains flags USER),
    (flags_contains flags DEVICE), (flags_contains flags GLOBAL); vm_compute.
Qed.

Section install_leaf.
  Context `{Build} `{FrameProviderSpec F}.
  Implicit Types (s : MmuState F) (T : gmap Z (list Z)) (used : gset Z).

Lemma space_mono s rt T used T' s' : space s rt T used → T ⊆ T' → PT (mem s') rt T' →
  fp_inv (frames s') (used ∪ dom T') → space s' rt T' (used ∪ dom T').
Proof. intros _ _ HP Hfp. split; [done|done|set_solver]. Qed.

(** The paths of the tables a page needs below the root. *)
Definition va_tables (va : Z) : list (list Z) :=
  [take 1 (va_path va); take 2 (va_path va); take 3 (va_path va)].

Lemma has_path_prefix m rt T p i : PT m rt T → has_path T (p ++ [i]) → has_path T p.
Proof.
  intros HP [n Hn]. destruct (pt_table _ _ _ HP _ _ Hn) as (_ & Hl & Hok). apply Forall_app in Hok as [Hok _].
  rewrite length_app in Hl. cbn in Hl. apply (pt_reach _ _ _ HP) in Hn.
  assert (∃ t, walk_to m rt p = Some t) as [t Ht].
  { clear Hl Hok. revert Hn. generalize rt. induction p as [|j p IH]; intros r0; cbn [walk_to app]; [by eexists|].
    destruct (is_valid _ && is_table _); [|done]. apply IH. }
  exists t. apply (walk_to_path m rt T HP p rt []); [apply HP|cbn; lia|done|done].
Qed.

(** What [map] promises, from memory [m] with tables [T]. *)
Definition map_post (f0 : F) (m : Mem) rt T used (va : VirtAddr) (pa : PhysFrame) (flags : MappingFlags)
    (s' : MmuState F) (r : result MmuError PhysFrame) : Prop :=
  ∃ T', space s' rt T' (used ∪ dom T') ∧ T ⊆ T' ∧
    (∀ a, (∀ t, is_Some (T' !! t) → ¬ in_frame t a) → mem s' a = m a) ∧
    accounted used T f0 T' (frames s') (λ p, p ∈ va_tables va) ∧
    match r with
    | Ok f => f = pa ∧ (∀ p, p ∈ va_tables va → has_path T' p) ∧
        xlate m rt va = Err NotMapped ∧ xlate (mem s') rt va = Ok (pa, known_flags flags) ∧
        ∀ va', page_of va' ≠ page_of va → xlate (mem s') rt va' = xlate m rt va'
    | Err e => (∀ va', xlate (mem s') rt va' = xlate m rt va') ∧
        match e with
        | AlreadyMapped => xlate m rt va ≠ Err NotMapped
        | OutOfFrames => xlate m rt va = Err NotMapped ∧ refused s' ∧ fp_free (frames s') = 0%nat ∧
            ∃ p, p ∈ va_tables va ∧ ¬ has_path T' p
        | _ => False
        end
    end.

Lemma grows_xlate s rt T T' m' va : PT (mem s) rt T → grows T (mem s) T' m' → xlate m' rt va = xlate (mem s) rt va.
Proof. intros HP Hg. apply (gr_xlate _ _ _ _ Hg _ _ []); [apply HP|done|apply va_path_ok]. Qed.

Lemma install_leaf_wp s rt T used n va pa flags : space s rt T used →
  flags_contains flags DEVICE && flags_contains flags EXECUTE = false →
  frame_addr pa `mod` PAGE_SIZE = 0 → 0 ≤ frame_addr pa < 2 ^ 48 →
  walk_to (mem s) rt (take 3 (va_path va)) = Some (frame_addr n) →
  T !! frame_addr n = Some (take 3 (va_path va)) →
  wp (install_leaf n (va_index va VA_L3_SHIFT) pa flags false) s (map_post (frames s) (mem s) rt T used va pa flags).
Proof.
  intros Hs Hx Hpal Hpar Hw Hn. pose proof (sp_pt _ _ _ _ Hs) as HP. red. unfold install_leaf.
  destruct (pt_table _ _ _ HP _ _ Hn) as [Hok _]. rewrite slot_ptr by done.
  set (i := va_index va VA_L3_SHIFT). fold (slot (frame_addr n) i). fold (entry (mem s) (frame_addr n) i).
  assert (Hi : index_ok i) by apply va_l3_ok.
  assert (Hu : used ∪ dom T = used). { pose proof (sp_dom _ _ _ _ Hs). set_solver. }
  pose proof (leaf_entry (mem s) rt va _ Hw) as Hxl. fold i in Hxl. unfold leaf_result in Hxl.
  destruct (is_valid (entry (mem s) (frame_addr n) i)) eqn:Hv.
  { exists T. rewrite Hu. do 3 (split; [done|]). split; [apply accounted_refl|]. split; [done|].
    destruct (pt_leaf _ _ _ HP _ _ i Hn) as [Htb Haf]; [done..|]. rewrite Htb, Haf in Hxl. by rewrite Hxl. }
  cbn [negb orb] in Hxl. set (d := page_descriptor _ _).
  assert (Hd : is_u64 d) by apply page_descriptor_u64.
  destruct (page_descriptor_fields (frame_addr pa) (flags_to_descriptor_bits flags)) as (D1 & D2 & D3).
  destruct (page_descriptor_decodes (frame_addr pa) flags Hx Hpar Hpal) as (D4 & D5). fold d in D1, D2, D3, D4, D5.
  exists T. rewrite Hu. cbn [mem frames]. split.
  { split; [|apply Hs|apply Hs]. by apply (leaf_PT (mem s) rt T _ i d _ HP Hn). }
  split; [done|]. split.
  { intros a Ha. apply write64_out. destruct (decide (slot (frame_addr n) i ≤ a < slot (frame_addr n) i + 8)); [|lia].
    exfalso. apply (Ha (frame_addr n)); [by eexists|by apply in_frame_slot with i]. }
  split; [apply accounted_refl|]. split; [done|]. split; [|split; [done|split]].
  - assert (H3 : has_path T (take 3 (va_path va))) by (by eexists).
    pose proof (has_path_prefix _ _ _ (take 2 (va_path va)) _ HP H3) as H2.
    pose proof (has_path_prefix _ _ _ (take 1 (va_path va)) _ HP H2) as H1'.
    apply Forall_forall. by repeat constructor.
  - unfold xlate. erewrite (walk_to_xlate _ (take 3 (va_path va)) i [] rt).
    + cbn [xlate_path]. rewrite entry_write by done. unfold leaf_result. rewrite D1, D2, D3, D4, D5.
      by destruct pa.
    + eapply walk_to_mono; [exact HP| |apply HP|cbn; lia| |exact Hw].
      * intros t p j Ht Hl Hj _. eapply (leaf_entry_ne (mem s) rt T _ i d _ HP Hn); try done.
        intros [= -> ->]. pose proof (eq_trans (eq_sym Hn) Ht) as Hq. injection Hq as <-. cbn in Hl. lia.
      * by apply (pt_table _ _ _ HP _ _ Hn).
  - intros va' Hp. unfold xlate.
    apply (leaf_xlate_path (mem s) rt T _ i d _ HP Hn eq_refl Hi _ rt []); [apply HP|done|apply va_path_ok|].
    intros Heq. apply Hp. apply va_path_page. exact Heq.
Qed.

(** One more level, then the rest of the walk. *)
Lemma walk_step_wp s rt T used t p i va pa flags (k : PhysFrame → M (MmuState F) MmuError PhysFrame) :
  space s rt T used → walk_to (mem s) rt p = Some t → T !! t = Some p → (length p < 3)%nat → index_ok i →
  (∃ j rest, va_path va = (p ++ [i]) ++ j :: rest) → p ++ [i] ∈ va_tables va →
  (∀ s1 T1 n, space s1 rt T1 (used ∪ dom T1) → grows T (mem s) T1 (mem s1) →
     walk_to (mem s1) rt (p ++ [i]) = Some (frame_addr n) → T1 !! frame_addr n = Some (p ++ [i]) →
     wp (k n) s1 (map_post (frames s1) (mem s1) rt T1 (used ∪ dom T1) va pa flags)) →
  wp (let* n := walk_or_alloc_table {| frame_addr := t |} i false in k n) s (map_post (frames s) (mem s) rt T used va pa flags).
Proof.
  intros Hs Hw Ht Hl Hi (j & rest & Hva) Hin Hk. wp_bind. eapply wp_mono; [by apply walk_or_alloc_wp|].
  pose proof (sp_pt _ _ _ _ Hs) as HP.
  intros s1 r (T1 & Hs1 & Hg & Hac & Hr). pose proof (λ v, grows_xlate s rt T T1 (mem s1) v HP Hg) as Hxl.
  destruct r as [n|e].
  - destruct Hr as [Hw1 Ht1]. eapply wp_mono; [by apply (Hk s1 T1 n)|].
    intros s2 r (T2 & Hs2 & Hsub & Hfr & Hac2 & Hr). exists T2.
    assert (HT : T ⊆ T2) by (etrans; [apply Hg|done]).
    assert (dom T1 ⊆ dom T2) by (by apply subseteq_dom).
    replace (used ∪ dom T2) with (used ∪ dom T1 ∪ dom T2) by set_solver. split; [done|]. split; [done|]. split.
    { intros a Ha. rewrite Hfr by done. apply Hg. intros t' [p' Ht']. apply Ha. eexists. by eapply lookup_weaken. }
    split. { eapply accounted_trans; [done|done|set_solver| |auto]. by intros p' ->. }
    destruct r as [f|e].
    + destruct Hr as (-> & E0 & E1 & E2 & E3). rewrite Hxl in E1. do 4 (split; [done|]).
      intros va' Hp. by rewrite E3, Hxl.
    + destruct Hr as [E1 E2]. split; [intros va'; by rewrite E1, Hxl|].
      destruct e; rewrite ?Hxl in E2; exact E2.
  - destruct Hr as (-> & -> & Hst). exists T. split; [done|]. split; [done|]. split; [done|].
    split; [apply accounted_refl|]. split; [done|]. unfold xlate. rewrite Hva.
    destruct Hst as [[-> Hst]|(-> & Hrf & Hz & Hnp & Hst)]; rewrite Hst; [done|].
    do 3 (split; [done|]). by exists (p ++ [i]).
Qed.

Lemma map_walk_wp s rt T used va pa flags : space s rt T used →
  flags_contains flags DEVICE && flags_contains flags EXECUTE = false →
  frame_addr pa `mod` PAGE_SIZE = 0 → 0 ≤ frame_addr pa < 2 ^ 48 →
  wp (walk_and_install_leaf {| frame_addr := rt |} va pa flags false) s (map_post (frames s) (mem s) rt T used va pa flags).
Proof.
  intros Hs Hx Hpal Hpar. unfold walk_and_install_leaf.
  apply (walk_step_wp _ _ _ _ _ []); [done|done|apply Hs|cbn; lia|by apply va_index_ok|by do 2 eexists|set_solver|].
  intros s1 T1 [n1] Hs1 _ Hw1 Ht1. cbn [app frame_addr] in *.
  eapply walk_step_wp; [done|done|done|cbn; lia|by apply va_index_ok|by do 2 eexists|set_solver|].
  intros s2 T2 [n2] Hs2 _ Hw2 Ht2. cbn [app frame_addr] in *.
  eapply walk_step_wp; [done|done|done|cbn; lia|by apply va_index_ok|by do 2 eexists|set_solver|].
  intros s3 T3 n3 Hs3 _ Hw3 Ht3. cbn [app] in *. by apply install_leaf_wp.
Qed.
End install_leaf.
