(* ===== verification/QemuMmuProps.v ===== *)
(** * Properties of the page-table walker

The memory manager as the frame provider, a fresh root as an empty address space,
and the three operations as operations on the map from pages to frames. *)

From stdpp Require Import gmap.
From S2P Require Import Prelude.
From S2P Require Import Hal.
From S2P Require Import Arena.
From S2P Require Import Objects.
From S2P Require Import Caps.
From S2P Require Import CapTable.
From S2P Require Import Ipc.
From S2P Require Import SyscallError.
From S2P Require Import UserAccess.
From S2P Require Import Pmm.
From S2P Require Import PmmInv.
From S2P Require Import PmmNew.
From S2P Require Import PmmProps.
From S2P Require Import Vmsav8.
From S2P Require Import Words.
From S2P Require Import QemuMmu.
From S2P Require Import QemuMmuInv.
From S2P Require Import QemuMmuOps.
Local Open Scope Z_scope.

(** ** The memory manager provides frames *)

(** [impl FrameProvider for Pmm]: [alloc_frame] itself. *)
#[export] Instance Pmm_FrameProvider : FrameProvider Pmm := {
  provide_frame := λ p m,
    match alloc_frame {| pmm := p; pmem := m |} with
    | None => None
    | Some (s, Ok f) => Some (pmm s, pmem s, Some f)
    | Some (s, Err _) => Some (pmm s, pmem s, None)
    end
}.

(** No frame of [used] is free. *)
Definition pmm_holds (p : Pmm) (used : gset Z) : Prop :=
  PWF p ∧ ∀ i, (i < frame_total p)%nat → bit (bitmap p) i = false → frame_pa p i ∉ used.

Definition pmm_free (p : Pmm) : nat := Z.to_nat (free_count p).

Lemma pmm_free_alloc p p' i : PWF p → PWF p' → extent p' = extent p → (i < frame_total p)%nat →
  bit (bitmap p) i = false → (∀ j, bit (bitmap p') j = if decide (j = i) then true else bit (bitmap p) j) →
  pmm_free p = S (pmm_free p').
Proof.
  intros Hp Hp' He Hi Hb Hbit. unfold pmm_free. rewrite (pw_free _ Hp), (pw_free _ Hp'), !Nat2Z.id.
  assert (frame_total p' = frame_total p) as -> by (unfold frame_total; by rewrite He).
  apply count_add with i; [done|..].
  - by rewrite Hbit, decide_True.
  - by rewrite Hb.
  - intros j Hj. by rewrite Hbit, decide_False.
Qed.

Lemma pmm_holds_law f used m : pmm_holds f used →
  match provide_frame f m with
  | None => False
  | Some (f', m', None) => f' = f ∧ m' = m ∧ pmm_free f = 0%nat
  | Some (f', m', Some fr) =>
      pmm_free f = S (pmm_free f') ∧ pmm_holds f' ({[frame_addr fr]} ∪ used) ∧ frame_addr fr ∉ used ∧ table_ok (frame_addr fr) ∧
      ∀ a, m' a = if decide (in_frame (frame_addr fr) a) then 0 else m a
  end.
Proof.
  intros [Hp Hu]. pose proof (alloc_frame_wp {| pmm := f; pmem := m |} Hp) as Hw.
  apply wp_run in Hw as (s' & r & Hr & Hp' & Hpost). unfold provide_frame, Pmm_FrameProvider. rewrite Hr.
  destruct r as [fr|[]].
  2:{ destruct Hpost as [-> Hfull]. do 2 (split; [done|]). unfold pmm_free. rewrite (pw_free _ Hp), Nat2Z.id.
      apply count_none. intros i Hi. pose proof (Hfull i Hi) as Hf. cbn [pmm] in Hf. by rewrite Hf. }
  cbn [pmm pmem] in *.
  destruct Hpost as (i & Hi & Hb & _ & -> & Hbit & He & _ & Hm). cbn [frame_addr].
  assert (Hpa : ∀ j, frame_pa (pmm s') j = frame_pa f j) by (intros j; unfold frame_pa; by rewrite He).
  destruct (frame_in_extent _ _ Hp Hi) as (F1 & F2 & F3 & F4). split_and!.
  - by apply (pmm_free_alloc f (pmm s') i).
  - split; [done|]. intros j Hj Hbj. rewrite Hbit in Hbj. case_decide as Hji; [done|]. rewrite Hpa.
    assert (Hj' : (j < frame_total f)%nat) by (unfold frame_total in *; by rewrite He in Hj).
    pose proof (Hu j Hj' Hbj). assert (frame_pa f j ≠ frame_pa f i) by (intros Hq%frame_pa_inj; done).
    set_solver.
  - by apply Hu.
  - split; [done|]. unfold PAGE_SIZE in *. lia.
  - intros a. rewrite Hm. unfold zero_page, in_frame, PAGE_SIZE.
    case_decide; case_bool_decide; done || lia.
Qed.

#[export] Instance Pmm_FrameProviderSpec : FrameProviderSpec Pmm := {
  fp_inv := pmm_holds;
  fp_free := pmm_free;
  fp_law := pmm_holds_law;
}.

(** ** A fresh root is an empty address space *)

Lemma fresh_root_PT m rt : table_ok rt → (∀ a, in_frame rt a → m a = 0) → PT m rt {[rt := []]}.
Proof.
  intros Hok Hz.
  assert (He : ∀ i, index_ok i → entry m rt i = 0).
  { intros i Hi. apply read64_zero. intros b Hb. apply Hz. by apply in_frame_slot with i. }
  split.
  - apply lookup_singleton_eq.
  - intros t p [<- <-]%lookup_singleton_Some. split; [done|]. split; [cbn; lia|constructor].
  - intros t p i [<- <-]%lookup_singleton_Some _ Hi. by rewrite He.
  - intros t p i [<- <-]%lookup_singleton_Some _ Hi. by rewrite He.
  - by intros n p [<- <-]%lookup_singleton_Some.
Qed.

Lemma fresh_root_xlate m rt va : (∀ a, in_frame rt a → m a = 0) → xlate m rt va = Err NotMapped.
Proof.
  intros Hz. unfold xlate, va_path. rewrite xlate_path_cons.
  assert (entry m rt (va_index va VA_L0_SHIFT) = 0) as ->; [|done].
  apply read64_zero. intros b Hb. apply Hz. apply in_frame_slot with (va_index va VA_L0_SHIFT); [|done].
  by apply va_index_ok.
Qed.

(** An address space on a freshly provided root. *)
Lemma fresh_space `{FrameProviderSpec F} (f : F) used m f' m' fr : fp_inv f used →
  provide_frame f m = Some (f', m', Some fr) →
  space {| frames := f'; mem := m' |} (frame_addr fr) {[frame_addr fr := []]} ({[frame_addr fr]} ∪ used) ∧
  ∀ va, xlate m' (frame_addr fr) va = Err NotMapped.
Proof.
  intros Hf Hpf. pose proof (fp_law f used m Hf) as Hlaw. rewrite Hpf in Hlaw.
  destruct Hlaw as (_ & Hf' & _ & Hok & Hm).
  assert (Hz : ∀ a, in_frame (frame_addr fr) a → m' a = 0) by (intros a Ha; by rewrite Hm, decide_True).
  split; [|intros va; by apply fresh_root_xlate]. split; cbn [mem frames]; [by apply fresh_root_PT|done|set_solver].
Qed.

(** ** Mapping *)

Section mapping.
  Context `{Build} `{FrameProviderSpec F}.

Definition space_at (rt : Z) : QemuVirtAddressSpace := create_address_space {| frame_addr := rt |}.

(** [map] on the translation. *)
Lemma map_wp (s : MmuState F) rt T used va pa flags :
  space s rt T used → frame_addr pa `mod` PAGE_SIZE = 0 → 0 ≤ frame_addr pa < 2 ^ 48 →
  wp (map (space_at rt) va pa flags) s (λ s' r, ∃ T', space s' rt T' (used ∪ dom T') ∧ T ⊆ T' ∧
    (∀ a, (∀ t, is_Some (T' !! t) → ¬ in_frame t a) → mem s' a = mem s a) ∧
    accounted used T (frames s) T' (frames s') (λ p, p ∈ va_tables va) ∧
    match r with
    | Ok v => v = va ∧ (∀ p, p ∈ va_tables va → has_path T' p) ∧ xlate (mem s) rt va = Err NotMapped ∧ xlate (mem s') rt va = Ok (pa, known_flags flags) ∧
        ∀ va', page_of va' ≠ page_of va → xlate (mem s') rt va' = xlate (mem s) rt va'
    | Err e => (∀ va', xlate (mem s') rt va' = xlate (mem s) rt va') ∧
        match e with
        | MisalignedAddress => va `mod` PAGE_SIZE ≠ 0
        | InvalidFlags => flags_contains flags DEVICE = true ∧ flags_contains flags EXECUTE = true
        | AlreadyMapped => xlate (mem s) rt va ≠ Err NotMapped
        | OutOfFrames => xlate (mem s) rt va = Err NotMapped ∧ refused s' ∧ fp_free (frames s') = 0%nat ∧
            ∃ p, p ∈ va_tables va ∧ ¬ has_path T' p
        | NotMapped | BlockMapped => False
        end
    end).
Proof.
  intros Hs Hpal Hpar.
  assert (Hstop : space s rt T (used ∪ dom T)).
  { replace (used ∪ dom T) with used by (pose proof (sp_dom _ _ _ _ Hs); set_solver). done. }
  unfold map. case_bool_decide as Hal; cbn [negb].
  2:{ exists T. do 3 (split; [done|]). by split; [apply accounted_refl|]. }
  destruct (flags_contains flags DEVICE && flags_contains flags EXECUTE) eqn:Hx.
  { apply andb_true_iff in Hx. exists T. do 3 (split; [done|]). by split; [apply accounted_refl|]. }
  wp_bind. eapply wp_mono; [by apply (map_walk_wp s rt T used)|].
  intros s' r (T' & Hs' & Hsub & Hfr & Hac & Hr). destruct r as [f|e].
  - destruct Hr as (_ & Hr). by exists T'.
  - exists T'. do 4 (split; [done|]). destruct Hr as [E1 E2]. split; [done|]. by destruct e.
Qed.

(** C24: mapping a page changes that page and nothing else.  In a well-formed address
    space, for any address, frame and flags, [map] returns.  It succeeds only for an
    aligned address and flags without [DEVICE | EXECUTE], when the page was not
    mapped; then translating it gives that frame with exactly the known flags asked,
    every other page translates as before, and the address space is well formed.  It
    fails with exactly the error that applies, [OutOfFrames] when the provider
    refuses, and then every page translates as before.  Memory outside the page
    tables is never written. *)
Theorem map_changes_one_page (s : MmuState F) rt T used va pa flags :
  space s rt T used → frame_addr pa `mod` PAGE_SIZE = 0 → 0 ≤ frame_addr pa < 2 ^ 48 →
  ∃ s' r T', map (space_at rt) va pa flags s = Some (s', r) ∧
    space s' rt T' (used ∪ dom T') ∧ T ⊆ T' ∧
    (∀ a, (∀ t, is_Some (T' !! t) → ¬ in_frame t a) → mem s' a = mem s a) ∧
    let gives va m x := translate (space_at rt) va m = Some (m, x) in
    match r with
    | Ok v => v = va ∧ gives va (mem s) (Err NotMapped) ∧ gives va (mem s') (Ok (pa, known_flags flags)) ∧
        ∀ va', page_of va' ≠ page_of va → ∃ x, gives va' (mem s) x ∧ gives va' (mem s') x
    | Err e => (∀ va', ∃ x, gives va' (mem s) x ∧ gives va' (mem s') x) ∧
        match e with
        | MisalignedAddress => va `mod` PAGE_SIZE ≠ 0
        | InvalidFlags => flags_contains flags DEVICE = true ∧ flags_contains flags EXECUTE = true
        | AlreadyMapped => ¬ gives va (mem s) (Err NotMapped)
        | OutOfFrames => gives va (mem s) (Err NotMapped) ∧ provide_frame (frames s') (mem s') = Some (frames s', mem s', None)
        | NotMapped | BlockMapped => False
        end
    end.
Proof.
  intros Hs Hpal Hpar.
  assert (Htr : ∀ v, translate (space_at rt) v (mem s) = Some (mem s, xlate (mem s) rt v)).
  { intros v. apply translate_xlate with T. apply Hs. }
  destruct (proj1 (wp_run _ _ _) (map_wp s rt T used va pa flags Hs Hpal Hpar))
    as (s' & r & Hrun & T' & Hs' & Hsub & Hfr & _ & Hr).
  assert (Htr' : ∀ v, translate (space_at rt) v (mem s') = Some (mem s', xlate (mem s') rt v)).
  { intros v. apply translate_xlate with T'. apply Hs'. }
  exists s', r, T'. do 4 (split; [done|]). cbv zeta. destruct r as [f|e].
  - destruct Hr as (-> & _ & E1 & E2 & E3). split; [done|]. split; [by rewrite Htr, E1|].
    split; [by rewrite Htr', E2|]. intros v Hv. eexists. rewrite Htr, Htr', E3 by done. done.
  - destruct Hr as [E1 E2]. split; [intros v; eexists; by rewrite Htr, Htr', E1|].
    destruct e; try done; rewrite Htr; [by intros [= ?]|]. by destruct E2 as (-> & ? & _).
Qed.
End mapping.

(** C25: removing a page undoes mapping it.  In a well-formed address space [unmap] and
    [translate] return for every address.  [unmap] of an aligned address succeeds
    exactly when the page translates, returns the frame it translated to, leaves it
    unmapped and every other page as it was; when it fails it writes nothing, and
    its error is the one translation gives. *)
Theorem unmap_removes_one_page `{Build} m rt T va : PT m rt T →
  ∃ m' r, unmap (space_at rt) va m = Some (m', r) ∧ PT m' rt T ∧
    (∀ a, (∀ t, is_Some (T !! t) → ¬ in_frame t a) → m' a = m a) ∧
    let gives va m x := translate (space_at rt) va m = Some (m, x) in
    match r with
    | Ok (v, f) => v = va ∧ va `mod` PAGE_SIZE = 0 ∧ (∃ fl, gives va m (Ok (f, fl))) ∧ gives va m' (Err NotMapped) ∧
        ∀ va', page_of va' ≠ page_of va → ∃ x, gives va' m x ∧ gives va' m' x
    | Err e => m' = m ∧ (gives va m (Err e) ∨ va `mod` PAGE_SIZE ≠ 0 ∧ e = MisalignedAddress)
    end.
Proof.
  intros HP. cbv zeta.
  assert (Htr : ∀ m v, PT m rt T → translate (space_at rt) v m = Some (m, xlate m rt v)).
  { intros m0 v HP0. by apply translate_xlate with T. }
  destruct (decide (va `mod` PAGE_SIZE = 0)) as [Hal|Hal].
  2:{ exists m, (Err MisalignedAddress). unfold unmap. rewrite bool_decide_false by done.
      split; [done|]. split; [done|]. split; [done|]. split; [done|]. by right. }
  pose proof (unmap_wp m rt T va HP Hal) as Hw. apply wp_run in Hw as (m' & r & Hrun & HP' & Hfr & Hr).
  exists m', r. split; [done|]. split; [done|]. split; [done|]. destruct r as [[v f]|e].
  - destruct Hr as (-> & (fl & E1) & E2 & E3). split; [done|]. split; [done|].
    split; [exists fl; by rewrite Htr, E1|]. split; [by rewrite Htr, E2|].
    intros va' Hp. eexists. rewrite !Htr, E3 by done. done.
  - destruct Hr as [-> E]. split; [done|]. left. by rewrite Htr, E.
Qed.

(** ** Samples: two pages mapped by the memory manager, one removed *)

Definition sample_va : Z := 0x80000000.
Definition sample_flags : MappingFlags := flags_union WRITE USER.

Lemma sample_pmm_holds : pmm_holds sample_pmm ∅.
Proof.
  destruct (Pmm_new_spec 2 4 sample_extent sample_reserved (proj1 sample_extent_bounds)
    (proj2 sample_extent_bounds)) as (r & Hr & Hs).
  rewrite sample_pmm_new in Hr. injection Hr as <-. split; [apply Hs|]. intros i _ _. set_solver.
Qed.

(** The manager after handing out the root, and the memory then. *)
Definition sample_root : MmuState Pmm :=
  match provide_frame sample_pmm (λ _, 1) with
  | Some (f, m, Some _) => {| frames := f; mem := m |}
  | _ => {| frames := sample_pmm; mem := λ _, 1 |}
  end.

Lemma sample_root_eq :
  provide_frame sample_pmm (λ _, 1) =
    Some (frames sample_root, mem sample_root, Some {| frame_addr := 0x40003000 |}).
Proof. reflexivity. Qed.

Lemma sample_space :
  space sample_root 0x40003000 {[0x40003000 := []]} ({[0x40003000]} ∪ ∅) ∧
  ∀ va, xlate (mem sample_root) 0x40003000 va = Err NotMapped.
Proof. exact (fresh_space sample_pmm ∅ _ _ _ _ sample_pmm_holds sample_root_eq). Qed.

(** Two runs of one computation agree. *)
Lemma run_det {A B} (o : option (A * B)) a b a' b' : o = Some (a, b) → o = Some (a', b') → a = a' ∧ b = b'.
Proof. intros -> [= <- <-]. done. Qed.

Definition sample_page : PhysFrame := {| frame_addr := 0x40008000 |}.

Definition sample_mapped : MmuState Pmm :=
  match map (H := debug_build) (space_at 0x40003000) sample_va sample_page sample_flags sample_root with
  | Some (s, Ok _) => s
  | _ => sample_root
  end.

Lemma sample_mapped_eq :
  map (H := debug_build) (space_at 0x40003000) sample_va sample_page sample_flags sample_root
  = Some (sample_mapped, Ok sample_va).
Proof. reflexivity. Qed.

Lemma sample_page_ok : frame_addr sample_page `mod` PAGE_SIZE = 0 ∧ 0 ≤ frame_addr sample_page < 2 ^ 48.
Proof. by split. Qed.

(** Mapped by the walk's own lemma, as the state other samples start from. *)
Lemma sample_mapped_space : ∃ T, PT (mem sample_mapped) 0x40003000 T.
Proof.
  destruct (proj1 (wp_run _ _ _) (map_wp (H := debug_build) sample_root 0x40003000 {[0x40003000 := []]}
    ({[0x40003000]} ∪ ∅) sample_va sample_page sample_flags (proj1 sample_space) (proj1 sample_page_ok)
    (proj2 sample_page_ok))) as (s' & r & Hrun & T' & Hs' & _).
  destruct (run_det _ _ _ _ _ sample_mapped_eq Hrun) as [-> _]. exists T'. apply Hs'.
Qed.

Lemma map_changes_one_page_witness :
  translate (H := debug_build) (space_at 0x40003000) sample_va (mem sample_mapped)
    = Some (mem sample_mapped, Ok (sample_page, sample_flags)) ∧
  translate (H := debug_build) (space_at 0x40003000) (sample_va + PAGE_SIZE) (mem sample_mapped)
    = Some (mem sample_mapped, Err NotMapped).
Proof.
  destruct (map_changes_one_page (H := debug_build) sample_root 0x40003000 {[0x40003000 := []]} ({[0x40003000]} ∪ ∅)
    sample_va sample_page sample_flags (proj1 sample_space) (proj1 sample_page_ok) (proj2 sample_page_ok))
    as (s' & r & T' & Hrun & _ & _ & _ & Hr).
  destruct (run_det _ _ _ _ _ sample_mapped_eq Hrun) as [-> <-]. cbv zeta in Hr.
  destruct Hr as (_ & _ & E1 & E2). split; [exact E1|].
  destruct (E2 (sample_va + PAGE_SIZE) ltac:(by vm_compute)) as (x & Hx & Hx').
  rewrite Hx'. repeat f_equal. rewrite (translate_xlate (H := debug_build) _ _ _ _ (sp_pt _ _ _ _ (proj1 sample_space))) in Hx.
  rewrite (proj2 sample_space) in Hx. by injection Hx.
Defined.

Lemma unmap_removes_one_page_witness :
  ∃ m', unmap (H := debug_build) (space_at 0x40003000) sample_va (mem sample_mapped) = Some (m', Ok (sample_va, sample_page)) ∧
        translate (H := debug_build) (space_at 0x40003000) sample_va m' = Some (m', Err NotMapped).
Proof.
  destruct sample_mapped_space as [T HP].
  destruct (unmap_removes_one_page (H := debug_build) (mem sample_mapped) 0x40003000 T sample_va HP)
    as (m' & r & Hrun & _ & _ & Hr).
  assert (r = Ok (sample_va, sample_page)) as ->.
  { apply (f_equal (fmap snd)) in Hrun. vm_compute in Hrun. injection Hrun as <-. reflexivity. }
  exists m'. split; [exact Hrun|]. cbv zeta in Hr. by destruct Hr as (_ & _ & _ & E & _).
Defined.
