(* ===== verification/BootMmu.v ===== *)
(** * The boot page tables (bsp-qemu-virt/src/mmu_bootstrap.rs)

[mmu_bootstrap] fills the low identity tables and turns the MMU on;
[high_half_activate] adds the roots of the kernel's high half and enables them.
The six table frames are the linker's symbols ([BootTables], by address), and
memory is physical here: both routines run where an address is its own
translation.  The system registers are a record; barriers and the invalidation of
caches change no register and no memory.

[stage1] is the architecture's reading of registers and tables, the reference the
routines are measured against: four levels of 512 entries, blocks at the second and
third, [TTBR0] for the addresses with 16 zero bits on top and [TTBR1] for those with
16 ones.  The permission bits of table descriptors, which the code leaves zero, are
not consulted. *)

From S2P Require Import Prelude.
From S2P Require Import Hal.
From S2P Require Import UserAccess.
From S2P Require Import Vmsav8.
From S2P Require Import Words.
From S2P Require Import QemuMmu.
Local Open Scope Z_scope.

Definition ENTRIES_PER_TABLE : Z := 512.
Definition BLOCK_2MIB : Z := 2 * 1024 * 1024.

(** The linker's symbols. *)
Record BootTables := {
  boot_pt_l0 : Z; boot_pt_l1 : Z; boot_pt_l2_low : Z; boot_pt_l2_high : Z;
  boot_pt_l0_hh : Z; boot_pt_l1_hh : Z;
}.

Record SysRegs := { mair_el1 : Z; tcr_el1 : Z; ttbr0_el1 : Z; ttbr1_el1 : Z; sctlr_el1 : Z }.

Record BootState := { boot_mem : Mem; sys : SysRegs }.

Section boot.
  Context {E : Type}.

(** [core::ptr::write_volatile(table.add(idx), descriptor)]. *)
Definition write_entry (table idx descriptor : Z) : M BootState E unit :=
  modify (λ s, {| boot_mem := write64 (boot_mem s) (table + 8 * idx) descriptor; sys := sys s |}).

Definition msr (f : SysRegs → SysRegs) : M BootState E unit :=
  modify (λ s, {| boot_mem := boot_mem s; sys := f (sys s) |}).

(** [x += y]: the build checks overflow in both profiles. *)
Definition add_assign (x y : Z) : M BootState E Z :=
  match checked_add64 x y with Some z => ret z | None => panic end.

(** The block loops: descriptors for consecutive blocks from [pa] in the entries from
    [idx] to [end_idx]. *)
Fixpoint block_loop (fuel : nat) (table : Z) (bits : DescriptorBits) (end_idx pa idx : Z) : M BootState E unit :=
  match fuel with
  | O => panic
  | S fuel =>
      if bool_decide (idx < end_idx) then
        write_entry table idx (block_descriptor pa bits) ;;
        let* pa := add_assign pa BLOCK_2MIB in
        let* idx := add_assign idx 1 in
        block_loop fuel table bits end_idx pa idx
      else ret tt
  end.

Definition populate_tables (t : BootTables) : M BootState E unit :=
  write_entry (boot_pt_l0 t) 0 (table_descriptor (boot_pt_l1 t)) ;;
  write_entry (boot_pt_l1 t) 0 (table_descriptor (boot_pt_l2_low t)) ;;
  write_entry (boot_pt_l1 t) 1 (table_descriptor (boot_pt_l2_high t)) ;;
  let device_bits := flags_to_descriptor_bits (flags_union (flags_union DEVICE WRITE) GLOBAL) in
  block_loop 512 (boot_pt_l2_low t) device_bits (Z.shiftr 0x09200000 21) 0x08000000 (Z.shiftr 0x08000000 21) ;;
  let ram_bits := flags_to_descriptor_bits (flags_union (flags_union WRITE EXECUTE) GLOBAL) in
  block_loop 512 (boot_pt_l2_high t) ram_bits (ENTRIES_PER_TABLE `div` 8) 0x40000000 0.

Definition mmu_bootstrap (t : BootTables) : M BootState E unit :=
  populate_tables t ;;
  msr (λ r, {| mair_el1 := MAIR_EL1_VALUE; tcr_el1 := TCR_EL1_VALUE; ttbr0_el1 := boot_pt_l0 t; ttbr1_el1 := 0;
               sctlr_el1 := sctlr_el1 r |}) ;;
  msr (λ r, {| mair_el1 := mair_el1 r; tcr_el1 := tcr_el1 r; ttbr0_el1 := ttbr0_el1 r; ttbr1_el1 := ttbr1_el1 r;
               sctlr_el1 := Z.lor (sctlr_el1 r) SCTLR_EL1_MMU_ENABLE_MASK |}).

Definition high_half_activate (t : BootTables) : M BootState E unit :=
  let* va_dev := add_assign KERNEL_HIGH_HALF_OFFSET 0x08000000 in
  let* va_ram := add_assign KERNEL_HIGH_HALF_OFFSET 0x40000000 in
  let l0_idx := Z.land (Z.shiftr va_ram 39) 0x1FF in
  let l1_idx_dev := Z.land (Z.shiftr va_dev 30) 0x1FF in
  let l1_idx_ram := Z.land (Z.shiftr va_ram 30) 0x1FF in
  write_entry (boot_pt_l0_hh t) l0_idx (table_descriptor (boot_pt_l1_hh t)) ;;
  write_entry (boot_pt_l1_hh t) l1_idx_dev (table_descriptor (boot_pt_l2_low t)) ;;
  write_entry (boot_pt_l1_hh t) l1_idx_ram (table_descriptor (boot_pt_l2_high t)) ;;
  msr (λ r, {| mair_el1 := mair_el1 r; tcr_el1 := tcr_el1 r; ttbr0_el1 := ttbr0_el1 r; ttbr1_el1 := boot_pt_l0_hh t;
               sctlr_el1 := sctlr_el1 r |}) ;;
  msr (λ r, {| mair_el1 := mair_el1 r; tcr_el1 := TCR_EL1_VALUE_HIGH_HALF; ttbr0_el1 := ttbr0_el1 r;
               ttbr1_el1 := ttbr1_el1 r; sctlr_el1 := sctlr_el1 r |}).
End boot.

(** ** The reference: translation as the architecture defines it *)

(** A block or page descriptor mapping [2 ^ shift] bytes. *)
Definition hw_leaf (desc shift va : Z) : option (Z * MappingFlags) :=
  if is_accessed desc
  then Some (Z.land desc (Z.shiftl (Z.ones (48 - shift)) shift) + va `mod` 2 ^ shift, descriptor_bits_to_flags desc)
  else None.

Definition hw_walk (m : Mem) (root va : Z) : option (Z * MappingFlags) :=
  let d0 := read64 m (root + 8 * va_index va 39) in
  if negb (is_valid d0 && is_table d0) then None else
  let d1 := read64 m (Z.land d0 TABLE_NLA_MASK + 8 * va_index va 30) in
  if negb (is_valid d1) then None else
  if negb (is_table d1) then hw_leaf d1 30 va else
  let d2 := read64 m (Z.land d1 TABLE_NLA_MASK + 8 * va_index va 21) in
  if negb (is_valid d2) then None else
  if negb (is_table d2) then hw_leaf d2 21 va else
  let d3 := read64 m (Z.land d2 TABLE_NLA_MASK + 8 * va_index va 12) in
  if is_valid d3 && is_table d3 then hw_leaf d3 12 va else None.

(** A half of the address space: the size field, the disable bit and the granule of
    its control fields are those of 48-bit addresses, on, in 4 KiB pages. *)
Definition half_enabled (tcr size_at epd_at granule_at granule : Z) : bool :=
  bool_decide (Z.land (Z.shiftr tcr size_at) 0x3F = 16) && negb (Z.testbit tcr epd_at) &&
  bool_decide (Z.land (Z.shiftr tcr granule_at) 0x3 = granule).

Definition stage1 (r : SysRegs) (m : Mem) (va : Z) : option (Z * MappingFlags) :=
  if bool_decide (va < 2 ^ 48) then
    if half_enabled (tcr_el1 r) 0 7 14 0 then hw_walk m (ttbr0_el1 r) va else None
  else if bool_decide (2 ^ 64 - 2 ^ 48 ≤ va) then
    if half_enabled (tcr_el1 r) 16 23 30 2 then hw_walk m (ttbr1_el1 r) va else None
  else None.
