(* ===== verification/BootMmuProps.v ===== *)
(** * Properties of the boot page tables

What the two boot routines write, and the translation regime the processor has
after each: exactly the device window and the RAM window, at their own addresses
and, after the second, also at the direct-map offset. *)

From S2P Require Import Prelude.
From S2P Require Import Hal.
From S2P Require Import UserAccess.
From S2P Require Import Vmsav8.
From S2P Require Import Words.
From S2P Require Import QemuMmu.
From S2P Require Import QemuMmuInv.
From S2P Require Import BootMmu.
Local Open Scope Z_scope.

(** ** Entries of table frames *)

(** A table frame: a page below 2^48. *)
Definition frame_at (f : Z) : Prop := f `mod` PAGE_SIZE = 0 ∧ 0 ≤ f < 2 ^ 48.

Definition tentry (m : Mem) (f i : Z) : Z := read64 m (f + 8 * i).

Lemma entry_disjoint f i f' i' : frame_at f → frame_at f' → index_ok i → index_ok i' → (f, i) ≠ (f', i') →
  f + 8 * i + 8 ≤ f' + 8 * i' ∨ f' + 8 * i' + 8 ≤ f + 8 * i.
Proof.
  intros [Hf _] [Hf' _] Hi Hi' Hne. unfold index_ok, PAGE_SIZE in *. destruct (decide (f = f')) as [->|Hff].
  - assert (i ≠ i') by congruence. lia.
  - Z.to_euclidean_division_equations. lia.
Qed.

Lemma tentry_write m f i v f' i' : frame_at f → frame_at f' → index_ok i → index_ok i' → is_u64 v →
  tentry (write64 m (f + 8 * i) v) f' i' = if bool_decide (f = f' ∧ i = i') then v else tentry m f' i'.
Proof.
  intros Hf Hf' Hi Hi' Hv. unfold tentry. case_bool_decide as Hc.
  - destruct Hc as [<- <-]. by apply read64_write64.
  - apply read64_write64_ne. apply or_comm. apply entry_disjoint; try done. intros [= -> ->]. by apply Hc.
Qed.

(** Memory changes within these frames only. *)
Definition within (fs : list Z) (m m' : Mem) : Prop :=
  ∀ b, (∀ f, f ∈ fs → ¬ (f ≤ b < f + PAGE_SIZE)) → m' b = m b.

Lemma within_write fs m m' f i v : within fs m m' → f ∈ fs → index_ok i → within fs m (write64 m' (f + 8 * i) v).
Proof.
  intros Hw Hf Hi b Hb. rewrite <- (Hw b Hb). apply write64_out. specialize (Hb f Hf). unfold index_ok, PAGE_SIZE in *. lia.
Qed.

(** ** Descriptors *)

Lemma block_descriptor_u64 pa bits : is_u64 (block_descriptor pa bits).
Proof.
  assert (Hf : ∀ x k j, 0 ≤ k → 0 ≤ j → k + j ≤ 64 → is_u64 (Z.shiftl (Z.land x (Z.ones k)) j)).
  { intros x k j Hk Hj Hs. rewrite Z.land_ones, Z.shiftl_mul_pow2 by done. pose proof (Z.mod_pos_bound x (2 ^ k) ltac:(lia)).
    assert (2 ^ k * 2 ^ j = 2 ^ (k + j)) by (by rewrite Z.pow_add_r). pose proof (Z.pow_le_mono_r 2 (k + j) 64 ltac:(lia) Hs).
    unfold is_u64. nia. }
  unfold block_descriptor. change 0x7 with (Z.ones 3). change 0x3 with (Z.ones 2).
  repeat apply lor_u64; try (by apply Hf); try (by split); try (by apply land_u64_r);
    by destruct (ng bits), (pxn bits), (uxn bits).
Qed.

(** ** The block loops *)

Lemma block_loop_wp {E} table bits end_idx fs fuel : frame_at table → table ∈ fs → end_idx ≤ 512 →
  ∀ pa idx s, 0 ≤ idx ≤ end_idx → (Z.to_nat (end_idx - idx) < fuel)%nat →
  0 ≤ pa → pa + BLOCK_2MIB * (end_idx - idx) ≤ U64_MAX →
  ∃ m', block_loop (E := E) fuel table bits end_idx pa idx s = Some ({| boot_mem := m'; sys := sys s |}, Ok tt) ∧
    within fs (boot_mem s) m' ∧
    ∀ f i, frame_at f → index_ok i → tentry m' f i =
      if bool_decide (f = table ∧ idx ≤ i < end_idx) then block_descriptor (pa + BLOCK_2MIB * (i - idx)) bits
      else tentry (boot_mem s) f i.
Proof.
  intros Hfr Hin Hend. unfold BLOCK_2MIB. induction fuel as [|fuel IH]; intros pa idx s Hi Hn Hpa Hpa'; [lia|].
  cbn [block_loop]. case_bool_decide as Hlt.
  2:{ exists (boot_mem s). split; [by destruct s|]. split; [done|]. intros f i _ _. by rewrite bool_decide_false by lia. }
  unfold bind at 1, write_entry, modify. unfold add_assign, BLOCK_2MIB. cbn [boot_mem sys].
  rewrite (proj2 (checked_add64_Some pa _ _)) by (split; [done|lia]).
  rewrite (proj2 (checked_add64_Some idx _ _)) by (split; [done|unfold U64_MAX; lia]).
  unfold bind, ret.
  destruct (IH (pa + 2 * 1024 * 1024) (idx + 1) {| boot_mem := write64 (boot_mem s) (table + 8 * idx) (block_descriptor pa bits); sys := sys s |})
    as (m' & Hrun & Hw & Ht); [lia..|].
  cbn [boot_mem sys] in *. exists m'. split; [exact Hrun|]. split.
  - intros b Hb. rewrite (Hw b Hb). apply (within_write fs (boot_mem s)); [done|done|unfold index_ok; lia|done].
  - intros f i Hf Hix. rewrite Ht, tentry_write by (done || apply block_descriptor_u64 || (unfold index_ok in *; lia)).
    repeat case_bool_decide; try lia; try (f_equal; lia); done.
Qed.

(** ** The tables the routines build *)

Definition DEVICE_FLAGS : MappingFlags := flags_union (flags_union DEVICE WRITE) GLOBAL.
Definition RAM_FLAGS : MappingFlags := flags_union (flags_union WRITE EXECUTE) GLOBAL.

Definition table_frames (t : BootTables) : list Z :=
  [boot_pt_l0 t; boot_pt_l1 t; boot_pt_l2_low t; boot_pt_l2_high t; boot_pt_l0_hh t; boot_pt_l1_hh t].

(** What the linker and the start-up code promise: six distinct page-aligned frames,
    zeroed. *)
Record linked (t : BootTables) (m : Mem) : Prop := {
  li_distinct : NoDup (table_frames t);
  li_frames : Forall frame_at (table_frames t);
  li_zero : ∀ f b, f ∈ table_frames t → f ≤ b < f + PAGE_SIZE → m b = 0;
}.

Definition block_at (flags : MappingFlags) (pa : Z) : Z := block_descriptor pa (flags_to_descriptor_bits flags).

(** The second level: nine device blocks, sixty-four blocks of RAM. *)
Record blocks (t : BootTables) (m : Mem) : Prop := {
  bl_low : ∀ i, index_ok i → tentry m (boot_pt_l2_low t) i =
    if bool_decide (64 ≤ i < 73) then block_at DEVICE_FLAGS (BLOCK_2MIB * i) else 0;
  bl_high : ∀ i, index_ok i → tentry m (boot_pt_l2_high t) i =
    if bool_decide (i < 64) then block_at RAM_FLAGS (0x40000000 + BLOCK_2MIB * i) else 0;
}.

(** The upper two levels: entry [i0] of the root, and two neighbours of the next. *)
Record upper (t : BootTables) (m : Mem) (root l1 i0 i1 : Z) : Prop := {
  up_root : ∀ i, index_ok i → tentry m root i = if bool_decide (i = i0) then table_descriptor l1 else 0;
  up_l1 : ∀ i, index_ok i → tentry m l1 i =
    if bool_decide (i = i1) then table_descriptor (boot_pt_l2_low t)
    else if bool_decide (i = i1 + 1) then table_descriptor (boot_pt_l2_high t) else 0;
}.

Lemma linked_frame t m f : linked t m → f ∈ table_frames t → frame_at f.
Proof. intros [_ Hf _]. rewrite Forall_forall in Hf. apply Hf. Qed.

Lemma linked_zero t m f i : linked t m → f ∈ table_frames t → index_ok i → tentry m f i = 0.
Proof.
  intros Hl Hf Hi. apply read64_zero. intros b Hb. apply (li_zero _ _ Hl f); [done|].
  unfold index_ok, PAGE_SIZE in *. lia.
Qed.

(** The frames are pairwise different. *)
Ltac frames_differ Hl Hd :=
  pose proof (li_distinct _ _ Hl) as Hd; unfold table_frames in Hd;
  rewrite !NoDup_cons, !not_elem_of_cons in Hd.

Ltac in_frames := solve [unfold table_frames; repeat first [apply list_elem_of_here | apply list_elem_of_further]].

#[local] Opaque block_at table_descriptor.

(** Decide the guards of an entry: first those that compare frames, then the indices. *)
Ltac frame_guards Hd :=
  repeat match goal with
  | |- context [bool_decide (?a = ?b ∧ ?c)] =>
      rewrite (bool_decide_false (a = b ∧ c)) by (clear -Hd; intros [? _]; destruct_and!; congruence)
  end.
Ltac entry_guards Hd := frame_guards Hd; clear Hd; repeat case_bool_decide; try (exfalso; lia).

Lemma populate_tables_wp {E} t s : linked t (boot_mem s) →
  ∃ m', populate_tables (E := E) t s = Some ({| boot_mem := m'; sys := sys s |}, Ok tt) ∧
    within (table_frames t) (boot_mem s) m' ∧ blocks t m' ∧
    upper t m' (boot_pt_l0 t) (boot_pt_l1 t) 0 0 ∧
    ∀ f i, f ∈ [boot_pt_l0_hh t; boot_pt_l1_hh t] → index_ok i → tentry m' f i = 0.
Proof.
  intros Hl. assert (Hfr : ∀ f, f ∈ table_frames t → frame_at f) by (intros f; by apply (linked_frame _ _ f Hl)).
  frames_differ Hl Hne. unfold populate_tables, write_entry, bind at 1 2 3, modify. cbn [boot_mem sys].
  set (m1 := write64 _ (boot_pt_l0 t + 8 * 0) _). set (m2 := write64 m1 (boot_pt_l1 t + 8 * 0) _).
  set (m3 := write64 m2 (boot_pt_l1 t + 8 * 1) _). cbv zeta. fold DEVICE_FLAGS RAM_FLAGS.
  change (Z.shiftr 0x09200000 21) with 73. change (Z.shiftr 0x08000000 21) with 64. change (ENTRIES_PER_TABLE `div` 8) with 64.
  assert (Hw3 : within (table_frames t) (boot_mem s) m3).
  { repeat apply within_write; [done|..]; try in_frames; by unfold index_ok. }
  unfold bind at 1.
  destruct (block_loop_wp (E := E) (boot_pt_l2_low t) (flags_to_descriptor_bits DEVICE_FLAGS) 73 (table_frames t) 512
    (Hfr (boot_pt_l2_low t) ltac:(in_frames)) ltac:(in_frames) ltac:(lia) 0x08000000 64 {| boot_mem := m3; sys := sys s |})
    as (m4 & Hrun4 & Hw4 & Ht4); [lia|lia|lia|by vm_compute|].
  rewrite Hrun4. cbn [boot_mem sys] in *.
  destruct (block_loop_wp (E := E) (boot_pt_l2_high t) (flags_to_descriptor_bits RAM_FLAGS) 64 (table_frames t) 512
    (Hfr (boot_pt_l2_high t) ltac:(in_frames)) ltac:(in_frames) ltac:(lia) 0x40000000 0 {| boot_mem := m4; sys := sys s |})
    as (m5 & Hrun5 & Hw5 & Ht5); [lia|lia|lia|by vm_compute|].
  rewrite Hrun5. cbn [boot_mem sys] in *.
  assert (He : ∀ f i, f ∈ table_frames t → index_ok i → tentry m5 f i =
    if bool_decide (f = boot_pt_l2_high t ∧ 0 ≤ i < 64) then block_at RAM_FLAGS (0x40000000 + BLOCK_2MIB * (i - 0)) else
    if bool_decide (f = boot_pt_l2_low t ∧ 64 ≤ i < 73) then block_at DEVICE_FLAGS (0x08000000 + BLOCK_2MIB * (i - 64)) else
    if bool_decide (boot_pt_l1 t = f ∧ 1 = i) then table_descriptor (boot_pt_l2_high t) else
    if bool_decide (boot_pt_l1 t = f ∧ 0 = i) then table_descriptor (boot_pt_l2_low t) else
    if bool_decide (boot_pt_l0 t = f ∧ 0 = i) then table_descriptor (boot_pt_l1 t) else 0).
  { intros f i Hf Hi. rewrite Ht5, Ht4 by first [assumption | apply Hfr; assumption]. unfold m3, m2, m1.
    rewrite !tentry_write by first [assumption | apply table_descriptor_u64 | apply Hfr; first [assumption|in_frames] | unfold index_ok; clear; lia].
    by rewrite (linked_zero _ _ _ _ Hl Hf Hi). }
  clear Ht4 Ht5. exists m5. split; [done|]. split; [|split; [|split]].
  - intros b Hb. by rewrite (Hw5 b Hb), (Hw4 b Hb), (Hw3 b Hb).
  - split; intros i Hi; rewrite He by first [assumption | in_frames]; unfold index_ok in *; entry_guards Hne;
      first [done | f_equal; unfold BLOCK_2MIB; lia].
  - split; intros i Hi; rewrite He by first [assumption | in_frames]; entry_guards Hne; done.
  - intros f i Hf Hi. rewrite !elem_of_cons, elem_of_nil in Hf.
    destruct Hf as [->|[->|[]]]; rewrite He by first [assumption | in_frames]; entry_guards Hne; done.
Qed.

Lemma high_half_wp {E} t m0 s : linked t m0 → blocks t (boot_mem s) → upper t (boot_mem s) (boot_pt_l0 t) (boot_pt_l1 t) 0 0 →
  (∀ f i, f ∈ [boot_pt_l0_hh t; boot_pt_l1_hh t] → index_ok i → tentry (boot_mem s) f i = 0) →
  ∃ m', high_half_activate (E := E) t s = Some ({| boot_mem := m'; sys :=
      {| mair_el1 := mair_el1 (sys s); tcr_el1 := TCR_EL1_VALUE_HIGH_HALF; ttbr0_el1 := ttbr0_el1 (sys s);
         ttbr1_el1 := boot_pt_l0_hh t; sctlr_el1 := sctlr_el1 (sys s) |} |}, Ok tt) ∧
    within (table_frames t) (boot_mem s) m' ∧ blocks t m' ∧
    upper t m' (boot_pt_l0 t) (boot_pt_l1 t) 0 0 ∧ upper t m' (boot_pt_l0_hh t) (boot_pt_l1_hh t) 511 508.
Proof.
  intros Hl [Hb1 Hb2] [Hu1 Hu2] Hz. assert (Hfr : ∀ f, f ∈ table_frames t → frame_at f) by (intros f; by apply (linked_frame _ _ f Hl)).
  frames_differ Hl Hne. unfold high_half_activate.
  set (m1 := write64 (boot_mem s) (boot_pt_l0_hh t + 8 * 511) (table_descriptor (boot_pt_l1_hh t))).
  set (m2 := write64 m1 (boot_pt_l1_hh t + 8 * 508) (table_descriptor (boot_pt_l2_low t))).
  set (m3 := write64 m2 (boot_pt_l1_hh t + 8 * 509) (table_descriptor (boot_pt_l2_high t))).
  exists m3. split; [done|].
  assert (He : ∀ f i, f ∈ table_frames t → index_ok i → tentry m3 f i =
    if bool_decide (boot_pt_l1_hh t = f ∧ 509 = i) then table_descriptor (boot_pt_l2_high t) else
    if bool_decide (boot_pt_l1_hh t = f ∧ 508 = i) then table_descriptor (boot_pt_l2_low t) else
    if bool_decide (boot_pt_l0_hh t = f ∧ 511 = i) then table_descriptor (boot_pt_l1_hh t) else tentry (boot_mem s) f i).
  { intros f i Hf Hi. unfold m3, m2, m1.
    by rewrite !tentry_write by first [assumption | apply table_descriptor_u64 | apply Hfr; first [assumption|in_frames] | unfold index_ok; clear; lia]. }
  split; [|split; [|split]].
  - repeat apply within_write; try in_frames; by unfold index_ok.
  - split; intros i Hi; rewrite He by first [assumption|in_frames]; frame_guards Hne; auto.
  - split; intros i Hi; rewrite He by first [assumption|in_frames]; frame_guards Hne; auto.
  - split; intros i Hi; rewrite He by first [assumption|in_frames]; entry_guards Hne; try done;
      apply Hz; try assumption; repeat first [apply list_elem_of_here|apply list_elem_of_further].
Qed.

#[local] Transparent block_at table_descriptor.

(** ** Reading a regime off the tables *)

(** What the boot maps at a physical address. *)
Definition boot_window (pa : Z) : option MappingFlags :=
  if bool_decide (0x08000000 ≤ pa < 0x09200000) then Some DEVICE_FLAGS
  else if bool_decide (0x40000000 ≤ pa < 0x48000000) then Some RAM_FLAGS else None.

(** The window at virtual offset [base]. *)
Definition window_at (base va : Z) : option (Z * MappingFlags) :=
  (λ flags, (va - base, flags)) <$> boot_window (va - base).

Lemma block_at_fields flags pa : flags = DEVICE_FLAGS ∨ flags = RAM_FLAGS →
  0 ≤ pa < 2 ^ 48 → pa `mod` 2 ^ 21 = 0 → let d := block_at flags pa in
  is_valid d = true ∧ is_table d = false ∧ ∀ va, hw_leaf d 21 va = Some (pa + va `mod` 2 ^ 21, flags).
Proof.
  intros Hf Hr Hm d. unfold d, block_at. rewrite block_descriptor_split. unfold hw_leaf, is_valid, is_table, is_accessed.
  rewrite !land_split by done. change (Z.shiftl (Z.ones (48 - 21)) 21) with BLOCK_OA_MASK_L2.
  rewrite address_split, decode_split, block_mask_aligned by (by right || by destruct Hf as [->| ->]).
  by destruct Hf as [-> | ->].
Qed.

Lemma is_valid_0 : is_valid 0 = false.
Proof. done. Qed.

Lemma boot_window_None pa : ¬ (0x08000000 ≤ pa < 0x09200000) → ¬ (0x40000000 ≤ pa < 0x48000000) → boot_window pa = None.
Proof. intros H1 H2. unfold boot_window. by rewrite !bool_decide_false. Qed.

(** A walk into a second-level table. *)
Lemma hw_walk_l2 m root l1 l2 va : frame_at l1 → frame_at l2 →
  tentry m root (va_index va 39) = table_descriptor l1 → tentry m l1 (va_index va 30) = table_descriptor l2 →
  hw_walk m root va =
    let d := tentry m l2 (va_index va 21) in
    if negb (is_valid d) then None else if negb (is_table d) then hw_leaf d 21 va else
    let d3 := read64 m (Z.land d TABLE_NLA_MASK + 8 * va_index va 12) in
    if is_valid d3 && is_table d3 then hw_leaf d3 12 va else None.
Proof.
  intros [Hm1 Hr1] [Hm2 Hr2] H0 H1. unfold hw_walk, tentry in *.
  destruct (table_descriptor_fields l1 Hr1 Hm1) as (Hv1 & Ht1 & Ha1).
  destruct (table_descriptor_fields l2 Hr2 Hm2) as (Hv2 & Ht2 & Ha2).
  rewrite H0, Hv1, Ht1, Ha1. cbn [negb andb]. by rewrite H1, Hv2, Ht2, Ha2.
Qed.

(** The walk depends on the low 48 bits, and finds the two windows. *)
Lemma hw_walk_window t m0 m root l1 i0 i1 va : linked t m0 → root ∈ table_frames t → l1 ∈ table_frames t →
  blocks t m → upper t m root l1 i0 i1 → index_ok i0 → 0 ≤ i1 < 511 →
  hw_walk m root va = window_at (i0 * 2 ^ 39 + i1 * 2 ^ 30) (va `mod` 2 ^ 48).
Proof.
  intros Hl Hroot Hl1 [Hb1 Hb2] [Hu1 Hu2] Hi0 Hi1.
  assert (Hfr : ∀ f, f ∈ table_frames t → frame_at f) by (intros f; by apply (linked_frame _ _ f Hl)).
  pose proof (va_index_ok va 39 ltac:(done)) as Hx0. pose proof (va_index_ok va 30 ltac:(done)) as Hx1.
  pose proof (va_index_ok va 21 ltac:(done)) as Hx2.
  specialize (Hu1 _ Hx0). specialize (Hu2 _ Hx1). specialize (Hb1 _ Hx2). specialize (Hb2 _ Hx2).
  assert (Hy : ∃ r, va `mod` 2 ^ 48 = va_index va 39 * 2 ^ 39 + va_index va 30 * 2 ^ 30 + va_index va 21 * 2 ^ 21 + r
                    ∧ r = va `mod` 2 ^ 21 ∧ 0 ≤ r < 2 ^ 21).
  { exists (va `mod` 2 ^ 21). rewrite !va_index_eq by done. split; [|split; [done|by apply Z.mod_pos_bound]].
    Z.to_euclidean_division_equations; lia. }
  destruct Hy as (r & Hy & Hr & Hrr). unfold window_at. rewrite Hy. unfold index_ok, BLOCK_2MIB in *.
  assert (Hleaf : ∀ l2 d, l2 ∈ table_frames t → tentry m root (va_index va 39) = table_descriptor l1 →
    tentry m l1 (va_index va 30) = table_descriptor l2 → tentry m l2 (va_index va 21) = d →
    hw_walk m root va = if is_valid d then if is_table d then hw_walk m root va else hw_leaf d 21 va else None).
  { intros l2 d H2 He0 He1 He2. rewrite (hw_walk_l2 m root l1 l2 va) by (done || by apply Hfr). cbv zeta. rewrite He2.
    by destruct (is_valid d), (is_table d). }
  destruct (decide (va_index va 39 = i0)) as [H0|H0]; [rewrite bool_decide_true in Hu1 by done|rewrite bool_decide_false in Hu1 by done].
  2:{ unfold hw_walk. cbv zeta. change (read64 m (root + 8 * va_index va 39)) with (tentry m root (va_index va 39)).
      rewrite Hu1, is_valid_0, boot_window_None by lia. done. }
  destruct (decide (va_index va 30 = i1)) as [H1|H1]; [|destruct (decide (va_index va 30 = i1 + 1)) as [H1'|H1']];
    [rewrite bool_decide_true in Hu2 by done|rewrite bool_decide_false, bool_decide_true in Hu2 by done
    |rewrite !bool_decide_false in Hu2 by done].
  - destruct (decide (64 ≤ va_index va 21 < 73)) as [Hd|Hd];
      [rewrite bool_decide_true in Hb1 by done|rewrite bool_decide_false in Hb1 by done].
    + destruct (block_at_fields DEVICE_FLAGS (2 * 1024 * 1024 * va_index va 21)) as (Hv & Ht & Hlf);
        [by left|lia|by rewrite (Z.mul_comm _ (va_index va 21)), Z.mod_mul|].
      rewrite (Hleaf (boot_pt_l2_low t) _ ltac:(in_frames) Hu1 Hu2 Hb1), Hv, Ht, Hlf, <- Hr.
      unfold boot_window. rewrite bool_decide_true by lia. cbn [fmap option_fmap option_map]. do 2 f_equal. lia.
    + rewrite (Hleaf (boot_pt_l2_low t) _ ltac:(in_frames) Hu1 Hu2 Hb1), is_valid_0, boot_window_None by lia. done.
  - destruct (decide (va_index va 21 < 64)) as [Hd|Hd];
      [rewrite bool_decide_true in Hb2 by done|rewrite bool_decide_false in Hb2 by done].
    + destruct (block_at_fields RAM_FLAGS (0x40000000 + 2 * 1024 * 1024 * va_index va 21)) as (Hv & Ht & Hlf);
        [by right|lia|rewrite (Z.mul_comm _ (va_index va 21)), Z.mod_add by done; done|].
      rewrite (Hleaf (boot_pt_l2_high t) _ ltac:(in_frames) Hu1 Hu2 Hb2), Hv, Ht, Hlf, <- Hr.
      unfold boot_window. rewrite bool_decide_false, bool_decide_true by lia. cbn [fmap option_fmap option_map]. do 2 f_equal. lia.
    + rewrite (Hleaf (boot_pt_l2_high t) _ ltac:(in_frames) Hu1 Hu2 Hb2), is_valid_0, boot_window_None by lia. done.
  - unfold hw_walk. cbv zeta. change (read64 m (root + 8 * va_index va 39)) with (tentry m root (va_index va 39)).
    destruct (Hfr l1 Hl1) as [Hm1 Hr1]. destruct (table_descriptor_fields l1 Hr1 Hm1) as (Hv1 & Ht1 & Ha1).
    rewrite Hu1, Hv1, Ht1, Ha1. cbn [negb andb].
    change (read64 m (l1 + 8 * va_index va 30)) with (tentry m l1 (va_index va 30)). rewrite Hu2, is_valid_0, boot_window_None by lia. done.
Qed.

(** ** The two regimes *)

Lemma stage1_low r m va : half_enabled (tcr_el1 r) 0 7 14 0 = true → va < 2 ^ 48 →
  stage1 r m va = hw_walk m (ttbr0_el1 r) va.
Proof. intros He Hva. unfold stage1. by rewrite bool_decide_true, He. Qed.

Lemma stage1_high r m va : 2 ^ 48 ≤ va →
  stage1 r m va = if bool_decide (2 ^ 64 - 2 ^ 48 ≤ va) && half_enabled (tcr_el1 r) 16 23 30 2
                  then hw_walk m (ttbr1_el1 r) va else None.
Proof. intros Hva. unfold stage1. rewrite bool_decide_false by lia. by case_bool_decide. Qed.

(** The window at the direct-map offset, seen from the top half. *)
Lemma window_high va : 2 ^ 48 ≤ va < 2 ^ 64 →
  (if bool_decide (2 ^ 64 - 2 ^ 48 ≤ va) then window_at (511 * 2 ^ 39 + 508 * 2 ^ 30) (va `mod` 2 ^ 48) else None)
  = window_at KERNEL_HIGH_HALF_OFFSET va.
Proof.
  intros Hva. unfold window_at, KERNEL_HIGH_HALF_OFFSET. case_bool_decide as Hh.
  - replace (va `mod` 2 ^ 48) with (va - (2 ^ 64 - 2 ^ 48)) by (Z.to_euclidean_division_equations; lia).
    by replace (va - (2 ^ 64 - 2 ^ 48) - (511 * 2 ^ 39 + 508 * 2 ^ 30)) with (va - 0xFFFFFFFF00000000) by lia.
  - by rewrite boot_window_None by lia.
Qed.

Lemma boot_window_range pa flags : boot_window pa = Some flags →
  0 ≤ pa < 0x48000000 ∧ flags_contains flags USER = false.
Proof. unfold boot_window. repeat case_bool_decide; intros [= <-]; (split; [lia|done]). Qed.

(** The boot's translations. *)
Lemma boot_regime {E} t s : linked t (boot_mem s) →
  ∃ s1 s2, mmu_bootstrap (E := E) t s = Some (s1, Ok tt) ∧ high_half_activate (E := E) t s1 = Some (s2, Ok tt) ∧
    within (table_frames t) (boot_mem s) (boot_mem s2) ∧
    sctlr_el1 (sys s2) = Z.lor (sctlr_el1 (sys s)) SCTLR_EL1_MMU_ENABLE_MASK ∧
    (∀ va, is_u64 va → stage1 (sys s1) (boot_mem s1) va = if bool_decide (va < 2 ^ 48) then window_at 0 va else None) ∧
    (∀ va, is_u64 va → stage1 (sys s2) (boot_mem s2) va =
       if bool_decide (va < 2 ^ 48) then window_at 0 va else window_at KERNEL_HIGH_HALF_OFFSET va) ∧
    (∀ pa flags, boot_window pa = Some flags →
       flags_contains flags USER = false ∧
       ∃ va, phys_to_kernel_va pa = Some va ∧ stage1 (sys s2) (boot_mem s2) va = Some (pa, flags)).
Proof.
  intros Hl. destruct (populate_tables_wp (E := E) t s Hl) as (m1 & Hrun1 & Hw1 & Hb1 & Hu1 & Hz1).
  set (s1 := {| boot_mem := m1; sys := {| mair_el1 := MAIR_EL1_VALUE; tcr_el1 := TCR_EL1_VALUE; ttbr0_el1 := boot_pt_l0 t;
    ttbr1_el1 := 0; sctlr_el1 := Z.lor (sctlr_el1 (sys s)) SCTLR_EL1_MMU_ENABLE_MASK |} |}).
  destruct (high_half_wp (E := E) t (boot_mem s) s1 Hl Hb1 Hu1 Hz1) as (m2 & Hrun2 & Hw2 & Hb2 & Hu2 & Hh2).
  exists s1. eexists. split; [unfold mmu_bootstrap, bind; by rewrite Hrun1|]. split; [exact Hrun2|].
  assert (Hlow : ∀ m va, blocks t m → upper t m (boot_pt_l0 t) (boot_pt_l1 t) 0 0 → 0 ≤ va < 2 ^ 48 →
    hw_walk m (boot_pt_l0 t) va = window_at 0 va).
  { intros m va Hb Hu Hva. rewrite (hw_walk_window t (boot_mem s) m (boot_pt_l0 t) (boot_pt_l1 t) 0 0 va Hl ltac:(in_frames) ltac:(in_frames) Hb Hu) by (by try split).
    by rewrite Z.mod_small. }
  assert (Hall : ∀ va, is_u64 va → stage1 {| mair_el1 := MAIR_EL1_VALUE; tcr_el1 := TCR_EL1_VALUE_HIGH_HALF;
      ttbr0_el1 := boot_pt_l0 t; ttbr1_el1 := boot_pt_l0_hh t; sctlr_el1 := Z.lor (sctlr_el1 (sys s)) SCTLR_EL1_MMU_ENABLE_MASK |} m2 va
    = if bool_decide (va < 2 ^ 48) then window_at 0 va else window_at KERNEL_HIGH_HALF_OFFSET va).
  { intros va [Hva1 Hva2]. case_bool_decide as Hv.
    - rewrite stage1_low by done. apply Hlow; [assumption..|by split].
    - rewrite stage1_high by lia. change (half_enabled _ _ _ _ _) with true. rewrite andb_true_r, <- window_high by lia.
      case_bool_decide; [|done]. apply (hw_walk_window t (boot_mem s) m2 (boot_pt_l0_hh t) (boot_pt_l1_hh t) 511 508 va Hl ltac:(in_frames) ltac:(in_frames) Hb2 Hh2); by split. }
  split; [intros b Hb; cbn [boot_mem]; rewrite (Hw2 b Hb); apply (Hw1 b Hb)|]. split; [done|]. split; [|split; [exact Hall|]].
  - intros va [Hva1 Hva2]. case_bool_decide as Hv.
    + rewrite stage1_low by done. apply Hlow; [assumption..|by split].
    + rewrite stage1_high by lia. change (half_enabled _ _ _ _ _) with false. by rewrite andb_false_r.
  - intros pa flags Hpa. pose proof (boot_window_range pa flags Hpa) as [Hr Hu]. split; [exact Hu|].
    exists (KERNEL_HIGH_HALF_OFFSET + pa). split; [apply phys_to_kernel_va_Some; lia|].
    cbn [sys boot_mem]. rewrite Hall by (unfold is_u64, KERNEL_HIGH_HALF_OFFSET; lia).
    rewrite bool_decide_false by (unfold KERNEL_HIGH_HALF_OFFSET; lia). unfold window_at.
    replace (KERNEL_HIGH_HALF_OFFSET + pa - KERNEL_HIGH_HALF_OFFSET) with pa by lia. by rewrite Hpa.
Qed.

(** C19: the boot maps exactly what it says.  From six distinct zeroed page frames, in
    any state of the system registers, [mmu_bootstrap] and then [high_half_activate]
    return, no frame but the six is written, and the MMU and the caches are on with the
    other control bits kept.  Between the two, the processor translates the device
    window (0x08000000 to 0x09200000, never executable) and the RAM window (0x40000000
    to 0x48000000), each address to itself, and no other 64-bit address at all.  After
    both it translates these and, at the direct-map offset, the same windows again, so
    that every address [phys_to_kernel_va] makes from the windows reaches its physical
    address; nothing is open to user code. *)
Theorem boot_regime_is_exact {E} t s : linked t (boot_mem s) →
  ∃ s1 s2, mmu_bootstrap (E := E) t s = Some (s1, Ok tt) ∧ high_half_activate (E := E) t s1 = Some (s2, Ok tt) ∧
    within (table_frames t) (boot_mem s) (boot_mem s2) ∧
    sctlr_el1 (sys s2) = Z.lor (sctlr_el1 (sys s)) SCTLR_EL1_MMU_ENABLE_MASK ∧
    (∀ va, is_u64 va → stage1 (sys s1) (boot_mem s1) va = if bool_decide (va < 2 ^ 48) then window_at 0 va else None) ∧
    (∀ va, is_u64 va → stage1 (sys s2) (boot_mem s2) va =
       if bool_decide (va < 2 ^ 48) then window_at 0 va else window_at KERNEL_HIGH_HALF_OFFSET va) ∧
    (∀ pa flags, boot_window pa = Some flags →
       flags_contains flags USER = false ∧
       ∃ va, phys_to_kernel_va pa = Some va ∧ stage1 (sys s2) (boot_mem s2) va = Some (pa, flags)).
Proof. apply boot_regime. Qed.

(** The board's frames, in RAM behind the image, and registers out of reset. *)
Definition sample_boot_tables : BootTables :=
  {| boot_pt_l0 := 0x400A0000; boot_pt_l1 := 0x400A1000; boot_pt_l2_low := 0x400A2000; boot_pt_l2_high := 0x400A3000;
     boot_pt_l0_hh := 0x400A4000; boot_pt_l1_hh := 0x400A5000 |}.
Definition sample_boot_state : BootState :=
  {| boot_mem := λ _, 0; sys := {| mair_el1 := 0; tcr_el1 := 0; ttbr0_el1 := 0; ttbr1_el1 := 0; sctlr_el1 := 0x30D00800 |} |}.

(** After the boot the UART's register at its high address is its device memory. *)
Lemma boot_regime_is_exact_witness :
  ∃ s1 s2, mmu_bootstrap (E := unit) sample_boot_tables sample_boot_state = Some (s1, Ok tt) ∧
    high_half_activate (E := unit) sample_boot_tables s1 = Some (s2, Ok tt) ∧
    stage1 (sys s2) (boot_mem s2) 0xFFFFFFFF09000018 = Some (0x09000018, DEVICE_FLAGS) ∧
    stage1 (sys s1) (boot_mem s1) 0xFFFFFFFF09000018 = None.
Proof.
  destruct (boot_regime_is_exact (E := unit) sample_boot_tables sample_boot_state) as (s1 & s2 & H1 & H2 & _ & _ & Hlow & Hall & _).
  - split; [by apply (bool_decide_unpack _); vm_compute| |done].
    unfold table_frames. repeat (apply Forall_cons; split; [by split|]). by apply Forall_nil.
  - exists s1, s2. split; [exact H1|]. split; [exact H2|].
    rewrite Hall, Hlow by (unfold is_u64; lia). split; reflexivity.
Defined.
