(* ===== verification/AddressSpace.v ===== *)
(** * Address spaces and their capability gates (kernel/src/mm/address_space.rs)

The address-space arena and the capability-gated operations.  The kernel is
generic in the MMU, which is the class [Mmu]; [QemuVirtMmu] is its instance.  The
state of an operation is everything it is passed by reference; the TLB
invalidations issued are recorded in [flushed]. *)

From S2P Require Import Prelude.
From S2P Require Import Hal.
From S2P Require Import Arena.
From S2P Require Import Objects.
From S2P Require Import Caps.
From S2P Require Import CapTable.
From S2P Require Import Ipc.
From S2P Require Import SyscallError.
From S2P Require Import UserAccess.
From S2P Require Import QemuMmu.

Definition ADDRESS_SPACE_ARENA_CAPACITY : nat := 8.

(** [tyrne_hal::Mmu], as far as the kernel core uses it; the address space is a
    [&mut] argument. *)
Class Mmu (AS : Type) := {
  mmu_create_address_space : PhysFrame → AS;
  mmu_address_space_root : AS → PhysFrame;
  mmu_map F `{FrameProvider F} : VirtAddr → PhysFrame → MappingFlags → M (AS * MmuState F) MmuError VirtAddr;
  mmu_unmap : VirtAddr → M (AS * Mem) MmuError (VirtAddr * PhysFrame);
}.

#[export] Instance QemuVirtMmu `{Build} : Mmu QemuVirtAddressSpace := {
  mmu_create_address_space := create_address_space;
  mmu_address_space_root := address_space_root;
  mmu_map F _ va pa flags := λ s, zoom snd (λ m s, (s.1, m)) (map s.1 va pa flags) s;
  mmu_unmap va := λ s, zoom snd (λ m s, (s.1, m)) (unmap s.1 va) s;
}.

Record AddressSpace (AS : Type) := { inner : AS }.
Arguments inner {AS} _.

Definition wrap_bootstrap {AS} (inner : AS) : AddressSpace AS := {| inner := inner |}.
Definition from_mmu_address_space {AS} (inner : AS) : AddressSpace AS := {| inner := inner |}.
Definition root_frame `{Mmu AS} (as_ : AddressSpace AS) : PhysFrame := mmu_address_space_root (inner as_).

Notation AddressSpaceArena AS := (Arena (AddressSpace AS)).

Inductive AddressSpaceError :=
| AsArenaFull
| AsStaleHandle
| AsOutOfFrames
| AsCapError (e : CapError)
| MmuMapError (e : MmuError)
| MmuUnmapError (e : MmuError).

#[export] Instance AddressSpaceError_eq_dec : EqDecision AddressSpaceError.
Proof. solve_decision. Defined.

(** The borrows of a call. *)
Record MmState (AS F : Type) := {
  table : CapabilityTable;
  as_arena : AddressSpaceArena AS;
  provider : F;
  memory : Mem;
  flushed : list VirtAddr;
}.
Arguments table {AS F} _.
Arguments as_arena {AS F} _.
Arguments provider {AS F} _.
Arguments memory {AS F} _.
Arguments flushed {AS F} _.

Section spaces.
  Context `{Build} `{Mmu AS} {F : Type}.
  Implicit Types (s : MmState AS F).

Definition set_table (t : CapabilityTable) s : MmState AS F :=
  {| table := t; as_arena := as_arena s; provider := provider s; memory := memory s; flushed := flushed s |}.
Definition set_arena (a : AddressSpaceArena AS) s : MmState AS F :=
  {| table := table s; as_arena := a; provider := provider s; memory := memory s; flushed := flushed s |}.
Definition set_phys (f : F) (m : Mem) s : MmState AS F :=
  {| table := table s; as_arena := as_arena s; provider := f; memory := m; flushed := flushed s |}.

(** [MapperFlush::flush] *)
Definition flush {E} (va : VirtAddr) : M (MmState AS F) E unit :=
  modify (λ s, {| table := table s; as_arena := as_arena s; provider := provider s;
                  memory := memory s; flushed := va :: flushed s |}).

Definition create_address_space (address_space : AddressSpace AS)
  : M (AddressSpaceArena AS) AddressSpaceError AddressSpaceHandle :=
  or_err (map_ok AddressSpaceHandle_from_slot (allocate address_space)) AsArenaFull.

Definition destroy_address_space (handle : AddressSpaceHandle)
  : M (AddressSpaceArena AS) AddressSpaceError (AddressSpace AS) :=
  or_err (free (address_space_slot handle)) AsStaleHandle.

Definition get_address_space (arena : AddressSpaceArena AS) (handle : AddressSpaceHandle)
  : option (AddressSpace AS) := get arena (address_space_slot handle).

(** What the hardware is told, if anything; a stale handle is a [debug_assert!]. *)
Definition activate_address_space_handle {E} (arena : AddressSpaceArena AS) (handle : AddressSpaceHandle)
  : P E (option AS) :=
  match get_address_space arena handle with
  | Some as_ => pret (Some (inner as_))
  | None => let? _ := pdebug_assert false in pret None
  end.

(** A mutable borrow of the address space, used by [op]: what it leaves is written
    back in place. *)
Definition on_space {A} (handle : AddressSpaceHandle) (wrap : MmuError → AddressSpaceError)
    (op : M (AS * MmuState F) MmuError A) : M (MmState AS F) AddressSpaceError A := λ s,
  match get_address_space (as_arena s) handle with
  | None => Some (s, Err AsStaleHandle)
  | Some as_ =>
      match op (inner as_, {| frames := provider s; mem := memory s |}) with
      | None => None
      | Some ((as', st), r) =>
          match get_mut (address_space_slot handle) (λ _, ({| inner := as' |}, tt)) (as_arena s) with
          | Some (a, Ok _) => Some (set_arena a (set_phys (frames st) (mem st) s), res_map_err wrap r)
          | _ => None
          end
      end
  end.

Definition resolve_address_space_cap (t : CapabilityTable) (cap_handle : CapHandle)
  : P AddressSpaceError AddressSpaceHandle :=
  let? cap := pmap_err AsCapError (lookup t cap_handle) in
  match object cap with
  | OAddressSpace h => pret h
  | _ => perr (AsCapError WrongKind)
  end.

Definition cap_create_address_space `{FrameProvider F} (parent_cap_handle : CapHandle) (new_rights : CapRights)
  : M (MmState AS F) AddressSpaceError CapHandle :=
  let* parent_cap := reads (λ s, pmap_err AsCapError (lookup (table s) parent_cap_handle)) in
  if negb (bool_decide (cap_kind parent_cap = KAddressSpace)) then throw (AsCapError WrongKind) else
  if negb (contains (rights parent_cap) DERIVE) then throw (AsCapError InsufficientRights) else
  if negb (contains (rights parent_cap) new_rights) then throw (AsCapError WidenedRights) else
  let* parent_depth := reads (λ s, pmap_err AsCapError (depth_of (table s) parent_cap_handle)) in
  if bool_decide (MAX_DERIVATION_DEPTH < saturating_add64 parent_depth 1)%Z
  then throw (AsCapError DerivationTooDeep) else
  let* arena_full := gets (λ s, Arena.is_full (as_arena s)) in
  if arena_full : bool then throw AsArenaFull else
  let* table_full := gets (λ s, is_full (table s)) in
  if table_full : bool then throw (AsCapError CapsExhausted) else
  let* root := λ s,
    match provide_frame (provider s) (memory s) with
    | None => None
    | Some (f, m, None) => Some (set_phys f m s, Err AsOutOfFrames)
    | Some (f, m, Some root) => Some (set_phys f m s, Ok root)
    end in
  let inner := mmu_create_address_space root in
  let* handle := zoom as_arena set_arena (create_address_space (from_mmu_address_space inner)) in
  let* r := attempt (zoom table set_table (cap_derive parent_cap_handle new_rights (OAddressSpace handle))) in
  match r with
  | Ok cap_handle => ret cap_handle
  | Err e =>
      let* _ := attempt (E := AddressSpaceError) (zoom as_arena set_arena (destroy_address_space handle)) in
      throw (AsCapError e)
  end.

Definition cap_map `{FrameProvider F} (cap_handle : CapHandle) (va : VirtAddr) (pa : PhysFrame)
    (flags : MappingFlags) : M (MmState AS F) AddressSpaceError unit :=
  let* handle := reads (λ s, resolve_address_space_cap (table s) cap_handle) in
  let* token := on_space handle MmuMapError (mmu_map F va pa flags) in
  flush token.

Definition cap_unmap (cap_handle : CapHandle) (va : VirtAddr) : M (MmState AS F) AddressSpaceError PhysFrame :=
  let* handle := reads (λ s, resolve_address_space_cap (table s) cap_handle) in
  let* r := on_space handle MmuUnmapError
    (zoom (λ b, (b.1, mem b.2)) (λ p b, (p.1, {| frames := frames b.2; mem := p.2 |})) (mmu_unmap va)) in
  let* _ := flush r.1 in
  ret r.2.
End spaces.
