(* ===== verification/AddressSpaceProps.v ===== *)
(** * Properties of the address-space gates

Creation is all or nothing and delegates at most the parent's rights; mapping and
unmapping need an address-space capability and touch that address space only. *)

From stdpp Require Import gmap.
From S2P Require Import Prelude.
From S2P Require Import Hal.
From S2P Require Import Arena.
From S2P Require Import Objects.
From S2P Require Import Caps.
From S2P Require Import CapTable.
From S2P Require Import CapTableInv.
From S2P Require Import CapTableOps.
From S2P Require Import CapRevoke.
From S2P Require Import CapSpec.
From S2P Require Import CapProps.
From S2P Require Import Ipc.
From S2P Require Import SyscallError.
From S2P Require Import UserAccess.
From S2P Require Import Pmm.
From S2P Require Import PmmInv.
From S2P Require Import PmmProps.
From S2P Require Import Vmsav8.
From S2P Require Import Words.
From S2P Require Import QemuMmu.
From S2P Require Import QemuMmuInv.
From S2P Require Import QemuMmuOps.
From S2P Require Import QemuMmuProps.
From S2P Require Import AddressSpace.

Section creation.
  Context `{Build} `{Mmu AS} `{FrameProviderSpec F}.
  Implicit Types (s : MmState AS F).

(** A state the kernel keeps: table and arena well formed, no frame of [used] free. *)
Record mm_ok s (used : gset Z) : Prop := {
  mo_table : CapTableInv.WF (table s);
  mo_arena : Arena.WF ADDRESS_SPACE_ARENA_CAPACITY (as_arena s);
  mo_frames : fp_inv (provider s) used;
}.

(** The new address space [hd] on frame [rt], named by the new capability [h]. *)
Record created s s' (used : gset Z) (parent : CapHandle) (nr : CapRights) (h : CapHandle)
    (hd : AddressSpaceHandle) (rt : PhysFrame) : Prop := {
  cr_frame : provide_frame (provider s) (memory s) = Some (provider s', memory s', Some rt);
  cr_fresh : get_address_space (as_arena s) hd = None;
  cr_space : get_address_space (as_arena s') hd = Some {| inner := mmu_create_address_space rt |};
  cr_others : ∀ hd', hd' ≠ hd → get_address_space (as_arena s') hd' = get_address_space (as_arena s) hd';
  cr_ok : mm_ok s' ({[frame_addr rt]} ∪ used);
  cr_table : ∃ m', astep (live (table s)) (Derive parent nr (OAddressSpace hd)) m' (Ok (RHandle h)) ∧
    ∀ h', live (table s') h' = m' h';
  cr_flushed : flushed s' = flushed s;
}.

Definition create_refused s (parent : CapHandle) (nr : CapRights) (e : AddressSpaceError) : Prop :=
  match e with
  | AsArenaFull => Arena.is_full (as_arena s) = true
  | AsOutOfFrames => fp_free (provider s) = 0
  | AsCapError WrongKind => ∃ n, live (table s) parent = Some n ∧ cap_kind (an_cap n) ≠ KAddressSpace
  | AsCapError x => ∃ o, refuses (live (table s)) (Derive parent nr o) x
  | _ => False
  end.

(** A derivation whose preflights passed succeeds. *)
Lemma derive_succeeds t parent nr o e : CapTableInv.WF t → named t parent = Some e →
  contains (rights (capability e)) DERIVE = true → contains (rights (capability e)) nr = true →
  (depth e < MAX_DERIVATION_DEPTH)%Z → is_full t = false →
  ∃ t' h, cap_derive parent nr o t = Some (t', Ok h) ∧ CapTableInv.WF t' ∧
    ∃ m', astep (live t) (Derive parent nr o) m' (Ok (RHandle h)) ∧ ∀ h', live t' h' = m' h'.
Proof.
  intros Hwf He Hd Hn Hdep Hf.
  destruct (proj1 (wp_run _ _ _) (cap_derive_wp t parent nr o Hwf)) as (t' & r & Hrun & Hr).
  destruct (proj1 (wp_run _ _ _) (refine_derive t Hwf parent nr o)) as (t2 & r2 & Hrun2 & Hwf' & Hst).
  unfold run_op, bind in Hrun2. rewrite Hrun in Hrun2. destruct r as [h|x].
  { cbn [ret] in Hrun2. injection Hrun2 as <- <-. by exists t', h. }
  exfalso. destruct Hr as [_ Hx]. destruct x; try done.
  - destruct Hx as (e' & He' & _ & _ & _ & Hf'). congruence.
  - congruence.
  - destruct Hx as (e' & He' & _ & Hn'). congruence.
  - destruct Hx as (e' & He' & Hd'). congruence.
  - destruct Hx as (e' & He' & _ & _ & Hdep'). assert (e' = e) as -> by congruence. lia.
Qed.

Lemma cap_create_wp s used parent nr : mm_ok s used →
  wp (cap_create_address_space parent nr) s (λ s' r,
    match r with
    | Err e => s' = s ∧ create_refused s parent nr e
    | Ok h => ∃ hd rt, created s s' used parent nr h hd rt
    end).
Proof.
  intros [Ht Ha Hf]. unfold cap_create_address_space. wp_bind.
  eapply wp_reads; [by rewrite lookup_eq|]. destruct (named (table s) parent) as [e|] eqn:He; cbn [res_map_err].
  2:{ split; [done|]. exists ODebugConsole. by apply live_None. }
  pose proof (named_live _ _ _ He) as Hl.
  case_bool_decide as Hk; cbn [negb]; [|split; [done|]; by exists (node_of (table s) e)].
  destruct (contains (rights (capability e)) DERIVE) eqn:Hd; cbn [negb].
  2:{ split; [done|]. exists ODebugConsole. exists (node_of (table s) e). split; [done|]. by apply contains_false. }
  destruct (contains (rights (capability e)) nr) eqn:Hn; cbn [negb].
  2:{ split; [done|]. exists ODebugConsole. exists (node_of (table s) e). split; [done|]. by apply contains_false. }
  wp_bind. eapply wp_reads; [by rewrite depth_of_eq, He|]. cbn [res_map_err].
  apply named_Some in He as Hnm. destruct Hnm as [_ Hent].
  destruct (nd_depth _ _ _ (wf_node _ Ht _ _ Hent)) as [Hd0 Hd16].
  assert (saturating_add64 (depth e) 1 = depth e + 1)%Z as ->.
  { unfold saturating_add64, U64_MAX, MAX_DERIVATION_DEPTH in *. lia. }
  case_bool_decide as Hdeep.
  { split; [done|]. exists ODebugConsole. exists (node_of (table s) e). split; [done|]. cbn [node_of an_depth]. lia. }
  wp_bind. red; cbn [gets]. destruct (Arena.is_full (as_arena s)) eqn:Haf; [by split|].
  wp_bind. red; cbn [gets]. destruct (is_full (table s)) eqn:Htf.
  { split; [done|]. exists ODebugConsole. by apply full_abs. }
  wp_bind. red. pose proof (fp_law _ _ (memory s) Hf) as Hlaw.
  destruct (provide_frame (provider s) (memory s)) as [[[f m] [rt|]]|] eqn:Hpf; [| |done].
  2:{ destruct Hlaw as (-> & -> & Hz). split; [by destruct s|done]. }
  destruct Hlaw as (_ & Hf' & _ & _ & _). wp_bind. apply wp_zoom. cbn [as_arena set_phys].
  unfold create_address_space, or_err, map_ok. apply wp_map_err, wp_bind.
  eapply wp_mono; [by apply (allocate_wp (N := ADDRESS_SPACE_ARENA_CAPACITY))|]. intros a' [id|x] (Ha' & Hr).
  2:{ exfalso. destruct Hr as [_ Hr]. congruence. }
  destruct Hr as (_ & Hg & Hg' & _ & _ & Ho & _). red. cbn [ret res_map_err]. wp_bind. apply wp_attempt, wp_zoom.
  cbn [table set_arena set_phys].
  destruct (derive_succeeds (table s) parent nr (OAddressSpace (AddressSpaceHandle_from_slot id)) e)
    as (t' & h & Hrun & Ht' & Hst); [done..|lia|done|].
  red. rewrite Hrun. red. cbn [ret]. exists (AddressSpaceHandle_from_slot id), rt.
  split; cbn [set_table set_arena set_phys table as_arena provider memory flushed]; try done.
  intros [id'] Hne. unfold get_address_space. cbn [address_space_slot]. apply Ho. congruence.
Qed.
End creation.

(** C32: creating an address space is all or nothing.  From any well-formed state
    [cap_create_address_space] returns.  When it fails, nothing has changed, no frame
    is lost, and the error is one whose condition holds (the checks of a derivation
    on the parent, a parent of another kind, a full arena or table, no free frame).
    When it succeeds, exactly one frame was taken: it is the zeroed root of an
    address space at a handle that named nothing, every other address space is as
    before, the new capability is a child of the parent with at most its rights and
    names that address space, and the state is well formed. *)
Theorem cap_create_address_space_is_atomic `{Build} `{Mmu AS} `{FrameProviderSpec F}
    (s : MmState AS F) used parent nr : mm_ok s used →
  ∃ s' r, cap_create_address_space parent nr s = Some (s', r) ∧
    match r with
    | Err e => s' = s ∧ create_refused s parent nr e
    | Ok h => fp_free (provider s) = S (fp_free (provider s')) ∧
        ∃ hd rt, created s s' used parent nr h hd rt ∧ frame_addr rt ∉ used ∧
          ∀ a, in_frame (frame_addr rt) a → memory s' a = 0%Z
    end.
Proof.
  intros Hok. destruct (proj1 (wp_run _ _ _) (cap_create_wp s used parent nr Hok)) as (s' & r & Hrun & Hr).
  exists s', r. split; [done|]. destruct r as [h|e]; [|done]. destruct Hr as (hd & rt & Hc).
  pose proof (fp_law _ _ (memory s) (mo_frames _ _ Hok)) as Hlaw. rewrite (cr_frame _ _ _ _ _ _ _ _ Hc) in Hlaw.
  destruct Hlaw as (Hfree & _ & Hnu & _ & Hm). split; [done|]. exists hd, rt. split; [done|]. split; [done|].
  intros a Ha. by rewrite Hm, decide_True.
Qed.

(** ** Mapping through a capability *)

(** Tables whose entries are unchanged are tables still. *)
Lemma PT_ext m m' rt T : PT m rt T → (∀ a t, is_Some (T !! t) → in_frame t a → m' a = m a) →
  PT m' rt T ∧ ∀ va, xlate m' rt va = xlate m rt va.
Proof.
  intros HP Hm. assert (He : ∀ t i, is_Some (T !! t) → index_ok i → entry m' t i = entry m t i).
  { intros t i Ht Hi. apply entry_ext; [|done]. intros a Ha. by apply (Hm a t). }
  split.
  - split; [apply HP|apply HP|..].
    + intros t p i Ht Hl Hi. rewrite He by (done || by eexists). by apply (pt_next _ _ _ HP).
    + intros t p i Ht Hl Hi. rewrite He by (done || by eexists). by apply (pt_leaf _ _ _ HP t p).
    + intros n p Hn. destruct (pt_table _ _ _ HP _ _ Hn) as (_ & Hl' & Hok').
      eapply (walk_to_mono m m' rt T HP); [|apply HP|exact Hl'|done|by apply (pt_reach _ _ _ HP)].
      intros t p' i Ht _ Hi _. apply He; [by eexists|done].
  - intros va. unfold xlate. eapply xlate_path_ext; [exact HP|apply HP|done|apply va_path_ok|done].
Qed.

(** Two address spaces share no table. *)
Definition apart (T1 T2 : gmap Z (list Z)) : Prop := dom T1 ## dom T2.

Section mapping.
  Context `{Build} `{FrameProviderSpec F}.
  Implicit Types (s : MmState QemuVirtAddressSpace F).

(** The address space [hd] of the state, at root [rt] with tables [T]. *)
Record space_of s (hd : AddressSpaceHandle) (rt : Z) (T : gmap Z (list Z)) (used : gset Z) : Prop := {
  so_arena : get_address_space (as_arena s) hd = Some {| inner := space_at rt |};
  so_space : space {| frames := provider s; mem := memory s |} rt T used;
}.

Lemma on_space_wp s hd {A} wrap (op : M (QemuVirtAddressSpace * MmuState F) MmuError A) as_ Q :
  Arena.WF ADDRESS_SPACE_ARENA_CAPACITY (as_arena s) →
  get_address_space (as_arena s) hd = Some {| inner := as_ |} →
  wp op (as_, {| frames := provider s; mem := memory s |}) (λ b r,
    b.1 = as_ ∧ ∀ a', (∀ hd', get_address_space a' hd' = get_address_space (as_arena s) hd') →
      Arena.WF ADDRESS_SPACE_ARENA_CAPACITY a' →
      Q (set_arena a' (set_phys (frames b.2) (mem b.2) s)) (res_map_err wrap r)) →
  wp (on_space hd wrap op) s Q.
Proof.
  intros Hwf Hg Hop. apply wp_run in Hop as ([as' st] & r & Hrun & Has & HQ). cbn [fst snd] in *. subst as'.
  red. unfold on_space. rewrite Hg. cbn [inner]. rewrite Hrun.
  destruct (proj1 (wp_run _ _ _) (get_mut_wp (as_arena s) (address_space_slot hd)
    (λ _ : AddressSpace QemuVirtAddressSpace, ({| inner := as_ |}, tt)) Hwf)) as (a' & x & -> & Ha' & Hx).
  destruct x as [[]|[]].
  2:{ destruct Hx as [_ Hx]. unfold get_address_space in Hg. congruence. }
  destruct Hx as (v & Hv & _ & Hv' & Ho). apply HQ; [|done]. intros hd'. unfold get_address_space in *.
  destruct (decide (address_space_slot hd' = address_space_slot hd)) as [Heq|Hne]; [|by apply Ho].
  rewrite Heq, Hv', Hg. done.
Qed.

(** [cap_map] on the translation. *)
Lemma cap_map_wp s used h hd rt T va pa flags : mm_ok s used → space_of s hd rt T used →
  resolve_address_space_cap (table s) h = Some (Ok hd) →
  (frame_addr pa `mod` PAGE_SIZE = 0)%Z → (0 ≤ frame_addr pa < 2 ^ 48)%Z →
  wp (cap_map h va pa flags) s (λ s' r, ∃ T', mm_ok s' (used ∪ dom T') ∧ space_of s' hd rt T' (used ∪ dom T') ∧
    T ⊆ T' ∧ table s' = table s ∧
    (∀ hd', get_address_space (as_arena s') hd' = get_address_space (as_arena s) hd') ∧
    (∀ a, (∀ t, is_Some (T' !! t) → ¬ in_frame t a) → memory s' a = memory s a) ∧
    accounted used T (provider s) T' (provider s') (λ p, p ∈ va_tables va) ∧
    match r with
    | Ok _ => flushed s' = va :: flushed s ∧ (∀ p, p ∈ va_tables va → has_path T' p) ∧
        xlate (memory s) rt va = Err NotMapped ∧ xlate (memory s') rt va = Ok (pa, known_flags flags) ∧
        ∀ va', page_of va' ≠ page_of va → xlate (memory s') rt va' = xlate (memory s) rt va'
    | Err e => flushed s' = flushed s ∧ (∀ va', xlate (memory s') rt va' = xlate (memory s) rt va') ∧
        match e with
        | MmuMapError MisalignedAddress => (va `mod` PAGE_SIZE ≠ 0)%Z
        | MmuMapError InvalidFlags => flags_contains flags DEVICE = true ∧ flags_contains flags EXECUTE = true
        | MmuMapError AlreadyMapped => xlate (memory s) rt va ≠ Err NotMapped
        | MmuMapError OutOfFrames => xlate (memory s) rt va = Err NotMapped ∧ fp_free (provider s') = 0 ∧
            ∃ p, p ∈ va_tables va ∧ ¬ has_path T' p
        | _ => False
        end
    end).
Proof.
  intros [Ht Ha Hf] [Hg Hs] Hres Hpal Hpar. unfold cap_map. wp_bind. eapply wp_reads; [exact Hres|]. cbn beta iota.
  wp_bind. eapply on_space_wp; [done|exact Hg|]. cbn [mmu_map QemuVirtMmu]. red.
  unfold zoom. cbn [fst snd].
  destruct (proj1 (wp_run _ _ _) (map_wp _ rt T used va pa flags Hs Hpal Hpar))
    as (s1 & r & -> & T' & Hs1 & Hsub & Hfr & Hac & Hr). cbn [fst snd]. split; [done|].
  intros a' Hget Hwf'. cbn [mem frames] in *.
  assert (Hok' : ∀ fl, mm_ok {| table := table s; as_arena := a'; provider := frames s1; memory := mem s1; flushed := fl |}
    (used ∪ dom T')).
  { intros fl. split; cbn; [done|done|apply Hs1]. }
  assert (Hso' : ∀ fl, space_of {| table := table s; as_arena := a'; provider := frames s1; memory := mem s1; flushed := fl |}
    hd rt T' (used ∪ dom T')).
  { intros fl. split; cbn; [by rewrite Hget|by destruct s1]. }
  destruct r as [v|e]; cbn [res_map_err].
  - destruct Hr as (-> & Hr). red. cbn [flush modify set_arena set_phys table as_arena provider memory flushed].
    exists T'.
    split; [apply Hok'|]. split; [apply Hso'|]. do 5 (split; [done|]). done.
  - cbn [set_arena set_phys table as_arena provider memory flushed]. exists T'.
    split; [apply Hok'|]. split; [apply Hso'|]. do 5 (split; [done|]).
    split; [done|]. destruct Hr as [Hx Hr]. split; [done|]. destruct e as [| | | | |]; try done. destruct Hr as (? & _ & ? & ?). done.
Qed.

(** [cap_unmap] on the translation. *)
Lemma cap_unmap_wp s used h hd rt T va : mm_ok s used → space_of s hd rt T used →
  resolve_address_space_cap (table s) h = Some (Ok hd) →
  wp (cap_unmap h va) s (λ s' r, mm_ok s' used ∧ space_of s' hd rt T used ∧
    table s' = table s ∧ provider s' = provider s ∧
    (∀ hd', get_address_space (as_arena s') hd' = get_address_space (as_arena s) hd') ∧
    (∀ a, (∀ t, is_Some (T !! t) → ¬ in_frame t a) → memory s' a = memory s a) ∧
    match r with
    | Ok f => flushed s' = va :: flushed s ∧ (∃ fl, xlate (memory s) rt va = Ok (f, fl)) ∧
        xlate (memory s') rt va = Err NotMapped ∧
        ∀ va', page_of va' ≠ page_of va → xlate (memory s') rt va' = xlate (memory s) rt va'
    | Err e => flushed s' = flushed s ∧ memory s' = memory s ∧
        ∃ x, e = MmuUnmapError x ∧ (xlate (memory s) rt va = Err x ∨ (va `mod` PAGE_SIZE ≠ 0)%Z ∧ x = MisalignedAddress)
    end).
Proof.
  intros [Ht Ha Hf] [Hg Hs] Hres. unfold cap_unmap. wp_bind. eapply wp_reads; [exact Hres|]. cbn beta iota.
  wp_bind. eapply on_space_wp; [done|exact Hg|]. apply wp_zoom. cbn [fst snd mem].
  pose proof (sp_pt _ _ _ _ Hs) as HP. cbn [mem] in HP.
  assert (Hw : wp (unmap (space_at rt) va) (memory s) (λ m' r, PT m' rt T ∧
    (∀ a, (∀ t, is_Some (T !! t) → ¬ in_frame t a) → m' a = memory s a) ∧
    match r with
    | Ok (v, f) => v = va ∧ (∃ fl, xlate (memory s) rt va = Ok (f, fl)) ∧ xlate m' rt va = Err NotMapped ∧
        ∀ va', page_of va' ≠ page_of va → xlate m' rt va' = xlate (memory s) rt va'
    | Err e => m' = memory s ∧ (xlate (memory s) rt va = Err e ∨ (va `mod` PAGE_SIZE ≠ 0)%Z ∧ e = MisalignedAddress)
    end)).
  { destruct (decide (va `mod` PAGE_SIZE = 0)%Z) as [Hal|Hal].
    - eapply wp_mono; [by apply unmap_wp|]. intros m' [[v f]|e] (H2 & H3 & H4); [done|].
      destruct H4 as [-> H4]. split_and!; try done. by left.
    - unfold unmap. rewrite bool_decide_false by done. split; [done|]. split; [done|]. split; [done|]. by right. }
  red. cbn [mmu_unmap QemuVirtMmu]. unfold zoom. cbn [fst snd].
  apply wp_run in Hw as (m' & r & -> & HP' & Hfr & Hr). cbn [fst snd]. split; [done|].
  intros a' Hget Hwf'. cbn [mem frames].
  assert (Hok' : ∀ fl, mm_ok {| table := table s; as_arena := a'; provider := provider s; memory := m'; flushed := fl |} used).
  { intros fl. split; cbn; done. }
  assert (Hso' : ∀ fl, space_of {| table := table s; as_arena := a'; provider := provider s; memory := m'; flushed := fl |}
    hd rt T used).
  { intros fl. split; cbn; [by rewrite Hget|]. split; cbn; [done|apply Hs|apply Hs]. }
  destruct r as [[v f]|e]; cbn [res_map_err].
  - destruct Hr as (-> & Hr). red. unfold flush, bind, modify, ret.
    cbn [fst snd set_arena set_phys table as_arena provider memory flushed].
    split; [apply Hok'|]. split; [apply Hso'|]. do 4 (split; [done|]). done.
  - cbn [set_arena set_phys table as_arena provider memory flushed].
    split; [apply Hok'|]. split; [apply Hso'|]. do 4 (split; [done|]). destruct Hr as [-> Hr].
    do 2 (split; [done|]). by exists e.
Qed.

(** The other address space after a change confined to [T']. *)
Lemma other_space s s' hb rb Tb T T' used : space_of s hb rb Tb used → apart T Tb →
  (∀ t, t ∈ dom T' → t ∈ dom T ∨ t ∉ used) → (∀ t, is_Some (T' !! t) → table_ok t) →
  (∀ hd', get_address_space (as_arena s') hd' = get_address_space (as_arena s) hd') →
  (∀ a, (∀ t, is_Some (T' !! t) → ¬ in_frame t a) → memory s' a = memory s a) →
  fp_inv (provider s') (used ∪ dom T') →
  space_of s' hb rb Tb (used ∪ dom T') ∧ apart T' Tb ∧ ∀ va, xlate (memory s') rb va = xlate (memory s) rb va.
Proof.
  intros [Hg Hs] Hap Hnew Hok Hget Hfr Hinv. pose proof (sp_pt _ _ _ _ Hs) as HP. cbn [mem] in HP.
  pose proof (sp_dom _ _ _ _ Hs) as Hd.
  assert (Hap' : apart T' Tb).
  { unfold apart in *. intros t Ht Ht'. destruct (Hnew t Ht) as [?|?]; set_solver. }
  destruct (PT_ext (memory s) (memory s') rb Tb HP) as [HP' Hx].
  { intros a t Ht Ha. apply Hfr. intros t' Ht' Ha'.
    assert (Hne : t ≠ t').
    { intros <-. unfold apart in Hap'. apply elem_of_dom in Ht, Ht'. set_solver. }
    destruct Ht as [p Htp]. destruct (pt_table _ _ _ HP _ _ Htp) as [Htok _].
    by apply (frames_disjoint t t' a Htok (Hok t' Ht') Hne). }
  split; [|done]. split; [by rewrite Hget|]. split; cbn; [done|done|set_solver].
Qed.
End mapping.

(** C20: address spaces are isolated, and only a capability reaches one.  Let [ha] and
    [hb] be two address spaces that share no page table, and [h] a capability to
    [ha].  [cap_map] and [cap_unmap] through [h] return, keep the capability table and
    the arena, and leave both well formed and apart; [hb] translates every address
    as before, [ha] every page but the one named, and the address is invalidated in
    the TLB exactly when the call succeeds.  A handle that does not resolve to an
    address-space capability changes nothing at all. *)
Theorem mapping_is_isolated `{Build} `{FrameProviderSpec F} (s : MmState QemuVirtAddressSpace F)
    used h ha ra Ta hb rb Tb va pa flags :
  mm_ok s used → space_of s ha ra Ta used → space_of s hb rb Tb used → apart Ta Tb →
  resolve_address_space_cap (table s) h = Some (Ok ha) →
  (frame_addr pa `mod` PAGE_SIZE = 0)%Z → (0 ≤ frame_addr pa < 2 ^ 48)%Z →
  let kept s' (ok : bool) := table s' = table s ∧
    (∀ hd, get_address_space (as_arena s') hd = get_address_space (as_arena s) hd) ∧
    (∃ Ta' used', mm_ok s' used' ∧ space_of s' ha ra Ta' used' ∧ space_of s' hb rb Tb used' ∧ apart Ta' Tb) ∧
    (∀ va', ∃ x, translate (space_at rb) va' (memory s') = Some (memory s', x) ∧
                 translate (space_at rb) va' (memory s) = Some (memory s, x)) ∧
    (∀ va', page_of va' ≠ page_of va → ∃ x, translate (space_at ra) va' (memory s') = Some (memory s', x) ∧
                 translate (space_at ra) va' (memory s) = Some (memory s, x)) ∧
    flushed s' = if ok then va :: flushed s else flushed s in
  (∃ s' r, cap_map h va pa flags s = Some (s', r) ∧ kept s' (bool_decide (r = Ok tt))) ∧
  (∃ s' r, cap_unmap h va s = Some (s', r) ∧ kept s' (match r with Ok _ => true | Err _ => false end)) ∧
  (∀ h', (∀ hd, resolve_address_space_cap (table s) h' ≠ Some (Ok hd)) →
     ∃ e, cap_map h' va pa flags s = Some (s, Err (AsCapError e)) ∧ cap_unmap h' va s = Some (s, Err (AsCapError e))).
Proof.
  intros Hok Ha Hb Hap Hres Hpal Hpar kept.
  assert (Htr : ∀ m rt T v, PT m rt T → translate (space_at rt) v m = Some (m, xlate m rt v)).
  { intros m rt T v HP. by apply translate_xlate with T. }
  assert (HPa := sp_pt _ _ _ _ (so_space _ _ _ _ _ Ha)). assert (HPb := sp_pt _ _ _ _ (so_space _ _ _ _ _ Hb)).
  cbn [mem] in HPa, HPb.
  assert (Hkept : ∀ s' ok T' used', table s' = table s →
    (∀ hd, get_address_space (as_arena s') hd = get_address_space (as_arena s) hd) →
    mm_ok s' used' → space_of s' ha ra T' used' → space_of s' hb rb Tb used' → apart T' Tb →
    (∀ va', xlate (memory s') rb va' = xlate (memory s) rb va') →
    (∀ va', page_of va' ≠ page_of va → xlate (memory s') ra va' = xlate (memory s) ra va') →
    flushed s' = (if ok : bool then va :: flushed s else flushed s) → kept s' ok).
  { intros s' ok T' used' E1 E2 E3 E4 E5 E6 E7 E8 E9. do 2 (split; [done|]). split; [by exists T', used'|].
    assert (HPa' := sp_pt _ _ _ _ (so_space _ _ _ _ _ E4)). assert (HPb' := sp_pt _ _ _ _ (so_space _ _ _ _ _ E5)).
    cbn [mem] in HPa', HPb'. split; [|split; [|done]].
    - intros v. eexists. rewrite (Htr _ _ _ _ HPb), (Htr _ _ _ _ HPb'), E7. done.
    - intros v Hv. eexists. rewrite (Htr _ _ _ _ HPa), (Htr _ _ _ _ HPa'), E8 by done. done. }
  split; [|split].
  - destruct (proj1 (wp_run _ _ _) (cap_map_wp s used h ha ra Ta va pa flags Hok Ha Hres Hpal Hpar))
      as (s' & r & Hrun & T' & Hok' & Hso & Hsub & Htb & Hget & Hfr & Hac & Hr).
    exists s', r. split; [done|].
    destruct (other_space s s' hb rb Tb Ta T' used Hb Hap (ac_fresh _ _ _ _ _ _ Hac)) as (Hb' & Hap' & Hxb); try done.
    { intros t [p Ht]. by apply (pt_table _ _ _ (sp_pt _ _ _ _ (so_space _ _ _ _ _ Hso))) in Ht as [? _]. }
    { apply Hok'. }
    destruct r as [[]|e].
    + destruct Hr as (Hfl & _ & _ & _ & Hx). by apply Hkept with T' (used ∪ dom T').
    + destruct Hr as (Hfl & Hx & _). rewrite bool_decide_false by done. apply Hkept with T' (used ∪ dom T'); auto.
  - destruct (proj1 (wp_run _ _ _) (cap_unmap_wp s used h ha ra Ta va Hok Ha Hres))
      as (s' & r & Hrun & Hok' & Hso & Htb & Hpv & Hget & Hfr & Hr).
    exists s', r. split; [done|].
    assert (Hu : used ∪ dom Ta = used).
    { pose proof (sp_dom _ _ _ _ (so_space _ _ _ _ _ Ha)). set_solver. }
    destruct (other_space s s' hb rb Tb Ta Ta used Hb Hap) as (Hb' & _ & Hxb); try done.
    { by left. }
    { intros t [p Ht]. by apply (pt_table _ _ _ HPa) in Ht as [? _]. }
    { rewrite Hu. apply Hok'. }
    rewrite Hu in Hb'. destruct r as [f|e].
    + destruct Hr as (Hfl & _ & _ & Hx). by apply Hkept with Ta used.
    + destruct Hr as (Hfl & Hm & _). apply Hkept with Ta used; try done. intros v _. by rewrite Hm.
  - intros h' Hno. unfold resolve_address_space_cap in Hno. rewrite lookup_eq in Hno. cbn [pmap_err] in Hno.
    unfold cap_map, cap_unmap, resolve_address_space_cap, reads, bind. rewrite lookup_eq.
    destruct (named (table s) h') as [e|]; cbn in Hno |- *; [|by exists InvalidHandle].
    destruct (object (capability e)); try (by exists WrongKind). by destruct (Hno h0).
Qed.

(** ** Samples: two address spaces made by the memory manager *)

Section made.
  Context `{Build} `{FrameProviderSpec F}.
  Implicit Types (s : MmState QemuVirtAddressSpace F).

Lemma created_space s s' used parent nr h hd rt : mm_ok s used → created s s' used parent nr h hd rt →
  space_of s' hd (frame_addr rt) {[frame_addr rt := []]} ({[frame_addr rt]} ∪ used) ∧
  (∀ va, xlate (memory s') (frame_addr rt) va = Err NotMapped) ∧
  resolve_address_space_cap (table s') h = Some (Ok hd).
Proof.
  intros Hok Hc.
  destruct (fresh_space _ used _ _ _ _ (mo_frames _ _ Hok) (cr_frame _ _ _ _ _ _ _ _ Hc)) as [Hs Hx].
  split; [|split; [done|]].
  - split; [|done]. rewrite (cr_space _ _ _ _ _ _ _ _ Hc). by destruct rt.
  - destruct (cr_table _ _ _ _ _ _ _ _ Hc) as (m' & Hst & Hm). inversion Hst; subst.
    specialize (Hm h). unfold upd in Hm. rewrite decide_True in Hm by done.
    apply live_Some in Hm as (e & He & Hn). unfold resolve_address_space_cap. rewrite lookup_eq, He. cbn.
    apply (f_equal (λ n, object (an_cap n))) in Hn. cbn in Hn. by rewrite <- Hn.
Qed.

(** An address space survives the creation of another. *)
Lemma created_other s s' used parent nr h hd rt hb rb Tb : mm_ok s used →
  created s s' used parent nr h hd rt → space_of s hb rb Tb used →
  space_of s' hb rb Tb ({[frame_addr rt]} ∪ used) ∧ apart {[frame_addr rt := []]} Tb.
Proof.
  intros Hok Hc [Hg Hs]. pose proof (sp_pt _ _ _ _ Hs) as HP. pose proof (sp_dom _ _ _ _ Hs) as Hd. cbn [mem] in HP.
  pose proof (fp_law _ _ (memory s) (mo_frames _ _ Hok)) as Hlaw. rewrite (cr_frame _ _ _ _ _ _ _ _ Hc) in Hlaw.
  destruct Hlaw as (_ & _ & Hnu & Hrt & Hm).
  assert (Hap : apart {[frame_addr rt := []]} Tb) by (unfold apart; set_solver).
  split; [|done]. split.
  - rewrite (cr_others _ _ _ _ _ _ _ _ Hc); [done|]. intros ->. by rewrite (cr_fresh _ _ _ _ _ _ _ _ Hc) in Hg.
  - split; cbn; [|apply (cr_ok _ _ _ _ _ _ _ _ Hc)|set_solver].
    apply (PT_ext (memory s) _ rb Tb HP). intros a t Ht Ha. rewrite Hm, decide_False; [done|]. intros Ha'.
    assert (Hne : t ≠ frame_addr rt).
    { intros ->. apply elem_of_dom in Ht. set_solver. }
    destruct Ht as [p Htp]. destruct (pt_table _ _ _ HP _ _ Htp) as [Htok _].
    by apply (frames_disjoint t (frame_addr rt) a Htok Hrt Hne).
Qed.
End made.

Definition sample_parent : CapHandle := {| ch_index := 0; ch_generation := 0 |}.

(** A table whose one capability is the bootstrap address space, with every right. *)
Definition sample_as_table : CapabilityTable :=
  match insert_root {| rights := KNOWN_BITS; object := OAddressSpace BOOTSTRAP_ADDRESS_SPACE_HANDLE |} CapTable.new with
  | Some (t, Ok _) => t
  | _ => CapTable.new
  end.

Lemma sample_as_table_eq :
  insert_root {| rights := KNOWN_BITS; object := OAddressSpace BOOTSTRAP_ADDRESS_SPACE_HANDLE |} CapTable.new
  = Some (sample_as_table, Ok sample_parent).
Proof. vm_compute. reflexivity. Qed.

Definition sample_mm : MmState QemuVirtAddressSpace Pmm :=
  {| table := sample_as_table; as_arena := Arena.new ADDRESS_SPACE_ARENA_CAPACITY; provider := sample_pmm;
     memory := λ _, 1%Z; flushed := [] |}.

Lemma sample_mm_ok : mm_ok sample_mm ∅.
Proof.
  split; [|apply arena_new_WF, Nat.ltb_lt; reflexivity|apply sample_pmm_holds].
  pose proof (insert_root_wp CapTable.new {| rights := KNOWN_BITS; object := OAddressSpace BOOTSTRAP_ADDRESS_SPACE_HANDLE |}
    CapTableInv.new_WF) as Hw. destruct (wp_det _ _ _ _ _ Hw sample_as_table_eq) as (_ & _ & _ & Hwf). exact Hwf.
Qed.

Lemma cap_create_address_space_is_atomic_witness :
  ∃ s' h hd rt, cap_create_address_space (H0 := QemuVirtMmu (H := debug_build)) (H := debug_build)
      sample_parent (union SEND RECV) sample_mm = Some (s', Ok h) ∧
    fp_free (provider sample_mm) = S (fp_free (provider s')) ∧
    get_address_space (as_arena s') hd = Some {| inner := space_at (frame_addr rt) |}.
Proof.
  destruct (cap_create_address_space_is_atomic (H := debug_build) (H0 := QemuVirtMmu (H := debug_build)) sample_mm ∅
    sample_parent (union SEND RECV) sample_mm_ok) as (s' & r & Hrun & Hr).
  assert (Hok : ∃ h, r = Ok h).
  { apply (f_equal (fmap snd)) in Hrun. vm_compute in Hrun. injection Hrun as <-. by eexists. }
  destruct Hok as [h ->]. destruct Hr as (Hfree & hd & rt & Hc & _). exists s', h, hd, rt.
  split; [exact Hrun|]. split; [exact Hfree|]. rewrite (cr_space _ _ _ _ _ _ _ _ Hc). by destruct rt.
Defined.

(** Two creations in a row; the capability of the second. *)
Definition sample_create (s : MmState QemuVirtAddressSpace Pmm) :=
  cap_create_address_space (H0 := QemuVirtMmu (H := debug_build)) (H := debug_build) sample_parent (union SEND RECV) s.

Definition sample_mm1 : MmState QemuVirtAddressSpace Pmm :=
  match sample_create sample_mm with Some (s, _) => s | None => sample_mm end.
Definition sample_mm2 : MmState QemuVirtAddressSpace Pmm :=
  match sample_create sample_mm1 with Some (s, _) => s | None => sample_mm end.
Definition sample_cap : CapHandle := {| ch_index := 2; ch_generation := 0 |}.

(** A run is its state and its result. *)
Lemma run_result {A B} (o : option (A * B)) d r : snd <$> o = Some r →
  o = Some (match o with Some (a, _) => a | None => d end, r).
Proof. destruct o as [[a b]|]; cbn; [by intros [= ->]|done]. Qed.

Lemma sample_create_eq1 : sample_create sample_mm = Some (sample_mm1, Ok {| ch_index := 1; ch_generation := 0 |}).
Proof. apply run_result. vm_compute. reflexivity. Qed.

Lemma sample_create_eq2 : sample_create sample_mm1 = Some (sample_mm2, Ok sample_cap).
Proof. apply run_result. vm_compute. reflexivity. Qed.

Lemma sample_created s used s' h : mm_ok s used → sample_create s = Some (s', Ok h) →
  ∃ hd rt, created (H0 := QemuVirtMmu (H := debug_build)) s s' used sample_parent (union SEND RECV) h hd rt.
Proof.
  intros Hok Hrun. exact (wp_det _ _ _ _ _ (cap_create_wp (H := debug_build) s used sample_parent _ Hok) Hrun).
Qed.

Lemma sample_two_spaces : ∃ used ha ra Ta hb rb Tb,
  mm_ok sample_mm2 used ∧ space_of sample_mm2 ha ra Ta used ∧ space_of sample_mm2 hb rb Tb used ∧ apart Ta Tb ∧
  resolve_address_space_cap (table sample_mm2) sample_cap = Some (Ok ha) ∧
  ∀ va, xlate (memory sample_mm2) ra va = Err NotMapped.
Proof.
  destruct (sample_created _ _ _ _ sample_mm_ok sample_create_eq1) as (hb & rb & Hb).
  pose proof (cr_ok _ _ _ _ _ _ _ _ Hb) as Hok1.
  destruct (created_space (H := debug_build) _ _ _ _ _ _ _ _ sample_mm_ok Hb) as (Hsb & _ & _).
  destruct (sample_created _ _ _ _ Hok1 sample_create_eq2) as (ha & ra & Ha).
  destruct (created_space (H := debug_build) _ _ _ _ _ _ _ _ Hok1 Ha) as (Hsa & Hxa & Hres).
  destruct (created_other (H := debug_build) _ _ _ _ _ _ _ _ _ _ _ Hok1 Ha Hsb) as [Hsb' Hap].
  do 7 eexists. split; [exact (cr_ok _ _ _ _ _ _ _ _ Ha)|]. split; [exact Hsa|]. split; [exact Hsb'|].
  split; [exact Hap|]. split; [exact Hres|exact Hxa].
Qed.

Lemma mapping_is_isolated_witness :
  ∃ s', cap_map (H0 := QemuVirtMmu (H := debug_build)) sample_cap sample_va sample_page sample_flags sample_mm2 =
          Some (s', Ok tt) ∧
        flushed s' = [sample_va] ∧ table s' = table sample_mm2.
Proof.
  destruct sample_two_spaces as (used & ha & ra & Ta & hb & rb & Tb & Hok & Ha & Hb & Hap & Hres & _).
  destruct (mapping_is_isolated (H := debug_build) sample_mm2 used sample_cap ha ra Ta hb rb Tb sample_va sample_page
    sample_flags Hok Ha Hb Hap Hres (proj1 sample_page_ok) (proj2 sample_page_ok)) as ((s' & r & Hrun & Hk) & _ & _).
  assert (r = Ok tt) as ->.
  { apply (f_equal (fmap snd)) in Hrun. vm_compute in Hrun. injection Hrun as <-. reflexivity. }
  exists s'. split; [exact Hrun|]. destruct Hk as (Ht & _ & _ & _ & _ & Hf). split; [exact Hf|exact Ht].
Defined.
