(* ===== verification/TaskLoader.v ===== *)
(** * The task loader (kernel/src/obj/task_loader.rs)

[load_image] with its preflights, its two page loops and [rollback], and
[task_create_from_image].  The image is a slice: an address and a length into
memory, whose bytes are read when they are copied.  Page counts and addresses are
[usize] values in [Z]; a loop runs over a [nat] of pages. *)

From S2P Require Import Prelude.
From S2P Require Import Hal.
From S2P Require Import Arena.
From S2P Require Import Objects.
From S2P Require Import Caps.
From S2P Require Import CapTable.
From S2P Require Import Ipc.
From S2P Require Import SyscallError.
From S2P Require Import UserAccess.
From S2P Require Import Pmm.
From S2P Require Import QemuMmu.
From S2P Require Import QemuMmuProps.
From S2P Require Import AddressSpace.
Local Open Scope Z_scope.

Definition intermediate_frame_count (image_base_va image_pages stack_pages : Z) : Z :=
  let total_pages := saturating_add64 image_pages stack_pages in
  if bool_decide (total_pages = 0) then 0 else
  let span_bytes := saturating_mul64 total_pages PAGE_SIZE in
  let span_start := image_base_va in
  let last_byte := saturating_sub64 (saturating_add64 span_start span_bytes) 1 in
  let l3_count := saturating_add64 (saturating_sub64 (Z.shiftr last_byte 21) (Z.shiftr span_start 21)) 1 in
  let l2_count := saturating_add64 (saturating_sub64 (Z.shiftr last_byte 30) (Z.shiftr span_start 30)) 1 in
  let l1_count := saturating_add64 (saturating_sub64 (Z.shiftr last_byte 39) (Z.shiftr span_start 39)) 1 in
  saturating_add64 (saturating_add64 l1_count l2_count) l3_count.

Definition USERSPACE_VA_LIMIT : Z := Z.shiftl 1 48.

Record LoadedImage := {
  as_cap : CapHandle;
  entry_va : VirtAddr;
  stack_top_va : VirtAddr;
  image_bytes : Z;
  stack_bytes : Z;
}.

Inductive LoadError :=
| InvalidImage
| InvalidStackSize
| MisalignedImageBaseVa (va : VirtAddr)
| InvalidImageBaseVa (base end_ : VirtAddr)
| InvalidParentCap (e : CapError)
| FrameBudgetExceeded (needed available : Z)
| AddressSpaceCreationFailed (e : AddressSpaceError)
| ImageOverlapsAllocatableMemory
| LoadOutOfFrames
| MapFailed (e : AddressSpaceError).

#[export] Instance LoadError_eq_dec : EqDecision LoadError.
Proof. solve_decision. Defined.

(** The image slice: [as_ptr] and [len]. *)
Record Slice := { as_ptr : Z; slice_len : Z }.

Section load.
  Context `{Build} `{Mmu AS}.
  Implicit Types (s : MmState AS Pmm).

Definition set_pmm (p : Pmm) s : MmState AS Pmm := set_phys p (memory s) s.

(** [let _ = pmm.free_frame(frame);] *)
Definition discard_frame {E} (frame : PhysFrame) : M (MmState AS Pmm) E unit :=
  let* _ := attempt (zoom provider set_pmm (free_frame frame)) in ret tt.

(** [for i in (0..n).rev()]: unmap page [i] and free what it mapped. *)
Fixpoint rollback_pages {E} (n : nat) (cap : CapHandle) (base : VirtAddr) : M (MmState AS Pmm) E unit :=
  match n with
  | O => ret tt
  | S i =>
      let va := saturating_add64 base (saturating_mul64 (Z.of_nat i) PAGE_SIZE) in
      let* r := attempt (cap_unmap cap va) in
      (match r with Ok frame => discard_frame frame | Err _ => ret tt end) ;;
      rollback_pages i cap base
  end.

Definition rollback {E} (loaded_as_cap : CapHandle) (image_base_va stack_base_va : VirtAddr)
    (image_pages_mapped stack_pages_mapped : Z) : M (MmState AS Pmm) E unit :=
  rollback_pages (Z.to_nat stack_pages_mapped) loaded_as_cap stack_base_va ;;
  rollback_pages (Z.to_nat image_pages_mapped) loaded_as_cap image_base_va ;;
  let* _ := attempt (zoom table set_table (cap_drop loaded_as_cap)) in
  ret tt.

(** [pmm.alloc_frame()] *)
Definition loader_alloc {E} : M (MmState AS Pmm) E (option PhysFrame) := λ s,
  match alloc_frame {| pmm := provider s; pmem := memory s |} with
  | None => None
  | Some (st, r) => Some (set_phys (pmm st) (pmem st) s,
                          Ok match r with Ok frame => Some frame | Err _ => None end)
  end.

(** [copy_nonoverlapping(src, phys_frame_kernel_ptr(frame), n)] *)
Definition copy_to_frame {E} (src : Z) (frame : PhysFrame) (n : nat) : M (MmState AS Pmm) E unit := λ s,
  match phys_frame_kernel_ptr frame with
  | None => None
  | Some dst => Some (set_phys (provider s) (write_bytes (memory s) dst (read_bytes (memory s) src n)) s, Ok tt)
  end.

(** One round of either loop from the allocated frame on: map it, or free it, roll
    back and fail. *)
Definition map_page (cap : CapHandle) (va : VirtAddr) (frame : PhysFrame) (flags : MappingFlags)
    (undo : M (MmState AS Pmm) LoadError unit) : M (MmState AS Pmm) LoadError unit :=
  let* r := attempt (cap_map cap va frame flags) in
  match r with
  | Ok _ => ret tt
  | Err e =>
      discard_frame frame ;;
      undo ;;
      throw (MapFailed e)
  end.

(** [image.chunks(PAGE_SIZE).enumerate()], [n] chunks left from number [i]. *)
Fixpoint image_loop (n : nat) (i : Z) (image : Slice) (cap : CapHandle) (image_base_va stack_base_va : VirtAddr)
    (image_pages_mapped : Z) : M (MmState AS Pmm) LoadError Z :=
  match n with
  | O => ret image_pages_mapped
  | S n =>
      let undo := rollback cap image_base_va stack_base_va image_pages_mapped 0 in
      let* o := loader_alloc in
      match o with
      | None => undo ;; throw LoadOutOfFrames
      | Some frame =>
          let off := i * PAGE_SIZE in
          copy_to_frame (as_ptr image + off) frame (Z.to_nat (Z.min PAGE_SIZE (slice_len image - off))) ;;
          let va := saturating_add64 image_base_va (saturating_mul64 i PAGE_SIZE) in
          map_page cap va frame (flags_union USER EXECUTE) undo ;;
          image_loop n (i + 1) image cap image_base_va stack_base_va (saturating_add64 image_pages_mapped 1)
      end
  end.

(** [for i in 0..stack_pages] *)
Fixpoint stack_loop (n : nat) (i : Z) (cap : CapHandle) (image_base_va stack_base_va : VirtAddr)
    (image_pages_mapped stack_pages_mapped : Z) : M (MmState AS Pmm) LoadError unit :=
  match n with
  | O => ret tt
  | S n =>
      let undo := rollback cap image_base_va stack_base_va image_pages_mapped stack_pages_mapped in
      let* o := loader_alloc in
      match o with
      | None => undo ;; throw LoadOutOfFrames
      | Some frame =>
          let va := saturating_add64 stack_base_va (saturating_mul64 i PAGE_SIZE) in
          map_page cap va frame (flags_union USER WRITE) undo ;;
          stack_loop n (i + 1) cap image_base_va stack_base_va image_pages_mapped
            (saturating_add64 stack_pages_mapped 1)
      end
  end.

(** Rows 5 to 8: the address space, the two loops, the descriptor. *)
Definition load_pages (image : Slice) (parent_as_cap : CapHandle) (new_rights : CapRights)
    (image_base_va image_pages stack_pages : Z) : M (MmState AS Pmm) LoadError LoadedImage :=
  let* loaded_as_cap := map_err AddressSpaceCreationFailed (cap_create_address_space parent_as_cap new_rights) in
  let stack_base_va := saturating_add64 image_base_va (saturating_mul64 image_pages PAGE_SIZE) in
  let* image_pages_mapped :=
    image_loop (Z.to_nat image_pages) 0 image loaded_as_cap image_base_va stack_base_va 0 in
  stack_loop (Z.to_nat stack_pages) 0 loaded_as_cap image_base_va stack_base_va image_pages_mapped 0 ;;
  ret {| as_cap := loaded_as_cap; entry_va := image_base_va;
         stack_top_va := saturating_add64 stack_base_va (saturating_mul64 stack_pages PAGE_SIZE);
         image_bytes := slice_len image;
         stack_bytes := saturating_mul64 stack_pages PAGE_SIZE |}.

Definition load_image (image : Slice) (parent_as_cap : CapHandle) (new_rights : CapRights)
    (image_base_va : VirtAddr) (stack_size_pages : Z) : M (MmState AS Pmm) LoadError LoadedImage :=
  if bool_decide (slice_len image = 0) then throw InvalidImage else
  if bool_decide (stack_size_pages = 0) then throw InvalidStackSize else
  if negb (bool_decide (image_base_va `mod` PAGE_SIZE = 0)) then throw (MisalignedImageBaseVa image_base_va) else
  let* parent_cap := reads (λ s, pmap_err InvalidParentCap (lookup (table s) parent_as_cap)) in
  if negb (bool_decide (cap_kind parent_cap = KAddressSpace)) then throw (InvalidParentCap WrongKind) else
  let image_pages := div_ceil (slice_len image) PAGE_SIZE in
  let stack_pages := stack_size_pages in
  let total_va_bytes := saturating_mul64 (saturating_add64 image_pages stack_pages) PAGE_SIZE in
  let span_end := saturating_add64 image_base_va total_va_bytes in
  if bool_decide (USERSPACE_VA_LIMIT < span_end) then throw (InvalidImageBaseVa image_base_va span_end) else
  let intermediate_budget := intermediate_frame_count image_base_va image_pages stack_pages in
  let needed := saturating_add64 (saturating_add64 (saturating_add64 1 image_pages) stack_pages) intermediate_budget in
  let* available := gets (λ s, free_frames (stats (provider s))) in
  if bool_decide (available < needed) then throw (FrameBudgetExceeded needed available) else
  let* overlap := reads (λ s,
    match kernel_va_to_phys (as_ptr image) with
    | None => ppanic
    | Some image_pa_start =>
        let image_pa_end := saturating_add64 image_pa_start (slice_len image) in
        match could_yield_pa_overlapping (provider s) image_pa_start image_pa_end with
        | None => ppanic
        | Some b => pret b
        end
    end) in
  if overlap : bool then throw ImageOverlapsAllocatableMemory else
  load_pages image parent_as_cap new_rights image_base_va image_pages stack_pages.
End load.

(** ** The task of a loaded image *)

Inductive TaskCreateError :=
| InvalidAddressSpaceCap (e : CapError)
| TaskArenaFull
| CapTableExhausted (e : CapError).

#[export] Instance TaskCreateError_eq_dec : EqDecision TaskCreateError.
Proof. solve_decision. Defined.

Section task.
  Context `{Build}.

Definition set_fst {A B} (a : A) (s : A * B) : A * B := (a, s.2).
Definition set_snd {A B} (b : B) (s : A * B) : A * B := (s.1, b).

(** The state is the table and the task arena. *)
Definition task_create_from_image (loaded : LoadedImage) (id : Z) (task_rights : CapRights)
  : M (CapabilityTable * TaskArena) TaskCreateError CapHandle :=
  let* cap := reads (λ s, pmap_err InvalidAddressSpaceCap (lookup s.1 (as_cap loaded))) in
  match object cap with
  | OAddressSpace as_handle =>
      let* task_handle := map_err (λ _, TaskArenaFull)
        (zoom snd set_snd (create_task {| task_id := id; task_address_space_handle := as_handle |})) in
      let* r := attempt (zoom fst set_fst (insert_root {| rights := task_rights; object := OTask task_handle |})) in
      match r with
      | Ok task_cap => ret task_cap
      | Err e =>
          debug_assert (bool_decide (e = CapsExhausted)) ;;
          let* _ := attempt (zoom snd set_snd (destroy_task task_handle)) in
          throw (CapTableExhausted e)
      end
  | _ => throw (InvalidAddressSpaceCap WrongKind)
  end.
End task.
