(* ===== verification/TaskTables.v ===== *)
(** * The page tables of a run of pages

[intermediate_frame_count] answers exactly the number of tables below the root that
the pages of a load need: the distinct prefixes of their paths. *)

From stdpp Require Import gmap.
From S2P Require Import Prelude.
From S2P Require Import Hal.
From S2P Require Import UserAccess.
From S2P Require Import QemuMmu.
From S2P Require Import QemuMmuInv.
From S2P Require Import QemuMmuOps.
From S2P Require Import TaskLoader.
Local Open Scope Z_scope.

(** Page [j] of the run at [base], and the tables [n] pages need below the root. *)
Definition page_va (base : Z) (j : nat) : Z := base + Z.of_nat j * PAGE_SIZE.

Definition run_tables (base : Z) (n : nat) : list (list Z) :=
  remove_dups (seq 0 n ≫= λ j, va_tables (page_va base j)).

Lemma elem_of_run_tables base n p :
  p ∈ run_tables base n ↔ ∃ j, (j < n)%nat ∧ p ∈ va_tables (page_va base j).
Proof.
  unfold run_tables. rewrite elem_of_remove_dups, list_elem_of_bind. split.
  - intros (j & Hp & Hj%elem_of_seq). exists j. split; [lia|done].
  - intros (j & Hj & Hp). exists j. split; [done|]. apply elem_of_seq. lia.
Qed.

(** The path of block [b]: the indices its number spells. *)
Definition path1 (b : Z) : list Z := [b `mod` 512].
Definition path2 (b : Z) : list Z := [b `div` 512 `mod` 512; b `mod` 512].
Definition path3 (b : Z) : list Z := [b `div` 512 `div` 512 `mod` 512; b `div` 512 `mod` 512; b `mod` 512].

Lemma va_tables_blocks v : va_tables v = [path1 (v `div` 2 ^ 39); path2 (v `div` 2 ^ 30); path3 (v `div` 2 ^ 21)].
Proof.
  unfold va_tables, va_path, path1, path2, path3, VA_L0_SHIFT, VA_L1_SHIFT, VA_L2_SHIFT. cbn [take].
  rewrite !va_index_eq by done.
  assert (v `div` 2 ^ 30 = v `div` 2 ^ 21 `div` 512) as -> by by rewrite Z.div_div.
  assert (v `div` 2 ^ 39 = v `div` 2 ^ 21 `div` 512 `div` 512) as -> by by rewrite !Z.div_div.
  done.
Qed.

(** A block number of its level is read back from its path. *)
Lemma path1_inj b c : 0 ≤ b < 512 → 0 ≤ c < 512 → path1 b = path1 c → b = c.
Proof. unfold path1. intros ?? [= H]. by rewrite !Z.mod_small in H. Qed.

Lemma path2_inj b c : 0 ≤ b < 512 * 512 → 0 ≤ c < 512 * 512 → path2 b = path2 c → b = c.
Proof. unfold path2. intros ?? [= H1 H2]. Z.to_euclidean_division_equations; lia. Qed.

Lemma path3_inj b c : 0 ≤ b < 512 * 512 * 512 → 0 ≤ c < 512 * 512 * 512 → path3 b = path3 c → b = c.
Proof. unfold path3. intros ?? [= H1 H2 H3]. Z.to_euclidean_division_equations; lia. Qed.

(** ** Blocks of a level *)

(** The numbers of the blocks of [sz] bytes that [n] pages from [base] meet. *)
Definition blocks (base sz : Z) (n : nat) : list Z :=
  seqZ (base `div` sz) ((base + Z.of_nat n * PAGE_SIZE - 1) `div` sz - base `div` sz + 1).

Lemma elem_of_blocks base k n b : base `mod` PAGE_SIZE = 0 → 0 ≤ k → (0 < n)%nat →
  b ∈ blocks base (PAGE_SIZE * k) n ↔ ∃ j, (j < n)%nat ∧ page_va base j `div` (PAGE_SIZE * k) = b.
Proof.
  intros Hal Hk Hn. unfold blocks, page_va. rewrite elem_of_seqZ.
  destruct (decide (k = 0)) as [->|Hk0].
  { rewrite Z.mul_0_r, !Zdiv_0_r. split; [|intros (j & _ & <-); rewrite Zdiv_0_r; lia].
    intros ?. exists 0%nat. rewrite Zdiv_0_r. lia. }
  assert (0 < PAGE_SIZE * k) as Hsz by (unfold PAGE_SIZE; lia).
  set (e := base + Z.of_nat n * PAGE_SIZE - 1). split.
  - intros [Hlo Hhi]. destruct (decide (b = base `div` (PAGE_SIZE * k))) as [->|Hne].
    { exists 0%nat. split; [done|]. f_equal. lia. }
    assert (Hb : base < b * (PAGE_SIZE * k)).
    { pose proof (Z.mul_succ_div_gt base (PAGE_SIZE * k) Hsz). nia. }
    assert (He : b * (PAGE_SIZE * k) ≤ e).
    { pose proof (Z.mul_div_le e (PAGE_SIZE * k) Hsz). nia. }
    assert (Hj : base + (b * k - base `div` PAGE_SIZE) * PAGE_SIZE = b * (PAGE_SIZE * k)).
    { pose proof (Z.div_mod base PAGE_SIZE). unfold PAGE_SIZE in *. lia. }
    assert (0 ≤ b * k - base `div` PAGE_SIZE) by (unfold PAGE_SIZE in *; lia).
    exists (Z.to_nat (b * k - base `div` PAGE_SIZE)). rewrite Z2Nat.id, Hj, Z.div_mul by lia.
    split; [|done]. subst e. unfold PAGE_SIZE in *. lia.
  - intros (j & Hj & <-).
    assert (base ≤ base + Z.of_nat j * PAGE_SIZE ≤ e) as [H1 H2] by (subst e; unfold PAGE_SIZE; lia).
    pose proof (Z.div_le_mono _ _ _ Hsz H1). pose proof (Z.div_le_mono _ _ _ Hsz H2). lia.
Qed.

Lemma length_blocks base sz n : 0 < sz → (0 < n)%nat →
  Z.of_nat (length (blocks base sz n)) = (base + Z.of_nat n * PAGE_SIZE - 1) `div` sz - base `div` sz + 1.
Proof.
  intros Hsz Hn. unfold blocks. rewrite length_seqZ, Z2Nat.id; [done|].
  assert (base ≤ base + Z.of_nat n * PAGE_SIZE - 1) as H by (unfold PAGE_SIZE; lia).
  pose proof (Z.div_le_mono _ _ _ Hsz H). lia.
Qed.

Lemma blocks_bound base sz n b m : 0 < sz → 0 ≤ base → base + Z.of_nat n * PAGE_SIZE ≤ sz * m →
  b ∈ blocks base sz n → 0 ≤ b < m.
Proof.
  unfold blocks. rewrite elem_of_seqZ. intros Hsz Hb Hm [H1 H2].
  pose proof (Z.div_pos base sz Hb Hsz).
  assert ((base + Z.of_nat n * PAGE_SIZE - 1) `div` sz < m); [|lia].
  apply Z.div_lt_upper_bound; lia.
Qed.

(** ** The count *)

Section count.
  Context (base : Z) (n : nat).
  Context (Hal : base `mod` PAGE_SIZE = 0) (H0 : 0 ≤ base) (Hn : (0 < n)%nat).
  Context (Hlim : base + Z.of_nat n * PAGE_SIZE ≤ 2 ^ 48).

Lemma run_tables_levels :
  run_tables base n ≡ₚ (path1 <$> blocks base (2 ^ 39) n) ++ (path2 <$> blocks base (2 ^ 30) n)
                       ++ (path3 <$> blocks base (2 ^ 21) n).
Proof.
  assert (Hnd : ∀ (f : Z → list Z) sz m, 0 < sz → base + Z.of_nat n * PAGE_SIZE ≤ sz * m →
    (∀ b c, 0 ≤ b < m → 0 ≤ c < m → f b = f c → b = c) → NoDup (f <$> blocks base sz n)).
  { intros f sz m Hsz Hm Hinj. apply NoDup_fmap_2_strong; [|apply NoDup_seqZ]. intros b c Hb Hc.
    apply Hinj; by eapply blocks_bound. }
  apply NoDup_Permutation; [apply NoDup_remove_dups| |].
  - apply NoDup_app. split; [|split; [|apply NoDup_app; split; [|split]]].
    + apply Hnd with 512; [done|lia|apply path1_inj].
    + intros p (b & -> & _)%list_elem_of_fmap. rewrite elem_of_app, !list_elem_of_fmap. by intros [(c & ? & _)|(c & ? & _)].
    + apply Hnd with (512 * 512); [done|lia|apply path2_inj].
    + intros p (b & -> & _)%list_elem_of_fmap. rewrite list_elem_of_fmap. by intros (c & ? & _).
    + apply Hnd with (512 * 512 * 512); [done|lia|apply path3_inj].
  - intros p. rewrite elem_of_run_tables, !elem_of_app, !list_elem_of_fmap.
    change (2 ^ 39) with (PAGE_SIZE * 2 ^ 27). change (2 ^ 30) with (PAGE_SIZE * 2 ^ 18).
    change (2 ^ 21) with (PAGE_SIZE * 2 ^ 9).
    setoid_rewrite elem_of_blocks; [|done..].
    setoid_rewrite va_tables_blocks. setoid_rewrite list_elem_of_In. cbn [In]. split.
    + intros (j & Hj & [<-|[<-|[<-|[]]]]); [left|right; left|right; right]; (eexists; split; [reflexivity|by exists j]).
    + intros [(b & -> & j & Hj & <-)|[(b & -> & j & Hj & <-)|(b & -> & j & Hj & <-)]]; exists j; (split; [done|]); auto.
Qed.

Lemma run_tables_length ip sp : 0 ≤ ip → 0 ≤ sp → Z.of_nat n = ip + sp →
  intermediate_frame_count base ip sp = Z.of_nat (length (run_tables base n)).
Proof.
  intros Hip Hsp Hsum. rewrite run_tables_levels, !length_app, !length_fmap, !Nat2Z.inj_add.
  rewrite !length_blocks by done. rewrite Hsum in *. unfold intermediate_frame_count.
  unfold PAGE_SIZE in *. set (last := base + (ip + sp) * 4096 - 1).
  assert (base ≤ last < 2 ^ 48) as [Hl Hl'] by (subst last; lia).
  assert (Hs : ∀ k, 0 ≤ k → 0 ≤ Z.shiftr base k ≤ Z.shiftr last k ∧ Z.shiftr last k < 2 ^ 48).
  { intros k Hk. rewrite !Z.shiftr_div_pow2 by done. assert (0 < 2 ^ k) as Hp by lia.
    pose proof (Z.div_le_mono _ _ _ Hp Hl). pose proof (Z.div_pos base (2 ^ k) H0 Hp).
    assert (last `div` 2 ^ k ≤ last) by (apply Z.div_le_upper_bound; nia). lia. }
  pose proof (Hs 21 ltac:(done)) as H21. pose proof (Hs 30 ltac:(done)) as H30.
  pose proof (Hs 39 ltac:(done)) as H39. clear Hs.
  assert (U64_MAX = 2 ^ 64 - 1) as HU by done. cbv zeta.
  rewrite (saturating_add64_eq ip sp), bool_decide_false by lia.
  rewrite (saturating_mul64_eq (ip + sp)), (saturating_add64_eq base), (saturating_sub64_eq (base + _)) by lia.
  fold last. rewrite !(saturating_sub64_eq (Z.shiftr last _)) by lia.
  rewrite !(saturating_add64_eq (_ - _) 1) by lia.
  rewrite (saturating_add64_eq (_ - _ + 1)), saturating_add64_eq by lia.
  rewrite !Z.shiftr_div_pow2 by done. lia.
Qed.
End count.

(** ** The tables of a tree by their paths *)

Definition paths (T : gmap Z (list Z)) : list (list Z) := (map_to_list T).*2.

Lemma elem_of_paths T p : p ∈ paths T ↔ has_path T p.
Proof.
  unfold paths, has_path. rewrite list_elem_of_fmap. split.
  - intros ([t p'] & -> & Ht%elem_of_map_to_list). by exists t.
  - intros [t Ht]. exists (t, p). split; [done|]. by apply elem_of_map_to_list.
Qed.

Lemma length_paths T : length (paths T) = size T.
Proof. unfold paths. by rewrite length_fmap, length_map_to_list. Qed.

(** A path leads to one table. *)
Lemma NoDup_paths m rt T : PT m rt T → NoDup (paths T).
Proof.
  intros HP. apply NoDup_fmap_2_strong; [|apply NoDup_map_to_list].
  intros [t p] [t' p'] Ht%elem_of_map_to_list Ht'%elem_of_map_to_list. cbn. intros ->. f_equal.
  apply (pt_reach _ _ _ HP) in Ht, Ht'. congruence.
Qed.

Lemma root_not_run base n : [] ∉ run_tables base n.
Proof. intros (j & _ & Hp)%elem_of_run_tables. unfold va_tables, va_path in Hp. set_solver. Qed.

Section tree.
  Context (m : Mem) (rt : Z) (T : gmap Z (list Z)) (HP : PT m rt T) (base : Z) (n : nat).
Let needed := [] :: run_tables base n.

Lemma needed_NoDup : NoDup needed.
Proof. apply NoDup_cons. split; [apply root_not_run|apply NoDup_remove_dups]. Qed.

Lemma tables_le : (∀ p, has_path T p → p = [] ∨ p ∈ run_tables base n) → (size T ≤ 1 + length (run_tables base n))%nat.
Proof.
  intros Hsub. rewrite <- length_paths. apply (submseteq_length _ needed).
  apply NoDup_submseteq; [by apply (NoDup_paths m rt)|]. intros p Hp%elem_of_paths. apply elem_of_cons. auto.
Qed.

(** A tree that lacks one of them is smaller. *)
Lemma tables_lt p : (∀ q, has_path T q → q = [] ∨ q ∈ run_tables base n) → p ∈ run_tables base n → ¬ has_path T p →
  (size T ≤ length (run_tables base n))%nat.
Proof.
  intros Hsub Hp Hnp. rewrite <- length_paths. apply le_S_n. change (S (length (run_tables base n))) with (length needed).
  change (S (length (paths T))) with (length (p :: paths T)). apply submseteq_length, NoDup_submseteq.
  - apply NoDup_cons. split; [by rewrite elem_of_paths|by apply (NoDup_paths m rt)].
  - intros q [->|Hq%elem_of_paths]%elem_of_cons; apply elem_of_cons; auto.
Qed.

Lemma tables_ge : (∀ p, p ∈ run_tables base n → has_path T p) → (1 + length (run_tables base n) ≤ size T)%nat.
Proof.
  intros Hsub. rewrite <- length_paths. change (1 + length (run_tables base n))%nat with (length needed).
  apply submseteq_length, NoDup_submseteq; [apply needed_NoDup|].
  intros q [->|Hq]%elem_of_cons; apply elem_of_paths; [|by apply Hsub]. exists rt. apply HP.
Qed.
End tree.

(** At least one table of each level, at most three for a page. *)
Lemma run_tables_bounds base n : (0 < n)%nat → (3 ≤ length (run_tables base n) ≤ 3 * n)%nat.
Proof.
  intros Hn. split.
  - apply (submseteq_length (va_tables base)), NoDup_submseteq.
    + rewrite va_tables_blocks. repeat constructor; set_solver.
    + intros p Hp. apply elem_of_run_tables. exists 0%nat. split; [done|]. unfold page_va. by rewrite Z.add_0_r.
  - assert (∀ l : list nat, length (l ≫= λ j, va_tables (page_va base j)) = 3 * length l)%nat as Hb.
    { induction l as [|j l IH]; [done|]. rewrite bind_cons, length_app, IH. cbn. lia. }
    rewrite <- (length_seq n 0) at 2. rewrite <- Hb. apply submseteq_length, NoDup_submseteq; [apply NoDup_remove_dups|].
    intros p. unfold run_tables. by rewrite elem_of_remove_dups.
Qed.

(** The loader's table budget is exact.  For a page-aligned base and [ip + sp]
    pages (at least one) whose span ends at or below [2^48], [intermediate_frame_count]
    saturates nowhere and is the number of distinct tables below the root on the
    paths of those pages, the paths the walk takes; it is at least 3 and at most 3 for
    each page.  Hence a tree of tables that holds exactly what the pages need has one
    table more than the count, and none that serves all of them has fewer. *)
Theorem intermediate_frame_count_exact base ip sp :
  base `mod` PAGE_SIZE = 0 → 0 ≤ base → 0 ≤ ip → 0 ≤ sp → 0 < ip + sp → base + (ip + sp) * PAGE_SIZE ≤ USERSPACE_VA_LIMIT →
  let n := Z.to_nat (ip + sp) in
  intermediate_frame_count base ip sp = Z.of_nat (length (run_tables base n)) ∧
  3 ≤ intermediate_frame_count base ip sp ≤ 3 * (ip + sp) ∧
  ∀ m rt T, PT m rt T → (∀ p, p ∈ run_tables base n → has_path T p) →
    1 + intermediate_frame_count base ip sp ≤ Z.of_nat (size T) ∧
    ((∀ p, has_path T p → p = [] ∨ p ∈ run_tables base n) →
     Z.of_nat (size T) = 1 + intermediate_frame_count base ip sp).
Proof.
  intros Hal H0 Hip Hsp Hpos Hlim n. change USERSPACE_VA_LIMIT with (2 ^ 48) in Hlim.
  assert (Hn : Z.of_nat n = ip + sp) by (apply Z2Nat.id; lia).
  rewrite <- Hn in Hlim. assert (0 < n)%nat as Hn0 by lia.
  pose proof (run_tables_length base n Hal H0 Hn0 Hlim ip sp Hip Hsp Hn) as Hc. split; [done|]. split.
  - rewrite Hc. pose proof (run_tables_bounds base n Hn0). lia.
  - intros m rt T HP Hall. pose proof (tables_ge m rt T HP base n Hall). split; [lia|].
    intros Hsub. pose proof (tables_le m rt T HP base n Hsub). lia.
Qed.

Lemma intermediate_frame_count_exact_witness :
  intermediate_frame_count 0x1ff000 1 2 = 4 ∧ length (run_tables 0x1ff000 3) = 4%nat.
Proof.
  destruct (intermediate_frame_count_exact 0x1ff000 1 2) as [Hc _]; [reflexivity|lia..|by vm_compute|].
  assert (intermediate_frame_count 0x1ff000 1 2 = 4) as H4 by reflexivity. split; [exact H4|].
  rewrite H4 in Hc. change (Z.to_nat (1 + 2)) with 3%nat in Hc. lia.
Defined.
