(* ===== verification/TaskLoaderInv.v ===== *)
(** * The loader's two loops

The invariant of a load in progress: which frames hold which pages, which tables
the new address space has, what is left of the budget.  One round of either loop
extends it by a page, so neither loop can run out of frames or meet a mapped page. *)

From stdpp Require Import gmap.
From S2P Require Import Prelude.
From S2P Require Import Hal.
From S2P Require Import Arena.
From S2P Require Import Objects.
From S2P Require Import Caps.
From S2P Require Import CapTable.
From S2P Require Import CapTableInv.
From S2P Require Import Ipc.
From S2P Require Import SyscallError.
From S2P Require Import UserAccess.
From S2P Require Import Pmm.
From S2P Require Import PmmInv.
From S2P Require Import Vmsav8.
From S2P Require Import QemuMmu.
From S2P Require Import QemuMmuInv.
From S2P Require Import QemuMmuOps.
From S2P Require Import QemuMmuProps.
From S2P Require Import AddressSpace.
From S2P Require Import AddressSpaceProps.
From S2P Require Import TaskLoader.
From S2P Require Import TaskTables.
Local Open Scope Z_scope.

(** What page [j] of a load holds at offset [k] and how it is mapped: the first [ip]
    pages the image, the others the stack. *)
Definition page_flags (ip j : nat) : MappingFlags := flags_union USER (if decide (j < ip)%nat then EXECUTE else WRITE).

Definition page_byte (m : Mem) (image : Slice) (ip j : nat) (k : Z) : Z :=
  let off := Z.of_nat j * PAGE_SIZE + k in
  if decide ((j < ip)%nat ∧ off < slice_len image) then m (as_ptr image + off) else 0.

Lemma page_flags_known ip j : known_flags (page_flags ip j) = page_flags ip j.
Proof. unfold page_flags. by case_decide; vm_compute. Qed.

Lemma page_of_va base j n : base `mod` PAGE_SIZE = 0 → 0 ≤ base → base + Z.of_nat n * PAGE_SIZE ≤ 2 ^ 48 → (j < n)%nat →
  page_of (page_va base j) = base `div` PAGE_SIZE + Z.of_nat j.
Proof.
  intros Hal H0 Hlim Hj. unfold page_of, page_va. rewrite Z.div_add by done. apply Z.mod_small.
  pose proof (Z.div_mod base PAGE_SIZE). unfold PAGE_SIZE in *.
  pose proof (Z.div_pos base 4096 H0). lia.
Qed.

(** Bytes of a write. *)
Lemma write_bytes_spec m dst src cnt a : write_bytes m dst (read_bytes m src cnt) a =
  if decide (dst ≤ a < dst + Z.of_nat cnt) then m (src + (a - dst)) else m a.
Proof.
  unfold write_bytes, read_bytes. case_bool_decide as Hle; [|rewrite decide_False by lia; done].
  rewrite list_lookup_fmap. case_decide as Hd.
  - rewrite lookup_seq_lt by lia. cbn [fmap option_fmap option_map]. f_equal. lia.
  - rewrite lookup_seq_ge by lia. done.
Qed.

Section load.
  Context `{Build}.
  Context (s0 : MmState QemuVirtAddressSpace Pmm) (used0 : gset Z) (tb : CapabilityTable).
  Context (h : CapHandle) (hd : AddressSpaceHandle) (rt : Z).
  Context (image : Slice) (base : Z) (ip n : nat).
  Implicit Types (s : MmState QemuVirtAddressSpace Pmm) (T : gmap Z (list Z)) (L X : list Z).

(** The frames spoken for: those in use before, the tables, the pages [G]. *)
Definition held T (G : list Z) : gset Z := list_to_set G ∪ (used0 ∪ dom T).

(** [L] holds the pages loaded so far, [X] the frame in hand. *)
Record loading T L X s : Prop := {
  ld_ok : mm_ok s (held T (L ++ X));
  ld_space : space_of s hd rt T (held T (L ++ X));
  ld_apart : dom T ## used0;
  ld_own : ∀ f, f ∈ L ++ X → table_ok f ∧ f ∉ used0 ∧ f ∉ dom T;
  ld_nodup : NoDup (L ++ X);
  ld_table : table s = tb;
  ld_arena : ∀ hd', hd' ≠ hd → get_address_space (as_arena s) hd' = get_address_space (as_arena s0) hd';
  ld_keep : ∀ a, (∀ t, t ∈ dom T ∨ t ∈ L ++ X → ¬ in_frame t a) → memory s a = memory s0 a;
  ld_count : (size T + length (L ++ X) + pmm_free (provider s) = pmm_free (provider s0))%nat;
  ld_paths : ∀ p, has_path T p → p = [] ∨ ∃ j, (j < length L)%nat ∧ p ∈ va_tables (page_va base j);
  ld_all : ∀ j p, (j < length L)%nat → p ∈ va_tables (page_va base j) → has_path T p;
  ld_pages : ∀ j f, L !! j = Some f →
    xlate (memory s) rt (page_va base j) = Ok ({| frame_addr := f |}, page_flags ip j);
  ld_rest : ∀ v, (∀ j, (j < length L)%nat → page_of v ≠ page_of (page_va base j)) → xlate (memory s) rt v = Err NotMapped;
  ld_bytes : ∀ j f k, L !! j = Some f → 0 ≤ k < PAGE_SIZE →
    memory s (KERNEL_HIGH_HALF_OFFSET + f + k) = page_byte (memory s0) image ip j k;
}.

Lemma ld_pt T L X s : loading T L X s → PT (memory s) rt T.
Proof. intros Hl. apply (sp_pt _ _ _ _ (so_space _ _ _ _ _ (ld_space _ _ _ _ Hl))). Qed.

Lemma in_frame_at f k : 0 ≤ k < PAGE_SIZE → in_frame f (KERNEL_HIGH_HALF_OFFSET + f + k).
Proof. unfold in_frame. lia. Qed.

(** Frames in hand come and their contents change; pages and tables stay. *)
Lemma loading_change T L X X' s p' m' : loading T L X s →
  (∀ a, (∀ x, x ∈ X' → ¬ in_frame x a) → m' a = memory s a) → (∀ x, x ∈ X → x ∈ X') →
  pmm_holds p' (held T (L ++ X')) →
  (length X + pmm_free (provider s) = length X' + pmm_free p')%nat →
  (∀ f, f ∈ X' → table_ok f ∧ f ∉ used0 ∧ f ∉ dom T ∧ f ∉ L) → NoDup X' →
  loading T L X' (set_phys p' m' s).
Proof.
  intros Hl Hm HX Hp Hc Hown Hnd. pose proof (ld_pt _ _ _ _ Hl) as HP.
  destruct (ld_ok _ _ _ _ Hl) as [Ht Ha _].
  assert (HT : ∀ a t, is_Some (T !! t) → in_frame t a → m' a = memory s a).
  { intros a t [p Htp] Hta. apply Hm. intros x Hx Hxa. destruct (Hown x Hx) as (Hok & _ & Hd & _).
    destruct (pt_table _ _ _ HP _ _ Htp) as [Htok _].
    apply (frames_disjoint t x a Htok Hok); [|done|done]. intros <-. apply Hd, elem_of_dom. by eexists. }
  destruct (PT_ext (memory s) m' rt T HP HT) as [HP' Hx].
  assert (HLX : ∀ f, f ∈ L → f ∈ L ++ X) by (intros; apply elem_of_app; auto).
  split; cbn [set_phys table as_arena provider memory].
  - by split.
  - split; [apply (ld_space _ _ _ _ Hl)|]. split; cbn; [done|done|unfold held; set_solver].
  - apply (ld_apart _ _ _ _ Hl).
  - intros f [Hf|Hf]%elem_of_app; [apply (ld_own _ _ _ _ Hl); auto|]. by destruct (Hown f Hf) as (? & ? & ? & _).
  - pose proof (ld_nodup _ _ _ _ Hl) as (HL & _ & _)%NoDup_app. apply NoDup_app. split; [done|]. split; [|done].
    intros f Hf Hf'. by destruct (Hown f Hf') as (_ & _ & _ & ?).
  - apply (ld_table _ _ _ _ Hl).
  - apply (ld_arena _ _ _ _ Hl).
  - intros a Hna. rewrite Hm.
    + apply (ld_keep _ _ _ _ Hl). intros t [Ht'|[Ht'|Ht']%elem_of_app]; apply Hna; auto; right; apply elem_of_app; auto.
    + intros x Hx'. apply Hna. right. apply elem_of_app. auto.
  - pose proof (ld_count _ _ _ _ Hl) as Hn. rewrite length_app in *. lia.
  - apply (ld_paths _ _ _ _ Hl).
  - apply (ld_all _ _ _ _ Hl).
  - intros j f Hj. rewrite Hx. by apply (ld_pages _ _ _ _ Hl).
  - intros v Hv. rewrite Hx. by apply (ld_rest _ _ _ _ Hl).
  - intros j f k Hj Hk. rewrite Hm; [by apply (ld_bytes _ _ _ _ Hl)|]. intros x Hx' Hxa.
    destruct (Hown x Hx') as (Hok & _ & _ & HnL). apply list_elem_of_lookup_2 in Hj.
    destruct (ld_own _ _ _ _ Hl f) as (Hokf & _); [by apply HLX|].
    apply (frames_disjoint f x (KERNEL_HIGH_HALF_OFFSET + f + k) Hokf Hok); [congruence|by apply in_frame_at|done].
Qed.

(** ** One round *)

Context (Hal : base `mod` PAGE_SIZE = 0) (H0 : 0 ≤ base) (Hlim : base + Z.of_nat n * PAGE_SIZE ≤ 2 ^ 48).
Context (Hres : resolve_address_space_cap tb h = Some (Ok hd)).
Context (Hbudget : (1 + n + length (run_tables base n) ≤ pmm_free (provider s0))%nat).

Lemma loading_paths T L X s : loading T L X s → (length L ≤ n)%nat →
  ∀ p, has_path T p → p = [] ∨ p ∈ run_tables base n.
Proof.
  intros Hl Hn p Hp. destruct (ld_paths _ _ _ _ Hl p Hp) as [?|(j & Hj & Hp')]; [by left|]. right.
  apply elem_of_run_tables. exists j. split; [lia|done].
Qed.

Lemma loader_alloc_eq {E} s : loader_alloc (E := E) s =
  match provide_frame (provider s) (memory s) with
  | None => None
  | Some (p, m, r) => Some (set_phys p m s, Ok r)
  end.
Proof.
  unfold loader_alloc, provide_frame, Pmm_FrameProvider.
  by destruct (alloc_frame _) as [[st [f|e]]|].
Qed.

(** The budget leaves a frame for every page. *)
Lemma alloc_wp {E} T L s : loading T L [] s → (length L < n)%nat →
  wp (loader_alloc (E := E)) s (λ s' r, ∃ f, r = Ok (Some f) ∧ loading T L [frame_addr f] s' ∧
    ∀ k, 0 ≤ k < PAGE_SIZE → memory s' (KERNEL_HIGH_HALF_OFFSET + frame_addr f + k) = 0).
Proof.
  intros Hl Hn. red. rewrite loader_alloc_eq. destruct (ld_ok _ _ _ _ Hl) as [_ _ Hf].
  pose proof (fp_law _ _ (memory s) Hf) as Hlaw.
  destruct (provide_frame (provider s) (memory s)) as [[[p m] [f|]]|]; [| |done].
  2:{ destruct Hlaw as (_ & _ & Hz). exfalso. pose proof (ld_count _ _ _ _ Hl) as Hc. cbn [fp_free] in Hz.
      change (pmm_free (provider s) = 0%nat) in Hz.
      pose proof (tables_le _ _ _ (ld_pt _ _ _ _ Hl) base n (loading_paths _ _ _ _ Hl ltac:(lia))).
      rewrite app_nil_r in Hc. lia. }
  destruct Hlaw as (Hfree & Hinv & Hnew & Hok & Hm). rewrite app_nil_r in *. exists f. split; [done|].
  unfold held in Hnew. split.
  - apply (loading_change T L [] [frame_addr f] s); try done.
    + intros a Ha. rewrite Hm, decide_False; [done|]. apply Ha. by left.
    + by intros x ?%elem_of_nil.
    + change (pmm_holds p (held T (L ++ [frame_addr f]))).
      replace (held T (L ++ [frame_addr f])) with ({[frame_addr f]} ∪ held T L); [done|].
      unfold held. rewrite list_to_set_app_L. set_solver.
    + intros g ->%list_elem_of_singleton. set_solver.
    + apply NoDup_singleton.
  - intros k Hk. cbn [set_phys memory]. rewrite Hm, decide_True; [done|]. by apply in_frame_at.
Qed.

(** A copy fills the frame in hand. *)
Lemma copy_wp {E} T L s f src cnt : loading T L [frame_addr f] s → (Z.of_nat cnt ≤ PAGE_SIZE) →
  wp (copy_to_frame (E := E) src f cnt) s (λ s' r, r = Ok tt ∧ loading T L [frame_addr f] s' ∧
    ∀ k, 0 ≤ k < PAGE_SIZE → memory s' (KERNEL_HIGH_HALF_OFFSET + frame_addr f + k) =
      if decide (k < Z.of_nat cnt) then memory s (src + k) else memory s (KERNEL_HIGH_HALF_OFFSET + frame_addr f + k)).
Proof.
  intros Hl Hc. red. unfold copy_to_frame, phys_frame_kernel_ptr.
  destruct (ld_own _ _ _ _ Hl (frame_addr f)) as (Hok & Hnu & Hnd); [set_solver|].
  rewrite phys_to_kernel_va_Some by apply Hok. split; [done|]. split.
  - pose proof (ld_nodup _ _ _ _ Hl) as (_ & HL & _)%NoDup_app.
    apply (loading_change T L [frame_addr f] [frame_addr f] s); try done.
    + intros a Ha. rewrite write_bytes_spec, decide_False; [done|]. specialize (Ha (frame_addr f)).
      unfold in_frame in Ha. intros ?. apply Ha; [by left|lia].
    + apply (ld_ok _ _ _ _ Hl).
    + intros g ->%list_elem_of_singleton. do 3 (split; [done|]). intros Hg. apply (HL _ Hg). by left.
    + apply NoDup_singleton.
  - intros k Hk. cbn [set_phys memory]. rewrite write_bytes_spec. repeat case_decide; try lia; f_equal; lia.
Qed.

Lemma page_va_apart j v : (j < n)%nat → (∀ i, (i < S j)%nat → page_of v ≠ page_of (page_va base i)) →
  page_of v ≠ page_of (page_va base j) ∧ ∀ i, (i < j)%nat → page_of v ≠ page_of (page_va base i).
Proof. intros Hj Hv. split; [apply Hv; lia|]. intros i Hi. apply Hv. lia. Qed.

Lemma page_va_ne i j : (i < n)%nat → (j < n)%nat → i ≠ j → page_of (page_va base i) ≠ page_of (page_va base j).
Proof. intros Hi Hj Hne. rewrite !(page_of_va base _ n) by done. lia. Qed.

(** The failures of [cap_map] that a load rules out. *)
Lemma map_cannot_fail T T' L s s' f e : loading T L [frame_addr f] s → (length L < n)%nat →
  PT (memory s') rt T' → accounted (held T (L ++ [frame_addr f])) T (provider s) T' (provider s')
    (λ p, p ∈ va_tables (page_va base (length L))) →
  match e with
  | MmuMapError MisalignedAddress => page_va base (length L) `mod` PAGE_SIZE ≠ 0
  | MmuMapError InvalidFlags => flags_contains (page_flags ip (length L)) DEVICE = true ∧
                                flags_contains (page_flags ip (length L)) EXECUTE = true
  | MmuMapError AlreadyMapped => xlate (memory s) rt (page_va base (length L)) ≠ Err NotMapped
  | MmuMapError OutOfFrames => xlate (memory s) rt (page_va base (length L)) = Err NotMapped ∧
      fp_free (provider s') = 0%nat ∧ ∃ p, p ∈ va_tables (page_va base (length L)) ∧ ¬ has_path T' p
  | _ => False
  end → False.
Proof.
  intros Hl Hn HP' Hac. destruct e as [x| | | |x|x]; try done. destruct x as [| | | | |]; try done.
  - intros Hx. apply Hx, (ld_rest _ _ _ _ Hl). intros j Hj. apply page_va_ne; lia.
  - intros Hx. apply Hx. unfold page_va. by rewrite Z.mod_add.
  - intros (_ & Hz & p & Hp & Hnp). change (pmm_free (provider s') = 0%nat) in Hz.
    assert (Hpr : p ∈ run_tables base n) by (apply elem_of_run_tables; by exists (length L)).
    assert (Hsub : ∀ q, has_path T' q → q = [] ∨ q ∈ run_tables base n).
    { intros q Hq. destruct (ac_paths _ _ _ _ _ _ Hac q Hq) as [Hq'|Hq'].
      - apply (loading_paths _ _ _ _ Hl); [lia|done].
      - right. apply elem_of_run_tables. by exists (length L). }
    pose proof (tables_lt _ _ _ HP' base n p Hsub Hpr Hnp) as Hlt.
    pose proof (ac_free _ _ _ _ _ _ Hac) as Hfr. pose proof (ld_count _ _ _ _ Hl) as Hc.
    cbn [fp_free Pmm_FrameProviderSpec] in Hfr. rewrite length_app in Hc. cbn [length] in Hc.
    change (size T' + pmm_free (provider s') = size T + pmm_free (provider s))%nat in Hfr. lia.
  - unfold page_flags. case_decide; by intros [? ?].
Qed.

(** The tables of a mapping are fresh: apart from the frames in use before the load,
    and from the pages of the load. *)
Lemma new_tables_apart T T' X L s p' ps : loading T L X s →
  accounted (held T (L ++ X)) T (provider s) T' p' ps →
  ∀ t, t ∈ dom T' → t ∉ used0 ∧ t ∉ L ++ X.
Proof.
  intros Hl Hac t Ht. pose proof (ld_apart _ _ _ _ Hl).
  destruct (ac_fresh _ _ _ _ _ _ Hac t Ht) as [Hd|Hd].
  - split; [set_solver|]. intros Hin. by destruct (ld_own _ _ _ _ Hl t Hin) as (_ & _ & ?).
  - unfold held in Hd. set_solver.
Qed.

(** What lies in a frame that is no table of [T'] is kept when only tables of [T'] change. *)
Lemma page_kept T' m m' g k : PT m' rt T' → table_ok g → g ∉ dom T' → 0 ≤ k < PAGE_SIZE →
  (∀ a, (∀ t, is_Some (T' !! t) → ¬ in_frame t a) → m' a = m a) →
  m' (KERNEL_HIGH_HALF_OFFSET + g + k) = m (KERNEL_HIGH_HALF_OFFSET + g + k).
Proof.
  intros HP Hg Hd Hk Hkeep. apply Hkeep. intros t [q Hq] Ha.
  destruct (pt_table _ _ _ HP _ _ Hq) as [Ht _].
  apply (frames_disjoint g t (KERNEL_HIGH_HALF_OFFSET + g + k) Hg Ht); [|by apply in_frame_at|done].
  intros ->. apply Hd, elem_of_dom. by eexists.
Qed.

(** The page is mapped, the frame in hand becomes its frame. *)
Lemma map_page_wp T L s f undo : loading T L [frame_addr f] s → (length L < n)%nat →
  (∀ k, 0 ≤ k < PAGE_SIZE →
     memory s (KERNEL_HIGH_HALF_OFFSET + frame_addr f + k) = page_byte (memory s0) image ip (length L) k) →
  wp (map_page (H0 := QemuVirtMmu) h (page_va base (length L)) f (page_flags ip (length L)) undo) s
    (λ s' r, r = Ok tt ∧ ∃ T', loading T' (L ++ [frame_addr f]) [] s').
Proof.
  intros Hl Hn Hbytes. set (v := page_va base (length L)). unfold map_page. wp_bind. apply wp_attempt.
  destruct (ld_own _ _ _ _ Hl (frame_addr f)) as ((Hfal & Hfr) & Hfu & Hfd); [set_solver|].
  eapply wp_mono.
  { apply (cap_map_wp s _ h hd rt T v f (page_flags ip (length L)) (ld_ok _ _ _ _ Hl) (ld_space _ _ _ _ Hl)); [|done|lia].
    by rewrite (ld_table _ _ _ _ Hl). }
  intros s' [[]|e] (T' & Hok & Hso & Hsub & Htb & Hget & Hkeep & Hac & Hr).
  2:{ destruct Hr as (_ & _ & Hr). exfalso.
      apply (map_cannot_fail T T' L s s' f e Hl Hn); [|done|done].
      apply (sp_pt _ _ _ _ (so_space _ _ _ _ _ Hso)). }
  destruct Hr as (_ & Hall & _ & Hxv & Hxo). rewrite page_flags_known in Hxv. red. cbn [ret]. split; [done|]. exists T'.
  pose proof (subseteq_dom T T' Hsub) as Hdom.
  assert (Hheld : held T (L ++ [frame_addr f]) ∪ dom T' = held T' ((L ++ [frame_addr f]) ++ [])).
  { rewrite app_nil_r. unfold held. set_solver. }
  rewrite Hheld in Hok, Hso.
  assert (Hlen : length (L ++ [frame_addr f]) = S (length L)) by (rewrite length_app; cbn; lia).
  pose proof (new_tables_apart _ _ _ _ _ _ _ Hl Hac) as Hnew.
  assert (HP' : PT (memory s') rt T') by apply (sp_pt _ _ _ _ (so_space _ _ _ _ _ Hso)).
  split; rewrite ?app_nil_r; try done.
  - by rewrite app_nil_r in Hok.
  - by rewrite app_nil_r in Hso.
  - intros t Ht Hu. by apply Hnew in Ht as [? _].
  - intros g Hg. destruct (ld_own _ _ _ _ Hl g Hg) as (? & ? & _). do 2 (split; [done|]). intros Hd. by apply Hnew in Hd as [_ ?].
  - apply (ld_nodup _ _ _ _ Hl).
  - rewrite Htb. apply (ld_table _ _ _ _ Hl).
  - intros hd' Hne. rewrite Hget. by apply (ld_arena _ _ _ _ Hl).
  - intros a Ha. rewrite Hkeep.
    + apply (ld_keep _ _ _ _ Hl). intros t [Ht|Ht]; apply Ha; set_solver.
    + intros t Ht. apply Ha. left. by apply elem_of_dom.
  - pose proof (ac_free _ _ _ _ _ _ Hac) as Hc. pose proof (ld_count _ _ _ _ Hl) as Hc'.
    change (size T' + pmm_free (provider s') = size T + pmm_free (provider s))%nat in Hc. lia.
  - intros p Hp. rewrite Hlen. destruct (ac_paths _ _ _ _ _ _ Hac p Hp) as [Hp'|Hp'].
    + destruct (ld_paths _ _ _ _ Hl p Hp') as [?|(j & Hj & ?)]; [by left|]. right. exists j. split; [lia|done].
    + right. exists (length L). split; [lia|done].
  - intros j p Hj Hp. rewrite Hlen in Hj. destruct (decide (j = length L)) as [->|]; [by apply Hall|].
    destruct (ld_all _ _ _ _ Hl j p) as [t Ht]; [lia|done|]. exists t. by eapply lookup_weaken.
  - intros j g [Hj|[-> [= <-]]]%lookup_snoc_Some; [|by destruct f].
    destruct Hj as [Hj Hg]. change (j < @length Z L)%nat in Hj. rewrite Hxo; [by apply (ld_pages _ _ _ _ Hl)|]. apply page_va_ne; lia.
  - intros w Hw. rewrite Hlen in Hw. destruct (page_va_apart _ _ Hn Hw) as [Hw1 Hw2].
    rewrite Hxo by done. by apply (ld_rest _ _ _ _ Hl).
  - intros j g k Hj Hk. pose proof (list_elem_of_lookup_2 _ _ _ Hj) as Hin.
    rewrite (page_kept T' (memory s) (memory s') g k HP'); [|apply (ld_own _ _ _ _ Hl g Hin)| |done|done].
    + apply lookup_snoc_Some in Hj as [[Hj Hg]|[-> [= <-]]]; [by apply (ld_bytes _ _ _ _ Hl)|by apply Hbytes].
    + intros Hd. by apply Hnew in Hd as [_ ?].
Qed.

(** ** The loops *)

Lemma page_va_saturating j : (j < n)%nat →
  saturating_add64 base (saturating_mul64 (Z.of_nat j) PAGE_SIZE) = page_va base j.
Proof.
  intros Hj. assert (U64_MAX = 2 ^ 64 - 1) as HU by done. unfold PAGE_SIZE in *.
  rewrite saturating_mul64_eq, saturating_add64_eq by lia. done.
Qed.

Lemma image_loop_wp r sb : ∀ T L s, loading T L [] s → (length L + r = ip)%nat → (ip ≤ n)%nat →
  Z.of_nat ip = div_ceil (slice_len image) PAGE_SIZE → 0 < slice_len image →
  (∀ k, 0 ≤ k < slice_len image → ∃ t, t ∈ used0 ∧ table_ok t ∧ in_frame t (as_ptr image + k)) →
  wp (image_loop (H0 := QemuVirtMmu) r (Z.of_nat (length L)) image h base sb (Z.of_nat (length L))) s
    (λ s' x, x = Ok (Z.of_nat ip) ∧ ∃ T' L', length L' = ip ∧ loading T' L' [] s').
Proof.
  induction r as [|r IH]; intros T L s Hl Hlen Hn Hip Hpos Himg; cbn [image_loop].
  { red. cbn [ret]. split; [f_equal; lia|]. exists T, L. split; [lia|done]. }
  assert (Hj : (length L < ip)%nat) by lia. assert (Hjn : (length L < n)%nat) by lia.
  wp_bind. eapply wp_mono; [by apply (alloc_wp T L s)|]. intros s1 x (f & -> & Hl1 & Hz). cbn beta iota.
  set (off := Z.of_nat (length L) * PAGE_SIZE).
  assert (Hoff : 0 ≤ off < slice_len image).
  { subst off. unfold div_ceil, PAGE_SIZE in *. Z.to_euclidean_division_equations; lia. }
  wp_bind. eapply wp_mono; [apply (copy_wp T L s1 f _ _ Hl1); unfold PAGE_SIZE; lia|]. intros s2 x (-> & Hl2 & Hb).
  rewrite Z2Nat.id in Hb by (unfold PAGE_SIZE; lia).
  wp_bind. rewrite page_va_saturating by done.
  replace (flags_union USER EXECUTE) with (page_flags ip (length L)) by (unfold page_flags; by rewrite decide_True).
  eapply wp_mono; [apply (map_page_wp T L s2 f _ Hl2 Hjn)|].
  { intros k Hk. rewrite Hb by done. unfold page_byte. fold off. case_decide as Hd.
    - rewrite decide_True by lia. replace (as_ptr image + off + k) with (as_ptr image + (off + k)) by lia.
      apply (ld_keep _ _ _ _ Hl1). intros t Ht Ha. destruct (Himg (off + k)) as (u & Hu & Huok & Hua); [lia|].
      assert (table_ok t ∧ t ∉ used0) as [Htok Htu].
      { destruct Ht as [Ht|Ht].
        - split; [|by intros ?; apply (ld_apart _ _ _ _ Hl1 t)]. apply elem_of_dom in Ht as [q Hq].
          apply (pt_table _ _ _ (ld_pt _ _ _ _ Hl1) _ _ Hq).
        - destruct (ld_own _ _ _ _ Hl1 t Ht) as (? & ? & _). done. }
      apply (frames_disjoint u t (as_ptr image + (off + k)) Huok Htok); [by intros <-|exact Hua|exact Ha].
    - rewrite decide_False by lia. by apply Hz. }
  intros s3 x (-> & T' & Hl3). rewrite saturating_add64_eq by (unfold U64_MAX, PAGE_SIZE in *; lia).
  replace (Z.of_nat (length L) + 1) with (Z.of_nat (length (L ++ [frame_addr f]))) by (rewrite length_app; cbn; lia).
  apply (IH T'); try done. rewrite length_app. cbn. lia.
Qed.

Lemma stack_loop_wp r : ∀ T L s, loading T L [] s → (ip ≤ length L)%nat → (length L + r = n)%nat →
  wp (stack_loop (H0 := QemuVirtMmu) r (Z.of_nat (length L - ip)) h base (base + Z.of_nat ip * PAGE_SIZE) (Z.of_nat ip)
      (Z.of_nat (length L - ip))) s
    (λ s' x, x = Ok tt ∧ ∃ T' L', length L' = n ∧ loading T' L' [] s').
Proof.
  induction r as [|r IH]; intros T L s Hl Hip Hlen; cbn [stack_loop].
  { red. cbn [ret]. split; [done|]. exists T, L. split; [lia|done]. }
  assert (Hjn : (length L < n)%nat) by lia.
  wp_bind. eapply wp_mono; [by apply (alloc_wp T L s)|]. intros s1 x (f & -> & Hl1 & Hz). cbn beta iota.
  wp_bind.
  assert (saturating_add64 (base + Z.of_nat ip * PAGE_SIZE) (saturating_mul64 (Z.of_nat (length L - ip)) PAGE_SIZE)
          = page_va base (length L)) as ->.
  { assert (U64_MAX = 2 ^ 64 - 1) as HU by done. unfold PAGE_SIZE, page_va in *.
    rewrite saturating_mul64_eq, saturating_add64_eq by lia. unfold PAGE_SIZE. lia. }
  replace (flags_union USER WRITE) with (page_flags ip (length L)) by (unfold page_flags; rewrite decide_False by lia; done).
  eapply wp_mono; [apply (map_page_wp T L s1 f _ Hl1 Hjn)|].
  { intros k Hk. rewrite Hz by done. unfold page_byte. rewrite decide_False by lia. done. }
  intros s3 x (-> & T' & Hl3). rewrite saturating_add64_eq by (unfold U64_MAX, PAGE_SIZE in *; lia).
  replace (Z.of_nat (length L - ip) + 1) with (Z.of_nat (length (L ++ [frame_addr f]) - ip)) by (rewrite length_app; cbn; lia).
  apply (IH T'); try done; rewrite length_app; cbn; lia.
Qed.
End load.
