(* ===== verification/TaskLoaderProps.v ===== *)
(** * Properties of the task loader

Loading an image fails before it changes anything or builds exactly the address
space it was asked for; the task object of an image is created or nothing is. *)

From stdpp Require Import gmap.
From S2P Require Import Prelude.
From S2P Require Import Hal.
From S2P Require Import Arena.
From S2P Require Import Objects.
From S2P Require Import Caps.
From S2P Require Import ObjProps.
From S2P Require Import CapTable.
From S2P Require Import CapTableInv.
From S2P Require Import CapTableOps.
From S2P Require Import CapRevoke.
From S2P Require Import CapSpec.
From S2P Require Import CapProps.
From S2P Require Import Ipc.
From S2P Require Import SyscallError.
From S2P Require Import UserAccess.
From S2P Require Import Pmm.
From S2P Require Import PmmInv.
From S2P Require Import PmmProps.
From S2P Require Import Vmsav8.
From S2P Require Import QemuMmu.
From S2P Require Import QemuMmuInv.
From S2P Require Import QemuMmuOps.
From S2P Require Import QemuMmuProps.
From S2P Require Import AddressSpace.
From S2P Require Import AddressSpaceProps.
From S2P Require Import TaskLoader.
From S2P Require Import TaskTables.
From S2P Require Import TaskLoaderInv.
Local Open Scope Z_scope.

(** ** The frames of the image *)

(** The page frames under the [n] bytes at physical address [pa]. *)
Definition frames_under (pa n : Z) : gset Z :=
  list_to_set ((λ i, i * PAGE_SIZE) <$> seqZ (pa `div` PAGE_SIZE) ((pa + n - 1) `div` PAGE_SIZE - pa `div` PAGE_SIZE + 1)).

Lemma frames_under_in pa n f : f ∈ frames_under pa n → f `mod` PAGE_SIZE = 0 ∧ f < pa + n ∧ pa < f + PAGE_SIZE.
Proof.
  unfold frames_under. rewrite elem_of_list_to_set, list_elem_of_fmap. intros (i & -> & [H1 H2]%elem_of_seqZ).
  unfold PAGE_SIZE in *. split; [by rewrite Z.mod_mul|]. Z.to_euclidean_division_equations; lia.
Qed.

Lemma frames_under_covers pa n k : 0 ≤ pa → pa + n ≤ 0x100000000 → 0 ≤ k < n →
  ∃ t, t ∈ frames_under pa n ∧ table_ok t ∧ in_frame t (KERNEL_HIGH_HALF_OFFSET + pa + k).
Proof.
  intros Hpa Hlim Hk. exists ((pa + k) `div` PAGE_SIZE * PAGE_SIZE). unfold PAGE_SIZE. split; [|split].
  - unfold frames_under. apply elem_of_list_to_set, list_elem_of_fmap. eexists. split; [done|]. apply elem_of_seqZ.
    unfold PAGE_SIZE. assert (0 < 4096) as Hp by done.
    pose proof (Z.div_le_mono pa (pa + k) 4096 Hp ltac:(lia)).
    pose proof (Z.div_le_mono (pa + k) (pa + n - 1) 4096 Hp ltac:(lia)). lia.
  - unfold table_ok, PAGE_SIZE. rewrite Z.mod_mul by done. split; [done|]. Z.to_euclidean_division_equations; lia.
  - unfold in_frame, PAGE_SIZE. Z.to_euclidean_division_equations; lia.
Qed.

(** An image no allocation can reach is held by nobody. *)
Lemma holds_image p used pa n : pmm_holds p used → 0 < n → could_yield_pa_overlapping p pa (pa + n) = Some false →
  pmm_holds p (used ∪ frames_under pa n).
Proof.
  intros [Hp Hu] Hn Hov. split; [done|]. intros i Hi Hb. specialize (Hu i Hi Hb).
  apply not_elem_of_union. split; [done|]. intros (Hal & H1 & H2)%frames_under_in.
  destruct (could_yield_spec p pa (pa + n) Hp) as (y & Hy & Hiff). rewrite Hov in Hy. injection Hy as <-.
  assert (false = true); [|done]. apply Hiff. exists {| frame_addr := frame_pa p i |}. cbn [frame_addr].
  destruct (frame_in_extent p i Hp Hi) as (He1 & He2 & _ & Hal'). split; [done|]. split; [|split; [|lia]].
  - unfold range_contains, PAGE_SIZE in *. apply andb_true_iff. split; apply bool_decide_eq_true; lia.
  - intros r Hr. apply not_true_iff_false. intros Hc. assert (is_reserved p i = true) as Hres.
    { apply existsb_exists. exists r. split; [by apply list_elem_of_In|done]. }
    by rewrite (pw_bits _ Hp i Hi Hres) in Hb.
Qed.

(** ** Preflights *)

Section preflight.
  Implicit Types (s : MmState QemuVirtAddressSpace Pmm).

Definition image_page_count (image : Slice) : Z := div_ceil (slice_len image) PAGE_SIZE.

(** The frames a load takes: the root, the pages, the tables. *)
Definition frames_needed (image : Slice) (base sp : Z) : Z :=
  1 + image_page_count image + sp + intermediate_frame_count base (image_page_count image) sp.

(** What each error of [load_image] says about the state it was called in. *)
Definition load_refused `{Build} s (image : Slice) (parent : CapHandle) (nr : CapRights) (base sp : Z) (e : LoadError) : Prop :=
  let span_end := base + (image_page_count image + sp) * PAGE_SIZE in
  match e with
  | InvalidImage => slice_len image = 0
  | InvalidStackSize => sp = 0
  | MisalignedImageBaseVa va => va = base ∧ base `mod` PAGE_SIZE ≠ 0
  | InvalidParentCap x =>
      (x = InvalidHandle ∧ live (table s) parent = None) ∨
      (x = WrongKind ∧ ∃ n, live (table s) parent = Some n ∧ cap_kind (an_cap n) ≠ KAddressSpace)
  | InvalidImageBaseVa b _ => b = base ∧ USERSPACE_VA_LIMIT < span_end
  | FrameBudgetExceeded needed available =>
      needed = frames_needed image base sp ∧ available = Z.of_nat (pmm_free (provider s)) ∧ available < needed
  | AddressSpaceCreationFailed x => x ≠ AsOutOfFrames ∧ create_refused s parent nr x
  | ImageOverlapsAllocatableMemory => ∃ f, frame_addr f `mod` PAGE_SIZE = 0 ∧
      range_contains (extent (provider s)) (frame_addr f) = true ∧
      (∀ r, r ∈ reserved_list (provider s) → range_contains r (frame_addr f) = false) ∧
      ∃ k, 0 ≤ k < slice_len image ∧ in_frame (frame_addr f) (as_ptr image + k)
  | LoadOutOfFrames | MapFailed _ => False
  end.
End preflight.

Section loaded.
  Context `{Build}.
  Implicit Types (s : MmState QemuVirtAddressSpace Pmm).

(** What a load leaves behind: the address space [hd] at root [rt], the page frames [L]. *)
Record loaded s s' (used : gset Z) (image : Slice) (parent : CapHandle) (nr : CapRights) (base sp : Z)
    (l : LoadedImage) (hd : AddressSpaceHandle) (rt : Z) (L : list Z) (T : gmap Z (list Z)) (used' : gset Z) : Prop := {
  lo_ok : mm_ok s' used' ∧ used ⊆ used' ∧ space_of s' hd rt T used' ∧ dom T ## used;
  lo_result : entry_va l = base ∧ stack_top_va l = base + (image_page_count image + sp) * PAGE_SIZE ∧
    image_bytes l = slice_len image ∧ stack_bytes l = sp * PAGE_SIZE;
  lo_cap : ∃ m', astep (live (table s)) (Derive parent nr (OAddressSpace hd)) m' (Ok (RHandle (as_cap l))) ∧
    ∀ h', live (table s') h' = m' h';
  lo_fresh : get_address_space (as_arena s) hd = None;
  lo_spaces : ∀ hd', hd' ≠ hd → get_address_space (as_arena s') hd' = get_address_space (as_arena s) hd';
  lo_frames : NoDup L ∧ Z.of_nat (length L) = image_page_count image + sp ∧
    ∀ f, f ∈ L → table_ok f ∧ f ∉ used ∧ f ∉ dom T;
  lo_budget : Z.of_nat (pmm_free (provider s)) = Z.of_nat (pmm_free (provider s')) + frames_needed image base sp;
  lo_pages : ∀ j f, L !! j = Some f →
    translate (space_at rt) (page_va base j) (memory s') =
      Some (memory s', Ok ({| frame_addr := f |}, page_flags (Z.to_nat (image_page_count image)) j)) ∧
    ∀ k, 0 ≤ k < PAGE_SIZE → memory s' (KERNEL_HIGH_HALF_OFFSET + f + k) =
                             page_byte (memory s) image (Z.to_nat (image_page_count image)) j k;
  lo_rest : ∀ v, (∀ j, (j < length L)%nat → page_of v ≠ page_of (page_va base j)) →
    translate (space_at rt) v (memory s') = Some (memory s', Err NotMapped);
  lo_memory : ∀ a t, t ∈ used → table_ok t → in_frame t a → memory s' a = memory s a;
}.
End loaded.

(** ** The load after its preflights *)

Lemma image_pages_pos image : 0 < slice_len image → 0 < image_page_count image.
Proof. unfold image_page_count, div_ceil, PAGE_SIZE. Z.to_euclidean_division_equations; lia. Qed.

Section pages.
  Context `{Build} (s : MmState QemuVirtAddressSpace Pmm) (used : gset Z) (image : Slice) (parent : CapHandle) (nr : CapRights).
  Context (base sp pa : Z).
  Context (Hal : base `mod` PAGE_SIZE = 0) (H0 : 0 ≤ base) (Hsp : 0 < sp) (Hlen : 0 < slice_len image).
  Context (Hlim : base + (image_page_count image + sp) * PAGE_SIZE ≤ 2 ^ 48).
  Context (Hpa : 0 ≤ pa) (Hptr : as_ptr image = KERNEL_HIGH_HALF_OFFSET + pa) (Htop : pa + slice_len image ≤ 0x100000000).
Let used0 := used ∪ frames_under pa (slice_len image).
Let ip := Z.to_nat (image_page_count image).
Let n := Z.to_nat (image_page_count image + sp).

Lemma n_of : Z.of_nat n = image_page_count image + sp ∧ Z.of_nat ip = image_page_count image ∧ (ip ≤ n)%nat ∧ (0 < n)%nat.
Proof. pose proof (image_pages_pos image Hlen). subst ip n. lia. Qed.

Lemma span_limit : base + Z.of_nat n * PAGE_SIZE ≤ 2 ^ 48.
Proof. destruct n_of as [-> _]. exact Hlim. Qed.

Lemma needed_eq : frames_needed image base sp = Z.of_nat (1 + n + length (run_tables base n)).
Proof.
  destruct n_of as (Hn & _ & _ & Hn0). pose proof (image_pages_pos image Hlen) as Hip.
  unfold frames_needed. rewrite (run_tables_length base n Hal H0 Hn0 span_limit) by lia. lia.
Qed.

(** The load begins with no page and one table. *)
Lemma loading_start s1 h hd rt : mm_ok s used0 → created s s1 used0 parent nr h hd rt →
  loading s used0 (table s1) hd (frame_addr rt) image base ip {[frame_addr rt := []]} [] [] s1.
Proof.
  intros Hok Hc. destruct (created_space _ _ _ _ _ _ _ _ Hok Hc) as (Hso & Hx & _).
  pose proof (fp_law _ _ (memory s) (mo_frames _ _ Hok)) as Hlaw. rewrite (cr_frame _ _ _ _ _ _ _ _ Hc) in Hlaw.
  destruct Hlaw as (Hfree & _ & Hnu & Hrt & Hm).
  assert (Hh : held used0 {[frame_addr rt := []]} [] = {[frame_addr rt]} ∪ used0) by (unfold held; set_solver).
  split; cbn [app].
  - rewrite Hh. apply (cr_ok _ _ _ _ _ _ _ _ Hc).
  - by rewrite Hh.
  - set_solver.
  - by intros f ?%elem_of_nil.
  - constructor.
  - done.
  - apply (cr_others _ _ _ _ _ _ _ _ Hc).
  - intros a Ha. rewrite Hm, decide_False; [done|]. apply Ha. left. set_solver.
  - rewrite map_size_singleton. cbn [length]. change (pmm_free (provider s) = S (pmm_free (provider s1))) in Hfree. lia.
  - intros p [t [_ <-]%lookup_singleton_Some]. by left.
  - intros j p Hj. cbn in Hj. lia.
  - intros j f Hj. by rewrite lookup_nil in Hj.
  - intros v _. apply Hx.
  - intros j f k Hj. by rewrite lookup_nil in Hj.
Qed.

(** A finished load is what was asked for. *)
Lemma loading_done s1 s' h hd rt T L l : mm_ok s used0 → created s s1 used0 parent nr h hd rt →
  loading s used0 (table s1) hd (frame_addr rt) image base ip T L [] s' → length L = n →
  l = {| as_cap := h; entry_va := base; stack_top_va := base + (image_page_count image + sp) * PAGE_SIZE;
         image_bytes := slice_len image; stack_bytes := sp * PAGE_SIZE |} →
  loaded s s' used image parent nr base sp l hd (frame_addr rt) L T (held used0 T L).
Proof.
  intros Hok Hc Hl HL ->. destruct n_of as (Hn & Hip & _). pose proof (ld_pt _ _ _ _ _ _ _ _ _ _ _ _ Hl) as HP.
  destruct Hl as [L1 L2 L3 L4 L5 L6 L7 L8 L9 L10 L11 L12 L13 L14]. rewrite app_nil_r in *.
  assert (Htr : ∀ v, translate (space_at (frame_addr rt)) v (memory s') = Some (memory s', xlate (memory s') (frame_addr rt) v)).
  { intros v. by apply translate_xlate with T. }
  split.
  - do 2 (split; [done || (unfold held; set_solver)|]). split; [done|]. set_solver.
  - done.
  - rewrite L6. apply (cr_table _ _ _ _ _ _ _ _ Hc).
  - apply (cr_fresh _ _ _ _ _ _ _ _ Hc).
  - done.
  - split; [done|]. split; [lia|]. intros f Hf. destruct (L4 f Hf) as (? & Hu & ?). split; [done|]. split; [|done]. set_solver.
  - rewrite needed_eq.
    pose proof (tables_le _ _ _ HP base n) as Hle. pose proof (tables_ge _ _ _ HP base n) as Hge.
    assert (size T = 1 + length (run_tables base n))%nat; [|lia]. apply Nat.le_antisymm; [apply Hle|apply Hge].
    + intros p Hp. destruct (L10 p Hp) as [?|(j & Hj & ?)]; [by left|]. right. apply elem_of_run_tables. exists j. by rewrite <- HL.
    + intros p (j & Hj & Hp)%elem_of_run_tables. apply (L11 j); [lia|done].
  - intros j f Hj. split; [|intros k Hk; by apply L14]. rewrite Htr. by rewrite (L12 _ _ Hj).
  - intros v Hv. rewrite Htr, L13; done.
  - intros a t Ht Hok' Ha. apply L8. intros t' Ht' Ha'. assert (table_ok t' ∧ t' ∉ used) as [Htok' Hne].
    { destruct Ht' as [Ht'|Ht'].
      - split; [|set_solver]. apply elem_of_dom in Ht' as [q Hq]. apply (pt_table _ _ _ HP _ _ Hq).
      - destruct (L4 t' Ht') as (? & ? & _). split; [done|]. set_solver. }
    apply (frames_disjoint t t' a Hok' Htok'); [by intros <-|done|done].
Qed.

Lemma load_pages_wp : mm_ok s used0 → frames_needed image base sp ≤ Z.of_nat (pmm_free (provider s)) →
  wp (load_pages (H0 := QemuVirtMmu) image parent nr base (image_page_count image) sp) s (λ s' r,
    match r with
    | Err e => s' = s ∧ ∃ x, e = AddressSpaceCreationFailed x ∧ x ≠ AsOutOfFrames ∧ create_refused s parent nr x
    | Ok l => ∃ hd rt L T used', loaded s s' used image parent nr base sp l hd rt L T used'
    end).
Proof.
  intros Hok Hb. rewrite needed_eq in Hb. destruct n_of as (Hn & Hip & Hipn & Hn0).
  pose proof (image_pages_pos image Hlen) as Hpos. pose proof span_limit as Hspan.
  assert (Hbn : (1 + n + length (run_tables base n) ≤ pmm_free (provider s))%nat) by lia.
  unfold load_pages. wp_bind. apply wp_map_err. eapply wp_mono; [by apply (cap_create_wp s used0)|].
  intros s1 [h|e]; cbn [res_map_err].
  2:{ intros [-> Hx]. split; [done|]. exists e. split; [done|]. split; [|done]. intros ->.
      change (pmm_free (provider s) = 0%nat) in Hx. lia. }
  intros (hd & rt & Hc). pose proof (loading_start s1 h hd rt Hok Hc) as Hst.
  destruct (created_space _ _ _ _ _ _ _ _ Hok Hc) as (_ & _ & Hres).
  assert (HU : U64_MAX = 2 ^ 64 - 1) by done.
  assert (HA : base + image_page_count image * PAGE_SIZE ≤ 2 ^ 48) by (unfold PAGE_SIZE in *; lia).
  rewrite (saturating_mul64_eq (image_page_count image)), (saturating_add64_eq base) by (unfold PAGE_SIZE in *; lia).
  wp_bind. eapply wp_mono.
  { apply (image_loop_wp s used0 (table s1) h hd (frame_addr rt) image base ip n Hal H0 Hspan Hres Hbn
             ip (base + image_page_count image * PAGE_SIZE) _ [] s1 Hst); try done.
    intros k Hk. destruct (frames_under_covers pa (slice_len image) k) as (t & Ht & Htok & Hin); [done..|].
    exists t. split; [set_solver|]. split; [done|]. by rewrite Hptr. }
  intros s2 x (-> & T2 & L2 & HL2 & Hld2). wp_bind.
  eapply wp_mono.
  { rewrite <- Hip. replace (Z.to_nat sp) with (n - ip)%nat by lia.
    pose proof (stack_loop_wp s used0 (table s1) h hd (frame_addr rt) image base ip n Hal H0 Hspan Hres Hbn
             (n - ip) T2 L2 s2 Hld2) as Hsl. rewrite HL2, Nat.sub_diag in Hsl. apply Hsl; lia. }
  intros s3 x (-> & T3 & L3 & HL3 & Hld3). red. cbn [ret].
  exists hd, (frame_addr rt), L3, T3, (held used0 T3 L3).
  eapply loading_done; [done|exact Hc|exact Hld3|done|]. f_equal.
  - rewrite saturating_mul64_eq, saturating_add64_eq by (unfold PAGE_SIZE in *; lia). unfold PAGE_SIZE. lia.
  - rewrite saturating_mul64_eq by (unfold PAGE_SIZE in *; lia). done.
Qed.
End pages.

(** ** The whole load *)

(** The other address spaces of a load are as they were. *)
Lemma loaded_other `{Build} (s s' : MmState QemuVirtAddressSpace Pmm) used image parent nr base sp l hd rt L T used' hb rb Tb :
  loaded s s' used image parent nr base sp l hd rt L T used' → space_of s hb rb Tb used →
  space_of s' hb rb Tb used' ∧ apart T Tb ∧
  ∀ va, ∃ x, translate (space_at rb) va (memory s') = Some (memory s', x) ∧
             translate (space_at rb) va (memory s) = Some (memory s, x).
Proof.
  intros Hl [Hg Hs]. destruct (lo_ok _ _ _ _ _ _ _ _ _ _ _ _ _ _ Hl) as (Hok & Hsub & _ & Hap).
  pose proof (sp_pt _ _ _ _ Hs) as HP. cbn [mem] in HP. pose proof (sp_dom _ _ _ _ Hs) as Hd.
  destruct (PT_ext (memory s) (memory s') rb Tb HP) as [HP' Hx].
  { intros a t Ht Ha. pose proof Ht as [p Hp]. destruct (pt_table _ _ _ HP _ _ Hp) as [Htok _].
    apply (lo_memory _ _ _ _ _ _ _ _ _ _ _ _ _ _ Hl a t); [|done|done]. apply Hd. by apply elem_of_dom. }
  split; [|split; [unfold apart; set_solver|]].
  - split.
    + rewrite (lo_spaces _ _ _ _ _ _ _ _ _ _ _ _ _ _ Hl); [done|]. intros ->.
      by rewrite (lo_fresh _ _ _ _ _ _ _ _ _ _ _ _ _ _ Hl) in Hg.
    + split; cbn; [done|apply Hok|set_solver].
  - intros va. exists (xlate (memory s) rb va). rewrite <- (Hx va) at 1. split; by apply translate_xlate with Tb.
Qed.

Lemma load_image_wp `{Build} (s : MmState QemuVirtAddressSpace Pmm) used image parent nr base sp pa :
  mm_ok s used → is_u64 base → 0 ≤ sp ≤ U64_MAX → 0 ≤ pa → 0 ≤ slice_len image →
  as_ptr image = KERNEL_HIGH_HALF_OFFSET + pa → pa + slice_len image ≤ 0x100000000 →
  wp (load_image (H0 := QemuVirtMmu) image parent nr base sp) s (λ s' r,
    match r with
    | Err e => s' = s ∧ load_refused s image parent nr base sp e
    | Ok l => (base `mod` PAGE_SIZE = 0 ∧ 0 < sp ∧ 0 < slice_len image ∧ stack_top_va l ≤ USERSPACE_VA_LIMIT) ∧
        ∃ hd rt L T used', loaded s s' used image parent nr base sp l hd rt L T used'
    end).
Proof.
  intros Hok [Hb0 Hb64] [Hsp0 Hsp64] Hpa Hlen0 Hptr Htop. unfold load_image.
  case_bool_decide as Hlen; [done|]. case_bool_decide as Hsp; [done|].
  case_bool_decide as Hal; cbn [negb]; [|done].
  assert (Hpos : 0 < image_page_count image) by (apply image_pages_pos; lia). unfold image_page_count in Hpos.
  wp_bind. eapply wp_reads; [by rewrite lookup_eq|]. destruct (named (table s) parent) as [e|] eqn:He; cbn [res_map_err].
  2:{ split; [done|]. left. split; [done|]. by apply live_None. }
  pose proof (named_live _ _ _ He) as Hlv.
  case_bool_decide as Hk; cbn [negb]; [|split; [done|]; right; split; [done|]; by exists (node_of (table s) e)].
  assert (HU : U64_MAX = 2 ^ 64 - 1) by done.
  assert (Hsum : saturating_add64 base (saturating_mul64 (saturating_add64 (div_ceil (slice_len image) PAGE_SIZE) sp) PAGE_SIZE)
                 = Z.min (base + (image_page_count image + sp) * PAGE_SIZE) U64_MAX).
  { unfold saturating_add64, saturating_mul64, image_page_count, PAGE_SIZE in *. lia. }
  rewrite Hsum. change USERSPACE_VA_LIMIT with (2 ^ 48). case_bool_decide as Hlim.
  { split; [done|]. split; [done|]. change USERSPACE_VA_LIMIT with (2 ^ 48). lia. }
  assert (Hlim' : base + (image_page_count image + sp) * PAGE_SIZE ≤ 2 ^ 48) by lia. clear Hlim Hsum.
  fold (image_page_count image) in *.
  pose proof (needed_eq image base sp Hal Hb0 ltac:(lia) ltac:(lia) Hlim') as Hneed.
  destruct (mo_frames _ _ Hok) as [Hpw Hfree].
  assert (Hav : free_frames (stats (provider s)) = Z.of_nat (pmm_free (provider s))).
  { unfold pmm_free. cbn [stats free_frames]. rewrite (pw_free _ Hpw), Nat2Z.id. done. }
  pose proof (run_tables_bounds base (Z.to_nat (image_page_count image + sp)) ltac:(lia)) as Hrb.
  assert (saturating_add64 (saturating_add64 (saturating_add64 1 (image_page_count image)) sp)
            (intermediate_frame_count base (image_page_count image) sp) = frames_needed image base sp) as ->.
  { rewrite Hneed. unfold frames_needed in Hneed. unfold saturating_add64, PAGE_SIZE in *. lia. }
  wp_bind. red. cbn [gets]. rewrite Hav. case_bool_decide as Hbud; [done|].
  assert (Hover : ∃ y, could_yield_pa_overlapping (provider s) pa (pa + slice_len image) = Some y ∧ (y = true →
    load_refused s image parent nr base sp ImageOverlapsAllocatableMemory)).
  { destruct (could_yield_spec (provider s) pa (pa + slice_len image) Hpw) as (y & Hy & Hiff). exists y. split; [done|].
    intros (f & Hf1 & Hf2 & Hf3 & _ & Hf4 & Hf5)%Hiff. exists f. do 3 (split; [done|]).
    exists (Z.max pa (frame_addr f) - pa). rewrite Hptr. unfold in_frame, PAGE_SIZE in *. lia. }
  destruct Hover as (y & Hy & Href). wp_bind. eapply wp_reads.
  { rewrite Hptr, (kernel_va_to_phys_inverse pa) by (done || apply phys_to_kernel_va_Some; lia).
    rewrite saturating_add64_eq, Hy by lia. done. }
  destruct y; [by split; [|apply Href]|].
  eapply wp_mono.
  { apply (load_pages_wp s used image parent nr base sp pa); try done; [lia|lia| |lia]. destruct Hok as [Hok1 Hok2 Hok3].
    split; [done|done|]. apply holds_image; [done|lia|done]. }
  intros s' [l|x]; cbn beta iota.
  - intros (hd & rt & L & T & used' & Hl). split; [|by exists hd, rt, L, T, used']. do 2 (split; [done || lia|]). split; [lia|].
    destruct (lo_result _ _ _ _ _ _ _ _ _ _ _ _ _ _ Hl) as (_ & -> & _). exact Hlim'.
  - intros (-> & z & -> & Hz & Hcr). done.
Qed.

(** C5: loading an image is exact or does nothing.  For an image in the direct map and
    any parent, rights, base and stack size, [load_image] returns from every well-formed
    state.  When it fails, nothing has changed and the error is one whose condition
    holds; the late failures, running out of frames or a page that cannot be mapped,
    do not occur, because the preflight budget is exact.  When it succeeds, the new
    capability (a child of the parent with at most its rights) names a fresh address
    space in which the image pages translate to distinct new frames with user and
    execute rights and hold the image's bytes, zero after its end, the stack pages
    translate to distinct zeroed frames with user and write rights, and no other page
    is mapped; exactly the announced number of frames was taken, every frame in use
    before keeps its bytes, and every other address space translates as before. *)
Theorem load_image_is_exact `{Build} (s : MmState QemuVirtAddressSpace Pmm) used image parent nr base sp pa :
  mm_ok s used → is_u64 base → 0 ≤ sp ≤ U64_MAX → 0 ≤ pa → 0 ≤ slice_len image →
  as_ptr image = KERNEL_HIGH_HALF_OFFSET + pa → pa + slice_len image ≤ 0x100000000 →
  ∃ s' r, load_image (H0 := QemuVirtMmu) image parent nr base sp s = Some (s', r) ∧
    match r with
    | Err e => s' = s ∧ load_refused s image parent nr base sp e
    | Ok l => ∃ hd rt L T used', loaded s s' used image parent nr base sp l hd rt L T used' ∧
        ∀ hb rb Tb, space_of s hb rb Tb used → space_of s' hb rb Tb used' ∧ apart T Tb ∧
          ∀ va, ∃ x, translate (space_at rb) va (memory s') = Some (memory s', x) ∧
                     translate (space_at rb) va (memory s) = Some (memory s, x)
    end.
Proof.
  intros. destruct (proj1 (wp_run _ _ _) (load_image_wp s used image parent nr base sp pa ltac:(done) ltac:(done)
    ltac:(done) ltac:(done) ltac:(done) ltac:(done) ltac:(done))) as (s' & r & Hrun & Hr).
  exists s', r. split; [done|]. destruct r as [l|e]; [|done]. destruct Hr as (_ & hd & rt & L & T & used' & Hl).
  exists hd, rt, L, T, used'. split; [done|]. intros hb rb Tb Hb. by eapply loaded_other.
Qed.

(** A 5000-byte image in the reserved first frames of the sample board. *)
Definition sample_image : Slice := {| as_ptr := KERNEL_HIGH_HALF_OFFSET + 0x40000010; slice_len := 5000 |}.

Lemma load_image_is_exact_witness :
  ∃ s' l, load_image (H := debug_build) (H0 := QemuVirtMmu (H := debug_build)) sample_image sample_parent (union SEND RECV)
      0x400000 1 sample_mm = Some (s', Ok l) ∧
    entry_va l = 0x400000 ∧ stack_top_va l = 0x403000 ∧
    pmm_free (provider sample_mm) = (pmm_free (provider s') + 7)%nat.
Proof.
  destruct (load_image_is_exact (H := debug_build) sample_mm ∅ sample_image sample_parent (union SEND RECV) 0x400000 1
    0x40000010 sample_mm_ok) as (s' & r & Hrun & Hr); [by split|by split|done|done|done|done|].
  assert (Hok : ∃ l, r = Ok l).
  { apply (f_equal (fmap snd)) in Hrun. vm_compute in Hrun. injection Hrun as <-. by eexists. }
  destruct Hok as [l ->]. destruct Hr as (hd & rt & L & T & used' & Hl & _). exists s', l. split; [exact Hrun|].
  destruct (lo_result _ _ _ _ _ _ _ _ _ _ _ _ _ _ Hl) as (He & Ht & _).
  pose proof (lo_budget _ _ _ _ _ _ _ _ _ _ _ _ _ _ Hl) as Hb. split; [exact He|]. split; [exact Ht|].
  change (frames_needed sample_image 0x400000 1) with 7 in Hb. lia.
Defined.

(** ** The task of an image *)

Section task.
  Context `{Build}.
  Implicit Types (t : CapabilityTable) (a : TaskArena).

(** What each error of [task_create_from_image] says. *)
Definition task_refused t a (as_cap : CapHandle) (e : TaskCreateError) : Prop :=
  match e with
  | InvalidAddressSpaceCap InvalidHandle => live t as_cap = None
  | InvalidAddressSpaceCap WrongKind => ∃ n, live t as_cap = Some n ∧ cap_kind (an_cap n) ≠ KAddressSpace
  | TaskArenaFull => Arena.is_full a = true
  | CapTableExhausted CapsExhausted => full (live t) ∧ Arena.is_full a = false
  | _ => False
  end.

(** An object made and unmade leaves the arena as it was, to every handle. *)
Lemma make_unmake N {X} (a a1 a2 : Arena X) id v w : Arena.WF N a → Arena.WF N a2 →
  get a id = None → get a1 id = Some v → (∀ id', id' ≠ id → get a1 id' = get a id') → (id_index id < N)%nat →
  get a2 id = None → (∀ id', id_index id' ≠ id_index id → get a2 id' = get a1 id') →
  (∀ i, Arena.ent a2 i = if decide (i = id_index id) then None else w i) →
  (∀ id', get a2 id' = get a id') ∧ Arena.is_full a2 = false.
Proof.
  intros Hwf Hwf2 Hg Hg1 Ho Hi Hg2 Ho2 He. split.
  - intros id'. destruct (decide (id_index id' = id_index id)) as [Heq|Hne].
    2:{ rewrite Ho2 by done. apply Ho. congruence. }
    destruct (decide (id' = id)) as [->|Hid]; [congruence|].
    assert (get a id' = None) as ->.
    { rewrite <- Ho by done. apply (get_same_index a1 id id'); [by eexists|done|done]. }
    destruct (get a2 id') as [x|] eqn:Hx; [|done]. apply get_ent in Hx. rewrite He, decide_True in Hx by done. done.
  - apply not_true_iff_false. intros Hf. apply (proj1 (arena_full_spec a2 Hwf2) Hf (id_index id)) in Hi as [x Hx].
    rewrite He, decide_True in Hx by done. done.
Qed.
End task.

(** A task is made whole or not at all.  From a well-formed table and task arena,
    in either build, [task_create_from_image] returns.  When it fails, the table is as
    before, every task handle names what it named before, and the error is one whose
    condition holds: a capability that is stale or names no address space, a full
    task arena, or a full table, in which case the slot taken for the task is free
    again.  When it succeeds, the new root capability, with the rights asked for, names
    a fresh task with the given id, bound to the very address space the loaded
    capability names, and every other task is as before. *)
Theorem task_create_from_image_is_atomic `{Build} t (a : TaskArena) loaded id rts :
  CapTableInv.WF t → Arena.WF TASK_ARENA_CAPACITY a →
  ∃ t' a' r, task_create_from_image loaded id rts (t, a) = Some ((t', a'), r) ∧
    CapTableInv.WF t' ∧ Arena.WF TASK_ARENA_CAPACITY a' ∧
    match r with
    | Err e => t' = t ∧ (∀ th, get_task a' th = get_task a th) ∧ Arena.is_full a' = Arena.is_full a ∧
        task_refused t a (as_cap loaded) e
    | Ok h => ∃ n ash th m', live t (as_cap loaded) = Some n ∧ object (an_cap n) = OAddressSpace ash ∧
        get_task a th = None ∧ get_task a' th = Some {| task_id := id; task_address_space_handle := ash |} ∧
        (∀ th', th' ≠ th → get_task a' th' = get_task a th') ∧
        astep (live t) (InsertRoot {| rights := rts; object := OTask th |}) m' (Ok (RHandle h)) ∧
        ∀ h', live t' h' = m' h'
    end.
Proof.
  intros Ht Ha. assert (Hw : wp (task_create_from_image loaded id rts) (t, a) (λ s' r,
    CapTableInv.WF s'.1 ∧ Arena.WF TASK_ARENA_CAPACITY s'.2 ∧ match r with
    | Err e => s'.1 = t ∧ (∀ th, get_task s'.2 th = get_task a th) ∧ Arena.is_full s'.2 = Arena.is_full a ∧
        task_refused t a (as_cap loaded) e
    | Ok h => ∃ n ash th m', live t (as_cap loaded) = Some n ∧ object (an_cap n) = OAddressSpace ash ∧
        get_task a th = None ∧ get_task s'.2 th = Some {| task_id := id; task_address_space_handle := ash |} ∧
        (∀ th', th' ≠ th → get_task s'.2 th' = get_task a th') ∧
        astep (live t) (InsertRoot {| rights := rts; object := OTask th |}) m' (Ok (RHandle h)) ∧
        ∀ h', live s'.1 h' = m' h'
    end)).
  2:{ apply wp_run in Hw as ([t' a'] & r & Hrun & Hr). by exists t', a', r. }
  unfold task_create_from_image. wp_bind. eapply wp_reads; [by rewrite lookup_eq|]. cbn [fst].
  destruct (named t (as_cap loaded)) as [e|] eqn:He; cbn [res_map_err].
  2:{ do 2 (split; [done|]). do 3 (split; [done|]). by apply live_None. }
  pose proof (named_live _ _ _ He) as Hlv.
  assert (Hkind : cap_kind (capability e) ≠ KAddressSpace → CapTableInv.WF t ∧ Arena.WF TASK_ARENA_CAPACITY a ∧
    t = t ∧ (∀ th, get_task a th = get_task a th) ∧ Arena.is_full a = Arena.is_full a ∧
    task_refused t a (as_cap loaded) (InvalidAddressSpaceCap WrongKind)).
  { intros Hk. do 5 (split; [done|]). by exists (node_of t e). }
  unfold cap_kind in Hkind.
  destruct (object (capability e)) as [| | |ash|] eqn:Ho; try (by apply Hkind).
  clear Hkind. wp_bind. apply wp_map_err, wp_zoom. cbn [snd]. unfold create_task, or_err, map_ok. apply wp_map_err, wp_bind.
  eapply wp_mono; [by apply (allocate_wp (N := TASK_ARENA_CAPACITY))|]. intros a1 [sid|x] (Ha1 & Hr).
  2:{ destruct Hr as [-> Hfull]. cbn [res_map_err]. split; [done|]. by do 4 (split; [done|]). }
  destruct Hr as (Hnf & Hg & Hg1 & Hi & _ & Hoth & Hent). red. cbn [ret res_map_err]. wp_bind.
  apply wp_attempt, wp_zoom. cbn [fst snd set_snd].
  set (c := {| rights := rts; object := OTask (TaskHandle_from_slot sid) |}).
  pose proof (insert_root_wp t c Ht) as Hins. apply wp_run in Hins as (t' & x & Hrun & Hx).
  destruct (proj1 (wp_run _ _ _) (refine_insert_root t Ht c)) as (t2 & x2 & Hrun2 & Ht' & m' & Hst & Hm).
  unfold run_op, bind in Hrun2. rewrite Hrun in Hrun2. red. rewrite Hrun. destruct x as [h|y].
  - cbn [ret] in Hrun2. injection Hrun2 as <- <-. split; [done|]. split; [done|].
    exists (node_of t e), ash, (TaskHandle_from_slot sid), m'. cbn [set_fst fst snd]. do 4 (split; [done|]).
    split; [|done]. intros [sid'] Hne. apply Hoth. cbn [task_slot]; by intros ->.
  - destruct Hx as (-> & -> & Hfull). wp_bind. apply wp_debug_assert; [done|]. wp_bind.
    apply wp_attempt, wp_zoom. cbn [fst snd set_fst]. unfold destroy_task, or_err. apply wp_map_err.
    eapply wp_mono; [by apply (free_wp (N := TASK_ARENA_CAPACITY))|]. intros a2 y (Ha2 & Hy). red. cbn [throw set_snd fst snd].
    split; [done|]. split; [done|]. split; [done|]. cbn [task_slot] in Hy.
    destruct y as [v|u]; cbn [res_map_err]; [|destruct Hy as [_ Hy]; pose proof (eq_trans (eq_sym Hg1) Hy); done].
    destruct Hy as (_ & Hg2 & Ho2 & He2).
    destruct (make_unmake _ _ _ _ _ _ _ Ha Ha2 Hg Hg1 Hoth Hi Hg2 Ho2 He2) as [Hsame Hnf2].
    split; [intros th; apply Hsame|]. split; [congruence|]. split; [by apply full_abs|done].
Qed.

Lemma task_create_from_image_is_atomic_witness :
  ∃ t' a' h th, task_create_from_image (H := debug_build)
      {| as_cap := sample_parent; entry_va := 0x400000; stack_top_va := 0x403000; image_bytes := 5000; stack_bytes := 4096 |}
      7 KNOWN_BITS (sample_as_table, Arena.new TASK_ARENA_CAPACITY) = Some ((t', a'), Ok h) ∧
    get_task a' th = Some {| task_id := 7; task_address_space_handle := BOOTSTRAP_ADDRESS_SPACE_HANDLE |}.
Proof.
  destruct (task_create_from_image_is_atomic (H := debug_build) sample_as_table (Arena.new TASK_ARENA_CAPACITY)
    {| as_cap := sample_parent; entry_va := 0x400000; stack_top_va := 0x403000; image_bytes := 5000; stack_bytes := 4096 |}
    7 KNOWN_BITS (mo_table _ _ sample_mm_ok)) as (t' & a' & r & Hrun & _ & _ & Hr).
  { apply arena_new_WF, Nat.ltb_lt. reflexivity. }
  assert (Hok : ∃ h, r = Ok h).
  { apply (f_equal (fmap snd)) in Hrun. vm_compute in Hrun. injection Hrun as <-. by eexists. }
  destruct Hok as [h ->]. destruct Hr as (n & ash & th & m' & Hl & Ho & _ & Hg & _).
  assert (ash = BOOTSTRAP_ADDRESS_SPACE_HANDLE) as ->.
  { vm_compute in Hl. injection Hl as <-. cbn in Ho. injection Ho as <-. reflexivity. }
  exists t', a', h, th. split; [exact Hrun|exact Hg].
Defined.
