(* ===== verification/UserProgram.v ===== *)
(** * A loaded program and its memory

The loader, the page tables and the system-call copies together: through the page
walk of the board, the copies reach exactly the pages the loader made. *)

From stdpp Require Import gmap.
From S2P Require Import Prelude.
From S2P Require Import Hal.
From S2P Require Import Arena.
From S2P Require Import Objects.
From S2P Require Import Caps.
From S2P Require Import CapTable.
From S2P Require Import CapTableInv.
From S2P Require Import CapSpec.
From S2P Require Import Ipc.
From S2P Require Import SyscallError.
From S2P Require Import UserAccess.
From S2P Require Import UserAccessOps.
From S2P Require Import UserAccessProps.
From S2P Require Import Pmm.
From S2P Require Import QemuMmu.
From S2P Require Import QemuMmuInv.
From S2P Require Import QemuMmuOps.
From S2P Require Import QemuMmuProps.
From S2P Require Import AddressSpace.
From S2P Require Import AddressSpaceProps.
From S2P Require Import TaskLoader.
From S2P Require Import TaskTables.
From S2P Require Import TaskLoaderInv.
From S2P Require Import TaskLoaderProps.
Local Open Scope Z_scope.

(** The board's page walk as the copies use it.  On well-formed page tables the walk
    never panics and leaves memory alone ([translate_xlate]). *)
#[export] Instance page_walk `{Build} : Translate QemuVirtAddressSpace :=
  {| UserAccess.translate m as_ va :=
       match QemuMmu.translate as_ va m with Some (_, r) => r | None => Err NotMapped end |}.

(** ** The layout of a program *)

(** The pages of a program: [L] holds its frames, the image in the first [ip]. *)
Record layout `{Build} (m : Mem) (a : QemuVirtAddressSpace) (base : Z) (ip : nat) (L : list Z) : Prop := {
  ly_aligned : base `mod` PAGE_SIZE = 0;
  ly_base : 0 ≤ base;
  ly_image : (ip ≤ length L)%nat;
  ly_limit : base + Z.of_nat (length L) * PAGE_SIZE ≤ 2 ^ 48;
  ly_frames : ∀ f, f ∈ L → table_ok f;
  ly_nodup : NoDup L;
  ly_pages : ∀ j f, L !! j = Some f →
    UserAccess.translate m a (page_va base j) = Ok ({| frame_addr := f |}, page_flags ip j);
  ly_rest : ∀ v, (∀ j, (j < length L)%nat → page_of v ≠ page_of (page_va base j)) →
    UserAccess.translate m a v = Err NotMapped;
}.

Section layout.
  Context `{Build} (m : Mem) (a : QemuVirtAddressSpace) (base : Z) (ip : nat) (L : list Z).
  Context (Hly : layout m a base ip L).
Let Hal := ly_aligned _ _ _ _ _ Hly.
Let H0 := ly_base _ _ _ _ _ Hly.
Let Hip := ly_image _ _ _ _ _ Hly.
Let Hlim := ly_limit _ _ _ _ _ Hly.
Let Hok := ly_frames _ _ _ _ _ Hly.
Let Hnd := ly_nodup _ _ _ _ _ Hly.
Let Htr := ly_pages _ _ _ _ _ Hly.
Let Hno := ly_rest _ _ _ _ _ Hly.

Definition in_span (v : Z) : Prop := base ≤ v < base + Z.of_nat (length L) * PAGE_SIZE.

(** The page and the offset of an address of the program. *)
Lemma span_page v : in_span v → ∃ j f k, L !! j = Some f ∧ 0 ≤ k < PAGE_SIZE ∧ v = page_va base j + k ∧
  page_base_of v = page_va base j ∧ (v < base + Z.of_nat ip * PAGE_SIZE ↔ (j < ip)%nat).
Proof.
  intros [Hlo Hhi]. set (j := Z.to_nat ((v - base) `div` PAGE_SIZE)).
  pose proof (Z.div_mod (v - base) PAGE_SIZE) as Hdm. pose proof (Z.mod_pos_bound (v - base) PAGE_SIZE) as Hmb.
  assert (0 ≤ (v - base) `div` PAGE_SIZE) as Hd by (apply Z.div_pos; unfold PAGE_SIZE; lia).
  assert (Hj : Z.of_nat j = (v - base) `div` PAGE_SIZE) by (subst j; lia).
  assert (j < length L)%nat as HjL by (unfold PAGE_SIZE in *; lia).
  destruct (lookup_lt_is_Some_2 L j HjL) as [f Hf].
  assert (Hv : v = page_va base j + (v - base) `mod` PAGE_SIZE) by (unfold page_va, PAGE_SIZE in *; lia).
  exists j, f, ((v - base) `mod` PAGE_SIZE). unfold PAGE_SIZE in *. do 3 (split; [done || lia|]). split.
  - apply page_base_unique; unfold PAGE_SIZE; [lia| |lia]. unfold page_va, PAGE_SIZE. by rewrite Z.mod_add.
  - unfold page_va, PAGE_SIZE in Hv. lia.
Qed.

Lemma span_translate v : in_span v → ∃ j f, L !! j = Some f ∧
  UserAccess.translate m a (page_base_of v) = Ok ({| frame_addr := f |}, page_flags ip j) ∧
  uaddr m a v = KERNEL_HIGH_HALF_OFFSET + f + (v - page_va base j) ∧ 0 ≤ v - page_va base j < PAGE_SIZE ∧
  (v < base + Z.of_nat ip * PAGE_SIZE ↔ (j < ip)%nat).
Proof.
  intros Hv. destruct (span_page v Hv) as (j & f & k & Hj & Hk & -> & Hb & Hjip). exists j, f. split; [done|].
  rewrite Hb, (Htr _ _ Hj). split; [done|]. split; [|split; [lia|done]].
  unfold uaddr. rewrite Hb, (Htr _ _ Hj). unfold phys_frame_kernel_ptr. cbn [frame_addr].
  apply list_elem_of_lookup_2 in Hj. rewrite phys_to_kernel_va_Some by apply (Hok f Hj). done.
Qed.

Lemma outside_translate v : 0 ≤ v < 2 ^ 48 → ¬ in_span v → UserAccess.translate m a (page_base_of v) = Err NotMapped.
Proof.
  intros Hv Hout. apply Hno. intros j Hj. rewrite (page_of_va base j (length L)) by done.
  destruct (page_base_props v) as (Hm & Hb & Hb0); [lia|]. unfold page_of. rewrite Z.mod_small.
  - intros Heq. apply Hout. unfold in_span. pose proof (Z.div_mod (page_base_of v) PAGE_SIZE).
    pose proof (Z.div_mod base PAGE_SIZE). unfold PAGE_SIZE in *. lia.
  - unfold PAGE_SIZE in *. Z.to_euclidean_division_equations; lia.
Qed.

(** Every page that translates at all is one of the program's. *)
Lemma layout_frames v f fl : UserAccess.translate m a v = Ok (f, fl) → frame_addr f ∈ L.
Proof.
  intros Hv. destruct (decide (Exists (λ j, page_of v = page_of (page_va base j)) (seq 0 (length L)))) as [Hx|Hx].
  2:{ rewrite Hno in Hv; [done|]. intros j Hj Heq. apply Hx, Exists_exists. exists j. split; [|done]. apply elem_of_seq. lia. }
  apply Exists_exists in Hx as (j & Hj%elem_of_seq & Heq). destruct (lookup_lt_is_Some_2 L j) as [g Hg]; [lia|].
  apply va_path_page in Heq.
  assert (UserAccess.translate m a v = UserAccess.translate m a (page_va base j)) as Hsame.
  { cbn. unfold QemuMmu.translate. injection Heq as E0 E1 E2 E3. by rewrite E0, E1, E2, E3. }
  rewrite Hsame, (Htr _ _ Hg) in Hv. injection Hv as <- <-. by apply list_elem_of_lookup_2 in Hg.
Qed.

Lemma layout_direct : direct_mapped m a.
Proof.
  intros v f fl Hv%layout_frames. unfold phys_frame_kernel_ptr. rewrite phys_to_kernel_va_Some by apply (Hok _ Hv). by eexists.
Qed.

(** The bytes a copy may touch lie in the program's frames. *)
Lemma layout_uaddr v : 0 ≤ v < 2 ^ 64 → uaddr m a v = 0 ∨ ∃ f, f ∈ L ∧ in_frame f (uaddr m a v).
Proof.
  intros Hv. unfold uaddr. destruct (UserAccess.translate m a (page_base_of v)) as [[f fl]|e] eqn:Ht; [|by left].
  apply layout_frames in Ht. right. exists (frame_addr f). split; [done|]. unfold phys_frame_kernel_ptr.
  rewrite phys_to_kernel_va_Some by apply (Hok _ Ht). destruct (page_base_props v Hv) as (_ & Hb & _).
  unfold in_frame. cbn. lia.
Qed.

(** Who may be read, who may be written. *)
Lemma layout_page_ok v w : 0 ≤ v < 2 ^ 48 →
  page_ok m a w (page_base_of v) = true ↔ in_span v ∧ (w = true → base + Z.of_nat ip * PAGE_SIZE ≤ v).
Proof.
  intros Hv. unfold page_ok. destruct (decide (base ≤ v ∧ v < base + Z.of_nat (length L) * PAGE_SIZE)) as [Hin|Hout].
  2:{ rewrite outside_translate by done. split; [done|]. by intros [? _]. }
  destruct (span_translate v Hin) as (j & f & Hj & -> & _ & _ & Hjip).
  assert (flags_contains (page_flags ip j) USER = true ∧
          flags_contains (page_flags ip j) WRITE = negb (bool_decide (j < ip)%nat)) as [-> ->].
  { unfold page_flags. case_decide; [rewrite bool_decide_true by done|rewrite bool_decide_false by done]; done. }
  unfold in_span. destruct w; cbn [andb negb orb]; [|split; [done|reflexivity]].
  rewrite negb_true_iff, bool_decide_eq_false. split; [intros Hn; split; [done|lia]|]. intros [_ Hw]. specialize (Hw eq_refl). lia.
Qed.

(** Two addresses of the program share no byte. *)
Lemma layout_inj v w : in_span v → in_span w → uaddr m a v = uaddr m a w → v = w.
Proof.
  intros Hv Hw. destruct (span_translate v Hv) as (i & f & Hi & _ & -> & Hk & _).
  destruct (span_translate w Hw) as (j & g & Hj & _ & -> & Hl & _). intros Heq.
  assert (Hfg : f = g).
  { destruct (decide (f = g)) as [|Hne]; [done|]. exfalso.
    pose proof (list_elem_of_lookup_2 _ _ _ Hi) as Hfi. pose proof (list_elem_of_lookup_2 _ _ _ Hj) as Hgj.
    apply (frames_disjoint f g (KERNEL_HIGH_HALF_OFFSET + f + (v - page_va base i)) (Hok _ Hfi) (Hok _ Hgj) Hne).
    - by apply in_frame_at.
    - rewrite Heq. by apply in_frame_at. }
  subst g. pose proof (NoDup_lookup _ _ _ _ Hnd Hi Hj) as ->. lia.
Qed.
End layout.

(** ** A program the loader made *)

(** Byte [v] of the program: the image, then zeroes. *)
Definition program_byte (m : Mem) (image : Slice) (base v : Z) : Z :=
  if decide (v - base < slice_len image) then m (as_ptr image + (v - base)) else 0.

Section program.
  Context `{Build} (s s' : MmState QemuVirtAddressSpace Pmm) (used : gset Z) (image : Slice) (parent : CapHandle)
    (nr : CapRights) (base sp : Z) (l : LoadedImage) (hd : AddressSpaceHandle) (rt : Z) (L : list Z)
    (T : gmap Z (list Z)) (used' : gset Z).
  Context (Hl : loaded s s' used image parent nr base sp l hd rt L T used').
  Context (Hal : base `mod` PAGE_SIZE = 0) (H0 : 0 ≤ base) (Hsp : 0 < sp) (Hlen : 0 < slice_len image).
  Context (Hlim : stack_top_va l ≤ USERSPACE_VA_LIMIT).
Let a := space_at rt.
Let ip := Z.to_nat (image_page_count image).

Lemma program_span : base + Z.of_nat (length L) * PAGE_SIZE = stack_top_va l ∧ (ip ≤ length L)%nat ∧
  Z.of_nat ip = image_page_count image ∧ slice_len image ≤ Z.of_nat ip * PAGE_SIZE ∧ stack_top_va l ≤ 2 ^ 48.
Proof.
  pose proof (image_pages_pos image Hlen) as Hp. destruct (lo_result _ _ _ _ _ _ _ _ _ _ _ _ _ _ Hl) as (_ & -> & _).
  destruct (lo_frames _ _ _ _ _ _ _ _ _ _ _ _ _ _ Hl) as (_ & Hn & _). subst ip. rewrite Hn, Z2Nat.id by lia.
  split; [done|]. split; [lia|]. split; [done|]. split.
  - unfold image_page_count, div_ceil, PAGE_SIZE in *. Z.to_euclidean_division_equations; lia.
  - destruct (lo_result _ _ _ _ _ _ _ _ _ _ _ _ _ _ Hl) as (_ & <- & _). exact Hlim.
Qed.

Lemma program_pt : PT (memory s') rt T.
Proof. destruct (lo_ok _ _ _ _ _ _ _ _ _ _ _ _ _ _ Hl) as (_ & _ & Hs & _). apply (sp_pt _ _ _ _ (so_space _ _ _ _ _ Hs)). Qed.

(** Stores into the program's frames leave its page tables alone. *)
Lemma program_tables m : (∀ x t, t ∈ dom T → in_frame t x → m x = memory s' x) →
  ∀ v, UserAccess.translate m a v = UserAccess.translate (memory s') a v.
Proof.
  intros Hm v. pose proof program_pt as HP. destruct (PT_ext (memory s') m rt T HP) as [HP' Hx].
  { intros x t Ht. apply Hm. by apply elem_of_dom. }
  cbn. subst a. unfold space_at. rewrite (translate_xlate m rt T v HP'), (translate_xlate (memory s') rt T v HP). apply Hx.
Qed.

Lemma program_layout m : (∀ x t, t ∈ dom T → in_frame t x → m x = memory s' x) → layout m a base ip L.
Proof.
  intros Hm. destruct program_span as (Hspan & Hip & _ & _ & Htop).
  destruct (lo_frames _ _ _ _ _ _ _ _ _ _ _ _ _ _ Hl) as (Hnd & _ & Hfr).
  split; [done|done|done|by rewrite Hspan|by intros f Hf; apply (Hfr f Hf)|done|..].
  - intros j f Hj. rewrite program_tables by done. cbn. subst a ip.
    destruct (lo_pages _ _ _ _ _ _ _ _ _ _ _ _ _ _ Hl j f Hj) as [-> _]. done.
  - intros v Hv. rewrite program_tables by done. cbn. subst a. by rewrite (lo_rest _ _ _ _ _ _ _ _ _ _ _ _ _ _ Hl v Hv).
Qed.

(** What the program's addresses hold after the load. *)
Lemma program_bytes v : in_span base L v → memory s' (uaddr (memory s') a v) = program_byte (memory s) image base v.
Proof.
  intros Hv. destruct program_span as (Hspan & Hip & Hipz & Hcov & Htop).
  destruct (span_translate (memory s') a base ip L (program_layout (memory s') (λ _ _ _ _, eq_refl)) v Hv)
    as (j & f & Hj & _ & -> & Hk & Hjip).
  destruct (lo_pages _ _ _ _ _ _ _ _ _ _ _ _ _ _ Hl j f Hj) as [_ Hb]. rewrite Hb by done. fold ip.
  unfold page_byte, program_byte. unfold page_va in *.
  replace (Z.of_nat j * PAGE_SIZE + (v - (base + Z.of_nat j * PAGE_SIZE))) with (v - base) by lia.
  destruct Hv as [Hv1 Hv2]. do 2 case_decide; try done; lia.
Qed.
End program.

(** ** Access through a window *)

Section access.
  Context `{Build} (m : Mem) (a : QemuVirtAddressSpace) (base : Z) (ip : nat) (L : list Z).
  Context (Hly : layout m a base ip L).
Let top := base + Z.of_nat (length L) * PAGE_SIZE.

(** The lowest address a copy may touch, to read or to write. *)
Definition lowest (wr : bool) : Z := if wr then base + Z.of_nat ip * PAGE_SIZE else base.

Lemma access_range_ok wr ptr n : 0 ≤ ptr → 0 < n → ptr + n ≤ 2 ^ 48 →
  range_ok m a wr ptr n ↔ lowest wr ≤ ptr ∧ ptr + n ≤ top.
Proof.
  intros Hp Hn Hlim. unfold range_ok. split.
  - intros Hall. pose proof (Hall ptr ltac:(lia)) as Hfst. pose proof (Hall (ptr + n - 1) ltac:(lia)) as Hlst.
    apply (layout_page_ok m a base ip L Hly) in Hfst as [[Hf1 Hf2] Hf3]; [|lia].
    apply (layout_page_ok m a base ip L Hly) in Hlst as [[_ Hl2] _]; [|lia].
    subst top. unfold lowest. destruct wr; [specialize (Hf3 eq_refl)|]; lia.
  - intros [Hlo Hhi] v Hv. apply (layout_page_ok m a base ip L Hly); [lia|]. subst top. unfold lowest, in_span in *.
    assert (base ≤ base + Z.of_nat ip * PAGE_SIZE) by (unfold PAGE_SIZE; lia).
    destruct wr; (split; [lia|]); intros; [lia|done].
Qed.

Lemma access_iff w wr ptr n : 0 ≤ UserAccess.base w → UserAccess.base w + len w ≤ 2 ^ 48 → 0 ≤ n →
  accessible m a w wr ptr n ↔ n = 0 ∨ in_window w ptr n ∧ lowest wr ≤ ptr ∧ ptr + n ≤ top.
Proof.
  intros Hw0 Hw1 Hn. unfold accessible. destruct (decide (n = 0)) as [->|]; [split; by left|].
  split; (intros [?|[Hw Hr]]; [by left|right]); (split; [done|]); destruct Hw as (? & ? & _);
    apply (access_range_ok wr); done || lia.
Qed.

(** A copy touches no page table. *)
Lemma access_tables_outside rt T ptr n : PT m rt T → a = space_at rt → (∀ f, f ∈ L → f ∉ dom T) →
  0 ≤ ptr → ptr + n ≤ 2 ^ 64 → tables_outside m a ptr n.
Proof.
  intros HP -> Hap Hp Hn m' Hm v.
  assert (HT : ∀ x t, is_Some (T !! t) → in_frame t x → m' x = m x).
  { intros x t Ht Hx. apply Hm. intros k Hk ->. pose proof Ht as [q Hq]. destruct (pt_table _ _ _ HP _ _ Hq) as [Htok _].
    destruct (layout_uaddr m _ base ip L Hly (ptr + k)) as [Hz|(f & Hf & Hfin)]; [lia| |].
    - rewrite Hz in Hx. destruct Htok as [_ Htr]. unfold in_frame, KERNEL_HIGH_HALF_OFFSET in Hx. lia.
    - apply (frames_disjoint f t (uaddr m (space_at rt) (ptr + k)) (ly_frames _ _ _ _ _ Hly f Hf) Htok); [|done|done].
      intros <-. apply (Hap f Hf). by apply elem_of_dom. }
  destruct (PT_ext m m' rt T HP HT) as [HP' Hx]. cbn. unfold space_at.
  rewrite (translate_xlate m' rt T v HP'), (translate_xlate m rt T v HP). apply Hx.
Qed.

(** Reading bytes of the program one at a time. *)
Lemma access_bytes (g : Z → Z) ptr n : base ≤ ptr → ptr + Z.of_nat n ≤ top →
  (∀ v, in_span base L v → m (uaddr m a v) = g v) →
  user_bytes m a ptr n = (λ k, g (ptr + Z.of_nat k)) <$> seq 0 n.
Proof.
  intros Hlo Hhi Hg. unfold user_bytes. apply list_fmap_ext. intros i k Hk%list_elem_of_lookup_2%elem_of_seq.
  apply Hg. unfold in_span. subst top. lia.
Qed.
End access.

(** A derived capability to an address space resolves to it. *)
Lemma derived_resolves t t' parent nr hd m' h :
  CapSpec.astep (CapSpec.live t) (CapSpec.Derive parent nr (OAddressSpace hd)) m' (Ok (CapSpec.RHandle h)) →
  (∀ h', CapSpec.live t' h' = m' h') → resolve_address_space_cap t' h = Some (Ok hd).
Proof.
  intros Hst Hm. inversion Hst; subst. specialize (Hm h). unfold CapSpec.upd in Hm. rewrite decide_True in Hm by done.
  apply CapSpec.live_Some in Hm as (e & He & Hn). unfold resolve_address_space_cap. rewrite CapTableInv.lookup_eq, He. cbn.
  apply (f_equal (λ n, object (CapSpec.an_cap n))) in Hn. cbn in Hn. by rewrite <- Hn.
Qed.

Section program_access.
  Context `{Build} (s s' : MmState QemuVirtAddressSpace Pmm) (used : gset Z) (image : Slice) (parent : CapHandle)
    (nr : CapRights) (base sp : Z) (l : LoadedImage) (hd : AddressSpaceHandle) (rt : Z) (L : list Z)
    (T : gmap Z (list Z)) (used' : gset Z).
  Context (Hl : loaded s s' used image parent nr base sp l hd rt L T used').
  Context (Hal : base `mod` PAGE_SIZE = 0) (H0 : 0 ≤ base) (Hsp : 0 < sp) (Hlen : 0 < slice_len image).
  Context (Hlim : stack_top_va l ≤ USERSPACE_VA_LIMIT).
  Context (w : UserAccessWindow) (Hw0 : 0 ≤ UserAccess.base w) (Hwl : 0 ≤ len w) (Hw1 : UserAccess.base w + len w ≤ 2 ^ 48).
Let a := space_at rt.
Let ip := Z.to_nat (image_page_count image).

(** A range of the window between [lo] and the top of the stack. *)
Definition fits (lo ptr n : Z) : Prop := n = 0 ∨ in_window w ptr n ∧ lo ≤ ptr ∧ ptr + n ≤ stack_top_va l.

Lemma fits_iff m wr ptr n : layout m a base ip L → 0 ≤ n →
  accessible m a w wr ptr n ↔ fits (if wr then base + image_page_count image * PAGE_SIZE else base) ptr n.
Proof.
  intros Hly Hn. destruct (program_span s s' used image parent nr base sp l hd rt L T used' Hl Hsp Hlen Hlim)
    as (Hspan & _ & Hip & _ & _).
  rewrite (access_iff m a base ip L Hly) by done. unfold fits, lowest. rewrite Hspan. fold ip in Hip. rewrite Hip. done.
Qed.

(** Reading in a memory where the program's bytes are [g]. *)
Lemma program_read m (g : Z → Z) ptr dst : layout m a base ip L →
  (∀ v, in_span base L v → m (uaddr m a v) = g v) → 0 ≤ ptr ≤ U64_MAX →
  ∃ dst' r, copy_from_user m a w ptr dst = Some (dst', r) ∧
    (r = Ok tt ↔ fits base ptr (Z.of_nat (length dst))) ∧
    (r = Ok tt → dst' = (λ k, g (ptr + Z.of_nat k)) <$> seq 0 (length dst)) ∧
    (r ≠ Ok tt → r = Err FaultAddress ∧ dst' = dst).
Proof.
  intros Hly Hg Hp. destruct (program_span s s' used image parent nr base sp l hd rt L T used' Hl Hsp Hlen Hlim)
    as (Hspan & _ & _ & _ & Htop).
  assert (Hwb : 0 ≤ UserAccess.base w ≤ U64_MAX).
  { unfold U64_MAX. lia. }
  pose proof (copy_from_user_wp m a w ptr dst (layout_direct m a base ip L Hly) Hp Hwb) as Hwp.
  apply wp_run in Hwp as (dst' & r & Hr & Hc). exists dst', r. split; [done|].
  destruct (copy_condition m a w false ptr (Z.of_nat (length dst)) r) as [Hiff Hne]; [lia|naive_solver|].
  rewrite (fits_iff m false) in Hiff by (done || lia). split; [done|]. split.
  - intros Hok. apply Hiff in Hok as Hfit. destruct Hc as [(_ & _ & _ & ->)|(-> & _)]; [|done].
    destruct Hfit as [Hz|(_ & Hlo & Hhi)]; [by destruct dst|].
    apply (access_bytes m a base L g); [done|by rewrite Hspan|done].
  - intros Hnok. split; [by apply Hne|]. by destruct Hc as [(-> & _)|(_ & -> & _)].
Qed.

(** Byte [v] of the program after [src] was written at [ptr]. *)
Definition overlaid (g : Z → Z) (ptr : Z) (src : list Z) (v : Z) : Z :=
  if decide (ptr ≤ v) then default (g v) (src !! Z.to_nat (v - ptr)) else g v.

Lemma copy_to_user_invalid m ptr src : validate w ptr (Z.of_nat (length src)) = Err FaultAddress →
  copy_to_user a w ptr src m = Some (m, Err FaultAddress) ∧
  ∀ lo, ¬ fits lo ptr (Z.of_nat (length src)).
Proof.
  intros Hv. split; [unfold copy_to_user, bind, reads; by rewrite Hv|]. intros lo Hf.
  destruct (decide (Z.of_nat (length src) = 0)) as [Hz|Hz].
  - rewrite Hz in Hv. unfold validate in Hv. by rewrite bool_decide_true in Hv.
  - destruct Hf as [?|[Hiw _]]; [done|]. apply validate_iff in Hiw; [congruence|lia].
Qed.

Let Hlay := program_layout s s' used image parent nr base sp l hd rt L T used' Hl Hal H0 Hsp Hlen Hlim.
Let Hspan := program_span s s' used image parent nr base sp l hd rt L T used' Hl Hsp Hlen Hlim.

Lemma image_below_stack : base ≤ base + image_page_count image * PAGE_SIZE.
Proof. pose proof (image_pages_pos image Hlen). unfold PAGE_SIZE. lia. Qed.

(** The effect of a store into the program's frames. *)
Lemma write_effect (g : Z → Z) ptr src m' :
  (∀ v, in_span base L v → memory s' (uaddr (memory s') a v) = g v) →
  fits (base + image_page_count image * PAGE_SIZE) ptr (Z.of_nat (length src)) →
  (∀ x, m' x = write_user (uaddr (memory s') a) ptr src (memory s') x) →
  (∀ x t, t ∈ used ∪ dom T → table_ok t → in_frame t x → m' x = memory s' x) ∧
  layout m' a base ip L ∧ ∀ v, in_span base L v → m' (uaddr m' a v) = overlaid g ptr src v.
Proof.
  intros Hg Hfit Hm. pose proof (Hlay (memory s') (λ _ _ _ _, eq_refl)) as Hly.
  destruct (lo_frames _ _ _ _ _ _ _ _ _ _ _ _ _ _ Hl) as (_ & _ & Hfr).
  pose proof (program_pt s s' used image parent nr base sp l hd rt L T used' Hl) as HP.
  pose proof image_below_stack as Hbs. destruct Hspan as (Htop & _).
  assert (Hin : ∀ k, 0 ≤ k < Z.of_nat (length src) → in_span base L (ptr + k)).
  { intros k Hk. destruct Hfit as [?|(_ & ? & ?)]; [lia|]. unfold in_span. lia. }
  assert (Hkeep : ∀ x t, t ∈ used ∪ dom T → table_ok t → in_frame t x → m' x = memory s' x).
  { intros x t Ht Htok Hx. rewrite Hm, write_user_other; [done|]. intros k Hk ->.
    destruct (span_translate (memory s') a base ip L Hly _ (Hin k Hk)) as (j & f & Hj & _ & Hu & Hr & _). rewrite Hu in Hx.
    apply list_elem_of_lookup_2 in Hj. destruct (Hfr f Hj) as (Hfok & Hfu & Hfd).
    apply (frames_disjoint f t (KERNEL_HIGH_HALF_OFFSET + f + (ptr + k - page_va base j)) Hfok Htok); [|by apply in_frame_at|done].
    intros <-. set_solver. }
  assert (HkT : ∀ x t, t ∈ dom T → in_frame t x → m' x = memory s' x).
  { intros x t Ht. apply Hkeep; [set_solver|]. apply elem_of_dom in Ht as [q Hq]. apply (pt_table _ _ _ HP _ _ Hq). }
  split; [done|]. split; [by apply Hlay|]. intros v Hv.
  assert (uaddr m' a v = uaddr (memory s') a v) as ->.
  { unfold uaddr. rewrite (program_tables s s' used image parent nr base sp l hd rt L T used' Hl m' HkT). done. }
  rewrite Hm. unfold overlaid. destruct (src !! Z.to_nat (v - ptr)) as [b|] eqn:Hb; case_decide as Hpv; cbn.
  1: { replace v with (ptr + Z.of_nat (Z.to_nat (v - ptr))) by lia. apply write_user_hit; [|done].
       intros i j Hi Hj Heq. apply (layout_inj (memory s') a base ip L Hly) in Heq; [lia|by apply Hin|by apply Hin]. }
  all: rewrite write_user_other; [by apply Hg|]; intros k Hk Heq;
    apply (layout_inj (memory s') a base ip L Hly) in Heq; [|done|by apply Hin]; subst v; try lia.
  apply lookup_ge_None in Hb. lia.
Qed.

(** Writing, and what the program's bytes are then. *)
Lemma program_write (g : Z → Z) ptr src :
  (∀ v, in_span base L v → memory s' (uaddr (memory s') a v) = g v) → 0 ≤ ptr ≤ U64_MAX →
  ∃ m' r, copy_to_user a w ptr src (memory s') = Some (m', r) ∧
    (r = Ok tt ↔ fits (base + image_page_count image * PAGE_SIZE) ptr (Z.of_nat (length src))) ∧
    (r = Ok tt → (∀ x t, t ∈ used ∪ dom T → table_ok t → in_frame t x → m' x = memory s' x) ∧
       layout m' a base ip L ∧ ∀ v, in_span base L v → m' (uaddr m' a v) = overlaid g ptr src v) ∧
    (r ≠ Ok tt → r = Err FaultAddress ∧ m' = memory s').
Proof.
  intros Hg Hp. set (n := Z.of_nat (length src)).
  pose proof (Hlay (memory s') (λ _ _ _ _, eq_refl)) as Hly.
  destruct (lo_frames _ _ _ _ _ _ _ _ _ _ _ _ _ _ Hl) as (_ & _ & Hfr).
  destruct (lo_ok _ _ _ _ _ _ _ _ _ _ _ _ _ _ Hl) as (_ & _ & Hso & _).
  pose proof (program_pt s s' used image parent nr base sp l hd rt L T used' Hl) as HP.
  assert (Hwb : 0 ≤ UserAccess.base w ≤ U64_MAX) by (unfold U64_MAX; lia).
  destruct (validate_cases w ptr n) as [Hv|Hv].
  2:{ destruct (copy_to_user_invalid (memory s') ptr src Hv) as [-> Hnf]. exists (memory s'), (Err FaultAddress).
      split; [done|]. split; [|by split]. split; [done|]. by intros ?%Hnf. }
  assert (Hend : ptr + n ≤ 2 ^ 64).
  { destruct (decide (0 < n)) as [Hn|Hn]; [|unfold U64_MAX in *; lia]. apply (validate_iff w ptr n Hn) in Hv as (_ & ? & ?). lia. }
  assert (Hto : tables_outside (memory s') a ptr n).
  { apply (access_tables_outside (memory s') a base ip L Hly rt T); try done; [|lia]. intros f Hf. apply (Hfr f Hf). }
  pose proof (copy_to_user_wp (memory s') a ptr src (layout_direct _ _ _ _ _ Hly) Hto w Hp Hwb) as Hwp.
  apply wp_run in Hwp as (m' & r & Hr & Hc). fold n in Hc. exists m', r. split; [done|].
  destruct (copy_condition (memory s') a w true ptr n r) as [Hiff Hne]; [lia|naive_solver|].
  rewrite (fits_iff (memory s') true) in Hiff by (done || lia). split; [done|].
  split; [|intros Hnok; split; [by apply Hne|]; by destruct Hc as [(-> & _)|(_ & -> & _)]].
  intros Hok. apply Hiff in Hok as Hfit. destruct Hc as [(_ & _ & _ & Hm)|(-> & _)]; [|done]. by apply write_effect.
Qed.
End program_access.

(** C4: a loaded program reaches its own memory, as the loader laid it out, and nothing
    else.  After a successful [load_image], through any window below the user limit:
    [copy_from_user] succeeds exactly for ranges of the window between the image base
    and the stack top, and then yields the image's bytes and zeroes behind them;
    [copy_to_user] succeeds exactly for ranges of the window within the stack, never
    for a byte of the (executable) image, and then every later read gives back what was
    written, and the old bytes elsewhere; no frame that was in use before the load
    changes.  A refused copy answers [FaultAddress] and changes nothing. *)
Theorem loaded_program_memory `{Build} (s s' : MmState QemuVirtAddressSpace Pmm) used image parent nr base sp pa l w :
  mm_ok s used → is_u64 base → 0 ≤ sp ≤ U64_MAX → 0 ≤ pa → 0 ≤ slice_len image →
  as_ptr image = KERNEL_HIGH_HALF_OFFSET + pa → pa + slice_len image ≤ 0x100000000 →
  load_image (H0 := QemuVirtMmu) image parent nr base sp s = Some (s', Ok l) →
  0 ≤ UserAccess.base w → 0 ≤ len w → UserAccess.base w + len w ≤ USERSPACE_VA_LIMIT →
  ∃ hd rt, resolve_address_space_cap (table s') (as_cap l) = Some (Ok hd) ∧
    get_address_space (as_arena s') hd = Some {| inner := space_at rt |} ∧
    let a := space_at rt in
    let reads_as m (g : Z → Z) := ∀ ptr dst, 0 ≤ ptr ≤ U64_MAX → ∃ dst' r,
      copy_from_user m a w ptr dst = Some (dst', r) ∧
      (r = Ok tt ↔ fits l w base ptr (Z.of_nat (length dst))) ∧
      (r = Ok tt → dst' = (λ k, g (ptr + Z.of_nat k)) <$> seq 0 (length dst)) ∧
      (r ≠ Ok tt → r = Err FaultAddress ∧ dst' = dst) in
    reads_as (memory s') (program_byte (memory s) image base) ∧
    ∀ ptr src, 0 ≤ ptr ≤ U64_MAX → ∃ m' r, copy_to_user a w ptr src (memory s') = Some (m', r) ∧
      (r = Ok tt ↔ fits l w (base + image_page_count image * PAGE_SIZE) ptr (Z.of_nat (length src))) ∧
      (r = Ok tt → (∀ x t, t ∈ used → table_ok t → in_frame t x → m' x = memory s' x) ∧
         reads_as m' (overlaid (program_byte (memory s) image base) ptr src)) ∧
      (r ≠ Ok tt → r = Err FaultAddress ∧ m' = memory s').
Proof.
  intros Hok Hb Hs0 Hpa Hl0 Hptr Htop Hrun Hw0 Hwl Hw1.
  pose proof (load_image_wp s used image parent nr base sp pa Hok Hb Hs0 Hpa Hl0 Hptr Htop) as Hwp.
  pose proof (wp_det _ _ _ _ _ Hwp Hrun) as [(Hal & Hsp & Hlen & Hlim) (hd & rt & L & T & used' & Hl)].
  destruct Hb as [H0 _]. destruct (lo_cap _ _ _ _ _ _ _ _ _ _ _ _ _ _ Hl) as (mt & Hst & Hm).
  destruct (lo_ok _ _ _ _ _ _ _ _ _ _ _ _ _ _ Hl) as (_ & _ & [Hg _] & _).
  exists hd, rt. split; [by eapply derived_resolves|]. split; [done|]. intros a reads_as.
  pose proof (program_layout s s' used image parent nr base sp l hd rt L T used' Hl Hal H0 Hsp Hlen Hlim
    (memory s') (λ _ _ _ _, eq_refl)) as Hly.
  pose proof (program_bytes s s' used image parent nr base sp l hd rt L T used' Hl Hal H0 Hsp Hlen Hlim) as Hbytes.
  assert (Hread : ∀ m g, layout m a base (Z.to_nat (image_page_count image)) L →
    (∀ v, in_span base L v → m (uaddr m a v) = g v) → reads_as m g).
  { intros m g Hly' Hg' ptr dst Hp. by eapply program_read. }
  split; [by apply Hread|]. intros ptr src Hp.
  edestruct (program_write s s' used image parent nr base sp l hd rt L T used' Hl Hal H0 Hsp Hlen Hlim w Hw0 Hwl Hw1
    (program_byte (memory s) image base) ptr src Hbytes Hp) as (m' & r & Hr & Hiff & Heff & Hno).
  exists m', r. split; [done|]. split; [done|]. split; [|done]. intros Hok'.
  destruct (Heff Hok') as (Hk & Hly' & Hb'). split; [|by apply Hread].
  intros x t Ht. apply Hk. set_solver.
Qed.

(** The sample load: the program reads its image across a page boundary, writes its
    stack, and may not write its image. *)
Definition sample_loaded : MmState QemuVirtAddressSpace Pmm :=
  match load_image (H := debug_build) (H0 := QemuVirtMmu (H := debug_build)) sample_image sample_parent (union SEND RECV)
    0x400000 1 sample_mm with Some (s, _) => s | None => sample_mm end.

Definition sample_loaded_image : LoadedImage :=
  {| as_cap := {| ch_index := 1; ch_generation := 0 |}; entry_va := 0x400000; stack_top_va := 0x403000;
     image_bytes := 5000; stack_bytes := 4096 |}.

Lemma sample_load_eq : load_image (H := debug_build) (H0 := QemuVirtMmu (H := debug_build)) sample_image sample_parent (union SEND RECV)
    0x400000 1 sample_mm =
   Some (sample_loaded, Ok sample_loaded_image).
Proof. apply run_result. vm_compute. reflexivity. Qed.

Definition sample_user_window : UserAccessWindow := {| UserAccess.base := 0x400000; len := 0x3000 |}.

Lemma loaded_program_memory_witness :
  ∃ s' l hd rt m', load_image (H := debug_build) (H0 := QemuVirtMmu (H := debug_build)) sample_image sample_parent (union SEND RECV)
    0x400000 1 sample_mm = Some (s', Ok l) ∧
    resolve_address_space_cap (table s') (as_cap l) = Some (Ok hd) ∧
    copy_from_user (H := page_walk (H := debug_build)) (memory s') (space_at rt) sample_user_window 0x401387 [9; 9]
      = Some ([1; 0], Ok tt) ∧
    copy_to_user (H := page_walk (H := debug_build)) (space_at rt) sample_user_window 0x402ffe [5; 6] (memory s')
      = Some (m', Ok tt) ∧
    copy_from_user (H := page_walk (H := debug_build)) m' (space_at rt) sample_user_window 0x402ffd [9; 9]
      = Some ([0; 5], Ok tt) ∧
    copy_to_user (H := page_walk (H := debug_build)) (space_at rt) sample_user_window 0x401fff [5; 6] (memory s')
      = Some (memory s', Err FaultAddress).
Proof.
  assert (Hfit : ∀ lo ptr n, fits sample_loaded_image sample_user_window lo ptr n ↔
    n = 0 ∨ in_window sample_user_window ptr n ∧ lo ≤ ptr ∧ ptr + n ≤ 0x403000).
  { intros. reflexivity. }
  destruct (loaded_program_memory (H := debug_build) sample_mm sample_loaded ∅ sample_image sample_parent (union SEND RECV) 0x400000 1
    0x40000010 sample_loaded_image sample_user_window sample_mm_ok) as (hd & rt & Hres & _ & Hread & Hwrite);
    [by split|by split|done|done|done|done|exact sample_load_eq|done|done|done|].
  destruct (Hread 0x401387 [9; 9]) as (d & r & Hr & Hiff & Hd & _); [by split|].
  destruct (Hwrite 0x402ffe [5; 6]) as (m' & r2 & Hr2 & Hiff2 & Heff & _); [by split|].
  destruct (Hwrite 0x401fff [5; 6]) as (m3 & r3 & Hr3 & Hiff3 & _ & Hno3); [by split|].
  assert (Hw : ∀ ptr n, 0x400000 ≤ ptr → ptr + n ≤ 0x403000 → in_window sample_user_window ptr n).
  { intros. unfold in_window, U64_MAX. cbn. lia. }
  assert (r = Ok tt) as -> by (apply Hiff, Hfit; right; cbn; split; [by apply Hw|lia]).
  assert (r2 = Ok tt) as -> by (apply Hiff2, Hfit; right; cbn; split; [by apply Hw|by split]).
  destruct (Heff eq_refl) as [_ Hread2].
  destruct (Hread2 0x402ffd [9; 9]) as (d4 & r4 & Hr4 & Hiff4 & Hd4 & _); [by split|].
  assert (r4 = Ok tt) as -> by (apply Hiff4, Hfit; right; cbn; split; [by apply Hw|lia]).
  assert (Hn3 : r3 ≠ Ok tt).
  { intros [Hz|(_ & Hlo & _)]%Hiff3%Hfit; [done|]. vm_compute in Hlo. by apply Hlo. }
  destruct (Hno3 Hn3) as [-> ->]. specialize (Hd eq_refl). specialize (Hd4 eq_refl).
  exists sample_loaded, sample_loaded_image, hd, rt, m'. split; [exact sample_load_eq|]. split; [exact Hres|]. split; [rewrite Hr, Hd; reflexivity|].
  split; [exact Hr2|]. split; [rewrite Hr4, Hd4; reflexivity|exact Hr3].
Defined.
