(* ===== verification/TestMmu.v ===== *)
(** * The MMU of the host tests (test-hal/src/mmu.rs)

The kernel's unit tests run on [FakeMmu], which keeps its mappings in a hash map, and
on two decorators of it that inject the failures it cannot have: [OutOfFramesMmu] and
[BlockMappedMmu].  Each is an instance of the class [Mmu] the kernel is generic in.
The address space is a [gmap]; what the fake records of activations and
invalidations is [FakeMmuState]. *)

From stdpp Require Import gmap.
From S2P Require Import Prelude.
From S2P Require Import Hal.
From S2P Require Import Arena.
From S2P Require Import Objects.
From S2P Require Import Caps.
From S2P Require Import CapTable.
From S2P Require Import Ipc.
From S2P Require Import SyscallError.
From S2P Require Import UserAccess.
From S2P Require Import Vmsav8.
From S2P Require Import QemuMmu.
From S2P Require Import AddressSpace.
Local Open Scope Z_scope.

(** ** Frames and address spaces *)

Record VecFrameProvider := { available : list PhysFrame }.
Definition VecFrameProvider_new (frames : list PhysFrame) : VecFrameProvider := {| available := frames |}.
Definition remaining (self : VecFrameProvider) : nat := length (available self).

(** It pops from the end and zeroes nothing. *)
#[export] Instance VecFrameProvider_frames : FrameProvider VecFrameProvider :=
  { provide_frame := λ f m,
      match reverse (available f) with
      | [] => Some (f, m, None)
      | x :: rest => Some ({| available := reverse rest |}, m, Some x)
      end }.

Record FakeAddressSpace := { fake_root : PhysFrame; mappings : gmap Z (PhysFrame * MappingFlags) }.

Definition mapping_count (self : FakeAddressSpace) : nat := size (mappings self).
Definition fake_lookup (self : FakeAddressSpace) (va : Z) : option (PhysFrame * MappingFlags) := mappings self !! va.
Definition set_mappings (ms : gmap Z (PhysFrame * MappingFlags)) (self : FakeAddressSpace) : FakeAddressSpace :=
  {| fake_root := fake_root self; mappings := ms |}.

(** ** FakeMmu *)

(** What the fake records for a test to look at. *)
Record FakeMmuState := {
  activated_root : option PhysFrame;
  tlb_address_invalidations : list VirtAddr;
  tlb_all_count : Z;
}.

Definition FakeMmu_new : FakeMmuState :=
  {| activated_root := None; tlb_address_invalidations := []; tlb_all_count := 0 |}.

Section fake.
  Context `{Build} {F : Type} {E : Type}.

Definition fake_activate (as_ : FakeAddressSpace) : M FakeMmuState E unit :=
  modify (λ s, {| activated_root := Some (fake_root as_); tlb_address_invalidations := tlb_address_invalidations s;
                  tlb_all_count := tlb_all_count s |}).
Definition fake_invalidate_tlb_address (va : VirtAddr) : M FakeMmuState E unit :=
  modify (λ s, {| activated_root := activated_root s; tlb_address_invalidations := tlb_address_invalidations s ++ [va];
                  tlb_all_count := tlb_all_count s |}).
(** [+= 1]: a debug build panics at the top of the counter, a release build wraps. *)
Definition fake_invalidate_tlb_all : M FakeMmuState E unit := λ s,
  if debug_assertions && bool_decide (tlb_all_count s = U64_MAX) then None else
  Some ({| activated_root := activated_root s; tlb_address_invalidations := tlb_address_invalidations s;
           tlb_all_count := wrapping_add64 (tlb_all_count s) 1 |}, Ok tt).
End fake.

Definition fake_create_address_space (root : PhysFrame) : FakeAddressSpace := {| fake_root := root; mappings := ∅ |}.

(** The address space is the first component; the provider is never asked. *)
Definition fake_map {F} (va : Z) (pa : PhysFrame) (flags : MappingFlags)
    : M (FakeAddressSpace * MmuState F) MmuError VirtAddr := λ s,
  if negb (bool_decide (va `mod` PAGE_SIZE = 0)) then Some (s, Err MisalignedAddress) else
  if flags_contains flags DEVICE && flags_contains flags EXECUTE then Some (s, Err InvalidFlags) else
  if bool_decide (is_Some (mappings s.1 !! va)) then Some (s, Err AlreadyMapped) else
  Some ((set_mappings (<[va := (pa, flags)]> (mappings s.1)) s.1, s.2), Ok va).

Definition fake_unmap {X} (va : Z) : M (FakeAddressSpace * X) MmuError (VirtAddr * PhysFrame) := λ s,
  if negb (bool_decide (va `mod` PAGE_SIZE = 0)) then Some (s, Err MisalignedAddress) else
  match mappings s.1 !! va with
  | Some (pa, _) => Some ((set_mappings (delete va (mappings s.1)) s.1, s.2), Ok (va, pa))
  | None => Some (s, Err NotMapped)
  end.

Definition fake_translate (as_ : FakeAddressSpace) (va : VirtAddr) : result MmuError (PhysFrame * MappingFlags) :=
  let page_base := Z.land va (not64 (PAGE_SIZE - 1)) in
  match fake_lookup as_ page_base with Some x => Ok x | None => Err NotMapped end.

#[export] Instance FakeMmu : Mmu FakeAddressSpace := {
  mmu_create_address_space := fake_create_address_space;
  mmu_address_space_root := fake_root;
  mmu_map F _ va pa flags := fake_map va pa flags;
  mmu_unmap va := fake_unmap va;
}.
#[export] Instance FakeMmu_translate : Translate FakeAddressSpace := {| UserAccess.translate _ := fake_translate |}.

(** ** The decorators *)

(** A map asks for one frame, and is undone when there is none. *)
Definition oof_map `{FrameProvider F} (va : VirtAddr) (pa : PhysFrame) (flags : MappingFlags)
    : M (FakeAddressSpace * MmuState F) MmuError VirtAddr :=
  let* flush := fake_map va pa flags in
  λ s,
  match provide_frame (frames s.2) (mem s.2) with
  | None => None
  | Some (f, m, None) =>
      match fake_unmap va (s.1, {| frames := f; mem := m |}) with
      | None => None
      | Some (s', _) => Some (s', Err OutOfFrames)
      end
  | Some (f, m, Some _) => Some ((s.1, {| frames := f; mem := m |}), Ok flush)
  end.

Definition OutOfFramesMmu : Mmu FakeAddressSpace := {|
  mmu_create_address_space := fake_create_address_space;
  mmu_address_space_root := fake_root;
  mmu_map F _ va pa flags := oof_map va pa flags;
  mmu_unmap va := fake_unmap va;
|}.

(** The set of blocked addresses is fixed while the MMU is in use. *)
Definition block_map {F} (blocked : gset Z) (va : VirtAddr) (pa : PhysFrame) (flags : MappingFlags)
    : M (FakeAddressSpace * MmuState F) MmuError VirtAddr :=
  if bool_decide (va ∈ blocked) then throw BlockMapped else fake_map va pa flags.

Definition block_unmap {X} (blocked : gset Z) (va : VirtAddr) : M (FakeAddressSpace * X) MmuError (VirtAddr * PhysFrame) :=
  if bool_decide (va ∈ blocked) then throw BlockMapped else fake_unmap va.

Definition block_translate (blocked : gset Z) (as_ : FakeAddressSpace) (va : VirtAddr)
    : result MmuError (PhysFrame * MappingFlags) :=
  let page_base := Z.land va (not64 (PAGE_SIZE - 1)) in
  if bool_decide (page_base ∈ blocked) then Err BlockMapped else fake_translate as_ va.

Definition block (blocked : gset Z) (va : VirtAddr) : gset Z := {[va]} ∪ blocked.
Definition with_blocked (addrs : list VirtAddr) : gset Z := list_to_set addrs.

Definition BlockMappedMmu (blocked : gset Z) : Mmu FakeAddressSpace := {|
  mmu_create_address_space := fake_create_address_space;
  mmu_address_space_root := fake_root;
  mmu_map F _ va pa flags := block_map blocked va pa flags;
  mmu_unmap va := block_unmap blocked va;
|}.

(** ** FakeUserMem: pages of the host, mapped *)

(** The allocator's answer, a zeroed buffer at [ptr] or null, is an argument. *)
Record FakeUserMem := { um_ptr : Z; um_base_va : Z; um_npages : nat; um_as : FakeAddressSpace }.

(** [a + b] and [a * b] on [usize]: a debug build panics on overflow, a release build wraps. *)
Definition usize_of `{Build} (x : Z) : option Z :=
  if debug_assertions && bool_decide (U64_MAX < x) then None else Some (x `mod` 2 ^ 64).

(** [Layout::from_size_align] refuses a size that rounds up past [isize::MAX]. *)
Definition ISIZE_MAX : Z := 2 ^ 63 - 1.

Section user_mem.
  Context `{Build}.

Fixpoint user_pages (n : nat) (ptr base_va : Z) (flags : MappingFlags) (i : Z) (as_ : FakeAddressSpace) : option FakeAddressSpace :=
  match n with
  | O => Some as_
  | S n =>
      offset ← usize_of (i * PAGE_SIZE);
      host_page ← usize_of (ptr + offset);
      frame ← from_aligned host_page;
      va ← usize_of (base_va + offset);
      match fake_map va frame flags (as_, {| frames := VecFrameProvider_new []; mem := λ _, 0 |}) with
      | Some ((as_, _), Ok _) => user_pages n ptr base_va flags (i + 1) as_
      | _ => None
      end
  end.

Definition FakeUserMem_new (ptr : Z) (base_va : Z) (npages : nat) (flags : MappingFlags) : option FakeUserMem :=
  if negb (bool_decide (1 ≤ npages)%nat) then None else
  if negb (bool_decide (base_va `mod` PAGE_SIZE = 0)) then None else
  size ← usize_of (Z.of_nat npages * PAGE_SIZE);
  if bool_decide (ISIZE_MAX - (PAGE_SIZE - 1) < size) then None else
  if bool_decide (ptr = 0) then None else
  root ← from_aligned 0x1000;
  as_ ← user_pages npages ptr base_va flags 0 (fake_create_address_space root);
  Some {| um_ptr := ptr; um_base_va := base_va; um_npages := npages; um_as := as_ |}.

Definition region_len (self : FakeUserMem) : option Z := usize_of (Z.of_nat (um_npages self) * PAGE_SIZE).

(** Bytes of the region, in the host's memory. *)
Definition um_write (self : FakeUserMem) (off : Z) (bytes : list Z) (m : Mem) : option Mem :=
  end_ ← usize_of (off + Z.of_nat (length bytes)); n ← region_len self;
  if negb (bool_decide (end_ ≤ n)) then None else
  Some (write_bytes m (um_ptr self + off) bytes).
Definition um_read (self : FakeUserMem) (off : Z) (len : nat) (m : Mem) : option (list Z) :=
  end_ ← usize_of (off + Z.of_nat len); n ← region_len self;
  if negb (bool_decide (end_ ≤ n)) then None else
  Some (read_bytes m (um_ptr self + off) len).
End user_mem.
