(* ===== verification/TestMmuProps.v ===== *)
(** * The MMU of the host tests behaves as the board's

A sequence of calls on the page tables of the board and the same sequence on the hash
map of the fake answer alike, call by call; what the fake cannot refuse for want of a
frame, [OutOfFramesMmu] refuses. *)

From stdpp Require Import gmap.
From S2P Require Import Prelude.
From S2P Require Import Hal.
From S2P Require Import Arena.
From S2P Require Import Objects.
From S2P Require Import Caps.
From S2P Require Import CapTable.
From S2P Require Import Ipc.
From S2P Require Import SyscallError.
From S2P Require Import UserAccess.
From S2P Require Import UserAccessOps.
From S2P Require Import Pmm.
From S2P Require Import PmmProps.
From S2P Require Import Vmsav8.
From S2P Require Import Words.
From S2P Require Import QemuMmu.
From S2P Require Import QemuMmuInv.
From S2P Require Import QemuMmuOps.
From S2P Require Import QemuMmuProps.
From S2P Require Import AddressSpace.
From S2P Require Import UserProgram.
From S2P Require Import TestMmu.
Local Open Scope Z_scope.

(** ** Calls and answers *)

Inductive mmu_call :=
| CMap (va : VirtAddr) (pa : PhysFrame) (flags : MappingFlags)
| CUnmap (va : VirtAddr)
| CTranslate (va : VirtAddr).

Inductive mmu_answer :=
| AMap (r : result MmuError VirtAddr)
| AUnmap (r : result MmuError (VirtAddr * PhysFrame))
| ATranslate (r : result MmuError (PhysFrame * MappingFlags)).

#[export] Instance mmu_answer_eq_dec : EqDecision mmu_answer.
Proof. solve_decision. Defined.

Section calls.
  Context `{Mmu AS} `{Translate AS} `{FrameProvider F}.

Definition answer (c : mmu_call) (s : AS * MmuState F) : option ((AS * MmuState F) * mmu_answer) :=
  match c with
  | CMap va pa flags => match mmu_map F va pa flags s with Some (s', r) => Some (s', AMap r) | None => None end
  | CUnmap va =>
      match mmu_unmap va (s.1, mem s.2) with
      | Some ((a, m), r) => Some ((a, {| frames := frames s.2; mem := m |}), AUnmap r)
      | None => None
      end
  | CTranslate va => Some (s, ATranslate (UserAccess.translate (mem s.2) s.1 va))
  end.

Fixpoint answers (cs : list mmu_call) (s : AS * MmuState F) : option ((AS * MmuState F) * list mmu_answer) :=
  match cs with
  | [] => Some (s, [])
  | c :: cs =>
      '(s, r) ← answer c s;
      '(s, rs) ← answers cs s;
      Some (s, r :: rs)
  end.
End calls.

(** Addresses of the low half, whole frames, the flags the HAL names. *)
Definition call_ok (c : mmu_call) : Prop :=
  match c with
  | CMap va pa flags => 0 ≤ va < 2 ^ 48 ∧ frame_addr pa `mod` PAGE_SIZE = 0 ∧ 0 ≤ frame_addr pa < 2 ^ 48 ∧ known_flags flags = flags
  | CUnmap va | CTranslate va => 0 ≤ va < 2 ^ 48
  end.

(** A provider that grants and refuses as told, for [OutOfFramesMmu]. *)
#[local] Instance told : FrameProvider (list bool) :=
  { provide_frame := λ l m,
      match l with
      | [] => Some ([], m, None)
      | b :: l => Some (l, m, if b : bool then Some {| frame_addr := 0 |} else None)
      end }.

Definition out_of_frames : mmu_answer := AMap (Err OutOfFrames).

(** ** The relation *)

(** The fake translates what the page tables translate. *)
Definition mirrors (m : Mem) (rt : Z) (as_ : FakeAddressSpace) : Prop :=
  ∀ va, 0 ≤ va < 2 ^ 48 → xlate m rt va = fake_translate as_ va.

Lemma fake_base va : 0 ≤ va < 2 ^ 48 → Z.land va (not64 (PAGE_SIZE - 1)) = va - va `mod` PAGE_SIZE.
Proof. intros Hva. apply (page_base_eq va). lia. Qed.

Lemma fake_translate_eq as_ va : 0 ≤ va < 2 ^ 48 →
  fake_translate as_ va = match mappings as_ !! (va - va `mod` PAGE_SIZE) with Some x => Ok x | None => Err NotMapped end.
Proof. intros Hva. unfold fake_translate, fake_lookup. by rewrite fake_base. Qed.

Lemma mirrors_aligned m rt as_ va : mirrors m rt as_ → 0 ≤ va < 2 ^ 48 → va `mod` PAGE_SIZE = 0 →
  xlate m rt va = match mappings as_ !! va with Some x => Ok x | None => Err NotMapped end.
Proof. intros Hm Hva Hal. rewrite (Hm va Hva), fake_translate_eq by done. by rewrite Hal, Z.sub_0_r. Qed.

(** Two addresses of one page have one page base. *)
Lemma page_of_base va va' : 0 ≤ va < 2 ^ 48 → 0 ≤ va' < 2 ^ 48 → va `mod` PAGE_SIZE = 0 →
  page_of va' = page_of va ↔ va' - va' `mod` PAGE_SIZE = va.
Proof.
  intros Hva Hva' Hal. unfold page_of, PAGE_SIZE in *.
  rewrite !(Z.mod_small (_ `div` 4096)) by (Z.to_euclidean_division_equations; lia). Z.to_euclidean_division_equations; lia.
Qed.

(** Changing one page of both sides. *)
Lemma mirrors_change m m' rt as_ va (ms : gmap Z (PhysFrame * MappingFlags)) : mirrors m rt as_ →
  0 ≤ va < 2 ^ 48 → va `mod` PAGE_SIZE = 0 →
  xlate m' rt va = match ms !! va with Some x => Ok x | None => Err NotMapped end →
  (∀ va', page_of va' ≠ page_of va → xlate m' rt va' = xlate m rt va') →
  (∀ va', va' ≠ va → ms !! va' = mappings as_ !! va') → mirrors m' rt (set_mappings ms as_).
Proof.
  intros Hm Hva Hal Hat Hother Hms va' Hva'. rewrite fake_translate_eq by done. cbn [set_mappings mappings].
  destruct (decide (page_of va' = page_of va)) as [Hp|Hp].
  - pose proof Hp as Hb%page_of_base; [|done..]. rewrite Hb, <- Hat. unfold xlate. by apply va_path_page in Hp as ->.
  - rewrite Hother, (Hm va') by done. rewrite fake_translate_eq by done. rewrite Hms; [done|].
    intros Hb. by apply Hp, page_of_base.
Qed.

(** ** One call *)

Lemma set_mappings_id as_ : set_mappings (mappings as_) as_ = as_.
Proof. by destruct as_. Qed.

Lemma mirrors_keep m m' rt as_ : mirrors m rt as_ → (∀ va, xlate m' rt va = xlate m rt va) → mirrors m' rt as_.
Proof. intros Hm Hx va Hva. by rewrite Hx, Hm. Qed.

Section simulation.
  Context `{Build} `{FrameProviderSpec F}.
  Implicit Types (s : MmuState F).

(** The board and the two fakes after one call: one answer, related states, and a
    refusal exactly when the provider of the board has run out. *)
Definition simulated (c : mmu_call) s rt as_ : Prop := ∃ s' T used as' r (o : list bool),
  answer c (space_at rt, s) = Some ((space_at rt, s'), r) ∧ space s' rt T used ∧ mirrors (mem s') rt as' ∧
  (∀ rest fm, answer (H := OutOfFramesMmu) c (as_, {| frames := o ++ rest; mem := fm |}) = Some ((as', {| frames := rest; mem := fm |}), r)) ∧
  (∀ X `{FrameProvider X} (x : MmuState X), r ≠ out_of_frames → answer (H := FakeMmu) c (as_, x) = Some ((as', x), r)) ∧
  (r = out_of_frames → as' = as_ ∧ fp_free (frames s') = 0%nat).

Lemma map_simulated s rt T used as_ (va : Z) pa flags : space s rt T used → mirrors (mem s) rt as_ →
  call_ok (CMap va pa flags) → simulated (CMap va pa flags) s rt as_.
Proof.
  intros Hs Hm (Hva & Hpal & Hpar & Hfl).
  destruct (proj1 (wp_run _ _ _) (map_wp s rt T used va pa flags Hs Hpal Hpar)) as (s' & r & Hrun & T' & Hs' & _ & _ & _ & Hr).
  assert (Hans : answer (CMap va pa flags) (space_at rt, s) = Some ((space_at rt, s'), AMap r)).
  { cbn. unfold zoom. cbn [fst snd]. by rewrite Hrun. }
  unfold simulated. destruct (decide (va `mod` PAGE_SIZE = 0)) as [Hal|Hal].
  2:{ assert (s' = s ∧ r = Err MisalignedAddress) as [-> ->].
      { unfold map in Hrun. rewrite bool_decide_false in Hrun by done. by injection Hrun. }
      exists s, T, used, as_, (AMap (Err MisalignedAddress)), []. do 3 (split; [done|]).
      cbn. unfold oof_map, fake_map, bind. rewrite (bool_decide_false (va `mod` PAGE_SIZE = 0)) by done. by repeat split. }
  destruct (flags_contains flags DEVICE && flags_contains flags EXECUTE) eqn:Hx.
  { assert (s' = s ∧ r = Err InvalidFlags) as [-> ->].
    { unfold map in Hrun. rewrite bool_decide_true, Hx in Hrun by done. by injection Hrun. }
    exists s, T, used, as_, (AMap (Err InvalidFlags)), []. do 3 (split; [done|]).
    cbn. unfold oof_map, fake_map, bind. rewrite (bool_decide_true (va `mod` PAGE_SIZE = 0)), Hx by done. by repeat split. }
  pose proof (mirrors_aligned _ _ _ _ Hm Hva Hal) as Hat.
  set (as' := set_mappings (<[va := (pa, flags)]> (mappings as_)) as_).
  assert (Hfake : ∀ X (x : MmuState X), fake_map va pa flags (as_, x) =
    match mappings as_ !! va with Some _ => Some ((as_, x), Err AlreadyMapped) | None => Some ((as', x), Ok va) end).
  { intros X x. unfold fake_map. rewrite bool_decide_true, Hx by done. cbn [negb fst].
    destruct (mappings as_ !! va) as [y|] eqn:Hy; [rewrite bool_decide_true by (by eexists); done|].
    rewrite bool_decide_false; [done|]. intros [? Hz]. congruence. }
  destruct (mappings as_ !! va) as [y|] eqn:Hy in Hat, Hfake.
  - assert (r = Err AlreadyMapped ∧ mirrors (mem s') rt as_) as [-> Hm'].
    { destruct r as [v|e]; [destruct Hr as (_ & _ & Hno & _); congruence|]. destruct Hr as [Hsame He].
      split; [|by eapply mirrors_keep]. destruct e; first
        [done | destruct He as [E1 E2]; rewrite E1, E2 in Hx; done | destruct He as [He _]; rewrite Hat in He; done]. }
    exists s', T', (used ∪ dom T'), as_, (AMap (Err AlreadyMapped)), []. do 3 (split; [done|]).
    cbn [answer OutOfFramesMmu FakeMmu mmu_map]. unfold oof_map, bind. split; [intros rest fm; rewrite Hfake; done|]. split; [|done]. intros X HX x _. by rewrite Hfake.
  - destruct r as [v|e].
    + destruct Hr as (-> & _ & _ & Hnew & Hother). rewrite Hfl in Hnew.
      exists s', T', (used ∪ dom T'), as', (AMap (Ok va)), [true]. split; [done|]. split; [done|]. split.
      { apply (mirrors_change (mem s) _ rt as_ va); [done..| |done|]; [by rewrite lookup_insert_eq|].
        intros va' Hne. by rewrite lookup_insert_ne. }
      cbn [answer OutOfFramesMmu FakeMmu mmu_map]. unfold oof_map, bind. split; [intros rest fm; by rewrite Hfake|]. split; [|done]. intros X HX x _. by rewrite Hfake.
    + destruct Hr as [Hsame He]. destruct e; try (first
        [done | destruct He as [E1 E2]; rewrite E1, E2 in Hx; done | by rewrite Hat in He]).
      destruct He as (_ & _ & Hfree & _).
      exists s', T', (used ∪ dom T'), as_, out_of_frames, [false]. split; [done|]. split; [done|]. split; [by eapply mirrors_keep|].
      cbn [answer OutOfFramesMmu FakeMmu mmu_map]. unfold oof_map, bind. split; [|split; [done|done]]. intros rest fm. rewrite Hfake. cbn [fst snd frames mem provide_frame told app].
      unfold fake_unmap. rewrite bool_decide_true by done. cbn [negb fst as' set_mappings mappings]. rewrite lookup_insert_eq.
      subst as'. cbn [set_mappings mappings fake_root snd]. rewrite delete_insert_id by done. by destruct as_.
Qed.

Lemma unmap_simulated s rt T used as_ (va : Z) : space s rt T used → mirrors (mem s) rt as_ →
  call_ok (CUnmap va) → simulated (CUnmap va) s rt as_.
Proof.
  intros Hs Hm Hva. unfold simulated. destruct (decide (va `mod` PAGE_SIZE = 0)) as [Hal|Hal].
  2:{ exists s, T, used, as_, (AUnmap (Err MisalignedAddress)), []. cbn. unfold zoom, unmap, fake_unmap.
      rewrite !(bool_decide_false (va `mod` PAGE_SIZE = 0)) by done. cbn.
      split; [by destruct s|]. do 3 (split; [done|]). split; [|done]. by intros X HX [] _. }
  destruct (proj1 (wp_run _ _ _) (unmap_wp _ rt T va (sp_pt _ _ _ _ Hs) Hal)) as (m' & r & Hrun & HP & _ & Hr).
  change {| root := {| frame_addr := rt |} |} with (space_at rt) in Hrun.
  set (s' := {| frames := frames s; mem := m' |}).
  assert (Hans : answer (CUnmap va) (space_at rt, s) = Some ((space_at rt, s'), AUnmap r)).
  { cbn. unfold zoom. cbn [fst snd]. by rewrite Hrun. }
  assert (Hs' : space s' rt T used) by (destruct Hs; by split).
  pose proof (mirrors_aligned _ _ _ _ Hm Hva Hal) as Hat.
  destruct (mappings as_ !! va) as [[f fl]|] eqn:Hy in Hat.
  - destruct r as [[v g]|e]; [|destruct Hr as [-> Hr]; congruence]. destruct Hr as (-> & (fl' & Hold) & Hnew & Hother).
    assert (g = f) as -> by congruence.
    exists s', T, used, (set_mappings (delete va (mappings as_)) as_), (AUnmap (Ok (va, f))), [].
    split; [done|]. split; [done|]. split.
    { apply (mirrors_change (mem s) _ rt as_ va); [done..| |done|]; [by rewrite lookup_delete_eq|].
      intros va' Hne. by rewrite lookup_delete_ne. }
    cbn [answer OutOfFramesMmu FakeMmu mmu_unmap]. unfold fake_unmap. rewrite bool_decide_true by done. cbn [negb fst snd]. rewrite Hy.
    split; [done|]. split; [|done]. by intros X HX [fr0 m0] _.
  - destruct r as [[v g]|e]; [destruct Hr as (_ & (fl' & Hold) & _); congruence|]. destruct Hr as [-> Hr].
    assert (e = NotMapped) as -> by congruence.
    exists s', T, used, as_, (AUnmap (Err NotMapped)), []. do 3 (split; [done|]).
    cbn [answer OutOfFramesMmu FakeMmu mmu_unmap]. unfold fake_unmap. rewrite bool_decide_true by done. cbn [negb fst snd]. rewrite Hy.
    split; [done|]. split; [|done]. by intros X HX [fr0 m0] _.
Qed.

Lemma translate_simulated s rt T used as_ (va : Z) : space s rt T used → mirrors (mem s) rt as_ →
  call_ok (CTranslate va) → simulated (CTranslate va) s rt as_.
Proof.
  intros Hs Hm Hva. exists s, T, used, as_, (ATranslate (fake_translate as_ va)), [].
  assert (Htr : QemuMmu.translate (space_at rt) va (mem s) = Some (mem s, xlate (mem s) rt va)).
  { apply translate_xlate with T. apply Hs. }
  cbn. rewrite Htr, (Hm va Hva). done.
Qed.

Lemma call_simulated c s rt T used as_ : space s rt T used → mirrors (mem s) rt as_ → call_ok c → simulated c s rt as_.
Proof. destruct c; [apply map_simulated|apply unmap_simulated|apply translate_simulated]. Qed.

(** C38: the fake the kernel's tests run on behaves as the board.  Take page tables and a
    fake that translate alike below 2^48 - an address space just created on a fresh
    frame and an empty fake do - and any sequence of calls of [map], [unmap] and
    [translate] with addresses below 2^48, whole frames and flags the HAL names.  The
    calls on the page tables all return; [OutOfFramesMmu], given frames when the board
    was, answers every call exactly as the board does; [OutOfFrames] is answered only
    when the board's provider is empty; and if it never is, plain [FakeMmu] answers
    every call as the board.  At the end both still translate alike. *)
Theorem fake_mmu_is_faithful cs s rt T used as_ : space s rt T used → mirrors (mem s) rt as_ → Forall call_ok cs →
  ∃ s' T' used' as' rs (granted : list bool),
    answers cs (space_at rt, s) = Some ((space_at rt, s'), rs) ∧ space s' rt T' used' ∧ mirrors (mem s') rt as' ∧
    (∀ fm, answers (H := OutOfFramesMmu) cs (as_, {| frames := granted; mem := fm |}) = Some ((as', {| frames := []; mem := fm |}), rs)) ∧
    (∀ i, rs !! i = Some out_of_frames → ∃ s0 rs0,
       answers (take (S i) cs) (space_at rt, s) = Some ((space_at rt, s0), rs0) ∧ fp_free (frames s0) = 0%nat) ∧
    (out_of_frames ∉ rs → ∀ X `{FrameProvider X} (x : MmuState X), answers (H := FakeMmu) cs (as_, x) = Some ((as', x), rs)).
Proof.
  revert s T used as_. induction cs as [|c cs IH]; intros s T used as_ Hs Hm Hok.
  { by exists s, T, used, as_, [], []. }
  apply Forall_cons in Hok as [Hc Hok].
  destruct (call_simulated c s rt T used as_ Hs Hm Hc) as (s1 & T1 & used1 & as1 & r & o & Hb & Hs1 & Hm1 & Ho & Hf & Hr).
  destruct (IH s1 T1 used1 as1 Hs1 Hm1 Hok) as (s' & T' & used' & as' & rs & g & Hbs & Hs' & Hm' & Hos & Hout & Hfs).
  exists s', T', used', as', (r :: rs), (o ++ g). cbn [answers]. rewrite Hb. cbn [mbind option_bind]. rewrite Hbs.
  do 3 (split; [done|]). split; [intros fm; rewrite Ho; cbn [mbind option_bind]; by rewrite Hos|]. split.
  - intros [|i] Hi; cbn [take answers]; rewrite Hb; cbn [mbind option_bind].
    + injection Hi as ->. exists s1, [out_of_frames]. split; [done|]. by apply Hr.
    + destruct (Hout i Hi) as (s0 & rs0 & Ha & Hz). exists s0, (r :: rs0). by rewrite Ha.
  - intros [Hne Hno]%not_elem_of_cons X HX x. rewrite (Hf X HX x) by done. cbn [mbind option_bind]. by rewrite Hfs.
Qed.
End simulation.

(** ** Where they differ *)

(** The board refuses any page that is not free, a block included. *)
Lemma board_map_occupied `{Build} `{FrameProviderSpec F} (s : MmuState F) rt T used va pa flags :
  space s rt T used → frame_addr pa `mod` PAGE_SIZE = 0 → 0 ≤ frame_addr pa < 2 ^ 48 → va `mod` PAGE_SIZE = 0 →
  flags_contains flags DEVICE && flags_contains flags EXECUTE = false → xlate (mem s) rt va ≠ Err NotMapped →
  ∃ s', map (space_at rt) va pa flags s = Some (s', Err AlreadyMapped).
Proof.
  intros Hs Hpal Hpar Hal Hx Hno.
  destruct (proj1 (wp_run _ _ _) (map_wp s rt T used va pa flags Hs Hpal Hpar)) as (s' & r & Hrun & T' & _ & _ & _ & _ & Hr).
  exists s'. rewrite Hrun. destruct r as [v|e]; [by destruct Hr as (_ & _ & Hn & _)|]. destruct Hr as [_ He].
  by destruct e; first [done | destruct He as [E1 E2]; rewrite E1, E2 in Hx; done | by destruct He].
Qed.

(** Above 2^48 the board's walk sees the low address again; the fake keeps the two apart. *)
Theorem fake_mmu_does_not_alias `{Build} `{FrameProviderSpec F} (s : MmuState F) rt T used as_ (va : Z) pa flags x :
  space s rt T used → mirrors (mem s) rt as_ → call_ok (CMap va pa flags) → va `mod` PAGE_SIZE = 0 →
  flags_contains flags DEVICE && flags_contains flags EXECUTE = false →
  mappings as_ !! va = Some x → mappings as_ !! (va + 2 ^ 48) = None →
  (∃ s', map (space_at rt) (va + 2 ^ 48) pa flags s = Some (s', Err AlreadyMapped)) ∧
  ∃ as', fake_map (va + 2 ^ 48) pa flags (as_, s) = Some ((as', s), Ok (va + 2 ^ 48)).
Proof.
  intros Hs Hm (Hva & Hpal & Hpar & _) Hal Hx Hy Hn.
  assert (Hal' : (va + 2 ^ 48) `mod` PAGE_SIZE = 0) by (unfold PAGE_SIZE in *; Z.to_euclidean_division_equations; lia).
  split.
  - apply (board_map_occupied s rt T used); try done.
    assert (va_path (va + 2 ^ 48) = va_path va) as Hp.
    { apply va_path_page. unfold page_of, PAGE_SIZE. replace (va + 2 ^ 48) with (va + 2 ^ 36 * 4096) by lia.
      rewrite Z.div_add by done. replace (va `div` 4096 + 2 ^ 36) with (va `div` 4096 + 1 * 2 ^ 36) by lia. by rewrite Z.mod_add. }
    unfold xlate. rewrite Hp. fold (xlate (mem s) rt va). by rewrite (mirrors_aligned _ _ _ _ Hm Hva Hal), Hy.
  - unfold fake_map. rewrite bool_decide_true, Hx by done. cbn [negb fst snd].
    rewrite bool_decide_false by (rewrite Hn; by intros [? [=]]). by eexists.
Qed.

(** Into a block the board's [map] answers [AlreadyMapped]; the decorator answers
    [BlockMapped]. *)
Theorem block_map_differs `{Build} `{FrameProviderSpec F} (s : MmuState F) rt T used as_ (va : Z) pa flags blocked :
  space s rt T used → call_ok (CMap va pa flags) → va `mod` PAGE_SIZE = 0 →
  flags_contains flags DEVICE && flags_contains flags EXECUTE = false →
  xlate (mem s) rt va = Err BlockMapped → va ∈ blocked →
  (∃ s', map (space_at rt) va pa flags s = Some (s', Err AlreadyMapped)) ∧
  block_map blocked va pa flags (as_, s) = Some ((as_, s), Err BlockMapped).
Proof.
  intros Hs (Hva & Hpal & Hpar & _) Hal Hx Hb Hin. split; [apply (board_map_occupied s rt T used); congruence|].
  unfold block_map. by rewrite bool_decide_true.
Qed.

(** ** Host memory *)

Lemma usize_of_id `{Build} x : 0 ≤ x ≤ U64_MAX → usize_of x = Some x.
Proof.
  intros Hx. unfold usize_of. rewrite bool_decide_false, andb_false_r by lia.
  by rewrite Z.mod_small by (unfold U64_MAX in *; lia).
Qed.

(** Pages [0] to [i] of a region at [base_va], mapped to the buffer at [ptr]. *)
Definition region_mapped (ptr base_va : Z) (i : Z) (flags : MappingFlags) (as_ : FakeAddressSpace) : Prop :=
  ∀ va, mappings as_ !! va = if decide (va `mod` PAGE_SIZE = 0 ∧ base_va ≤ va < base_va + i * PAGE_SIZE)
                             then Some ({| frame_addr := ptr + (va - base_va) |}, flags) else None.

Section region.
  Context `{Build} (ptr base_va npages : Z) (flags : MappingFlags).
  Context (Hbal : base_va `mod` PAGE_SIZE = 0) (Hb0 : 0 ≤ base_va) (Hpal : ptr `mod` PAGE_SIZE = 0) (Hp0 : 0 ≤ ptr).
  Context (Hpt : ptr + npages * PAGE_SIZE ≤ U64_MAX) (Hbt : base_va + npages * PAGE_SIZE ≤ U64_MAX).
  Context (Hx : flags_contains flags DEVICE && flags_contains flags EXECUTE = false).

Lemma user_pages_maps n : ∀ i as_, 0 ≤ i → i + Z.of_nat n = npages → region_mapped ptr base_va i flags as_ →
  ∃ as', user_pages n ptr base_va flags i as_ = Some as' ∧ region_mapped ptr base_va npages flags as'.
Proof.
  unfold region_mapped. induction n as [|n IH]; intros i as_ Hi Hsum Hm; cbn [user_pages].
  { exists as_. split; [done|]. by replace npages with i by lia. }
  unfold PAGE_SIZE in *. repeat (rewrite usize_of_id by lia; cbn [mbind option_bind]).
  unfold from_aligned. rewrite bool_decide_true by (unfold PAGE_SIZE; Z.to_euclidean_division_equations; lia). cbn [mbind option_bind].
  repeat (rewrite usize_of_id by lia; cbn [mbind option_bind]). unfold fake_map.
  rewrite bool_decide_true, Hx by (unfold PAGE_SIZE; Z.to_euclidean_division_equations; lia). cbn [negb fst snd].
  rewrite bool_decide_false by (rewrite Hm, decide_False by lia; by intros [? [=]]).
  apply IH; [lia|lia|]. intros va. cbn [set_mappings mappings].
  destruct (decide (va = base_va + i * 4096)) as [->|Hne].
  - rewrite lookup_insert_eq, decide_True by (Z.to_euclidean_division_equations; lia). do 3 f_equal. lia.
  - rewrite lookup_insert_ne, Hm by done. do 2 case_decide; try done; exfalso; Z.to_euclidean_division_equations; lia.
Qed.
End region.

(** The region's pages are mapped to the buffer's, in order, and nothing else is. *)
Theorem fake_user_mem_maps `{Build} ptr base_va npages flags : (1 ≤ npages)%nat → base_va `mod` PAGE_SIZE = 0 → 0 ≤ base_va →
  ptr `mod` PAGE_SIZE = 0 → 0 < ptr → Z.of_nat npages * PAGE_SIZE ≤ ISIZE_MAX - (PAGE_SIZE - 1) →
  ptr + Z.of_nat npages * PAGE_SIZE ≤ U64_MAX → base_va + Z.of_nat npages * PAGE_SIZE ≤ U64_MAX →
  flags_contains flags DEVICE && flags_contains flags EXECUTE = false →
  ∃ um, FakeUserMem_new ptr base_va npages flags = Some um ∧ um_ptr um = ptr ∧ um_base_va um = base_va ∧ um_npages um = npages ∧
    region_mapped ptr base_va (Z.of_nat npages) flags (um_as um).
Proof.
  intros Hn Hbal Hb0 Hpal Hp0 Hsz Hpt Hbt Hx. unfold FakeUserMem_new. rewrite !bool_decide_true by done. cbn [negb mbind option_bind].
  rewrite usize_of_id by (unfold PAGE_SIZE in *; lia). cbn [mbind option_bind]. rewrite !bool_decide_false by lia.
  destruct (user_pages_maps ptr base_va (Z.of_nat npages) flags Hbal Hb0 Hpal ltac:(lia) Hpt Hbt Hx npages 0
    (fake_create_address_space {| frame_addr := 0x1000 |})) as (as' & Hrun & Hm); [lia|lia|..].
  { intros va. cbn [fake_create_address_space mappings]. rewrite lookup_empty, decide_False; [done|lia]. }
  change (from_aligned 0x1000) with (Some {| frame_addr := 0x1000 |}). cbn [mbind option_bind]. rewrite Hrun. by eexists.
Qed.

(** ** A run on both *)

Definition sample_calls : list mmu_call :=
  [CMap sample_va sample_page sample_flags; CTranslate (sample_va + 8); CMap sample_va sample_page sample_flags;
   CUnmap sample_va; CTranslate sample_va; CMap (sample_va + 1) sample_page sample_flags].

Lemma fake_mmu_is_faithful_witness :
  ∃ as', answers (H := FakeMmu) sample_calls (fake_create_address_space {| frame_addr := 0x40003000 |}, sample_root) =
    Some ((as', sample_root), [AMap (Ok sample_va); ATranslate (Ok (sample_page, sample_flags)); AMap (Err AlreadyMapped);
      AUnmap (Ok (sample_va, sample_page)); ATranslate (Err NotMapped); AMap (Err MisalignedAddress)]).
Proof.
  destruct (fake_mmu_is_faithful (H := debug_build) sample_calls sample_root 0x40003000 {[0x40003000 := []]}
    ({[0x40003000]} ∪ ∅) (fake_create_address_space {| frame_addr := 0x40003000 |}))
    as (s' & T' & used' & as' & rs & g & Hrun & _ & _ & _ & _ & Hf).
  - apply sample_space.
  - intros va Hva. rewrite (proj2 sample_space), fake_translate_eq by done. reflexivity.
  - repeat (apply Forall_cons; split; [by (repeat split)|]). by apply Forall_nil.
  - apply (f_equal (fmap snd)) in Hrun. vm_compute in Hrun. injection Hrun as <-. exists as'. apply Hf.
    intros Hin. repeat (apply elem_of_cons in Hin as [Hin|Hin]; [discriminate Hin|]). by apply elem_of_nil in Hin.
Defined.
