(* ===== verification/Sched.v ===== *)
(** * The scheduler (kernel/src/sched/mod.rs)

The ready ring, the per-task arrays, the cooperative dispatch functions and the
two IPC bridges.

A context switch transfers control and returns when the task is scheduled again.
A function that may switch is therefore modelled by its part before the switch,
which ends in a [dispatch] (stay, or switch from one slot to another after
activating an address space), and, when the source does something after the
switch, by a second function for the part after it ([ipc_recv_resume]).  The
contexts are opaque to the kernel: the board's [init_context],
[init_user_context] and default context are parameters. *)

From S2P Require Import Prelude.
From S2P Require Import Hal.
From S2P Require Import Arena.
From S2P Require Import Objects.
From S2P Require Import Caps.
From S2P Require Import CapTable.
From S2P Require Import Ipc.
From S2P Require Import SyscallError.
From S2P Require Import UserAccess.

(** ** The ready queue *)

Record SchedQueue := { buf : list (option TaskHandle); head : nat; qlen : nat }.

Definition SchedQueue_new (N : nat) : SchedQueue :=
  {| buf := replicate N None; head := 0; qlen := 0 |}.

(** The capacity [N] is the length of the buffer; [head < N] and [qlen <= N], so the
    [usize] additions do not wrap. *)
Definition enqueue (handle : TaskHandle) : M SchedQueue TaskHandle unit :=
  let* N := gets (λ q, length (buf q)) in
  let* len := gets qlen in
  if bool_decide (len = N) then throw handle else
  let* h := gets head in
  let tail := (h + len) mod N in
  let* _ := idx buf tail in
  modify (λ q, {| buf := <[tail := Some handle]> (buf q); head := head q; qlen := qlen q + 1 |}).

Definition dequeue {E} : M SchedQueue E (option TaskHandle) :=
  let* N := gets (λ q, length (buf q)) in
  let* len := gets qlen in
  if bool_decide (len = 0) then ret None else
  let* h := gets head in
  let* handle := idx buf h in
  modify (λ q, {| buf := <[h := None]> (buf q);
                  head := (head q + 1) mod N; qlen := qlen q - 1 |}) ;;
  ret handle.

Definition queue_is_empty (q : SchedQueue) : bool := bool_decide (qlen q = 0).

(** ** The scheduler *)

Inductive TaskState := TIdle | Ready | Blocked (on : EndpointHandle).

#[export] Instance TaskState_eq_dec : EqDecision TaskState.
Proof. solve_decision. Defined.

Inductive SchedError := NoCurrentTask | SQueueFull | SIpc (e : IpcError) | Deadlock.

#[export] Instance SchedError_eq_dec : EqDecision SchedError.
Proof. solve_decision. Defined.

(** The board's task contexts. *)
Class Contexts (Ctx : Type) := {
  ctx_default : Ctx;
  init_context : Ctx → Z → Z → Ctx;
  init_user_context : Ctx → Z → Z → Z → Ctx;
}.

Record Scheduler (Ctx : Type) := {
  ready : SchedQueue;
  task_states : list TaskState;
  task_handles : list (option TaskHandle);
  task_address_space_handles : list (option AddressSpaceHandle);
  task_cap_tables : list (option Z);
  task_user_windows : list (option UserAccessWindow);
  current : option TaskHandle;
  idle : option TaskHandle;
  contexts : list Ctx;
}.
Arguments ready {Ctx} _.
Arguments task_states {Ctx} _.
Arguments task_handles {Ctx} _.
Arguments task_address_space_handles {Ctx} _.
Arguments task_cap_tables {Ctx} _.
Arguments task_user_windows {Ctx} _.
Arguments current {Ctx} _.
Arguments idle {Ctx} _.
Arguments contexts {Ctx} _.

(** Where control goes. *)
Inductive dispatch :=
| Stay
| Switch (current_idx next_idx : nat) (activate : option AddressSpaceHandle).

Section scheduler.
  Context `{Build} `{Contexts Ctx}.

Definition set_ready (q : SchedQueue) (s : Scheduler Ctx) : Scheduler Ctx :=
  {| ready := q; task_states := task_states s; task_handles := task_handles s;
     task_address_space_handles := task_address_space_handles s;
     task_cap_tables := task_cap_tables s; task_user_windows := task_user_windows s;
     current := current s; idle := idle s; contexts := contexts s |}.
Definition set_task_state (i : nat) (st : TaskState) (s : Scheduler Ctx) : Scheduler Ctx :=
  {| ready := ready s; task_states := <[i := st]> (task_states s); task_handles := task_handles s;
     task_address_space_handles := task_address_space_handles s;
     task_cap_tables := task_cap_tables s; task_user_windows := task_user_windows s;
     current := current s; idle := idle s; contexts := contexts s |}.
Definition set_current (c : option TaskHandle) (s : Scheduler Ctx) : Scheduler Ctx :=
  {| ready := ready s; task_states := task_states s; task_handles := task_handles s;
     task_address_space_handles := task_address_space_handles s;
     task_cap_tables := task_cap_tables s; task_user_windows := task_user_windows s;
     current := c; idle := idle s; contexts := contexts s |}.
Definition set_idle (c : option TaskHandle) (s : Scheduler Ctx) : Scheduler Ctx :=
  {| ready := ready s; task_states := task_states s; task_handles := task_handles s;
     task_address_space_handles := task_address_space_handles s;
     task_cap_tables := task_cap_tables s; task_user_windows := task_user_windows s;
     current := current s; idle := c; contexts := contexts s |}.
Definition set_context (i : nat) (c : Ctx) (s : Scheduler Ctx) : Scheduler Ctx :=
  {| ready := ready s; task_states := task_states s; task_handles := task_handles s;
     task_address_space_handles := task_address_space_handles s;
     task_cap_tables := task_cap_tables s; task_user_windows := task_user_windows s;
     current := current s; idle := idle s; contexts := <[i := c]> (contexts s) |}.
(** The handle and address space of slot [i]. *)
Definition set_identity (i : nat) (h : TaskHandle) (a : AddressSpaceHandle) (s : Scheduler Ctx)
  : Scheduler Ctx :=
  {| ready := ready s; task_states := task_states s;
     task_handles := <[i := Some h]> (task_handles s);
     task_address_space_handles := <[i := Some a]> (task_address_space_handles s);
     task_cap_tables := task_cap_tables s; task_user_windows := task_user_windows s;
     current := current s; idle := idle s; contexts := contexts s |}.
(** The capability table and user window of slot [i]. *)
Definition set_user_binding (i : nat) (t : option Z) (w : option UserAccessWindow)
    (s : Scheduler Ctx) : Scheduler Ctx :=
  {| ready := ready s; task_states := task_states s; task_handles := task_handles s;
     task_address_space_handles := task_address_space_handles s;
     task_cap_tables := <[i := t]> (task_cap_tables s);
     task_user_windows := <[i := w]> (task_user_windows s);
     current := current s; idle := idle s; contexts := contexts s |}.

Definition Scheduler_new : Scheduler Ctx :=
  {| ready := SchedQueue_new TASK_ARENA_CAPACITY;
     task_states := replicate TASK_ARENA_CAPACITY TIdle;
     task_handles := replicate TASK_ARENA_CAPACITY None;
     task_address_space_handles := replicate TASK_ARENA_CAPACITY None;
     task_cap_tables := replicate TASK_ARENA_CAPACITY None;
     task_user_windows := replicate TASK_ARENA_CAPACITY None;
     current := None; idle := None;
     contexts := replicate TASK_ARENA_CAPACITY ctx_default |}.

Notation Sch := (Scheduler Ctx).

Definition on_ready {E A} (m : M SchedQueue E A) : M Sch E A := zoom ready set_ready m.

Definition task_index (h : TaskHandle) : nat := id_index (task_slot h).

(** [self.task_states[i] = st] and the other indexed writes. *)
Definition put_task_state {E} (i : nat) (st : TaskState) : M Sch E unit :=
  let* _ := idx task_states i in modify (set_task_state i st).
Definition put_identity {E} (i : nat) (h : TaskHandle) (a : AddressSpaceHandle) : M Sch E unit :=
  let* _ := idx task_handles i in
  let* _ := idx task_address_space_handles i in
  modify (set_identity i h a).
Definition put_user_binding {E} (i : nat) (t : option Z) (w : option UserAccessWindow) : M Sch E unit :=
  let* _ := idx task_cap_tables i in
  let* _ := idx task_user_windows i in
  modify (set_user_binding i t w).

Definition add_task (handle : TaskHandle) (address_space_handle : AddressSpaceHandle)
    (entry stack_top : Z) : M Sch SchedError unit :=
  let i := task_index handle in
  let* c := idx contexts i in
  modify (set_context i (init_context c entry stack_top)) ;;
  map_err (λ _, SQueueFull) (on_ready (enqueue handle)) ;;
  put_task_state i Ready ;;
  put_identity i handle address_space_handle.

(** A pointer is its address; [null] is 0. *)
Definition add_user_task (handle : TaskHandle) (address_space_handle : AddressSpaceHandle)
    (user_entry user_sp kernel_stack_top cap_table : Z) : M Sch SchedError unit :=
  let i := task_index handle in
  debug_assert (negb (bool_decide (kernel_stack_top = 0%Z)) &&
                bool_decide (kernel_stack_top `mod` 16 = 0)%Z) ;;
  debug_assert (bool_decide (user_sp `mod` 16 = 0)%Z) ;;
  debug_assert (negb (bool_decide (cap_table = 0%Z))) ;;
  let* c := idx contexts i in
  modify (set_context i (init_user_context c user_entry user_sp kernel_stack_top)) ;;
  map_err (λ _, SQueueFull) (on_ready (enqueue handle)) ;;
  put_task_state i Ready ;;
  put_identity i handle address_space_handle ;;
  put_user_binding i (if bool_decide (cap_table = 0%Z) then None else Some cap_table)
    (Some (window_new user_entry (saturating_sub64 user_sp user_entry))).

(** The three lookups for the running task: [None] when no task runs; an index out of
    the arrays panics. *)
Definition current_slot {X} (f : Sch → list (option X)) (s : Sch) : option (option X) :=
  match current s with
  | None => Some None
  | Some h => f s !! task_index h
  end.
Definition current_user_table (s : Sch) : option (option Z) := current_slot task_cap_tables s.
Definition current_address_space_handle (s : Sch) : option (option AddressSpaceHandle) :=
  current_slot task_address_space_handles s.
Definition current_user_window (s : Sch) : option (option UserAccessWindow) :=
  current_slot task_user_windows s.

Definition resolve_ep_cap (caller_table : CapabilityTable) (ep_cap : CapHandle)
  : P SchedError EndpointHandle :=
  let? cap := pmap_err (λ _, SIpc StaleHandle) (lookup caller_table ep_cap) in
  match object cap with
  | OEndpoint h => pret h
  | _ => perr (SIpc WrongObjectKind)
  end.

(** A full ready queue panics. *)
Definition enqueue_ready {E} (handle : TaskHandle) : M Sch E unit :=
  let* r := attempt (on_ready (enqueue handle)) in
  match r with
  | Ok _ => ret tt
  | Err _ => panic
  end.

(** The [for] loop over the slots, from [i] on. *)
Fixpoint unblock_loop {E} (n i : nat) (ep : EndpointHandle) : M Sch E unit :=
  match n with
  | O => ret tt
  | S n =>
      let* st := idx task_states i in
      match st with
      | Blocked on =>
          if bool_decide (on = ep) then
            let* th := idx task_handles i in
            debug_assert (bool_decide (is_Some th)) ;;
            let* th := idx task_handles i in
            match th with
            | Some handle => put_task_state i Ready ;; enqueue_ready handle
            | None => unblock_loop n (i + 1) ep
            end
          else unblock_loop n (i + 1) ep
      | _ => unblock_loop n (i + 1) ep
      end
  end.
Definition unblock_receiver_on {E} (ep : EndpointHandle) : M Sch E unit :=
  unblock_loop TASK_ARENA_CAPACITY 0 ep.

(** [assert!] is live in every build. *)
Definition register_idle {E} (handle : TaskHandle) (address_space_handle : AddressSpaceHandle)
    (entry stack_top : Z) : M Sch E unit :=
  let* i := gets idle in
  if negb (bool_decide (i = None)) then panic else
  let i := task_index handle in
  let* c := idx contexts i in
  modify (set_context i (init_context c entry stack_top)) ;;
  put_task_state i Ready ;;
  put_identity i handle address_space_handle ;;
  modify (set_idle (Some handle)).

Definition start_prelude {E} : M Sch E nat :=
  let* next := on_ready dequeue in
  let* fallback := gets idle in
  match (match next with Some h => Some h | None => fallback end) with
  | None => panic
  | Some next_handle =>
      let next_idx := task_index next_handle in
      put_task_state next_idx Ready ;;
      modify (set_current (Some next_handle)) ;;
      ret next_idx
  end.

(** [run_dispatched] activates the slot's address space, if any, and switches to it
    for good. *)
Definition run_dispatched {E} (next_idx : nat) : M Sch E (option AddressSpaceHandle * nat) :=
  let* next_as := idx task_address_space_handles next_idx in
  let* _ := idx contexts next_idx in
  ret (next_as, next_idx).

Definition start {E} : M Sch E (option AddressSpaceHandle * nat) :=
  let* next_idx := start_prelude in run_dispatched next_idx.
Definition task_exit_current {E} : M Sch E (option AddressSpaceHandle * nat) :=
  let* next_idx := start_prelude in run_dispatched next_idx.

Definition address_space_activation_target (current_as next_as : option AddressSpaceHandle)
  : option AddressSpaceHandle :=
  match current_as, next_as with
  | Some c, Some n => if negb (bool_decide (c = n)) then Some n else None
  | _, _ => None
  end.

(** The switch out of [current_idx]: both contexts are addressed. *)
Definition switch_to {E} (current_idx next_idx : nat) (next_as : option AddressSpaceHandle)
  : M Sch E dispatch :=
  debug_assert (negb (bool_decide (current_idx = next_idx))) ;;
  let* _ := idx contexts current_idx in
  let* _ := idx contexts next_idx in
  ret (Switch current_idx next_idx next_as).

Definition yield_now : M Sch SchedError dispatch :=
  let* c := gets current in
  let* current_handle := ok_or c NoCurrentTask in
  let current_idx := task_index current_handle in
  let* i := gets idle in
  let current_is_idle := bool_decide (i = Some current_handle) in
  put_task_state current_idx Ready ;;
  (if negb current_is_idle then enqueue_ready current_handle else ret tt) ;;
  let* d := on_ready dequeue in
  let next :=
    match d with
    | Some h => if negb (bool_decide (h = current_handle)) then Some h else None
    | None => match i with
              | Some idle_h => if negb (bool_decide (idle_h = current_handle)) then Some idle_h else None
              | None => None
              end
    end in
  match next with
  | None => ret Stay
  | Some next_handle =>
      let next_idx := task_index next_handle in
      put_task_state next_idx Ready ;;
      modify (set_current (Some next_handle)) ;;
      let* a := idx task_address_space_handles current_idx in
      let* b := idx task_address_space_handles next_idx in
      switch_to current_idx next_idx (address_space_activation_target a b)
  end.
End scheduler.

(** ** The IPC bridges *)

Record Bridge (Ctx : Type) := { bsched : Scheduler Ctx; bipc : Ipc }.
Arguments bsched {Ctx} _.
Arguments bipc {Ctx} _.

(** What the part of [ipc_recv_and_yield] before its switch ends with. *)
Inductive recv_phase :=
| RecvDone (outcome : RecvOutcome)
| RecvBlocked (current_idx next_idx : nat) (activate : option AddressSpaceHandle).

Section bridges.
  Context `{Build} `{Contexts Ctx}.

Definition on_sched {E A} (m : M (Scheduler Ctx) E A) : M (Bridge Ctx) E A :=
  zoom bsched (λ s b, {| bsched := s; bipc := bipc b |}) m.
Definition on_ipc {E A} (m : M Ipc E A) : M (Bridge Ctx) E A :=
  zoom bipc (λ i b, {| bsched := bsched b; bipc := i |}) m.

Definition ipc_send_and_yield (ep_arena : EndpointArena) (ep_cap : CapHandle) (msg : Message)
    (transfer : option CapHandle) : M (Bridge Ctx) SchedError (SendOutcome * dispatch) :=
  let* ep_handle := reads (λ b, resolve_ep_cap (table (bipc b)) ep_cap) in
  let* outcome := map_err SIpc (on_ipc (ipc_send ep_arena ep_cap msg transfer)) in
  match outcome with
  | Delivered =>
      on_sched (unblock_receiver_on ep_handle) ;;
      let* d := on_sched yield_now in
      ret (outcome, d)
  | Enqueued => ret (outcome, Stay)
  end.

(** Phase 2 of [ipc_recv_and_yield]: block the current task and pick the next one, or
    undo the block when there is none. *)
Definition block_and_dispatch (ep_handle : EndpointHandle)
  : M (Scheduler Ctx) SchedError (option (nat * nat * option AddressSpaceHandle)) :=
  let* c := gets current in
  let* current_handle := ok_or c NoCurrentTask in
  let current_idx := task_index current_handle in
  let* prior_state := idx task_states current_idx in
  debug_assert (bool_decide (prior_state = Ready)) ;;
  put_task_state current_idx (Blocked ep_handle) ;;
  modify (set_current None) ;;
  let* d := on_ready dequeue in
  let* i := gets idle in
  let next :=
    match d with
    | Some h => Some h
    | None => match i with
              | Some idle_h => if negb (bool_decide (idle_h = current_handle)) then Some idle_h else None
              | None => None
              end
    end in
  match next with
  | Some next_handle =>
      let next_idx := task_index next_handle in
      put_task_state next_idx Ready ;;
      modify (set_current (Some next_handle)) ;;
      let* a := idx task_address_space_handles current_idx in
      let* b := idx task_address_space_handles next_idx in
      ret (Some (current_idx, next_idx, address_space_activation_target a b))
  | None =>
      put_task_state current_idx prior_state ;;
      modify (set_current (Some current_handle)) ;;
      ret None
  end.

Definition ipc_recv_and_yield (ep_arena : EndpointArena) (ep_cap : CapHandle)
  : M (Bridge Ctx) SchedError recv_phase :=
  let* c := gets (λ b, current (bsched b)) in
  if bool_decide (c = None) then throw NoCurrentTask else
  let* ep_handle := reads (λ b, resolve_ep_cap (table (bipc b)) ep_cap) in
  let* outcome := map_err SIpc (on_ipc (ipc_recv ep_arena ep_cap)) in
  match outcome with
  | Received _ _ => ret (RecvDone outcome)
  | Pending =>
      let* dispatch := on_sched (block_and_dispatch ep_handle) in
      match dispatch with
      | None =>
          let* t := gets (λ b, table (bipc b)) in
          let* cancel_result :=
            attempt (on_ipc (on_queues (ipc_cancel_recv ep_arena t ep_cap))) in
          debug_assert (match cancel_result with Ok _ => true | Err _ => false end) ;;
          throw Deadlock
      | Some (current_idx, next_idx, next_as) =>
          let* _ := on_sched (switch_to current_idx next_idx next_as) in
          ret (RecvBlocked current_idx next_idx next_as)
      end
  end.

(** Phase 3: the receiver runs again. *)
Definition ipc_recv_resume (ep_arena : EndpointArena) (ep_cap : CapHandle)
  : M Ipc SchedError RecvOutcome :=
  let* result := attempt (ipc_recv ep_arena ep_cap) in
  match result with
  | Ok Pending => throw (SIpc PendingAfterResume)
  | Ok outcome => ret outcome
  | Err e => throw (SIpc e)
  end.
End bridges.
