(* ===== verification/SchedInv.v ===== *)
(** * The scheduler's invariant

The ready ring represents a FIFO list ([qrep]); [sched_ok] ties the list, the
task arrays, the running task and the idle task together.  Every scheduling
function is shown to be an exact update of the list and of [current]. *)

From S2P Require Import Prelude.
From S2P Require Import Hal.
From S2P Require Import Arena.
From S2P Require Import Objects.
From S2P Require Import Caps.
From S2P Require Import CapTable.
From S2P Require Import Ipc.
From S2P Require Import SyscallError.
From S2P Require Import UserAccess.
From S2P Require Import Sched.

(** ** The ring buffer *)

(** [q] holds the list [l], oldest first. *)
Record qrep (N : nat) (q : SchedQueue) (l : list TaskHandle) : Prop := {
  qr_buf : length (buf q) = N;
  qr_head : head q < N;
  qr_len : qlen q = length l;
  qr_bound : length l ≤ N;
  qr_items : ∀ k h, l !! k = Some h → buf q !! ((head q + k) mod N) = Some (Some h);
}.

Lemma mod_wrap a k N : a < N → k < N → (a + k) mod N = if decide (a + k < N) then a + k else a + k - N.
Proof.
  intros Ha Hk. case_decide.
  - by apply Nat.mod_small.
  - replace (a + k) with (a + k - N + 1 * N) at 1 by lia.
    rewrite Nat.Div0.mod_add. apply Nat.mod_small. lia.
Qed.

Lemma ring_inj a k k' N : a < N → k < N → k' < N → (a + k) mod N = (a + k') mod N → k = k'.
Proof. intros Ha Hk Hk'. rewrite !mod_wrap by done. repeat case_decide; lia. Qed.

Lemma SchedQueue_new_rep N : 0 < N → qrep N (SchedQueue_new N) [].
Proof. intros HN. split; simpl; [apply length_replicate|done|done|lia|done]. Qed.

Lemma enqueue_wp N q l h : qrep N q l →
  wp (enqueue h) q (λ q' r,
    if decide (length l < N) then r = Ok tt ∧ qrep N q' (l ++ [h])
    else r = Err h ∧ q' = q).
Proof.
  intros [Hb Hh Hl Hle Hi]. unfold enqueue. wp_pure. rewrite Hb, Hl. case_bool_decide.
  - red; cbn. rewrite decide_False by lia. done.
  - wp_pure. destruct (lookup_lt_is_Some_2 (buf q) ((head q + length l) mod N)) as [x Hx].
    { rewrite Hb. apply Nat.mod_upper_bound. lia. }
    apply wp_idx with x; [done|]. red; cbn. rewrite decide_True by lia. split; [done|].
    assert (Hm : (head q + length l) mod N < N) by (apply Nat.mod_upper_bound; lia).
    split; simpl.
    + by rewrite length_insert.
    + done.
    + rewrite length_app. simpl. lia.
    + rewrite length_app. simpl. lia.
    + intros k h' Hk. destruct (decide (k = length l)) as [->|Hne].
      * rewrite lookup_app_r, Nat.sub_diag in Hk by lia. simpl in Hk. injection Hk as <-.
        apply list_lookup_insert_eq. by rewrite Hb.
      * assert (k < length l) as Hkl.
        { apply lookup_lt_Some in Hk. rewrite length_app in Hk. simpl in Hk. lia. }
        rewrite lookup_app_l in Hk by done.
        rewrite list_lookup_insert_ne; [by apply Hi|].
        intros E. apply ring_inj in E; lia.
Qed.

Lemma dequeue_wp {E} N q l : qrep N q l →
  wp (dequeue (E := E)) q (λ q' r,
    match l with
    | [] => r = Ok None ∧ q' = q
    | h :: t => r = Ok (Some h) ∧ qrep N q' t
    end).
Proof.
  intros [Hb Hh Hl Hle Hi]. unfold dequeue. wp_pure. rewrite Hl. case_bool_decide as H0.
  - red; cbn. by destruct l.
  - destruct l as [|h t]; [done|]. wp_pure. simpl in Hle.
    assert (Hx : buf q !! head q = Some (Some h)).
    { rewrite <- (Hi 0 h eq_refl), Nat.add_0_r. by rewrite Nat.mod_small. }
    apply wp_idx with (Some h); [done|]. wp_pure. split; [done|].
    assert (Hm : (head q + 1) mod N < N) by (apply Nat.mod_upper_bound; lia).
    split; simpl.
    + by rewrite length_insert.
    + by rewrite Hb.
    + simpl in Hl. lia.
    + lia.
    + intros k h' Hk. assert (k < length t) as Hkt by (by apply lookup_lt_Some in Hk).
      rewrite Hb.
      assert (Hpos : ((head q + 1) mod N + k) mod N = (head q + S k) mod N).
      { rewrite Nat.Div0.add_mod_idemp_l. f_equal. lia. }
      rewrite Hpos, list_lookup_insert_ne; [by apply Hi|].
      rewrite <- (Nat.mod_small (head q) N) at 1 by done.
      rewrite <- (Nat.add_0_r (head q)) at 1. intros E'. apply ring_inj in E'; lia.
Qed.

(** ** The scheduler *)

Section inv.
Context `{Build} {Ctx : Type} `{!Contexts Ctx}.
Implicit Types (s : Scheduler Ctx) (l : list TaskHandle) (h : TaskHandle).

Definition registered s h : Prop :=
  task_handles s !! task_index h = Some (Some h).
Definition runnable s h : Prop :=
  registered s h ∧ task_states s !! task_index h = Some Ready.

Record sched_ok s l : Prop := {
  so_queue : qrep TASK_ARENA_CAPACITY (ready s) l;
  so_states : length (task_states s) = TASK_ARENA_CAPACITY;
  so_handles : length (task_handles s) = TASK_ARENA_CAPACITY;
  so_as : length (task_address_space_handles s) = TASK_ARENA_CAPACITY;
  so_tables : length (task_cap_tables s) = TASK_ARENA_CAPACITY;
  so_windows : length (task_user_windows s) = TASK_ARENA_CAPACITY;
  so_contexts : length (contexts s) = TASK_ARENA_CAPACITY;
  so_ready : ∀ h, h ∈ l → runnable s h ∧ current s ≠ Some h ∧ idle s ≠ Some h;
  so_nodup : NoDup l;
  so_current : ∀ h, current s = Some h → runnable s h;
  so_idle : ∀ h, idle s = Some h → runnable s h;
  so_blocked : ∀ i ep, task_states s !! i = Some (Blocked ep) →
    ∃ h, task_handles s !! i = Some (Some h) ∧ task_index h = i;
}.

(** No runnable task is forgotten: it runs, is the idle task, or waits its turn. *)
Definition no_lost s l : Prop :=
  ∀ h, runnable s h → current s = Some h ∨ idle s = Some h ∨ h ∈ l.

Lemma registered_inj s h h' : registered s h → registered s h' →
  task_index h = task_index h' → h = h'.
Proof. unfold registered. intros H1 H2 Hi. rewrite Hi in H1. congruence. Qed.

Lemma registered_lt s l h : sched_ok s l → registered s h → task_index h < TASK_ARENA_CAPACITY.
Proof. intros Hs Hr. rewrite <- (so_handles _ _ Hs). by eapply lookup_lt_Some. Qed.

(** Room for one more: a registered task outside the queue leaves a free place. *)
Lemma ready_room s l h : sched_ok s l → registered s h → h ∉ l → length l < TASK_ARENA_CAPACITY.
Proof.
  intros Hs Hr Hni.
  assert (Hreg : ∀ h', h' ∈ h :: l → registered s h').
  { intros h' [->|Hin]%elem_of_cons; [done|]. by apply (so_ready _ _ Hs). }
  assert (Hnd : NoDup (task_index <$> h :: l)).
  { apply NoDup_fmap_2_strong; [|constructor; [done|apply Hs]].
    intros x y Hx Hy Hxy. by apply (registered_inj s); auto. }
  assert (Hle : length (task_index <$> h :: l) ≤ length (seq 0 TASK_ARENA_CAPACITY)).
  { apply submseteq_length, NoDup_submseteq; [done|]. intros i (h' & -> & Hin)%list_elem_of_fmap.
    apply elem_of_seq. pose proof (registered_lt s l h' Hs (Hreg h' Hin)). lia. }
  rewrite length_fmap, length_seq in Hle. simpl in Hle. lia.
Qed.

(** ** Updates *)

Lemma set_task_state_same s i st : task_states s !! i = Some st → set_task_state i st s = s.
Proof. intros Hi. unfold set_task_state. rewrite list_insert_id by done. by destruct s. Qed.

Lemma put_task_state_wp {E} s i st st0 (Q : _ → result E unit → Prop) :
  task_states s !! i = Some st0 → Q (set_task_state i st s) (Ok tt) → wp (put_task_state i st) s Q.
Proof. intros Hi HQ. unfold put_task_state. apply wp_bind, wp_idx with st0; done. Qed.

Lemma put_ready_wp {E} s i (Q : _ → result E unit → Prop) :
  task_states s !! i = Some Ready → Q s (Ok tt) → wp (put_task_state i Ready) s Q.
Proof. intros Hi HQ. eapply put_task_state_wp; [done|]. by rewrite set_task_state_same. Qed.

Lemma on_dequeue_wp {E} s l (Q : _ → result E (option TaskHandle) → Prop) :
  qrep TASK_ARENA_CAPACITY (ready s) l →
  (l = [] → Q s (Ok None)) →
  (∀ h t q, l = h :: t → qrep TASK_ARENA_CAPACITY q t → Q (set_ready q s) (Ok (Some h))) →
  wp (on_ready dequeue) s Q.
Proof.
  intros Hq Hn Hc. apply wp_zoom. eapply wp_mono; [by apply dequeue_wp|].
  intros q r. destruct l as [|h t].
  - intros (-> & ->). assert (set_ready (ready s) s = s) as -> by (by destruct s). by apply Hn.
  - intros (-> & Hq'). by apply Hc with t.
Qed.

Lemma enqueue_ready_wp {E} s l h (Q : _ → result E unit → Prop) :
  qrep TASK_ARENA_CAPACITY (ready s) l → length l < TASK_ARENA_CAPACITY →
  (∀ q, qrep TASK_ARENA_CAPACITY q (l ++ [h]) → Q (set_ready q s) (Ok tt)) →
  wp (enqueue_ready h) s Q.
Proof.
  intros Hq Hlt HQ. unfold enqueue_ready. apply wp_bind, wp_attempt, wp_zoom.
  eapply wp_mono; [by apply enqueue_wp|]. intros q r. cbv beta. rewrite decide_True by done.
  intros (-> & Hq'). red; cbn. by apply HQ.
Qed.

Lemma switch_to_wp {E} s l i j a (Q : _ → result E dispatch → Prop) :
  sched_ok s l → i ≠ j → i < TASK_ARENA_CAPACITY → j < TASK_ARENA_CAPACITY →
  Q s (Ok (Switch i j a)) → wp (switch_to i j a) s Q.
Proof.
  intros Hs Hne Hi Hj HQ. unfold switch_to.
  destruct (lookup_lt_is_Some_2 (contexts s) i) as [c Hc]; [by rewrite (so_contexts _ _ Hs)|].
  destruct (lookup_lt_is_Some_2 (contexts s) j) as [d Hd]; [by rewrite (so_contexts _ _ Hs)|].
  apply wp_bind, wp_debug_assert; [by rewrite bool_decide_false|].
  apply wp_bind, wp_idx with c; [done|]. apply wp_bind, wp_idx with d; [done|]. exact HQ.
Qed.

Lemma as_lookup s l h : sched_ok s l → registered s h →
  ∃ a, task_address_space_handles s !! task_index h = Some a.
Proof.
  intros Hs Hr. apply lookup_lt_is_Some_2. rewrite (so_as _ _ Hs). by eapply registered_lt.
Qed.

(** The invariant after the queue and the running task changed. *)
Lemma sched_ok_update s l l' q c :
  sched_ok s l → qrep TASK_ARENA_CAPACITY q l' → NoDup l' →
  (∀ h, h ∈ l' → runnable s h ∧ c ≠ Some h ∧ idle s ≠ Some h) →
  (∀ h, c = Some h → runnable s h) →
  sched_ok (set_current c (set_ready q s)) l'.
Proof.
  intros Hs Hq Hnd Hl Hc. split; simpl; try apply Hs; try done.
Qed.

(** ** yield_now *)

(** Where a yield goes: the running task joins the tail of the list (unless it is the
    idle task), and the head of the list runs. *)
Definition yield_next s l cur : list TaskHandle * option TaskHandle :=
  match l with
  | [] => ([], None)
  | h :: t => (if decide (idle s = Some cur) then t else t ++ [cur], Some h)
  end.

(** The list once the running task has been put back. *)
Definition requeued s l cur : list TaskHandle :=
  if decide (idle s = Some cur) then l else l ++ [cur].

Lemma requeue_wp {E} s l cur (Q : _ → result E unit → Prop) :
  sched_ok s l → registered s cur → cur ∉ l →
  (∀ q, qrep TASK_ARENA_CAPACITY q (requeued s l cur) → Q (set_ready q s) (Ok tt)) →
  wp (if negb (bool_decide (idle s = Some cur)) then enqueue_ready cur else ret tt) s Q.
Proof.
  intros Hs Hreg Hni HQ. unfold requeued in HQ. case_bool_decide as Hidle; cbn [negb].
  - rewrite decide_True in HQ by done. red; cbn.
    assert (set_ready (ready s) s = s) as <- by (by destruct s). apply HQ, Hs.
  - rewrite decide_False in HQ by done.
    eapply enqueue_ready_wp; [apply Hs|by eapply ready_room|done].
Qed.

(** The tail of a dispatch from [cur] to another runnable task [h]. *)
Lemma dispatch_wp s l q cur h (Q : _ → result SchedError dispatch → Prop) :
  sched_ok s l → registered s cur → runnable s h → h ≠ cur →
  (∀ a b, task_address_space_handles s !! task_index cur = Some a →
          task_address_space_handles s !! task_index h = Some b →
     Q (set_current (Some h) (set_ready q s))
       (Ok (Switch (task_index cur) (task_index h) (address_space_activation_target a b)))) →
  wp (put_task_state (task_index h) Ready ;;
      modify (set_current (Some h)) ;;
      let* a := idx task_address_space_handles (task_index cur) in
      let* b := idx task_address_space_handles (task_index h) in
      switch_to (task_index cur) (task_index h) (address_space_activation_target a b))
     (set_ready q s) Q.
Proof.
  intros Hs Hreg Hh Hne HQ. apply wp_bind, put_ready_wp; [apply Hh|].
  apply wp_bind. red; cbn [modify].
  destruct (as_lookup s _ cur Hs Hreg) as [a Ha].
  destruct (as_lookup s _ h Hs (proj1 Hh)) as [b Hb].
  apply wp_bind, wp_idx with a; [done|]. apply wp_bind, wp_idx with b; [done|].
  destruct (lookup_lt_is_Some_2 (contexts s) (task_index cur)) as [c Hc].
  { rewrite (so_contexts _ _ Hs). by eapply registered_lt. }
  destruct (lookup_lt_is_Some_2 (contexts s) (task_index h)) as [d Hd].
  { rewrite (so_contexts _ _ Hs). eapply registered_lt; [done|apply Hh]. }
  apply wp_bind, wp_debug_assert.
  { rewrite bool_decide_false; [done|]. intros Hi. apply Hne. symmetry.
    by apply (registered_inj s); [done|apply Hh|]. }
  apply wp_bind, wp_idx with c; [done|]. apply wp_bind, wp_idx with d; [done|]. red; cbn [ret]. auto.
Qed.

Lemma requeued_cases s l cur :
  requeued s l cur = [] ∧ l = [] ∧ idle s = Some cur ∨
  requeued s l cur = [cur] ∧ l = [] ∧ idle s ≠ Some cur ∨
  ∃ h t, l = h :: t ∧ requeued s l cur = h :: (yield_next s l cur).1.
Proof.
  unfold requeued, yield_next. destruct l as [|h t]; case_decide; [auto|auto|..];
    right; right; by exists h, t.
Qed.

Lemma yield_now_wp s l cur : sched_ok s l → current s = Some cur →
  wp yield_now s (λ s' r, ∃ q l' next,
    (l', next) = yield_next s l cur ∧ qrep TASK_ARENA_CAPACITY q l' ∧
    match next with
    | None => r = Ok Stay ∧ s' = set_ready q s
    | Some h => s' = set_current (Some h) (set_ready q s) ∧
        ∃ a b, task_address_space_handles s !! task_index cur = Some a ∧
               task_address_space_handles s !! task_index h = Some b ∧
               r = Ok (Switch (task_index cur) (task_index h) (address_space_activation_target a b))
    end).
Proof.
  intros Hs Hcur. destruct (so_current _ _ Hs cur Hcur) as [Hreg Hst].
  assert (Hni : cur ∉ l) by (intros Hin; by apply (so_ready _ _ Hs) in Hin as (_ & ? & _)).
  unfold yield_now. apply wp_bind. red; cbn [gets]. rewrite Hcur.
  apply wp_bind. red; cbn [ok_or ret]. apply wp_bind. red; cbn [gets].
  apply wp_bind, put_ready_wp; [done|].
  apply wp_bind. eapply requeue_wp; [done..|]. intros q1 Hq1. apply wp_bind.
  destruct (requeued_cases s l cur) as [(E & -> & Hidle)|[(E & -> & Hidle)|(h & t & -> & E)]];
    (eapply on_dequeue_wp; [exact Hq1|..]; rewrite E; [intros E'|intros h' t' q E' Hq]; try done).
  - rewrite Hidle, bool_decide_true by done. red; cbn [ret negb].
    exists q1, [], None. rewrite E in Hq1. done.
  - injection E' as <- <-. rewrite bool_decide_true by done. red; cbn [ret negb].
    by exists q, [], None.
  - injection E' as <- <-. assert (h ≠ cur) as Hne by (intros ->; apply Hni; by left).
    rewrite bool_decide_false by done. cbn [negb].
    apply (dispatch_wp s (h :: t) q); [done|done|apply (so_ready _ _ Hs); by left|done|].
    intros a b Ha Hb. exists q, (yield_next s (h :: t) cur).1, (Some h).
    split; [done|]. split; [done|]. split; [done|]. eauto.
Qed.

Lemma yield_next_ok s l cur q l' next :
  sched_ok s l → current s = Some cur → (l', next) = yield_next s l cur →
  qrep TASK_ARENA_CAPACITY q l' →
  match next with
  | None => sched_ok (set_ready q s) l'
  | Some h => sched_ok (set_current (Some h) (set_ready q s)) l'
  end.
Proof.
  intros Hs Hcur Hy Hq. destruct (so_current _ _ Hs cur Hcur) as [Hreg Hst].
  assert (Hni : cur ∉ l) by (intros Hin; by apply (so_ready _ _ Hs) in Hin as (_ & ? & _)).
  destruct l as [|h t]; simpl in Hy; injection Hy as -> ->.
  - assert (set_ready q s = set_current (current s) (set_ready q s)) as -> by done.
    eapply sched_ok_update; [exact Hs|done|constructor|set_solver|apply Hs].
  - pose proof (so_nodup _ _ Hs) as Hnd. apply NoDup_cons in Hnd as [Hht Hnd].
    assert (Hrh : ∀ x, x ∈ h :: t → runnable s x ∧ current s ≠ Some x ∧ idle s ≠ Some x)
      by apply Hs.
    eapply sched_ok_update; [exact Hs|done| | |].
    + case_decide; [done|]. apply NoDup_app. split; [done|]. split; [|by apply NoDup_singleton].
      set_solver.
    + intros x Hx. assert (x ∈ t ∨ (idle s ≠ Some cur ∧ x = cur)) as [Hxt|[Hid ->]].
      { case_decide; [by left|]. apply elem_of_app in Hx as [?|Hx]; [by left|].
        right. by apply list_elem_of_singleton in Hx. }
      * destruct (Hrh x) as (H1 & H2 & H3); [by right|]. split_and!; [done| |done].
        intros [= ->]. done.
      * split_and!; [done| |done]. intros [= ->]. apply Hni. by left.
    + intros x [= <-]. apply Hrh. by left.
Qed.
End inv.
