(* ===== verification/SchedOps.v ===== *)
(** * Scheduling operations beyond yield

Registration of tasks, the boot dispatch, waking a blocked receiver and blocking
the running task, each as an exact update of the ready list, the running task and
one task state. *)

From S2P Require Import Prelude.
From S2P Require Import Hal.
From S2P Require Import Arena.
From S2P Require Import Objects.
From S2P Require Import Caps.
From S2P Require Import CapTable.
From S2P Require Import Ipc.
From S2P Require Import SyscallError.
From S2P Require Import UserAccess.
From S2P Require Import Sched.
From S2P Require Import SchedInv.

Section ops.
Context `{Build} {Ctx : Type} `{!Contexts Ctx}.
Implicit Types (s : Scheduler Ctx) (l : list TaskHandle) (h : TaskHandle).

Definition blocked_on s ep i : Prop := task_states s !! i = Some (Blocked ep).

(** ** Waking a receiver *)

(** The first slot blocked on [ep], from [i] on. *)
Definition first_blocked s ep (i j : nat) : Prop :=
  i ≤ j ∧ blocked_on s ep j ∧ ∀ k, i ≤ k < j → ¬ blocked_on s ep k.

Definition woken s l s' i : Prop :=
  ∃ h q, task_handles s !! i = Some (Some h) ∧ task_index h = i ∧
         qrep TASK_ARENA_CAPACITY q (l ++ [h]) ∧ s' = set_ready q (set_task_state i Ready s).

Lemma blocked_not_ready s l h ep : sched_ok s l → blocked_on s ep (task_index h) → h ∉ l.
Proof.
  intros Hs Hb Hin. destruct (so_ready _ _ Hs h Hin) as ([_ Hst] & _). unfold blocked_on in Hb. congruence.
Qed.

Lemma unblock_loop_wp {E} n i ep s l : sched_ok s l → i + n = TASK_ARENA_CAPACITY →
  wp (unblock_loop (E := E) n i ep) s (λ s' r, r = Ok tt ∧
    ((s' = s ∧ ∀ k, i ≤ k → ¬ blocked_on s ep k) ∨
     ∃ j, first_blocked s ep i j ∧ woken s l s' j)).
Proof.
  intros Hs. revert i; induction n as [|n IH]; intros i Hin; cbn [unblock_loop].
  - red; cbn. split; [done|]. left. split; [done|]. intros k Hk Hb.
    apply lookup_lt_Some in Hb. rewrite (so_states _ _ Hs) in Hb. lia.
  - destruct (lookup_lt_is_Some_2 (task_states s) i) as [st Hst]; [rewrite (so_states _ _ Hs); lia|].
    apply wp_bind, wp_idx with st; [done|].
    assert (Hnext : st ≠ Blocked ep → wp (unblock_loop (E := E) n (i + 1) ep) s (λ s' r, r = Ok tt ∧
      ((s' = s ∧ ∀ k, i ≤ k → ¬ blocked_on s ep k) ∨
       ∃ j, first_blocked s ep i j ∧ woken s l s' j))).
    { intros Hne. assert (Hni : ¬ blocked_on s ep i) by (unfold blocked_on; congruence).
      eapply wp_mono; [apply IH; lia|]. intros s' r (-> & [[-> Hno]|(j & (Hj & Hb & Hk) & Hw)]);
        (split; [done|]).
      - left. split; [done|]. intros k Hk. destruct (decide (k = i)) as [->|]; [done|]. apply Hno. lia.
      - right. exists j. split; [|done]. split; [lia|]. split; [done|].
        intros k Hk'. destruct (decide (k = i)) as [->|]; [done|]. apply Hk. lia. }
    destruct st as [| |on]; [by apply Hnext..|]. case_bool_decide as Hon; [|apply Hnext; congruence].
    subst on. destruct (so_blocked _ _ Hs i ep Hst) as (h & Hh & Hi).
    apply wp_bind, wp_idx with (Some h); [done|]. apply wp_bind, wp_debug_assert; [done|].
    apply wp_bind, wp_idx with (Some h); [done|].
    apply wp_bind. eapply put_task_state_wp; [done|].
    assert (Hroom : length l < TASK_ARENA_CAPACITY).
    { eapply (ready_room s l h); [done|unfold registered; by rewrite Hi|].
      eapply blocked_not_ready; [done|]. unfold blocked_on. by rewrite Hi. }
    eapply enqueue_ready_wp; [apply Hs|done|]. intros q Hq. split; [done|]. right.
    exists i. split; [split; [lia|]; split; [done|]; lia|]. by exists h, q.
Qed.

Lemma woken_ok s l s' ep i : sched_ok s l → blocked_on s ep i → woken s l s' i →
  ∃ h, task_handles s !! i = Some (Some h) ∧ sched_ok s' (l ++ [h]) ∧ current s' = current s ∧
       idle s' = idle s ∧ (∀ j, j ≠ i → task_states s' !! j = task_states s !! j) ∧
       task_states s' !! i = Some Ready ∧ task_handles s' = task_handles s.
Proof.
  intros Hs Hb (h & q & Hh & Hi & Hq & ->). exists h. split; [done|].
  assert (Hlt : i < length (task_states s)) by (by eapply lookup_lt_Some).
  assert (Hrun : ∀ x, runnable s x → runnable (set_ready q (set_task_state i Ready s)) x).
  { intros x [Hr Hst]. split; [done|]. simpl. rewrite lookup_upd by done. by case_decide. }
  assert (Hnb : ∀ x, runnable s x → x ≠ h).
  { intros x [_ Hst] ->. unfold blocked_on in Hb. rewrite Hi in Hst. congruence. }
  assert (Hh' : runnable (set_ready q (set_task_state i Ready s)) h).
  { split; [unfold registered; simpl; by rewrite Hi|]. simpl. rewrite Hi.
    by apply list_lookup_insert_eq. }
  split_and!; simpl; try done.
  - split; simpl; try apply Hs; try done.
    + rewrite length_insert. apply Hs.
    + intros x [Hx|Hx%list_elem_of_singleton]%elem_of_app.
      * destruct (so_ready _ _ Hs x Hx) as (H1 & H2 & H3). auto.
      * subst x. split; [done|]. split.
        -- intros Hc. by apply (so_current _ _ Hs), Hnb in Hc.
        -- intros Hc. by apply (so_idle _ _ Hs), Hnb in Hc.
    + apply NoDup_app. split; [apply Hs|]. split; [|by apply NoDup_singleton].
      intros x Hx ->%list_elem_of_singleton. by apply (so_ready _ _ Hs) in Hx as (?%Hnb & _).
    + intros x Hx. by apply Hrun, (so_current _ _ Hs).
    + intros x Hx. by apply Hrun, (so_idle _ _ Hs).
    + intros j ep'. rewrite lookup_upd by done. case_decide; [done|]. apply Hs.
  - intros j Hj. by rewrite list_lookup_insert_ne.
  - by apply list_lookup_insert_eq.
Qed.

(** ** Blocking the running task *)

(** The task that runs when [cur] blocks: the head of the list, else the idle task. *)
Definition block_next s l cur : option TaskHandle :=
  match l with
  | h :: _ => Some h
  | [] => match idle s with
          | Some i => if decide (i = cur) then None else Some i
          | None => None
          end
  end.

Definition blocked_state s q cur ep next : Scheduler Ctx :=
  set_current next (set_ready q (set_task_state (task_index cur) (Blocked ep) s)).

Lemma set_task_state_twice s i a b : set_task_state i a (set_task_state i b s) = set_task_state i a s.
Proof. unfold set_task_state; simpl. by rewrite list_insert_insert_eq. Qed.

(** The state between the block and the choice of the next task. *)
Definition blocking s cur ep : Scheduler Ctx :=
  set_current None (set_task_state (task_index cur) (Blocked ep) s).

Lemma block_go_wp s l cur ep h q : sched_ok s l → registered s cur → h ≠ cur → runnable s h →
  qrep TASK_ARENA_CAPACITY q (tail l) →
  wp (put_task_state (task_index h) Ready ;;
      modify (set_current (Some h)) ;;
      let* a := idx task_address_space_handles (task_index cur) in
      let* b := idx task_address_space_handles (task_index h) in
      ret (Some (task_index cur, task_index h, address_space_activation_target a b)))
     (set_ready q (blocking s cur ep)) (λ s' (r : result SchedError _), ∃ q a b,
      qrep TASK_ARENA_CAPACITY q (tail l) ∧ h ≠ cur ∧ runnable s h ∧
      s' = blocked_state s q cur ep (Some h) ∧
      task_address_space_handles s !! task_index cur = Some a ∧
      task_address_space_handles s !! task_index h = Some b ∧
      r = Ok (Some (task_index cur, task_index h, address_space_activation_target a b))).
Proof.
  intros Hs Hreg Hne Hh Hq. apply wp_bind, put_ready_wp.
  { simpl. rewrite list_lookup_insert_ne; [apply Hh|]. intros Hi. apply Hne.
    symmetry. by apply (registered_inj s); [done|apply Hh|]. }
  apply wp_bind. red; cbn [modify].
  destruct (as_lookup s _ cur Hs Hreg) as [a Ha].
  destruct (as_lookup s _ h Hs (proj1 Hh)) as [b Hb].
  apply wp_bind, wp_idx with a; [done|]. apply wp_bind, wp_idx with b; [done|].
  red; cbn [ret]. exists q, a, b. done.
Qed.

(** Nothing else to run: the block is undone, and the scheduler is as it was. *)
Lemma block_undo_wp {A} s cur ep : current s = Some cur → runnable s cur →
  wp (put_task_state (task_index cur) Ready ;; modify (set_current (Some cur)) ;; ret None)
     (blocking s cur ep) (λ s' (r : result SchedError (option A)), r = Ok None ∧ s' = s).
Proof.
  intros Hcur [Hreg Hst]. assert (task_index cur < length (task_states s)) by (by eapply lookup_lt_Some).
  apply wp_bind. eapply put_task_state_wp; [by apply list_lookup_insert_eq|].
  apply wp_bind. red; cbn [modify]. red; cbn [ret]. split; [done|].
  unfold blocking, set_current, set_task_state; simpl.
  rewrite list_insert_insert_eq, list_insert_id by done. destruct s; simpl in *; congruence.
Qed.

Lemma block_and_dispatch_wp s l cur ep : sched_ok s l → current s = Some cur →
  wp (block_and_dispatch ep) s (λ s' r,
    match block_next s l cur with
    | None => r = Ok None ∧ s' = s
    | Some h => ∃ q a b, qrep TASK_ARENA_CAPACITY q (tail l) ∧ h ≠ cur ∧ runnable s h ∧
        s' = blocked_state s q cur ep (Some h) ∧
        task_address_space_handles s !! task_index cur = Some a ∧
        task_address_space_handles s !! task_index h = Some b ∧
        r = Ok (Some (task_index cur, task_index h, address_space_activation_target a b))
    end).
Proof.
  intros Hs Hcur. pose proof (so_current _ _ Hs cur Hcur) as [Hreg Hst].
  unfold block_and_dispatch. apply wp_bind. red; cbn [gets]. rewrite Hcur.
  apply wp_bind. red; cbn [ok_or ret]. apply wp_bind, wp_idx with Ready; [done|].
  apply wp_bind, wp_debug_assert; [done|]. apply wp_bind. eapply put_task_state_wp; [done|].
  apply wp_bind. red; cbn [modify].
  change (set_current None (set_task_state (task_index cur) (Blocked ep) s)) with (blocking s cur ep).
  apply wp_bind. eapply (on_dequeue_wp (blocking s cur ep) l); [apply Hs|..].
  - intros ->. apply wp_bind. red; cbn [gets]. change (idle (blocking s cur ep)) with (idle s).
    unfold block_next. destruct (idle s) as [i|] eqn:Hidle; [|by apply block_undo_wp].
    case_bool_decide as Hic; cbn [negb].
    + rewrite decide_True by done. by apply block_undo_wp.
    + rewrite decide_False by done.
      assert (set_ready (ready s) (blocking s cur ep) = blocking s cur ep) as <- by done.
      apply block_go_wp with (l := []); [done|done|done|by apply (so_idle _ _ Hs)|apply Hs].
  - intros h t q -> Hq. apply wp_bind. red; cbn [gets]. unfold block_next.
    apply block_go_wp with (l := h :: t); [done|done| |apply (so_ready _ _ Hs); by left|done].
    intros ->. destruct (so_ready _ _ Hs cur) as (_ & ? & _); [by left|done].
Qed.

Lemma blocked_state_ok s l q cur ep h : sched_ok s l → current s = Some cur →
  idle s ≠ Some cur → block_next s l cur = Some h → qrep TASK_ARENA_CAPACITY q (tail l) →
  sched_ok (blocked_state s q cur ep (Some h)) (tail l).
Proof.
  intros Hs Hcur Hid Hn Hq. destruct (so_current _ _ Hs cur Hcur) as [Hreg Hst].
  assert (Hlt : task_index cur < length (task_states s)) by (by eapply lookup_lt_Some).
  assert (Hrun : ∀ x, x ≠ cur → runnable s x → runnable (blocked_state s q cur ep (Some h)) x).
  { intros x Hne [Hr Hx]. split; [done|]. simpl. rewrite list_lookup_insert_ne; [done|].
    intros Hi. apply Hne. symmetry. by apply (registered_inj s). }
  assert (Hin : ∀ x, x ∈ tail l → x ∈ l) by (destruct l; [done|]; intros; by right).
  assert (Hcl : ∀ x, x ∈ l → x ≠ cur).
  { intros x Hx ->. by apply (so_ready _ _ Hs) in Hx as (_ & ? & _). }
  assert (Hh : h ≠ cur ∧ runnable s h ∧ h ∉ tail l).
  { unfold block_next in Hn. destruct l as [|h' t].
    - destruct (idle s) as [i|] eqn:Hi; [|done]. case_decide; [done|]. injection Hn as ->.
      split; [done|]. split; [by apply (so_idle _ _ Hs)|set_solver].
    - injection Hn as ->. split; [apply Hcl; by left|]. split; [apply (so_ready _ _ Hs); by left|].
      simpl. by apply NoDup_cons, (so_nodup _ _ Hs). }
  destruct Hh as (Hhc & Hhr & Hht). split; simpl; try apply Hs; try done.
  - rewrite length_insert. apply Hs.
  - intros x Hx. destruct (so_ready _ _ Hs x (Hin x Hx)) as (H1 & H2 & H3).
    split_and!; [apply Hrun; auto|intros [= ->]; done|done].
  - pose proof (so_nodup _ _ Hs). destruct l; [done|]. by apply NoDup_cons in H0 as [_ ?].
  - intros x [= <-]. auto.
  - intros x Hx. apply Hrun; [intros ->; congruence|by apply (so_idle _ _ Hs)].
  - intros i ep'. rewrite lookup_upd by done. case_decide as Hi; [|apply Hs].
    intros _. exists cur. by subst i.
Qed.

(** ** Registration and boot *)

(** Slot [task_index h] has never been given to a task. *)
Definition fresh_slot s h : Prop := task_handles s !! task_index h = Some None.

Lemma fresh_not_registered s h x : fresh_slot s h → registered s x → task_index x ≠ task_index h.
Proof. unfold fresh_slot, registered. intros Hf Hr Hi. rewrite Hi in Hr. congruence. Qed.

Lemma fresh_room s l h : sched_ok s l → fresh_slot s h → length l < TASK_ARENA_CAPACITY.
Proof.
  intros Hs Hf. assert (Hlt : task_index h < TASK_ARENA_CAPACITY).
  { rewrite <- (so_handles _ _ Hs). by eapply lookup_lt_Some. }
  assert (Hreg : ∀ x, x ∈ l → registered s x) by (intros x Hx; by apply (so_ready _ _ Hs)).
  assert (Hnd : NoDup (task_index h :: (task_index <$> l))).
  { constructor.
    - intros (x & Hx & Hin)%list_elem_of_fmap. by apply (fresh_not_registered s h x); auto.
    - apply NoDup_fmap_2_strong; [|apply Hs]. intros x y Hx Hy Hxy. apply (registered_inj s); auto. }
  assert (Hle : length (task_index h :: (task_index <$> l)) ≤ length (seq 0 TASK_ARENA_CAPACITY)).
  { apply submseteq_length, NoDup_submseteq; [done|].
    intros i [->|(x & -> & Hin)%list_elem_of_fmap]%elem_of_cons; apply elem_of_seq; [lia|].
    pose proof (registered_lt s l x Hs (Hreg x Hin)). lia. }
  rewrite length_seq in Hle. simpl in Hle. rewrite length_fmap in Hle. lia.
Qed.

(** The scheduler with [h] registered in its slot, ready queue [q]. *)
Definition registered_state s q c h a : Scheduler Ctx :=
  set_identity (task_index h) h a (set_task_state (task_index h) Ready
    (set_ready q (set_context (task_index h) c s))).

Section registration.
Context (s : Scheduler Ctx) (l : list TaskHandle) (h : TaskHandle).
Context (Hs : sched_ok s l) (Hf : fresh_slot s h).

Lemma fresh_lt : task_index h < TASK_ARENA_CAPACITY.
Proof. rewrite <- (so_handles _ _ Hs). by eapply lookup_lt_Some. Qed.

Lemma fresh_runnable q c a x : runnable s x →
  x ≠ h ∧ runnable (registered_state s q c h a) x.
Proof.
  intros [Hr Hst]. pose proof (fresh_not_registered s h x Hf Hr) as Hne.
  split; [by intros ->|]. split.
  - unfold registered; simpl. by rewrite list_lookup_insert_ne.
  - simpl. by rewrite list_lookup_insert_ne.
Qed.

Lemma new_runnable q c a : runnable (registered_state s q c h a) h.
Proof.
  pose proof fresh_lt. split.
  - unfold registered; simpl. apply list_lookup_insert_eq. by rewrite (so_handles _ _ Hs).
  - simpl. apply list_lookup_insert_eq. by rewrite (so_states _ _ Hs).
Qed.

(** [l'] is [l] with [h] (a task) or [l] alone (the idle task). *)
Lemma registered_state_ok q c a l' i : qrep TASK_ARENA_CAPACITY q l' → NoDup l' →
  (∀ x, x ∈ l' → (x ∈ l ∨ x = h) ∧ i ≠ Some x) →
  (∀ x, i = Some x → idle s = Some x ∨ x = h) →
  sched_ok (set_idle i (registered_state s q c h a)) l'.
Proof.
  intros Hq Hnd Hl' Hi. split; simpl; try done; rewrite ?length_insert; try apply Hs.
  - intros x Hx. destruct (Hl' x Hx) as [[Hxl|Hxh] Hix].
    + destruct (so_ready _ _ Hs x Hxl) as (H1 & H2 & H3). split; [|done].
      by apply (fresh_runnable q c a) in H1 as [_ ?].
    + rewrite Hxh. split; [apply new_runnable|]. split; [|by rewrite <- Hxh].
      intros Hc. apply (so_current _ _ Hs) in Hc. by apply (fresh_runnable q c a) in Hc as [? _].
  - intros x Hx. apply (so_current _ _ Hs) in Hx. by apply (fresh_runnable q c a) in Hx as [_ ?].
  - intros x Hx. destruct (Hi x Hx) as [Hix|Hxh]; [|rewrite Hxh; apply new_runnable].
    apply (so_idle _ _ Hs) in Hix. by apply (fresh_runnable q c a) in Hix as [_ ?].
  - intros j ep. destruct (decide (j = task_index h)) as [->|Hne].
    + rewrite list_lookup_insert_eq by (rewrite (so_states _ _ Hs); apply fresh_lt). done.
    + rewrite !list_lookup_insert_ne by done. apply Hs.
Qed.

Lemma put_identity_wp {E} s0 a (Q : _ → result E unit → Prop) :
  length (task_handles s0) = TASK_ARENA_CAPACITY →
  length (task_address_space_handles s0) = TASK_ARENA_CAPACITY →
  Q (set_identity (task_index h) h a s0) (Ok tt) →
  wp (put_identity (task_index h) h a) s0 Q.
Proof.
  intros H1 H2 HQ. pose proof fresh_lt. unfold put_identity.
  destruct (lookup_lt_is_Some_2 (task_handles s0) (task_index h)) as [x Hx]; [lia|].
  destruct (lookup_lt_is_Some_2 (task_address_space_handles s0) (task_index h)) as [y Hy]; [lia|].
  apply wp_bind, wp_idx with x; [done|]. apply wp_bind, wp_idx with y; done.
Qed.

(** The common body of [add_task] and [add_user_task]: never full, never a panic. *)
Lemma enqueue_register_wp c a k (Q : _ → result SchedError unit → Prop) :
  (∀ q, qrep TASK_ARENA_CAPACITY q (l ++ [h]) → wp k (registered_state s q c h a) Q) →
  wp (map_err (λ _, SQueueFull) (on_ready (enqueue h)) ;;
      put_task_state (task_index h) Ready ;;
      put_identity (task_index h) h a ;; k) (set_context (task_index h) c s) Q.
Proof.
  intros HQ. apply wp_bind, wp_map_err, wp_zoom. eapply wp_mono; [apply enqueue_wp, Hs|].
  intros q r. cbv beta. rewrite decide_True by (by eapply fresh_room).
  intros (-> & Hq). cbn [res_map_err].
  destruct (lookup_lt_is_Some_2 (task_states s) (task_index h)) as [st Hst].
  { rewrite (so_states _ _ Hs). apply fresh_lt. }
  apply wp_bind. eapply put_task_state_wp; [done|]. apply wp_bind.
  apply put_identity_wp; [apply Hs|apply Hs|]. by apply HQ.
Qed.

Lemma new_list_ok q c a : qrep TASK_ARENA_CAPACITY q (l ++ [h]) →
  sched_ok (registered_state s q c h a) (l ++ [h]).
Proof.
  intros Hq. assert (Hnl : h ∉ l).
  { intros Hin. apply (so_ready _ _ Hs) in Hin as (Hr & _). by apply (fresh_runnable q c a) in Hr as [? _]. }
  assert (set_idle (idle s) (registered_state s q c h a) = registered_state s q c h a) as <- by done.
  apply registered_state_ok; [done| | |by left].
  - apply NoDup_app. split; [apply Hs|]. split; [|by apply NoDup_singleton].
    intros x Hx Hxh%list_elem_of_singleton. congruence.
  - intros x [Hx|Hxh%list_elem_of_singleton]%elem_of_app.
    + split; [by left|]. by apply (so_ready _ _ Hs).
    + split; [by right|]. rewrite Hxh. intros Hi. apply (so_idle _ _ Hs) in Hi.
      by apply (fresh_runnable q c a) in Hi as [? _].
Qed.

Lemma context_at : ∃ c, contexts s !! task_index h = Some c.
Proof. apply lookup_lt_is_Some_2. rewrite (so_contexts _ _ Hs). apply fresh_lt. Qed.

Lemma add_task_wp a entry sp :
  wp (add_task h a entry sp) s (λ s' r, r = Ok tt ∧ ∃ q c, contexts s !! task_index h = Some c ∧
    qrep TASK_ARENA_CAPACITY q (l ++ [h]) ∧ s' = registered_state s q (init_context c entry sp) h a).
Proof.
  destruct context_at as [c Hc]. unfold add_task. apply wp_bind, wp_idx with c; [done|].
  apply wp_bind. red; cbn [modify]. apply wp_seq3_ret, enqueue_register_wp. intros q Hq.
  split; [done|]. eauto.
Qed.

Lemma add_user_task_wp a entry usp ksp t :
  ksp ≠ 0%Z → (ksp `mod` 16 = 0)%Z → (usp `mod` 16 = 0)%Z → t ≠ 0%Z →
  wp (add_user_task h a entry usp ksp t) s (λ s' r, r = Ok tt ∧ ∃ q c, contexts s !! task_index h = Some c ∧
    qrep TASK_ARENA_CAPACITY q (l ++ [h]) ∧
    s' = set_user_binding (task_index h) (Some t) (Some (window_new entry (saturating_sub64 usp entry)))
           (registered_state s q (init_user_context c entry usp ksp) h a)).
Proof.
  intros H1 H2 H3 H4. destruct context_at as [c Hc]. pose proof fresh_lt as Hlt. unfold add_user_task.
  apply wp_bind, wp_debug_assert; [by rewrite bool_decide_false, bool_decide_true by done|].
  apply wp_bind, wp_debug_assert; [by rewrite bool_decide_true|].
  apply wp_bind, wp_debug_assert; [by rewrite bool_decide_false|].
  rewrite bool_decide_false by done.
  apply wp_bind, wp_idx with c; [done|]. apply wp_bind. red; cbn [modify].
  apply enqueue_register_wp. intros q Hq. unfold put_user_binding.
  destruct (lookup_lt_is_Some_2 (task_cap_tables s) (task_index h)) as [x Hx]; [by rewrite (so_tables _ _ Hs)|].
  destruct (lookup_lt_is_Some_2 (task_user_windows s) (task_index h)) as [y Hy]; [by rewrite (so_windows _ _ Hs)|].
  apply wp_bind, wp_idx with x; [done|]. apply wp_bind, wp_idx with y; [done|]. red; cbn [modify].
  split; [done|]. eauto.
Qed.

Lemma idle_list_ok c a : sched_ok (set_idle (Some h) (registered_state s (ready s) c h a)) l.
Proof.
  apply registered_state_ok; [apply Hs|apply Hs|..].
  - intros x Hx. split; [by left|]. intros [= Hxh]. rewrite <- Hxh in Hx.
    apply (so_ready _ _ Hs) in Hx as (Hr & _). by apply (fresh_runnable (ready s) c a) in Hr as [? _].
  - intros x [= Hxh]. by right.
Qed.

Lemma register_idle_wp {E} a entry sp : idle s = None →
  wp (register_idle (E := E) h a entry sp) s (λ s' r, r = Ok tt ∧ ∃ c, contexts s !! task_index h = Some c ∧
    s' = set_idle (Some h) (registered_state s (ready s) (init_context c entry sp) h a)).
Proof.
  intros Hid. destruct context_at as [c Hc]. unfold register_idle.
  apply wp_bind. red; cbn [gets]. rewrite Hid.
  rewrite bool_decide_true by done. cbn [negb].
  apply wp_bind, wp_idx with c; [done|]. apply wp_bind. red; cbn [modify].
  destruct (lookup_lt_is_Some_2 (task_states s) (task_index h)) as [st Hst].
  { rewrite (so_states _ _ Hs). apply fresh_lt. }
  apply wp_bind. eapply put_task_state_wp; [done|].
  apply wp_bind. apply put_identity_wp; [apply Hs|apply Hs|]. red; cbn [modify].
  split; [done|]. eexists. done.
Qed.
End registration.

(** Boot (and task exit): the head of the list, else the idle task, runs. *)
Definition boot_next s l : option TaskHandle :=
  match l with h :: _ => Some h | [] => idle s end.

Lemma start_prelude_wp {E} s l h : sched_ok s l → boot_next s l = Some h →
  wp (start_prelude (E := E)) s (λ s' r, r = Ok (task_index h) ∧
    ∃ q, s' = set_current (Some h) (set_ready q s) ∧ sched_ok s' (tail l)).
Proof.
  intros Hs Hn. unfold start_prelude.
  assert (Hh : runnable s h ∧ h ∉ tail l).
  { destruct l as [|h' t]; simpl in Hn.
    - split; [by apply (so_idle _ _ Hs)|set_solver].
    - injection Hn as ->. split; [apply (so_ready _ _ Hs); by left|].
      by apply NoDup_cons, (so_nodup _ _ Hs). }
  destruct Hh as [Hh Hht].
  assert (Hdone : ∀ q, qrep TASK_ARENA_CAPACITY q (tail l) →
    wp (put_task_state (task_index h) Ready ;; modify (set_current (Some h)) ;; ret (task_index h))
      (set_ready q s) (λ s' (r : result E nat), r = Ok (task_index h) ∧
        ∃ q, s' = set_current (Some h) (set_ready q s) ∧ sched_ok s' (tail l))).
  { intros q Hq. apply wp_bind, put_ready_wp; [apply Hh|]. apply wp_bind. red; cbn [modify].
    red; cbn [ret]. split; [done|]. exists q. split; [done|].
    eapply sched_ok_update; [exact Hs|done| | |].
    - pose proof (so_nodup _ _ Hs) as Hnd. destruct l; [done|]. by apply NoDup_cons in Hnd as [_ ?].
    - intros x Hx. assert (x ∈ l) as Hxl by (destruct l; [done|by right]).
      destruct (so_ready _ _ Hs x Hxl) as (H1 & _ & H3). split; [done|]. split; [|done].
      by intros [= ->].
    - by intros x [= <-]. }
  apply wp_bind. eapply on_dequeue_wp; [apply Hs|..].
  - intros ->. simpl in Hn. apply wp_bind. red; cbn [gets]. rewrite Hn.
    assert (set_ready (ready s) s = s) as <- by (by destruct s). apply Hdone, Hs.
  - intros h' t q -> Hq. simpl in Hn. injection Hn as ->. apply wp_bind. red; cbn [gets].
    by apply Hdone.
Qed.

Lemma Scheduler_new_ok : sched_ok (Scheduler_new (Ctx := Ctx)) [].
Proof.
  split; try done.
  - apply SchedQueue_new_rep. apply Nat.ltb_lt. reflexivity.
  - set_solver.
  - constructor.
  - intros i ep. unfold Scheduler_new; cbn [task_states].
    intros [Hi _]%lookup_replicate. done.
Qed.
End ops.
