(* ===== verification/SchedBridge.v ===== *)
(** * The IPC bridges of the scheduler

[ipc_send_and_yield] and [ipc_recv_and_yield] over the scheduler and the endpoint
queues together: a receive that must wait blocks the task and dispatches another
or rolls everything back; a send that delivers wakes the receiver and yields; the
receiver then collects the message. *)

From S2P Require Import Prelude.
From S2P Require Import Hal.
From S2P Require Import Chain.
From S2P Require Import Arena.
From S2P Require Import Objects.
From S2P Require Import Caps.
From S2P Require Import CapTable.
From S2P Require Import CapTableInv.
From S2P Require Import CapTableOps.
From S2P Require Import CapRevoke.
From S2P Require Import CapSpec.
From S2P Require Import Ipc.
From S2P Require Import SyscallError.
From S2P Require Import UserAccess.
From S2P Require Import IpcSpec.
From S2P Require Import IpcProps.
From S2P Require Import Sched.
From S2P Require Import SchedInv.
From S2P Require Import SchedOps.

Section bridge.
Context `{Build} {Ctx : Type} `{!Contexts Ctx} (ep_arena : EndpointArena).
Implicit Types (b : Bridge Ctx) (l : list TaskHandle).

(** [resolve_ep_cap] checks the kind but not the rights. *)
Lemma wp_resolve_ep {S A} t ep_cap right (k : EndpointHandle → M S SchedError A) (s0 : S)
    (Q : S → result SchedError A → Prop) :
  (∀ x, ep_cap_error t ep_cap right x → Q s0 (Err (SIpc x))) →
  (∀ e h, named t ep_cap = Some e → object (capability e) = OEndpoint h → wp (k h) s0 Q) →
  wp (bind (reads (λ _, resolve_ep_cap t ep_cap)) k) s0 Q.
Proof.
  intros He Hok. apply wp_bind. unfold wp, reads, resolve_ep_cap.
  rewrite lookup_eq. destruct (named t ep_cap) as [e|] eqn:Hn; cbn.
  2:{ by apply (He StaleHandle). }
  destruct (object (capability e)) as [| h | | |] eqn:Ho;
    try (apply (He WrongObjectKind); exists e; split; [done|]; intros; congruence).
  by apply (Hok e h).
Qed.

(** What a switch from [cur] to [next] activates. *)
Definition activates (s : Scheduler Ctx) (cur next : TaskHandle) (a : option AddressSpaceHandle) : Prop := ∃ x y,
  task_address_space_handles s !! task_index cur = Some x ∧ task_address_space_handles s !! task_index next = Some y ∧
  a = address_space_activation_target x y.

Definition recv_bridge_post b ep_cap l cur b' (r : result SchedError recv_phase) : Prop :=
  let s := bsched b in
  let q := queues (bipc b) in
  let q' := queues (bipc b') in
  match r with
  | Ok (RecvDone out) => bsched b' = s ∧ out ≠ Pending ∧
      ∃ h, grants (table (bipc b)) ep_cap RECV h ∧ live_ep ep_arena h ∧
        recv_step (ep_state q h) (table (bipc b)) (ep_state q' h) (table (bipc b')) out
  | Ok (RecvBlocked i j a) => ∃ h next rq,
      grants (table (bipc b)) ep_cap RECV h ∧ live_ep ep_arena h ∧
      ep_state q h = Idle ∧ q' = put h RecvWaiting q ∧ table (bipc b') = table (bipc b) ∧
      block_next s l cur = Some next ∧ qrep TASK_ARENA_CAPACITY rq (tail l) ∧
      bsched b' = blocked_state s rq cur h (Some next) ∧
      i = task_index cur ∧ j = task_index next ∧ activates s cur next a
  | Err Deadlock => bsched b' = s ∧ table (bipc b') = table (bipc b) ∧
      block_next s l cur = None ∧
      (∃ h, grants (table (bipc b)) ep_cap RECV h ∧ live_ep ep_arena h ∧ ep_state q h = Idle) ∧
      ∀ h, live_ep ep_arena h → ep_state q' h = ep_state q h
  | Err (SIpc x) => bsched b' = s ∧ table (bipc b') = table (bipc b) ∧
      (∀ h, live_ep ep_arena h → ep_state q' h = ep_state q h) ∧
      recv_error ep_arena (bipc b) x ep_cap
  | Err _ => False
  end.

(** After a registration the cancel puts every endpoint back. *)
Lemma cancel_after_register q t ep_cap h : IpcWF ep_arena q → live_ep ep_arena h →
  grants t ep_cap RECV h → ep_state q h = Idle →
  ipc_cancel_recv ep_arena t ep_cap (put h RecvWaiting q) = Some (put h Idle q, Ok tt) ∧
  ∀ h', live_ep ep_arena h' → ep_state (put h Idle q) h' = ep_state q h'.
Proof.
  intros Hq Hl Hg Hep. split.
  - pose proof (ipc_cancel_recv_wp ep_arena t (put h RecvWaiting q) ep_cap (put_WF _ _ Hl _ _ Hq)) as Hw.
    apply wp_run in Hw as (q' & r & Hr & Hp). rewrite Hr. destruct r as [[]|x].
    + destruct Hp as (h' & Hg' & _ & ->). rewrite (grants_fun _ _ _ h' h Hg' Hg).
      by rewrite (ep_state_put ep_arena h Hl q _ Hq), put_put.
    + exfalso. destruct Hp as [_ [He|(_ & h' & Hg' & Hn)]]; [by eapply grants_no_error in He|].
      apply Hn. by rewrite (grants_fun _ _ _ h' h Hg' Hg).
  - intros h' Hl'. destruct (decide (ep_index h' = ep_index h)) as [Hi|Hi].
    + rewrite (live_ep_inj ep_arena h h' Hl Hl' Hi), Hep. by apply (ep_state_put ep_arena).
    + by apply ep_state_put_ne.
Qed.

Section recv.
Context (b : Bridge Ctx) (l : list TaskHandle) (cur : TaskHandle) (ep_cap : CapHandle).
Context (Hs : sched_ok (bsched b) l) (Hcur : current (bsched b) = Some cur).
Context (Hq : IpcWF ep_arena (queues (bipc b))) (Ht : WF (table (bipc b))).

(** The second phase, from the state the registration left. *)
Lemma recv_block_wp h :
  grants (table (bipc b)) ep_cap RECV h → live_ep ep_arena h →
  ep_state (queues (bipc b)) h = Idle →
  wp (let* dispatch := on_sched (block_and_dispatch h) in
      match dispatch with
      | None =>
          let* t := gets (λ b, table (bipc b)) in
          let* cancel_result :=
            attempt (on_ipc (on_queues (ipc_cancel_recv ep_arena t ep_cap))) in
          debug_assert (match cancel_result with Ok _ => true | Err _ => false end) ;;
          throw Deadlock
      | Some (current_idx, next_idx, next_as) =>
          let* _ := on_sched (switch_to current_idx next_idx next_as) in
          ret (RecvBlocked current_idx next_idx next_as)
      end)
     {| bsched := bsched b;
        bipc := {| queues := put h RecvWaiting (queues (bipc b)); table := table (bipc b) |} |}
     (recv_bridge_post b ep_cap l cur).
Proof.
  intros Hg Hl Hep. apply wp_bind, wp_zoom. cbn [bsched].
  eapply wp_mono; [by apply block_and_dispatch_wp|]. intros s' r.
  destruct (block_next (bsched b) l cur) as [next|] eqn:Hn.
  - intros (q & a & c & Hrq & Hne & [Hr Hst] & -> & Ha & Hc & ->). cbn beta iota.
    apply wp_bind, wp_zoom. cbn [bsched].
    destruct (so_current _ _ Hs cur Hcur) as [Hrc _].
    assert (Hlt : ∀ x, registered (bsched b) x → is_Some (contexts (bsched b) !! task_index x)).
    { intros x Hx. apply lookup_lt_is_Some_2. rewrite (so_contexts _ _ Hs). by eapply registered_lt. }
    destruct (Hlt cur Hrc) as [c1 Hc1]. destruct (Hlt next Hr) as [c2 Hc2].
    apply wp_bind, wp_debug_assert.
    { rewrite bool_decide_false; [done|]. intros Hi. apply Hne. symmetry.
      by apply (registered_inj (bsched b)). }
    apply wp_bind, wp_idx with c1; [done|]. apply wp_bind, wp_idx with c2; [done|].
    red; cbn [ret]. red. exists h, next, q. cbn. split_and!; try done. by exists a, c.
  - intros (-> & ->). apply wp_bind. red; cbn [gets].
    apply wp_bind, wp_attempt, wp_zoom, wp_zoom. cbn [bipc queues table].
    destruct (cancel_after_register _ _ ep_cap h Hq Hl Hg Hep) as [Hcan Hsame].
    red. rewrite Hcan. cbn [queues table bsched bipc].
    apply wp_bind, wp_debug_assert; [done|]. red; cbn [throw]. red. cbn [bsched bipc queues table].
    split; [done|]. split; [done|]. split; [done|]. split; [by exists h|]. done.
Qed.

Lemma ipc_recv_and_yield_wp :
  wp (ipc_recv_and_yield ep_arena ep_cap) b (recv_bridge_post b ep_cap l cur).
Proof.
  unfold ipc_recv_and_yield. apply wp_bind. red; cbn [gets]. rewrite Hcur.
  rewrite bool_decide_false by done.
  apply (wp_resolve_ep (table (bipc b)) ep_cap RECV).
  { intros x Hx. red. split; [done|]. split; [done|]. split; [done|]. by left. }
  intros e h Hn Ho. apply wp_bind, wp_map_err, wp_zoom.
  eapply wp_mono; [by apply ipc_recv_wp|]. intros [q' t'] [out|x].
  - intros (h' & new & Hg & Hl & Hstep & Hput). cbn [queues table] in *. cbn [res_map_err].
    assert (h' = h) as -> by (destruct Hg as (e' & He' & Ho' & _); congruence).
    destruct out as [msg got|].
    + red; cbn [ret]. red. cbn [bsched bipc queues table]. split; [done|]. split; [done|].
      exists h. split; [done|]. split; [done|]. rewrite Hput.
      by rewrite (ep_state_put ep_arena h Hl).
    + assert (Hidle : ep_state (queues (bipc b)) h = Idle ∧ new = RecvWaiting ∧ t' = table (bipc b)).
      { destruct (ep_state (queues (bipc b)) h); cbn in Hstep; [naive_solver|..];
          [destruct Hstep as (_ & ? & ? & _)|done|destruct Hstep as (_ & ? & ? & _)]; done. }
      destruct Hidle as (Hep & -> & ->). rewrite Hput. by apply recv_block_wp.
  - intros [Hu He]. cbn [res_map_err]. red. cbn [bsched bipc].
    split; [done|]. split; [apply Hu|]. split; [|done].
    by eapply (unchanged_states ep_arena _ _ (bipc b)).
Qed.
End recv.

(** ** Sending *)

Definition send_bridge_post b ep_cap msg transfer l cur b' (r : result SchedError (SendOutcome * dispatch)) : Prop :=
  let s := bsched b in
  match r with
  | Ok (out, d) => ∃ h owned new s1 l1,
      grants (table (bipc b)) ep_cap SEND h ∧ live_ep ep_arena h ∧
      taken (table (bipc b)) transfer owned (table (bipc b')) ∧
      send_step (ep_state (queues (bipc b)) h) msg owned new out ∧
      queues (bipc b') = put h new (queues (bipc b)) ∧
      sched_ok s1 l1 ∧ current s1 = current s ∧ idle s1 = idle s ∧ 
      match out with
      | Enqueued => d = Stay ∧ s1 = s ∧ l1 = l ∧ bsched b' = s
      | Delivered =>
          (((∀ i, ¬ blocked_on s h i) ∧ s1 = s ∧ l1 = l) ∨
           ∃ i th, first_blocked s h 0 i ∧ task_handles s !! i = Some (Some th) ∧
             task_index th = i ∧ l1 = l ++ [th] ∧ woken s l s1 i) ∧
          ∃ q, qrep TASK_ARENA_CAPACITY q (yield_next s1 l1 cur).1 ∧
            match (yield_next s1 l1 cur).2 with
            | None => d = Stay ∧ bsched b' = set_ready q s1
            | Some n => bsched b' = set_current (Some n) (set_ready q s1) ∧
                ∃ a, d = Switch (task_index cur) (task_index n) a ∧ activates s1 cur n a
            end
      end
  | Err (SIpc x) => bsched b' = s ∧ table (bipc b') = table (bipc b) ∧
      (∀ h, live_ep ep_arena h → ep_state (queues (bipc b')) h = ep_state (queues (bipc b)) h) ∧
      send_error ep_arena (bipc b) ep_cap transfer x
  | Err _ => False
  end.

Section send.
Context (b : Bridge Ctx) (l : list TaskHandle) (cur : TaskHandle) (ep_cap : CapHandle).
Context (msg : Message) (transfer : option CapHandle).
Context (Hs : sched_ok (bsched b) l) (Hcur : current (bsched b) = Some cur).
Context (Hq : IpcWF ep_arena (queues (bipc b))) (Ht : WF (table (bipc b))).

(** What the wake-up leaves. *)
Lemma wake_wp h :
  wp (unblock_receiver_on (E := SchedError) h) (bsched b) (λ s1 r, r = Ok tt ∧ ∃ l1,
    sched_ok s1 l1 ∧ current s1 = current (bsched b) ∧ idle s1 = idle (bsched b) ∧
    (((∀ i, ¬ blocked_on (bsched b) h i) ∧ s1 = bsched b ∧ l1 = l) ∨
     ∃ i th, first_blocked (bsched b) h 0 i ∧ task_handles (bsched b) !! i = Some (Some th) ∧
       task_index th = i ∧ l1 = l ++ [th] ∧ woken (bsched b) l s1 i)).
Proof.
  eapply wp_mono; [by apply (unblock_loop_wp TASK_ARENA_CAPACITY 0)|].
  intros s1 r (-> & [(-> & Hno)|(i & Hf & Hw)]); (split; [done|]).
  - exists l. split_and!; [done..|]. left. split; [|done]. intros i. apply Hno. lia.
  - destruct (woken_ok _ _ _ _ _ Hs (proj1 (proj2 Hf)) Hw) as (th & Hth & Hok & Hc & Hi & _).
    exists (l ++ [th]). split_and!; [done..|]. right. exists i, th.
    destruct (Hw) as (th' & q & Hth' & Hti & _ & _). assert (th' = th) as -> by congruence.
    done.
Qed.

Lemma ipc_send_and_yield_wp :
  wp (ipc_send_and_yield ep_arena ep_cap msg transfer) b (send_bridge_post b ep_cap msg transfer l cur).
Proof.
  unfold ipc_send_and_yield. apply (wp_resolve_ep (table (bipc b)) ep_cap SEND).
  { intros x Hx. red. split; [done|]. split; [done|]. split; [done|]. by left. }
  intros e h Hn Ho. apply wp_bind, wp_map_err, wp_zoom.
  eapply wp_mono; [by apply ipc_send_wp|]. intros [q' t'] [out|x].
  2:{ intros [Hu He]. cbn [res_map_err]. red. cbn [bsched bipc].
      split; [done|]. split; [apply Hu|]. split; [|done].
      by eapply (unchanged_states ep_arena _ _ (bipc b)). }
  intros (h' & owned & new & Hg & Hl & Htk & Hstep & Hput). cbn [queues table] in *. cbn [res_map_err].
  assert (h' = h) as -> by (destruct Hg as (e' & He' & Ho' & _); congruence).
  destruct out.
  - apply wp_bind, wp_zoom. cbn [bsched]. eapply wp_mono; [apply wake_wp|].
    intros s1 r (-> & l1 & Hok & Hc & Hi & Hcase). cbn beta iota.
    apply wp_bind, wp_zoom. cbn [bsched]. eapply wp_mono; [apply (yield_now_wp s1 l1 cur); [done|congruence]|].
    intros s2 r2 (q & l2 & next & Hy & Hrq & Hr). cbn [bipc].
    pose proof (f_equal fst Hy) as Hl2; pose proof (f_equal snd Hy) as Hn2; cbn [fst snd] in Hl2, Hn2.
    destruct next as [n|].
    + destruct Hr as (-> & a & c & Ha & Hc2 & ->). red; cbn [ret]. red.
      exists h, owned, new, s1, l1. cbn [bsched bipc queues table]. split_and!; try done.
      exists q. rewrite <- Hl2, <- Hn2. split; [done|]. split; [done|]. eexists. split; [done|]. by exists a, c.
    + destruct Hr as (-> & ->). red; cbn [ret]. red.
      exists h, owned, new, s1, l1. cbn [bsched bipc queues table]. split_and!; try done.
      exists q. rewrite <- Hl2, <- Hn2. done.
  - red; cbn [ret]. red. exists h, owned, new, (bsched b), l. cbn [bsched bipc queues table].
    split_and!; done.
Qed.
End send.
End bridge.
