(* ===== verification/SchedRun.v ===== *)
(** * The scheduler over whole runs

The scheduler's operations as one step relation, from the empty scheduler on: the
board registers tasks and the idle task and starts the scheduler; tasks yield,
block on an endpoint, exit, and wake receivers.  The world also records the
address space the hardware has active and the tasks that have exited. *)

From S2P Require Import Prelude.
From S2P Require Import Hal.
From S2P Require Import Arena.
From S2P Require Import Objects.
From S2P Require Import Caps.
From S2P Require Import CapTable.
From S2P Require Import Ipc.
From S2P Require Import SyscallError.
From S2P Require Import UserAccess.
From S2P Require Import Sched.
From S2P Require Import SchedInv.
From S2P Require Import SchedOps.

Inductive sched_op :=
| OAdd (h : TaskHandle) (a : AddressSpaceHandle) (entry sp : Z)
| OAddUser (h : TaskHandle) (a : AddressSpaceHandle) (entry usp ksp t : Z)
| OIdle (h : TaskHandle) (a : AddressSpaceHandle) (entry sp : Z)
| OStart
| OExit
| OYield
| OBlock (ep : EndpointHandle)
| OWake (ep : EndpointHandle).

Record world (Ctx : Type) := {
  wsched : Scheduler Ctx;
  wactive : option AddressSpaceHandle;
  wexited : list TaskHandle;
}.
Arguments wsched {Ctx} _.
Arguments wactive {Ctx} _.
Arguments wexited {Ctx} _.

Section run.
Context `{Build} {Ctx : Type} `{!Contexts Ctx}.
Implicit Types (s : Scheduler Ctx) (l : list TaskHandle) (h : TaskHandle) (w : world Ctx).

(** The address space a dispatch activates. *)
Definition activated (d : dispatch) : option AddressSpaceHandle :=
  match d with Stay => None | Switch _ _ a => a end.

(** Each operation, with the address space it activates. *)
Definition op_run (op : sched_op) : M (Scheduler Ctx) SchedError (option AddressSpaceHandle) :=
  match op with
  | OAdd h a entry sp => add_task h a entry sp ;; ret None
  | OAddUser h a entry usp ksp t => add_user_task h a entry usp ksp t ;; ret None
  | OIdle h a entry sp => register_idle h a entry sp ;; ret None
  | OStart => let* r := start in ret r.1
  | OExit => let* r := task_exit_current in ret r.1
  | OYield => let* d := yield_now in ret (activated d)
  | OBlock ep =>
      let* d := block_and_dispatch ep in
      match d with
      | None => ret None
      | Some (i, j, a) => let* d := switch_to i j a in ret (activated d)
      end
  | OWake ep => unblock_receiver_on ep ;; ret None
  end.

(** What the callers guarantee: a slot is given to one task; [start] is called once,
    with something to run; the idle task neither blocks nor exits. *)
Definition op_pre (op : sched_op) s : Prop :=
  match op with
  | OAdd h _ _ _ => fresh_slot s h
  | OAddUser h _ _ usp ksp t =>
      fresh_slot s h ∧ ksp ≠ 0%Z ∧ (ksp `mod` 16 = 0)%Z ∧ (usp `mod` 16 = 0)%Z ∧ t ≠ 0%Z
  | OIdle h _ _ _ => fresh_slot s h ∧ idle s = None
  | OStart => current s = None ∧ (qlen (ready s) ≠ 0 ∨ is_Some (idle s))
  | OExit => (∃ c, current s = Some c ∧ idle s ≠ Some c) ∧ (qlen (ready s) ≠ 0 ∨ is_Some (idle s))
  | OYield => is_Some (current s)
  | OBlock _ => ∃ c, current s = Some c ∧ idle s ≠ Some c
  | OWake _ => True
  end.

(** The exited tasks after the operation. *)
Definition op_exited (op : sched_op) s (X : list TaskHandle) : list TaskHandle :=
  match op, current s with
  | OExit, Some c => c :: X
  | _, _ => X
  end.

Definition world_step (op : sched_op) w : option (world Ctx) :=
  match op_run op (wsched w) with
  | Some (s', Ok a) =>
      Some {| wsched := s'; wactive := match a with Some x => Some x | None => wactive w end;
              wexited := op_exited op (wsched w) (wexited w) |}
  | _ => None
  end.

Definition world_init : world Ctx :=
  {| wsched := Scheduler_new; wactive := None; wexited := [] |}.

Inductive reachable : world Ctx → Prop :=
| reach_init : reachable world_init
| reach_step op w w' : reachable w → op_pre op (wsched w) → world_step op w = Some w' → reachable w'.

(** Every registered task has an address space. *)
Definition as_ok s : Prop := ∀ i h, task_handles s !! i = Some (Some h) →
  ∃ a, task_address_space_handles s !! i = Some (Some a).

(** The running task's address space is the active one. *)
Definition active_ok s (act : option AddressSpaceHandle) : Prop :=
  ∀ h, current s = Some h → task_address_space_handles s !! task_index h = Some act.

(** Every runnable task runs, is the idle task, waits its turn, or has exited. *)
Definition accounted s l (X : list TaskHandle) : Prop :=
  ∀ h, runnable s h → current s = Some h ∨ idle s = Some h ∨ h ∈ l ∨ h ∈ X.

(** An exited task is never scheduled again. *)
Definition exited_ok s l (X : list TaskHandle) : Prop :=
  ∀ h, h ∈ X → runnable s h ∧ current s ≠ Some h ∧ idle s ≠ Some h ∧ h ∉ l.

Record world_ok w l : Prop := {
  wo_sched : sched_ok (wsched w) l;
  wo_as : as_ok (wsched w);
  wo_active : active_ok (wsched w) (wactive w);
  wo_accounted : accounted (wsched w) l (wexited w);
  wo_exited : exited_ok (wsched w) l (wexited w);
}.

(** A step from the success of the operation. *)
Lemma world_step_wp op w (Q : world Ctx → Prop) :
  wp (op_run op) (wsched w) (λ s' r, ∃ a, r = Ok a ∧
    Q {| wsched := s'; wactive := match a with Some x => Some x | None => wactive w end;
         wexited := op_exited op (wsched w) (wexited w) |}) →
  ∃ w', world_step op w = Some w' ∧ Q w'.
Proof. intros (s' & r & E & a & -> & HQ)%wp_run. unfold world_step. rewrite E. eauto. Qed.

(** ** Registration *)

Lemma registered_cases s s' h x :
  task_handles s' = <[task_index h := Some h]> (task_handles s) →
  task_states s' = <[task_index h := Ready]> (task_states s) →
  runnable s' x → x = h ∨ runnable s x.
Proof.
  intros E1 E2 [Hr Hst]. unfold registered in Hr. rewrite E1 in Hr. rewrite E2 in Hst.
  destruct (decide (task_index x = task_index h)) as [Hi|Hi].
  - left. rewrite Hi in Hr. apply list_lookup_insert_Some in Hr as [(_ & Hx & _)|(? & _)]; [|done].
    by injection Hx.
  - right. rewrite list_lookup_insert_ne in Hr by done. rewrite list_lookup_insert_ne in Hst by done. done.
Qed.

Lemma register_world w l s' l' h a :
  let s := wsched w in
  world_ok w l → fresh_slot s h → sched_ok s' l' →
  task_handles s' = <[task_index h := Some h]> (task_handles s) →
  task_address_space_handles s' = <[task_index h := Some a]> (task_address_space_handles s) →
  task_states s' = <[task_index h := Ready]> (task_states s) →
  current s' = current s →
  (idle s' = idle s ∧ l' = l ++ [h] ∨ idle s' = Some h ∧ idle s = None ∧ l' = l) →
  world_ok {| wsched := s'; wactive := wactive w; wexited := wexited w |} l'.
Proof.
  cbv zeta. intros [Hs Has Hact Hacc Hex] Hf Hs' E1 E2 E3 E4 Hl.
  assert (Hne : ∀ x, runnable (wsched w) x → x ≠ h ∧ runnable s' x).
  { intros x [Hr Hst]. pose proof (fresh_not_registered _ _ _ Hf Hr) as Hi.
    split; [by intros ->|]. split; [unfold registered; rewrite E1|rewrite E3];
      by rewrite list_lookup_insert_ne. }
  split; cbn [wsched wactive wexited]; [done|..].
  - intros i x Hx. rewrite E2. rewrite E1 in Hx. destruct (decide (i = task_index h)) as [->|Hi].
    + exists a. apply list_lookup_insert_eq. rewrite (so_as _ _ Hs). exact (fresh_lt _ _ _ Hs Hf).
    + rewrite list_lookup_insert_ne in Hx by done. rewrite list_lookup_insert_ne by done. by apply (Has i x).
  - intros x Hx. rewrite E4 in Hx. rewrite E2, list_lookup_insert_ne; [by apply Hact|].
    intros Hi. apply (so_current _ _ Hs) in Hx as [Hr _]. exact (fresh_not_registered _ _ _ Hf Hr (eq_sym Hi)).
  - intros x Hx. destruct (registered_cases (wsched w) s' h x E1 E3 Hx) as [->|Hx'].
    + destruct Hl as [(_ & ->)|(? & _)]; [right; right; left; set_solver|auto].
    + apply Hacc in Hx'. rewrite E4. destruct Hl as [(-> & ->)|(-> & Hi & ->)]; [set_solver|].
      destruct Hx' as [?|[Hx'|?]]; [auto|congruence|auto].
  - intros x Hx. apply Hex in Hx as (H1 & H2 & H3 & H4). apply Hne in H1 as (? & ?).
    split; [done|]. split; [by rewrite E4|].
    destruct Hl as [(-> & ->)|(-> & Hi & ->)]; (split; [congruence|]); [|done].
    intros [?|?%list_elem_of_singleton]%elem_of_app; done.
Qed.

(** ** Dispatch *)

(** The running task becomes [h]; the tasks leave the list only to run or to exit. *)
Lemma dispatch_world w l q l' h act' X' :
  let s := wsched w in
  world_ok w l → sched_ok (set_current (Some h) (set_ready q s)) l' →
  task_address_space_handles s !! task_index h = Some act' →
  (∀ x, current s = Some x ∨ x ∈ l → x = h ∨ idle s = Some x ∨ x ∈ l' ∨ x ∈ X') →
  (∀ x, x ∈ wexited w → x ∈ X') →
  (∀ x, x ∈ X' → runnable s x ∧ x ≠ h ∧ idle s ≠ Some x ∧ x ∉ l') →
  world_ok {| wsched := set_current (Some h) (set_ready q s); wactive := act'; wexited := X' |} l'.
Proof.
  cbv zeta. intros [Hs Has Hact Hacc Hex] Hs' Ha Hall HX Hex'.
  split; cbn [wsched wactive wexited]; [done|done|..].
  - intros x [= <-]. exact Ha.
  - intros x Hx. change (runnable (wsched w) x) in Hx.
    change (Some h = Some x ∨ idle (wsched w) = Some x ∨ x ∈ l' ∨ x ∈ X').
    destruct (Hacc x Hx) as [Hc|[Hi|[Hl|HxX]]]; [| |..].
    + destruct (Hall x (or_introl Hc)) as [->|?]; auto.
    + auto.
    + destruct (Hall x (or_intror Hl)) as [->|?]; auto.
    + auto.
  - intros x Hx. apply Hex' in Hx as (H1 & H2 & H3 & H4).
    split; [exact H1|]. split; [intros [= ->]; done|]. done.
Qed.

(** What a switch activates is the next task's address space, or it is already active. *)
Lemma activation_ok w l cur h a b : world_ok w l → current (wsched w) = Some cur →
  runnable (wsched w) h →
  task_address_space_handles (wsched w) !! task_index cur = Some a →
  task_address_space_handles (wsched w) !! task_index h = Some b →
  match address_space_activation_target a b with Some x => Some x | None => wactive w end = b.
Proof.
  intros Hw Hcur [Hrh _] Ha Hb. pose proof (wo_active _ _ Hw cur Hcur) as Hact.
  rewrite Ha in Hact. injection Hact as ->.
  destruct (wo_as _ _ Hw _ _ Hrh) as [b' Hb']. rewrite Hb' in Hb. injection Hb as <-.
  destruct (so_current _ _ (wo_sched _ _ Hw) cur Hcur) as [Hrc _].
  destruct (wo_as _ _ Hw _ _ Hrc) as [a' Ha']. rewrite Ha' in Ha. injection Ha as <-.
  cbn. case_bool_decide; cbn; congruence.
Qed.

Lemma exited_not w l x : world_ok w l → x ∈ wexited w →
  runnable (wsched w) x ∧ current (wsched w) ≠ Some x ∧ idle (wsched w) ≠ Some x ∧ x ∉ l.
Proof. intros Hw. apply Hw. Qed.

Lemma yield_world w l cur : world_ok w l → current (wsched w) = Some cur →
  ∃ w', world_step OYield w = Some w' ∧ wexited w' = wexited w ∧
    idle (wsched w') = idle (wsched w) ∧
    world_ok w' (yield_next (wsched w) l cur).1 ∧
    current (wsched w') = match l with [] => Some cur | h :: _ => Some h end.
Proof.
  intros Hw Hcur. pose proof (wo_sched _ _ Hw) as Hs.
  apply world_step_wp. cbn [op_run]. apply wp_bind. eapply wp_mono; [by apply yield_now_wp|].
  intros s' r (q & l' & next & Hy & Hq & Hr).
  pose proof (yield_next_ok _ _ _ _ _ _ Hs Hcur Hy Hq) as Hok.
  unfold op_exited. destruct l as [|h t]; cbn [yield_next] in Hy; injection Hy as -> ->; cbn [fst yield_next].
  - destruct Hr as (-> & ->). red; cbn [ret]. exists None. split; [done|].
    cbn [wsched wactive wexited]. split_and!; [done|done| |done].
    destruct Hw as [_ Has Hact Hacc Hex]. split; [done|done|done|done|done].
  - destruct Hr as (-> & a & b & Ha & Hb & ->). red; cbn [ret activated]. eexists. split; [done|].
    cbn [wsched wactive wexited]. split_and!; [done|done| |done].
    assert (Hb' : task_address_space_handles (wsched w) !! task_index h =
      Some (match address_space_activation_target a b with Some x => Some x | None => wactive w end)).
    { rewrite Hb. f_equal. symmetry. eapply activation_ok; [done..|apply Hs, elem_of_cons; by left|done|done]. }
    eapply dispatch_world; [done|done|exact Hb'|..].
    + intros x [Hx|[->|Hx]%elem_of_cons]; [|by left|].
      * assert (x = cur) as -> by congruence. case_decide; [auto|]. right; right; left. set_solver.
      * right; right; left. case_decide; [done|]. set_solver.
    + done.
    + intros x (H1 & H2 & H3 & H4)%(exited_not w (h :: t)); [|done].
      split_and!; [done|set_solver|done|]. case_decide; [set_solver|].
      intros [?|?%list_elem_of_singleton]%elem_of_app; [set_solver|congruence].
Qed.

(** ** Blocking and waking *)

Lemma block_next_props s l cur h : sched_ok s l → current s = Some cur →
  block_next s l cur = Some h →
  runnable s h ∧ (∀ x, x ∈ l → x = h ∨ x ∈ tail l) ∧ (h ∈ l ∨ idle s = Some h).
Proof.
  intros Hs Hcur Hn. unfold block_next in Hn. destruct l as [|h' t].
  - destruct (idle s) as [i|] eqn:Hi; [|done]. case_decide; [done|]. injection Hn as ->.
    split; [by apply (so_idle _ _ Hs)|]. split; [set_solver|auto].
  - injection Hn as ->. split; [apply (so_ready _ _ Hs); by left|]. split; [set_solver|set_solver].
Qed.

Lemma tail_in {X} (l : list X) x : x ∈ tail l → x ∈ l.
Proof. destruct l; [done|]. by right. Qed.

Lemma blocked_runnable s l q cur ep h x : sched_ok s l → registered s cur →
  runnable (blocked_state s q cur ep (Some h)) x ↔ runnable s x ∧ x ≠ cur.
Proof.
  intros Hs Hreg. unfold runnable, registered; simpl. split.
  - intros [Hr Hst]. destruct (decide (task_index x = task_index cur)) as [Hi|Hi].
    + rewrite Hi, list_lookup_insert_eq in Hst; [done|].
      rewrite (so_states _ _ Hs). by eapply registered_lt.
    + rewrite list_lookup_insert_ne in Hst by done. split; [done|]. by intros ->.
  - intros [[Hr Hst] Hne]. split; [done|]. rewrite list_lookup_insert_ne; [done|].
    intros Hi. apply Hne. symmetry. by apply (registered_inj s).
Qed.

Lemma block_world w l cur ep : world_ok w l → current (wsched w) = Some cur →
  idle (wsched w) ≠ Some cur →
  ∃ w', world_step (OBlock ep) w = Some w' ∧
    world_ok w' (match block_next (wsched w) l cur with None => l | Some _ => tail l end).
Proof.
  intros Hw Hcur Hid. pose proof (wo_sched _ _ Hw) as Hs.
  pose proof (so_current _ _ Hs cur Hcur) as [Hreg Hst].
  apply world_step_wp. cbn [op_run op_exited]. apply wp_bind.
  eapply wp_mono; [by apply block_and_dispatch_wp|]. intros s' r.
  destruct (block_next (wsched w) l cur) as [h|] eqn:Hn.
  - intros (q & a & b & Hq & Hne & Hrh & -> & Ha & Hb & ->).
    pose proof (blocked_state_ok _ _ q cur ep h Hs Hcur Hid Hn Hq) as Hok.
    apply wp_bind. eapply switch_to_wp; [exact Hok|..].
    + intros Hi. apply Hne. symmetry. by apply (registered_inj (wsched w)); [done|apply Hrh|].
    + by eapply registered_lt.
    + eapply registered_lt; [done|apply Hrh].
    + red; cbn [ret activated]. eexists. split; [done|].
      destruct (block_next_props _ _ _ _ Hs Hcur Hn) as (_ & Hl & Hin).
      split; cbn [wsched wactive wexited]; [done|apply Hw|..].
      * intros x [= <-]. simpl. rewrite Hb. f_equal. symmetry. by eapply activation_ok.
      * intros x [Hx Hxc]%(blocked_runnable _ l); [|done..]. simpl.
        destruct (wo_accounted _ _ Hw x Hx) as [Hc|[Hi|[Hxl|HX]]]; [congruence|auto| |auto].
        destruct (Hl x Hxl) as [->|?]; auto.
      * intros x (H1 & H2 & H3 & H4)%(exited_not w l); [|done]. simpl. split_and!.
        -- apply (blocked_runnable _ l); [done..|]. split; [done|congruence].
        -- intros [= <-]. by destruct Hin.
        -- done.
        -- intros Hx. by apply H4, tail_in.
  - intros (-> & ->). red; cbn [ret]. exists None. split; [done|]. destruct Hw. by split.
Qed.

Lemma wake_world w l ep : world_ok w l →
  ∃ w' l', world_step (OWake ep) w = Some w' ∧ world_ok w' l'.
Proof.
  intros Hw. pose proof (wo_sched _ _ Hw) as Hs.
  assert (∃ w', world_step (OWake ep) w = Some w' ∧ ∃ l', world_ok w' l') as (w' & E & l' & Hok);
    [|by exists w', l'].
  apply world_step_wp. cbn [op_run op_exited]. apply wp_bind.
  eapply wp_mono; [by apply (unblock_loop_wp TASK_ARENA_CAPACITY 0)|].
  intros s' r (-> & [(-> & _)|(i & (_ & Hb & _) & Hwk)]); red; cbn [ret];
    exists None; (split; [done|]).
  - exists l. destruct Hw. by split.
  - destruct (woken_ok _ _ _ _ _ Hs Hb Hwk) as (h & Hh & Hok & Hc & Hi & Hst & Hsti & Hth).
    assert (Has : task_address_space_handles s' = task_address_space_handles (wsched w)).
    { by destruct Hwk as (? & q & _ & _ & _ & ->). }
    assert (Hrun : ∀ x, runnable s' x → x = h ∨ runnable (wsched w) x).
    { intros x [Hr Hx]. unfold registered in Hr. rewrite Hth in Hr.
      destruct (decide (task_index x = i)) as [Hxi|Hxi]; [left; congruence|].
      right. split; [done|]. by rewrite <- Hst. }
    assert (Hrun' : ∀ x, runnable (wsched w) x → x ≠ h ∧ runnable s' x).
    { intros x [Hr Hx]. destruct (decide (task_index x = i)) as [Hxi|Hxi].
      { unfold blocked_on in Hb. congruence. }
      split; [|split; [unfold registered; by rewrite Hth|by rewrite Hst]].
      intros ->. apply Hxi. destruct Hwk as (h' & q & Hh' & Hi' & _). congruence. }
    exists (l ++ [h]). split; cbn [wsched wactive wexited]; [done|..].
    + intros j x. rewrite Hth, Has. apply Hw.
    + intros x. rewrite Hc, Has. apply Hw.
    + intros x [->|Hx]%Hrun; [right; right; left; set_solver|].
      apply (wo_accounted _ _ Hw) in Hx. rewrite Hc, Hi. set_solver.
    + intros x (H1 & H2 & H3 & H4)%(exited_not w l); [|done]. apply Hrun' in H1 as [Hne H1].
      rewrite Hc, Hi. split_and!; [done..|]. intros [?|?%list_elem_of_singleton]%elem_of_app; done.
Qed.

(** [start] and [task_exit_current] dispatch the head of the list, else the idle task. *)
Lemma start_wp {E} w l h : world_ok w l → boot_next (wsched w) l = Some h →
  wp (start (E := E)) (wsched w) (λ s' r, ∃ q a,
    r = Ok (Some a, task_index h) ∧
    task_address_space_handles (wsched w) !! task_index h = Some (Some a) ∧
    s' = set_current (Some h) (set_ready q (wsched w)) ∧ sched_ok s' (tail l)).
Proof.
  intros Hw Hn. pose proof (wo_sched _ _ Hw) as Hs. unfold start. apply wp_bind.
  eapply wp_mono; [by apply start_prelude_wp|]. intros s' r (-> & q & -> & Hok).
  assert (Hrh : runnable (wsched w) h) by (by apply (so_current _ _ Hok)).
  destruct (wo_as _ _ Hw _ _ (proj1 Hrh)) as [a Ha].
  destruct (lookup_lt_is_Some_2 (contexts (wsched w)) (task_index h)) as [c Hc].
  { rewrite (so_contexts _ _ Hs). eapply registered_lt; [done|apply Hrh]. }
  unfold run_dispatched. apply wp_bind, wp_idx with (Some a); [done|].
  apply wp_bind, wp_idx with c; [done|]. red; cbn [ret]. by exists q, a.
Qed.

Lemma boot_next_some s l : sched_ok s l → qlen (ready s) ≠ 0 ∨ is_Some (idle s) →
  ∃ h, boot_next s l = Some h.
Proof.
  intros Hs Hn. destruct l as [|h t]; [|by exists h]. simpl.
  destruct Hn as [Hn|[i Hi]]; [|by exists i]. by rewrite (qr_len _ _ _ (so_queue _ _ Hs)) in Hn.
Qed.

Lemma boot_next_in s l h : boot_next s l = Some h →
  (∀ x, x ∈ l → x = h ∨ x ∈ tail l) ∧ (h ∈ l ∨ idle s = Some h).
Proof. destruct l; simpl; [set_solver|]. intros [= ->]. set_solver. Qed.

Lemma boot_world op w l : world_ok w l → op = OStart ∨ op = OExit → op_pre op (wsched w) →
  ∃ w' l', world_step op w = Some w' ∧ world_ok w' l'.
Proof.
  intros Hw Hop Hpre. pose proof (wo_sched _ _ Hw) as Hs.
  assert (Hn : qlen (ready (wsched w)) ≠ 0 ∨ is_Some (idle (wsched w))).
  { by destruct Hop as [-> | ->]; destruct Hpre. }
  destruct (boot_next_some _ _ Hs Hn) as [h Hh].
  assert (∃ w', world_step op w = Some w' ∧ world_ok w' (tail l)) as (w' & ? & ?); [|eauto].
  assert (op_run op = let* r := start in ret r.1) as Hrun by (by destruct Hop as [-> | ->]).
  apply world_step_wp. rewrite Hrun. apply wp_bind.
  eapply wp_mono; [by apply start_wp|]. intros s' r (q & a & -> & Ha & -> & Hok).
  red; cbn [ret fst]. eexists. split; [done|]. cbn.
  destruct (boot_next_in _ _ _ Hh) as [Hl Hin].
  apply dispatch_world with l; [done|done|done|..].
  - intros x [Hx|Hx]; [|destruct (Hl x Hx); auto].
    right; right; right. destruct Hop as [-> | ->]; [destruct Hpre; congruence|].
    unfold op_exited. rewrite Hx. by left.
  - intros x Hx. unfold op_exited. destruct op; try done. destruct (current _); [by right|done].
  - intros x Hx.
    assert (Hcase : x ∈ wexited w ∨ (current (wsched w) = Some x ∧ idle (wsched w) ≠ Some x)).
    { unfold op_exited in Hx. destruct Hop as [-> | ->]; [by left|].
      destruct Hpre as [(c & Hc & Hci) _]. rewrite Hc in Hx.
      apply elem_of_cons in Hx as [->|?]; [by right|by left]. }
    destruct Hcase as [(H1 & H2 & H3 & H4)%(exited_not w l)|[Hc Hi]]; [|done|].
    + split_and!; [done| |done|by intros ?%tail_in]. intros ->. by destruct Hin.
    + assert (x ∉ l) by (intros Hxl; by apply (so_ready _ _ Hs) in Hxl as (_ & ? & _)).
      split_and!; [by apply (so_current _ _ Hs)| |done|by intros ?%tail_in].
      intros ->. by destruct Hin.
Qed.
End run.
