(* ===== verification/SchedProps.v ===== *)
(** * Properties of the scheduler

The ready ring is a bounded FIFO, every run of the scheduler is safe and loses no
runnable task, yields are round robin. *)

From S2P Require Import Prelude.
From S2P Require Import Hal.
From S2P Require Import Arena.
From S2P Require Import Objects.
From S2P Require Import Caps.
From S2P Require Import CapTable.
From S2P Require Import Ipc.
From S2P Require Import SyscallError.
From S2P Require Import UserAccess.
From S2P Require Import Sched.
From S2P Require Import SchedInv.
From S2P Require Import SchedOps.
From S2P Require Import SchedRun.

(** ** The ready ring *)

Inductive queue_op := QEnqueue (h : TaskHandle) | QDequeue.

(** What a queue operation answers. *)
Inductive queue_answer :=
| Queued
| Refused (h : TaskHandle)
| Popped (h : option TaskHandle).

Definition queue_step (o : queue_op) (q : SchedQueue) : option (SchedQueue * queue_answer) :=
  match o with
  | QEnqueue h =>
      match enqueue h q with
      | Some (q', Ok _) => Some (q', Queued)
      | Some (q', Err h) => Some (q', Refused h)
      | None => None
      end
  | QDequeue =>
      match dequeue (E := unit) q with
      | Some (q', Ok h) => Some (q', Popped h)
      | _ => None
      end
  end.

Fixpoint queue_run (os : list queue_op) (q : SchedQueue) : option (list queue_answer) :=
  match os with
  | [] => Some []
  | o :: os =>
      match queue_step o q with
      | None => None
      | Some (q', a) => cons a <$> queue_run os q'
      end
  end.

(** The specification: a list of at most [N] handles. *)
Definition fifo_step (N : nat) (o : queue_op) (l : list TaskHandle) : list TaskHandle * queue_answer :=
  match o with
  | QEnqueue h => if decide (length l < N) then (l ++ [h], Queued) else (l, Refused h)
  | QDequeue => match l with [] => ([], Popped None) | h :: t => (t, Popped (Some h)) end
  end.

Fixpoint fifo_run (N : nat) (os : list queue_op) (l : list TaskHandle) : list queue_answer :=
  match os with
  | [] => []
  | o :: os => (fifo_step N o l).2 :: fifo_run N os (fifo_step N o l).1
  end.

Lemma queue_step_rep N q l o : qrep N q l →
  ∃ q', queue_step o q = Some (q', (fifo_step N o l).2) ∧ qrep N q' (fifo_step N o l).1.
Proof.
  intros Hq. destruct o as [h|]; simpl.
  - pose proof (enqueue_wp N q l h Hq) as (q' & r & -> & Hr)%wp_run. case_decide.
    + destruct Hr as [-> ?]. eauto.
    + destruct Hr as [-> ->]. eauto.
  - pose proof (dequeue_wp (E := unit) N q l Hq) as (q' & r & -> & Hr)%wp_run.
    destruct l as [|h t]; destruct Hr as [-> Hr]; [subst q'|]; eauto.
Qed.

Lemma queue_run_rep N os q l : qrep N q l → queue_run os q = Some (fifo_run N os l).
Proof.
  revert q l; induction os as [|o os IH]; intros q l Hq; [done|]. simpl.
  destruct (queue_step_rep N q l o Hq) as (q' & -> & Hq'). by rewrite (IH q' _ Hq').
Qed.

(** The ready ring is a FIFO of capacity [N].  From a new queue of any capacity
    [N > 0], any sequence of [enqueue]s and [dequeue]s gives exactly the answers of a
    list that appends at the end, removes at the front and refuses, handing the handle
    back, when it holds [N] handles; no call panics, however often the indices wrap. *)
Theorem ready_ring_is_fifo (N : nat) (os : list queue_op) : 0 < N →
  queue_run os (SchedQueue_new N) = Some (fifo_run N os []).
Proof. intros HN. by apply queue_run_rep, SchedQueue_new_rep. Qed.

Definition task_at (i : nat) : TaskHandle :=
  TaskHandle_from_slot {| id_index := i; id_generation := 0 |}.

Lemma ready_ring_is_fifo_witness :
  0 < 2 ∧
  queue_run [QEnqueue (task_at 1); QEnqueue (task_at 2); QEnqueue (task_at 3);
             QDequeue; QEnqueue (task_at 3); QDequeue; QDequeue; QDequeue] (SchedQueue_new 2)
    = Some [Queued; Queued; Refused (task_at 3); Popped (Some (task_at 1)); Queued;
            Popped (Some (task_at 2)); Popped (Some (task_at 3)); Popped None].
Proof.
  split; [lia|]. rewrite (ready_ring_is_fifo 2) by lia. vm_compute. reflexivity.
Defined.

(** ** Runs *)

Section runs.
Context `{Build} {Ctx : Type} `{!Contexts Ctx}.
Implicit Types (w : world Ctx) (l : list TaskHandle).

Lemma world_init_ok : world_ok (world_init (Ctx := Ctx)) [].
Proof.
  split; [apply Scheduler_new_ok|..].
  - intros i h [Hi _]%lookup_replicate. done.
  - done.
  - intros h [[Hr _]%lookup_replicate _]. done.
  - intros h Hh. by apply elem_of_nil in Hh.
Qed.

Lemma set_idle_same (s : Scheduler Ctx) : set_idle (idle s) s = s.
Proof. by destruct s. Qed.

Lemma add_user_ok (s : Scheduler Ctx) l h t u : sched_ok s l → sched_ok (set_user_binding (task_index h) t u s) l.
Proof. intros [] . split; cbn; rewrite ?length_insert; done. Qed.

Lemma register_step w l op : world_ok w l → op_pre op (wsched w) →
  match op with OAdd _ _ _ _ | OAddUser _ _ _ _ _ _ | OIdle _ _ _ _ => True | _ => False end →
  ∃ w' l', world_step op w = Some w' ∧ world_ok w' l'.
Proof.
  intros Hw Hpre Hop. pose proof (wo_sched _ _ Hw) as Hs.
  assert (∃ w', world_step op w = Some w' ∧ ∃ l', world_ok w' l') as (w' & E & l' & Hok);
    [|by exists w', l'].
  apply world_step_wp. destruct op; try done; cbn [op_run op_exited]; cbn [op_pre] in Hpre; apply wp_bind.
  - eapply wp_mono; [by apply (add_task_wp _ l)|]. intros s' r (-> & q & c & _ & Hq & ->).
    red; cbn [ret]. exists None. split; [done|]. exists (l ++ [h]).
    eapply register_world; [done|done|by apply new_list_ok|done|done|done|done|]. by left.
  - destruct Hpre as (Hf & H1 & H2 & H3 & H4).
    eapply wp_mono; [by apply (add_user_task_wp _ l)|]. intros s' r (-> & q & c & _ & Hq & ->).
    red; cbn [ret]. exists None. split; [done|]. exists (l ++ [h]).
    eapply register_world; [done|done|by apply add_user_ok, new_list_ok|done|done|done|done|]. by left.
  - destruct Hpre as [Hf Hi].
    eapply wp_mono; [by apply (register_idle_wp _ l)|]. intros s' r (-> & c & _ & ->).
    red; cbn [ret]. exists None. split; [done|]. exists l.
    eapply register_world; [done|done|by apply idle_list_ok|done|done|done|done|]. by right.
Qed.

Lemma step_ok w l op : world_ok w l → op_pre op (wsched w) →
  ∃ w' l', world_step op w = Some w' ∧ world_ok w' l'.
Proof.
  intros Hw Hpre. destruct op.
  1-3: by apply (register_step w l).
  1-2: by apply (boot_world _ w l); [|auto|].
  - destruct Hpre as [cur Hcur]. destruct (yield_world w l cur Hw Hcur) as (w' & ? & _ & _ & ? & _). eauto.
  - destruct Hpre as (cur & Hcur & Hid). destruct (block_world w l cur ep Hw Hcur Hid) as (w' & ? & ?). eauto.
  - by apply wake_world with l.
Qed.

(** The handles the ready ring holds, first out first. *)
Definition waiting_list (q : SchedQueue) : list TaskHandle :=
  omap (λ k, mjoin (buf q !! ((head q + k) mod length (buf q)))) (seq 0 (qlen q)).

Lemma omap_all {Y} (f : nat → option Y) (l : list Y) (a : nat) :
  (∀ k y, l !! k = Some y → f (a + k) = Some y) → omap f (seq a (length l)) = l.
Proof.
  revert a; induction l as [|y l IH]; intros a Hf; [done|]. cbn.
  pose proof (Hf 0 y eq_refl) as H0. rewrite Nat.add_0_r in H0. rewrite H0. f_equal.
  apply IH. intros k z Hk. rewrite <- (Hf (S k) z Hk). f_equal. lia.
Qed.

Lemma waiting_list_rep N q l : qrep N q l → waiting_list q = l.
Proof.
  intros [Hb Hh Hl Hle Hi]. unfold waiting_list. rewrite Hl, Hb.
  apply omap_all. intros k h Hk. rewrite Nat.add_0_l. by rewrite (Hi k h Hk).
Qed.

(** [n] yields. *)
Fixpoint yields (n : nat) w : option (world Ctx) :=
  match n with
  | O => Some w
  | S n => match world_step OYield w with Some w' => yields n w' | None => None end
  end.

(** One turn: the list with the running task in front rotates by one. *)
Lemma rotate_lookup {X} (x y : X) (t : list X) k : k < S (S (length t)) →
  (y :: t ++ [x]) !! k = (x :: y :: t) !! ((k + 1) mod S (S (length t))).
Proof.
  intros Hk. destruct (decide (k = S (length t))) as [->|Hne].
  - replace (S (length t) + 1) with (S (S (length t))) by lia. rewrite Nat.Div0.mod_same.
    change ((t ++ [x]) !! length t = Some x). by apply list_lookup_middle.
  - rewrite Nat.mod_small by lia. rewrite Nat.add_1_r.
    destruct k as [|k]; [done|]. change ((t ++ [x]) !! k = t !! k). apply lookup_app_l. lia.
Qed.

Lemma yields_rotate n : ∀ w l cur, world_ok w l → current (wsched w) = Some cur →
  idle (wsched w) ≠ Some cur →
  ∃ w' l', yields n w = Some w' ∧ world_ok w' l' ∧
    current (wsched w') = (cur :: l) !! (n mod S (length l)).
Proof.
  induction n as [|n IH]; intros w l cur Hw Hcur Hid.
  - exists w, l. by rewrite Nat.mod_small by lia.
  - destruct (yield_world w l cur Hw Hcur) as (w1 & E & _ & Hid1 & Hw1 & Hcur1). cbn. rewrite E.
    destruct l as [|h t].
    + destruct (IH w1 [] cur) as (w' & l' & Hy & Hok & Hc); [done|done|by rewrite Hid1|].
      exists w', l'. rewrite Hc, !Nat.mod_1_r. done.
    + assert (Hih : idle (wsched w) ≠ Some h) by (by apply (so_ready _ _ (wo_sched _ _ Hw)), elem_of_cons; left).
      cbn [yield_next fst] in Hw1. rewrite decide_False in Hw1 by done.
      destruct (IH w1 (t ++ [cur]) h) as (w' & l' & Hy & Hok & Hc); [done|done|by rewrite Hid1|].
      exists w', l'. split; [done|]. split; [done|]. rewrite Hc.
      replace (length (t ++ [cur])) with (S (length t)) by (rewrite length_app; simpl; lia).
      rewrite rotate_lookup by (apply Nat.mod_upper_bound; lia). f_equal.
      rewrite Nat.Div0.add_mod_idemp_l. by rewrite Nat.add_1_r.
Qed.

Lemma reachable_ok w : reachable w → ∃ l, world_ok w l.
Proof.
  induction 1 as [|op w w' Hr [l IH] Hpre Hstep]; [exists []; apply world_init_ok|].
  destruct (step_ok w l op IH Hpre) as (w2 & l2 & E & Hok). exists l2. congruence.
Qed.

(** A sequence of operations, each with its obligation. *)
Fixpoint run_steps (ops : list sched_op) w : option (world Ctx) :=
  match ops with
  | [] => Some w
  | op :: ops => match world_step op w with Some w' => run_steps ops w' | None => None end
  end.
Fixpoint steps_pre (ops : list sched_op) w : Prop :=
  match ops with
  | [] => True
  | op :: ops =>
      op_pre op (wsched w) ∧
      match world_step op w with Some w' => steps_pre ops w' | None => False end
  end.

Lemma reachable_steps ops w w' : reachable w → steps_pre ops w → run_steps ops w = Some w' →
  reachable w'.
Proof.
  revert w; induction ops as [|op ops IH]; simpl; intros w Hr Hpre Hrun; [congruence|].
  destruct Hpre as [Hpre Hrest]. destruct (world_step op w) as [w1|] eqn:E; [|done].
  apply (IH w1); [|done|done]. by eapply reach_step.
Qed.

(** C6: the scheduler never panics and never fails.  In every state a run of the
    system reaches, from the empty scheduler through any sequence of registrations,
    [start], yields, blocking receives, wake-ups and exits, each operation whose
    caller's obligations hold (a task slot is given out once, user stacks are aligned,
    [start] and an exit find something to run, the idle task neither blocks nor exits)
    completes without a panic and without an error: no index out of the arrays, no
    full ready queue, no dispatch without a current task, no switch of a task to
    itself, in debug and release builds. *)
Theorem scheduler_never_panics w op : reachable w → op_pre op (wsched w) →
  ∃ w', world_step op w = Some w'.
Proof.
  intros [l Hw]%reachable_ok Hpre. destruct (step_ok w l op Hw Hpre) as (w' & _ & E & _). eauto.
Qed.

(** C7: no runnable task is lost or duplicated.  In every reachable state a registered
    task whose state is [Ready] and which has not exited is running, is the idle task,
    or waits in the ready ring; the ring holds no task twice, and neither the running
    nor the idle task, nor a task that is blocked; and a task that has exited is none of these, so it
    never runs again. *)
Theorem no_task_is_lost w : reachable w →
  let s := wsched w in
  let waiting := waiting_list (ready s) in
  (∀ h, runnable s h → current s = Some h ∨ idle s = Some h ∨ h ∈ waiting ∨ h ∈ wexited w) ∧
  NoDup waiting ∧
  (∀ h, h ∈ waiting → runnable s h ∧ current s ≠ Some h ∧ idle s ≠ Some h) ∧
  (∀ h, h ∈ wexited w → current s ≠ Some h ∧ idle s ≠ Some h ∧ h ∉ waiting).
Proof.
  intros [l Hw]%reachable_ok. cbv zeta.
  rewrite (waiting_list_rep _ _ _ (so_queue _ _ (wo_sched _ _ Hw))). split_and!.
  - apply Hw.
  - apply (wo_sched _ _ Hw).
  - apply (wo_sched _ _ Hw).
  - intros h Hh. by apply (exited_not w l).
Qed.

(** C34: the running task always runs in its own address space.  In every reachable
    state in which a task runs, the address space activated last is the one the task
    was registered with, although a dispatch activates nothing when the outgoing and
    the incoming task share theirs. *)
Theorem running_task_has_its_address_space w h : reachable w → current (wsched w) = Some h →
  ∃ a, task_address_space_handles (wsched w) !! task_index h = Some (Some a) ∧
       wactive w = Some a.
Proof.
  intros [l Hw]%reachable_ok Hcur.
  destruct (so_current _ _ (wo_sched _ _ Hw) h Hcur) as [Hr _].
  destruct (wo_as _ _ Hw _ _ Hr) as [a Ha]. exists a. split; [done|].
  pose proof (wo_active _ _ Hw h Hcur). congruence.
Qed.

(** C35: yielding is round robin.  From a reachable state in which [cur] runs and the
    tasks of [waiting] wait, [n] yields in a row leave running the task at position
    [n mod (1 + length waiting)] of [cur :: waiting]: every waiting task runs after as
    many yields as its place in the queue, and then again after each full round.  The
    idle task does not take part: from the idle task the first yield goes to the head
    of the queue, and it stays only when nothing waits. *)
Theorem yield_is_round_robin w cur n : reachable w → current (wsched w) = Some cur →
  let waiting := waiting_list (ready (wsched w)) in
  ∃ w', yields n w = Some w' ∧
    (idle (wsched w) ≠ Some cur →
       current (wsched w') = (cur :: waiting) !! (n mod S (length waiting))) ∧
    (idle (wsched w) = Some cur → waiting ≠ [] →
       ∀ k, n = S k → current (wsched w') = waiting !! (k mod length waiting)).
Proof.
  intros [l Hw]%reachable_ok Hcur. cbv zeta. pose proof (wo_sched _ _ Hw) as Hs.
  rewrite (waiting_list_rep _ _ _ (so_queue _ _ Hs)).
  destruct (decide (idle (wsched w) = Some cur)) as [Hid|Hid].
  - destruct n as [|n]; [by exists w|]. cbn.
    destruct (yield_world w l cur Hw Hcur) as (w1 & E & _ & Hid1 & Hw1 & Hcur1). rewrite E.
    destruct l as [|h t].
    + assert (∃ w', yields n w1 = Some w') as [w' Hw']; [|exists w'; done].
      clear E. revert w1 Hid1 Hw1 Hcur1. induction n as [|n IH]; intros w1 Hid1 Hw1 Hcur1; [by exists w1|].
      cbn. destruct (yield_world w1 [] cur Hw1 Hcur1) as (w2 & E & _ & Hid2 & Hw2 & Hcur2).
      rewrite E. apply IH; [congruence|done|done].
    + cbn [yield_next fst] in Hw1. rewrite decide_True in Hw1 by done.
      assert (Hih : idle (wsched w) ≠ Some h) by (by apply (so_ready _ _ Hs), elem_of_cons; left).
      destruct (yields_rotate n w1 t h) as (w' & l' & Hy & _ & Hc); [done|done|by rewrite Hid1|].
      exists w'. split; [done|]. split; [done|]. intros _ _ k [= <-]. done.
  - destruct (yields_rotate n w l cur Hw Hcur Hid) as (w' & l' & Hy & _ & Hc).
    exists w'. split; [done|]. split; [done|]. by intros ?%Hid.
Qed.
End runs.

(** ** A sample run

An idle task, a kernel task and two user tasks, in three address spaces, started. *)

Definition no_contexts : Contexts unit :=
  {| ctx_default := tt; init_context := λ _ _ _, tt; init_user_context := λ _ _ _ _, tt |}.

Definition as_at (i : nat) : AddressSpaceHandle :=
  AddressSpaceHandle_from_slot {| id_index := i; id_generation := 0 |}.

Definition ep0 : EndpointHandle := EndpointHandle_from_slot first_slot.

Definition sample_ops : list sched_op :=
  [OIdle (task_at 0) (as_at 0) 0x1000 0x2000; OAdd (task_at 1) (as_at 0) 0x3000 0x4000;
   OAddUser (task_at 2) (as_at 1) 0x80000000 0x80010000 0x5000 0x6000;
   OAddUser (task_at 3) (as_at 2) 0x80000000 0x80010000 0x7000 0x8000; OStart].

#[local] Existing Instance no_contexts.
#[local] Existing Instance debug_build.

Definition sample_world : world unit := default world_init (run_steps sample_ops world_init).

Lemma sample_reachable : reachable sample_world.
Proof.
  apply (reachable_steps sample_ops world_init); [apply reach_init| |vm_compute; reflexivity].
  vm_compute. repeat match goal with
  | |- _ ∧ _ => split
  | |- _ ∨ _ => right; eexists; reflexivity
  | |- _ = _ => reflexivity
  | |- True => exact I
  end; discriminate.
Qed.

Lemma scheduler_never_panics_witness :
  op_pre (OBlock ep0) (wsched sample_world) ∧
  ∃ w', world_step (OBlock ep0) sample_world = Some w'.
Proof.
  assert (Hpre : op_pre (OBlock ep0) (wsched sample_world)).
  { exists (task_at 1). split; [vm_compute; reflexivity|vm_compute; discriminate]. }
  split; [exact Hpre|]. exact (scheduler_never_panics sample_world (OBlock ep0) sample_reachable Hpre).
Defined.

Lemma no_task_is_lost_witness :
  waiting_list (ready (wsched sample_world)) = [task_at 2; task_at 3] ∧
  NoDup (waiting_list (ready (wsched sample_world))).
Proof.
  split; [vm_compute; reflexivity|]. apply (no_task_is_lost sample_world sample_reachable).
Defined.

(** The task that runs after one yield of the sample system. *)
Definition yielded_world : world unit := default sample_world (yields 1 sample_world).

Lemma yielded_reachable : reachable yielded_world.
Proof.
  apply (reachable_steps [OYield] sample_world); [apply sample_reachable| |vm_compute; reflexivity].
  split; [|vm_compute; exact I]. exists (task_at 1). vm_compute. reflexivity.
Qed.

Lemma running_task_has_its_address_space_witness :
  current (wsched yielded_world) = Some (task_at 2) ∧ wactive yielded_world = Some (as_at 1).
Proof.
  assert (Hc : current (wsched yielded_world) = Some (task_at 2)) by (vm_compute; reflexivity).
  split; [exact Hc|].
  destruct (running_task_has_its_address_space yielded_world (task_at 2) yielded_reachable Hc)
    as (a & Ha & Hact).
  rewrite Hact. symmetry. assert (Some (Some (as_at 1)) = Some (Some a)) as [= ->]; [|reflexivity].
  rewrite <- Ha. vm_compute. reflexivity.
Defined.

Lemma yield_is_round_robin_witness :
  current (wsched sample_world) = Some (task_at 1) ∧
  ∃ w', yields 5 sample_world = Some w' ∧ current (wsched w') = Some (task_at 3).
Proof.
  assert (Hc : current (wsched sample_world) = Some (task_at 1)) by (vm_compute; reflexivity).
  split; [exact Hc|].
  destruct (yield_is_round_robin sample_world (task_at 1) 5 sample_reachable Hc) as (w' & Hy & Hrr & _).
  exists w'. split; [exact Hy|]. rewrite Hrr; [vm_compute; reflexivity|vm_compute; discriminate].
Defined.
