(* ===== verification/SchedBridgeProps.v ===== *)
(** * Properties of the IPC bridges

A blocking receive either completes, blocks its task and dispatches another, or
changes nothing; a delivering send wakes exactly the receiver; the two together
move a message between tasks. *)

From S2P Require Import Prelude.
From S2P Require Import Hal.
From S2P Require Import Chain.
From S2P Require Import Arena.
From S2P Require Import Objects.
From S2P Require Import Caps.
From S2P Require Import CapTable.
From S2P Require Import CapTableInv.
From S2P Require Import CapTableOps.
From S2P Require Import CapRevoke.
From S2P Require Import CapSpec.
From S2P Require Import Ipc.
From S2P Require Import SyscallError.
From S2P Require Import UserAccess.
From S2P Require Import IpcSpec.
From S2P Require Import IpcProps.
From S2P Require Import Sched.
From S2P Require Import SchedInv.
From S2P Require Import SchedOps.
From S2P Require Import SchedBridge.
From S2P Require Import SchedRun.
From S2P Require Import SchedProps.

Section props.
Context `{Build} {Ctx : Type} `{!Contexts Ctx}.
Implicit Types (b : Bridge Ctx) (l : list TaskHandle).

(** C33: a receive with nothing to run next is undone, and with an idle task it never
    is.  [ipc_recv_and_yield] called by the running task [cur] never panics.  It
    returns [Deadlock] exactly when the endpoint is idle, the ready ring is empty and
    no other task is registered as idle; then the scheduler, the caller's table and
    the state of every endpoint are what they were before the call.  So no call by a
    task other than a registered idle task ever reports a deadlock. *)
Theorem recv_deadlock_rolls_back ep_arena b l cur ep_cap :
  sched_ok (bsched b) l → current (bsched b) = Some cur →
  IpcWF ep_arena (queues (bipc b)) → WF (table (bipc b)) →
  ∃ b' r, ipc_recv_and_yield ep_arena ep_cap b = Some (b', r) ∧
    (r = Err Deadlock →
       bsched b' = bsched b ∧ table (bipc b') = table (bipc b) ∧
       (∀ h, live_ep ep_arena h → ep_state (queues (bipc b')) h = ep_state (queues (bipc b)) h)) ∧
    (r = Err Deadlock ↔
       l = [] ∧ (idle (bsched b) = None ∨ idle (bsched b) = Some cur) ∧
       ∃ h, grants (table (bipc b)) ep_cap RECV h ∧ live_ep ep_arena h ∧
            ep_state (queues (bipc b)) h = Idle).
Proof.
  intros Hs Hcur Hq Ht.
  pose proof (ipc_recv_and_yield_wp ep_arena b l cur ep_cap Hs Hcur Hq Ht) as Hw.
  apply wp_run in Hw as (b' & r & Hr & Hp). exists b', r. split; [done|].
  assert (Hnone : block_next (bsched b) l cur = None ↔
    l = [] ∧ (idle (bsched b) = None ∨ idle (bsched b) = Some cur)).
  { unfold block_next. destruct l as [|h t]; [|naive_solver].
    destruct (idle (bsched b)) as [i|]; [|naive_solver]. case_decide as Hd; naive_solver. }
  assert (Hnot : ∀ h st, grants (table (bipc b)) ep_cap RECV h → ep_state (queues (bipc b)) h = st →
    st ≠ Idle → ¬ ∃ h', grants (table (bipc b)) ep_cap RECV h' ∧ live_ep ep_arena h' ∧
                        ep_state (queues (bipc b)) h' = Idle).
  { intros h st Hg Hst Hne (h' & Hg' & _ & Hst'). rewrite (grants_fun _ _ _ h' h Hg' Hg) in Hst'. congruence. }
  destruct r as [[out|i j a]|[| |x|]]; cbn in Hp; try done.
  - destruct Hp as (_ & Hout & h & Hg & Hl & Hstep). split; [done|]. split; [done|].
    intros (_ & _ & Hex). exfalso. eapply Hnot in Hex; [done|exact Hg|reflexivity|].
    intros Hst. rewrite Hst in Hstep. by destruct Hstep as (_ & ? & _).
  - destruct Hp as (h & next & rq & _ & _ & _ & _ & _ & Hn & _). split; [done|]. split; [done|].
    intros (Hl & Hi & _). rewrite (proj2 Hnone) in Hn; done.
  - destruct Hp as (_ & _ & _ & He). split; [done|]. split; [done|].
    intros (_ & _ & h & Hg & Hl & Hst). exfalso.
    destruct He as [He|[(_ & h' & Hg' & Hn)|[(_ & _ & h' & Hg' & Hc)|(_ & h' & Hg' & Hw)]]].
    + by eapply grants_no_error in He.
    + apply Hn. by rewrite (grants_fun _ _ _ h' h Hg' Hg).
    + rewrite (grants_fun _ _ _ h' h Hg' Hg), Hst in Hc. by destruct Hc.
    + rewrite (grants_fun _ _ _ h' h Hg' Hg), Hst in Hw. done.
  - destruct Hp as (H1 & H2 & H3 & H4 & H5). split; [done|]. split; [|done].
    intros _. apply Hnone in H3 as [? ?]. done.
Qed.

(** ** Rendezvous through the scheduler *)

(** A receive on an idle endpoint with a task to run next blocks. *)
Lemma recv_blocks ep_arena b l cur ep_r h next :
  sched_ok (bsched b) l → current (bsched b) = Some cur → IpcWF ep_arena (queues (bipc b)) → WF (table (bipc b)) →
  grants (table (bipc b)) ep_r RECV h → live_ep ep_arena h → ep_state (queues (bipc b)) h = Idle →
  block_next (bsched b) l cur = Some next → is_full (table (bipc b)) = false →
  ∃ rq a, ipc_recv_and_yield ep_arena ep_r b = Some
      ({| bsched := blocked_state (bsched b) rq cur h (Some next);
          bipc := {| queues := put h RecvWaiting (queues (bipc b)); table := table (bipc b) |} |},
       Ok (RecvBlocked (task_index cur) (task_index next) a)) ∧
    qrep TASK_ARENA_CAPACITY rq (tail l) ∧ activates (bsched b) cur next a.
Proof.
  intros Hs Hcur Hq Ht Hgr Hl Hst Hn Hroom.
  pose proof (ipc_recv_and_yield_wp ep_arena b l cur ep_r Hs Hcur Hq Ht) as Hw.
  apply wp_run in Hw as (b1 & r & Hr & Hp). destruct r as [[out|i j a]|[| |x|]]; cbn in Hp; try done.
  { exfalso. destruct Hp as (_ & Hout & h' & Hg' & _ & Hstep).
    rewrite (grants_fun _ _ _ h' h Hg' Hgr), Hst in Hstep. by destruct Hstep as (_ & ? & _). }
  2:{ exfalso. destruct Hp as (_ & _ & _ & He).
      refine (no_recv_error _ _ _ h x Hgr Hl Hroom _ He). congruence. }
  2:{ exfalso. destruct Hp as (_ & _ & Hn' & _). congruence. }
  destruct Hp as (h' & next' & rq & Hg' & _ & _ & Hput & Htab & Hn' & Hrq & Hb1 & -> & -> & Ha).
  rewrite (grants_fun _ _ _ h' h Hg' Hgr) in *. assert (next' = next) as -> by congruence.
  exists rq, a. rewrite Hr. destruct b1 as [s1 [q1 t1]]. cbn [bsched bipc queues table] in *. by subst.
Qed.

(** The receiver alone is blocked on [ep], so it is the one the wake-up finds. *)
Lemma wake_finds_receiver (s s1 : Scheduler Ctx) l l1 q cur ep next :
  sched_ok s l → current s = Some cur → (∀ i, ¬ blocked_on s ep i) →
  let s0 := blocked_state s q cur ep (Some next) in
  ((∀ i, ¬ blocked_on s0 ep i) ∧ s1 = s0 ∧ l1 = tail l) ∨
  (∃ i th, first_blocked s0 ep 0 i ∧ task_handles s0 !! i = Some (Some th) ∧
     task_index th = i ∧ l1 = tail l ++ [th] ∧ woken s0 (tail l) s1 i) →
  l1 = tail l ++ [cur] ∧ runnable s1 cur.
Proof.
  cbv zeta. intros Hs Hcur Hno Hcase. destruct (so_current _ _ Hs cur Hcur) as [Hreg Hst].
  assert (Hb : blocked_on (blocked_state s q cur ep (Some next)) ep (task_index cur)).
  { unfold blocked_on; simpl. apply list_lookup_insert_eq. by eapply lookup_lt_Some. }
  destruct Hcase as [(Hn & _)|(i & th & (_ & Hbi & _) & Hth & Hi & -> & (th' & q' & Hth' & _ & Hq' & ->))].
  { by apply Hn in Hb. }
  assert (i = task_index cur) as ->.
  { destruct (decide (i = task_index cur)) as [->|Hne]; [done|]. exfalso. apply (Hno i).
    unfold blocked_on in Hbi; simpl in Hbi. by rewrite list_lookup_insert_ne in Hbi. }
  simpl in Hth. unfold registered in Hreg. assert (th = cur) as -> by congruence.
  split; [done|]. split; [done|]. simpl. apply list_lookup_insert_eq. rewrite length_insert.
  by eapply lookup_lt_Some.
Qed.

(** A send to a registered receiver is delivered. *)
Lemma send_delivers ep_arena b l cur ep_s h msg transfer :
  sched_ok (bsched b) l → current (bsched b) = Some cur →
  IpcWF ep_arena (queues (bipc b)) → WF (table (bipc b)) →
  grants (table (bipc b)) ep_s SEND h → live_ep ep_arena h →
  ep_state (queues (bipc b)) h = RecvWaiting →
  (∀ x, transfer = Some x → ∃ e, named (table (bipc b)) x = Some e ∧
     Caps.contains (rights (capability e)) TRANSFER = true ∧ first_child e = None) →
  ∃ b' d owned, ipc_send_and_yield ep_arena ep_s msg transfer b = Some (b', Ok (Delivered, d)) ∧
    taken (table (bipc b)) transfer owned (table (bipc b')) ∧
    queues (bipc b') = put h (RecvComplete msg owned) (queues (bipc b)) ∧
    ∃ s1 l1 q,
      (((∀ i, ¬ blocked_on (bsched b) h i) ∧ s1 = bsched b ∧ l1 = l) ∨
       ∃ i th, first_blocked (bsched b) h 0 i ∧ task_handles (bsched b) !! i = Some (Some th) ∧
         task_index th = i ∧ l1 = l ++ [th] ∧ woken (bsched b) l s1 i) ∧
      idle s1 = idle (bsched b) ∧
      qrep TASK_ARENA_CAPACITY q (yield_next s1 l1 cur).1 ∧
      match (yield_next s1 l1 cur).2 with
      | None => d = Stay
      | Some n => ∃ a, d = Switch (task_index cur) (task_index n) a ∧ activates s1 cur n a
      end ∧
      bsched b' = match (yield_next s1 l1 cur).2 with
                  | None => set_ready q s1
                  | Some n => set_current (Some n) (set_ready q s1)
                  end.
Proof.
  intros Hs Hcur Hq Ht Hg Hl Hst Hx.
  pose proof (ipc_send_and_yield_wp ep_arena b l cur ep_s msg transfer Hs Hcur Hq Ht) as Hw.
  apply wp_run in Hw as (b' & r & Hr & Hp). destruct r as [[out d]|[| |x|]]; cbn in Hp; try done.
  2:{ exfalso. destruct Hp as (_ & _ & _ & He). eapply no_send_error in He; eauto. }
  destruct Hp as (h' & owned & new & s1 & l1 & Hg' & _ & Htk & Hstep & Hput & _ & _ & Hi & Hout).
  rewrite (grants_fun _ _ _ h' h Hg' Hg) in *. rewrite Hst in Hstep.
  destruct Hstep as [(_ & -> & ->)|(? & _)]; [|done].
  destruct Hout as [Hcase (q & Hrq & Hn)]. exists b', d, owned. split_and!; [done..|].
  exists s1, l1, q. do 3 (split; [done|]). by destruct (yield_next s1 l1 cur).2; destruct Hn.
Qed.

(** A send on an idle endpoint waits in it, and the sender goes on. *)
Lemma send_enqueues ep_arena b l cur ep_s h msg :
  sched_ok (bsched b) l → current (bsched b) = Some cur → IpcWF ep_arena (queues (bipc b)) → WF (table (bipc b)) →
  grants (table (bipc b)) ep_s SEND h → live_ep ep_arena h → ep_state (queues (bipc b)) h = Idle →
  ipc_send_and_yield ep_arena ep_s msg None b = Some
    ({| bsched := bsched b; bipc := {| queues := put h (SendPending msg None) (queues (bipc b)); table := table (bipc b) |} |},
     Ok (Enqueued, Stay)).
Proof.
  intros Hs Hcur Hq Ht Hg Hl Hst.
  pose proof (ipc_send_and_yield_wp ep_arena b l cur ep_s msg None Hs Hcur Hq Ht) as Hw.
  apply wp_run in Hw as (b' & r & Hr & Hp). destruct r as [[out d]|[| |x|]]; cbn in Hp; try done.
  2:{ exfalso. destruct Hp as (_ & _ & _ & He). eapply no_send_error in He; eauto. done. }
  destruct Hp as (h' & owned & new & s1 & l1 & Hg' & _ & [-> Htab] & Hstep & Hput & _ & _ & _ & Hout).
  rewrite (grants_fun _ _ _ h' h Hg' Hg) in *. rewrite Hst in Hstep.
  destruct Hstep as [(? & _)|(_ & -> & ->)]; [done|]. destruct Hout as (-> & _ & _ & Hb).
  rewrite Hr. destruct b' as [s' [q' t']]. cbn [bsched bipc queues table] in *. by subst.
Qed.

(** A receive on an endpoint with a message takes it, at once or when it resumes. *)
Lemma recv_takes ep_arena b ep_r h msg cap :
  is_Some (current (bsched b)) → IpcWF ep_arena (queues (bipc b)) → WF (table (bipc b)) →
  grants (table (bipc b)) ep_r RECV h → live_ep ep_arena h → is_full (table (bipc b)) = false →
  ep_state (queues (bipc b)) h = SendPending msg cap ∨ ep_state (queues (bipc b)) h = RecvComplete msg cap →
  ∃ t got, installed (table (bipc b)) cap got t ∧
    let i := {| queues := put h Idle (queues (bipc b)); table := t |} in
    ipc_recv_and_yield ep_arena ep_r b = Some ({| bsched := bsched b; bipc := i |}, Ok (RecvDone (Received msg got))) ∧
    ipc_recv_resume ep_arena ep_r (bipc b) = Some (i, Ok (Received msg got)).
Proof.
  intros [c Hc] Hq Ht Hgr Hl Hroom Hst.
  destruct (recv_succeeds ep_arena (bipc b) ep_r h msg cap Hq Ht Hgr Hl Hroom Hst) as (t & got & Hrecv & Hins).
  exists t, got. split; [done|]. cbn zeta. split.
  - unfold ipc_recv_and_yield, bind at 1, gets. rewrite Hc, bool_decide_false by done.
    destruct Hgr as (e & He & Ho & _). unfold bind at 1, reads, resolve_ep_cap. rewrite lookup_eq, He.
    cbn [pmap_err fmap option_fmap option_map res_map_err pbind]. rewrite Ho.
    unfold bind, map_err, on_ipc, zoom, pret. by rewrite Hrecv.
  - unfold ipc_recv_resume, bind, attempt. by rewrite Hrecv.
Qed.

(** The woken task, last of the list, runs or waits after the sender's yield. *)
Lemma resumed_runs (s1 : Scheduler Ctx) l0 next cur q :
  qrep TASK_ARENA_CAPACITY q (yield_next s1 (l0 ++ [cur]) next).1 →
  let s2 := match (yield_next s1 (l0 ++ [cur]) next).2 with
            | None => set_ready q s1
            | Some n => set_current (Some n) (set_ready q s1)
            end in
  current s2 = Some cur ∨ cur ∈ waiting_list (ready s2).
Proof.
  intros Hq. cbv zeta. destruct l0 as [|h t]; cbn [app yield_next fst snd] in *; [by left|].
  right. cbn [ready set_current set_ready]. rewrite (waiting_list_rep _ _ _ Hq).
  case_decide; set_solver.
Qed.

(** C9: a message crosses the scheduler.  [cur] receives on an idle endpoint on which
    nobody is blocked, and another task can run: the call blocks [cur] and dispatches
    [next].  When [next] then sends on that endpoint, the send is delivered, [cur] is
    runnable again and is either running or waiting in the ready ring; and when [cur]
    resumes, its receive returns exactly the message sent, with the capability sent
    under a fresh handle. *)
Theorem bridge_rendezvous ep_arena b l cur next ep_r h ts ep_s msg transfer :
  sched_ok (bsched b) l → current (bsched b) = Some cur → idle (bsched b) ≠ Some cur →
  block_next (bsched b) l cur = Some next →
  IpcWF ep_arena (queues (bipc b)) → WF (table (bipc b)) → WF ts →
  grants (table (bipc b)) ep_r RECV h → grants ts ep_s SEND h → live_ep ep_arena h →
  ep_state (queues (bipc b)) h = Idle → (∀ i, ¬ blocked_on (bsched b) h i) →
  is_full (table (bipc b)) = false →
  (∀ x, transfer = Some x → ∃ e, named ts x = Some e ∧
     Caps.contains (rights (capability e)) TRANSFER = true ∧ first_child e = None) →
  ∃ b1 a b2 d s3 got,
    ipc_recv_and_yield ep_arena ep_r b
      = Some (b1, Ok (RecvBlocked (task_index cur) (task_index next) a)) ∧
    current (bsched b1) = Some next ∧
    ipc_send_and_yield ep_arena ep_s msg transfer
        {| bsched := bsched b1; bipc := {| queues := queues (bipc b1); table := ts |} |}
      = Some (b2, Ok (Delivered, d)) ∧
    runnable (bsched b2) cur ∧
    (current (bsched b2) = Some cur ∨ cur ∈ waiting_list (ready (bsched b2))) ∧
    ipc_recv_resume ep_arena ep_r {| queues := queues (bipc b2); table := table (bipc b1) |}
      = Some (s3, Ok (Received msg got)) ∧
    moved ts (table (bipc b2)) (table s3) transfer got.
Proof.
  intros Hs Hcur Hid Hn Hq Ht Hts Hgr Hgs Hl Hst Hnb Hroom Hx.
  destruct (recv_blocks ep_arena b l cur ep_r h next) as (rq & a & Hr & Hrq & _); [done..|].
  set (b1 := {| bsched := _; bipc := _ |}) in Hr.
  assert (Hb1 : bsched b1 = blocked_state (bsched b) rq cur h (Some next)) by done.
  assert (Hput : queues (bipc b1) = put h RecvWaiting (queues (bipc b))) by done.
  assert (Htab : table (bipc b1) = table (bipc b)) by done. clearbody b1.
  pose proof (blocked_state_ok _ _ rq cur h next Hs Hcur Hid Hn Hrq) as Hok. rewrite <- Hb1 in Hok.
  assert (Hc1 : current (bsched b1) = Some next) by (by rewrite Hb1).
  set (bs := {| bsched := bsched b1; bipc := {| queues := queues (bipc b1); table := ts |} |}).
  assert (Hq1 : IpcWF ep_arena (queues (bipc b1))) by (rewrite Hput; by apply put_WF).
  destruct (send_delivers ep_arena bs (tail l) next ep_s h msg transfer) as
    (b2 & d & owned & Hsend & Htk & Hput2 & s1 & l1 & q & Hcase & Hi1 & Hq2 & _ & Hb2); [try done..|].
  { unfold bs; cbn. rewrite Hput. by apply (ep_state_put ep_arena). }
  unfold bs in Hcase, Hi1, Htk, Hput2; cbn [bsched bipc queues table] in Hcase, Hi1, Htk, Hput2.
  rewrite Hb1 in Hcase, Hi1.
  destruct (wake_finds_receiver _ _ _ _ _ _ _ _ Hs Hcur Hnb Hcase) as [-> Hrun].
  destruct (recv_succeeds ep_arena {| queues := queues (bipc b2); table := table (bipc b1) |} ep_r h msg owned)
    as (tr2 & got & Hrecv & Hinst); cbn [queues table].
  { rewrite Hput2. by apply put_WF. }
  1-4: by rewrite ?Htab.
  { right. rewrite Hput2. by apply (ep_state_put ep_arena). }
  exists b1, a, b2, d. eexists. exists got. split; [done|]. split; [done|]. split; [exact Hsend|].
  pose proof (resumed_runs s1 (tail l) next cur q Hq2) as Hres. rewrite <- Hb2 in Hres.
  split; [|split; [exact Hres|]].
  { rewrite Hb2. by destruct (yield_next s1 (tail l ++ [cur]) next).2. }
  split; [unfold ipc_recv_resume, bind, attempt; by rewrite Hrecv|].
  by eapply taken_installed_moved.
Qed.

(** The second receive of a woken task on every branch.  [ipc_recv_resume] never
    panics.  With the message still there it returns it.  If another task with the
    same right has received it first, the endpoint is idle again: the woken task gets
    [PendingAfterResume], stays registered as the waiting receiver although it is not
    blocked, and its table is untouched; any other error is [ipc_recv]'s own. *)
Theorem recv_resume_outcomes ep_arena s ep_cap :
  IpcWF ep_arena (queues s) → WF (table s) →
  ∃ s' r, ipc_recv_resume ep_arena ep_cap s = Some (s', r) ∧
    match r with
    | Ok out => out ≠ Pending ∧ ∃ h, grants (table s) ep_cap RECV h ∧ live_ep ep_arena h ∧
        recv_step (ep_state (queues s) h) (table s) Idle (table s') out ∧ ep_state (queues s') h = Idle
    | Err (SIpc PendingAfterResume) => ∃ h, grants (table s) ep_cap RECV h ∧ live_ep ep_arena h ∧
        ep_state (queues s) h = Idle ∧ ep_state (queues s') h = RecvWaiting ∧ table s' = table s
    | Err (SIpc x) => recv_error ep_arena s x ep_cap ∧ table s' = table s
    | Err _ => False
    end.
Proof.
  intros Hq Ht. pose proof (ipc_recv_wp ep_arena s Hq Ht ep_cap) as Hw.
  apply wp_run in Hw as ([q1 t1] & r & Hr & Hp). unfold ipc_recv_resume, bind, attempt. rewrite Hr.
  destruct r as [out|x].
  - destruct Hp as (h & new & Hg & Hl & Hstep & Hput). cbn [queues table] in *.
    assert (Hdone : new = Idle → out ≠ Pending → out ≠ Pending ∧ ∃ h0, grants (table s) ep_cap RECV h0 ∧
      live_ep ep_arena h0 ∧ recv_step (ep_state (queues s) h0) (table s) Idle t1 out ∧
      ep_state q1 h0 = Idle).
    { intros -> Hne. split; [done|]. exists h. split_and!; [done..|].
      rewrite Hput. by apply (ep_state_put ep_arena). }
    destruct out as [msg got|].
    + eexists _, _. split; [reflexivity|]. cbn [queues table]. apply Hdone; [|done].
      by destruct (ep_state (queues s) h); cbn in Hstep; intuition.
    + eexists _, _. split; [reflexivity|]. cbn. exists h.
      assert (ep_state (queues s) h = Idle ∧ new = RecvWaiting ∧ t1 = table s) as (Hi & -> & ->).
      { destruct (ep_state (queues s) h); cbn in Hstep; [by intuition|..]; try done;
          by destruct Hstep as (_ & ? & ? & _). }
      split_and!; [done..| |done]. rewrite Hput. by apply (ep_state_put ep_arena).
  - destruct Hp as [[Htab _] He]. cbn [queues table] in *. eexists _, _. split; [reflexivity|].
    cbn. destruct x; try done. exfalso. by destruct He as [[]|[(? & _)|[(? & _)|(? & _)]]].
Qed.
End props.

(** ** A sample system *)

#[local] Existing Instance no_contexts.
#[local] Existing Instance debug_build.

Lemma sample_sched_ok : sched_ok (wsched sample_world) [task_at 2; task_at 3].
Proof.
  destruct (reachable_ok sample_world sample_reachable) as [l Hw]. pose proof (wo_sched _ _ Hw) as Hs.
  assert (waiting_list (ready (wsched sample_world)) = [task_at 2; task_at 3]) as <- by (vm_compute; reflexivity).
  by rewrite (waiting_list_rep _ _ _ (so_queue _ _ Hs)).
Qed.

Lemma nobody_blocked i : ¬ blocked_on (wsched sample_world) ep_h i.
Proof.
  intros Hb. assert (Hall : Forall (λ st, st ≠ Blocked ep_h) (task_states (wsched sample_world))).
  { vm_compute. repeat constructor; discriminate. }
  by apply (Forall_lookup_1 _ _ _ _ Hall Hb).
Qed.

Definition sample_bridge : Bridge unit :=
  {| bsched := wsched sample_world;
     bipc := {| queues := IpcQueues_new; table := receiver_table |} |}.

Lemma bridge_rendezvous_witness :
  ∃ b1 a b2 d s3 got,
    ipc_recv_and_yield sample_arena h0 sample_bridge = Some (b1, Ok (RecvBlocked 1 2 a)) ∧
    ipc_send_and_yield sample_arena h0 hello (Some h1)
        {| bsched := bsched b1; bipc := {| queues := queues (bipc b1); table := sender_table |} |}
      = Some (b2, Ok (Delivered, d)) ∧
    ipc_recv_resume sample_arena h0 {| queues := queues (bipc b2); table := table (bipc b1) |}
      = Some (s3, Ok (Received hello got)) ∧
    moved sender_table (table (bipc b2)) (table s3) (Some h1) got.
Proof.
  destruct (bridge_rendezvous sample_arena sample_bridge [task_at 2; task_at 3] (task_at 1) (task_at 2)
              h0 ep_h sender_table h0 hello (Some h1))
    as (b1 & a & b2 & d & s3 & got & H1 & _ & H2 & _ & _ & H3 & H4).
  - exact sample_sched_ok.
  - vm_compute. reflexivity.
  - vm_compute. discriminate.
  - vm_compute. reflexivity.
  - exact sample_queues_WF.
  - exact receiver_table_WF.
  - exact sender_table_WF.
  - eexists. split; [vm_compute; reflexivity|]. split; [reflexivity|]. vm_compute. reflexivity.
  - eexists. split; [vm_compute; reflexivity|]. split; [reflexivity|]. vm_compute. reflexivity.
  - eexists. vm_compute. reflexivity.
  - vm_compute. reflexivity.
  - exact nobody_blocked.
  - vm_compute. reflexivity.
  - intros x [= <-]. eexists. split; [vm_compute; reflexivity|]. split; vm_compute; reflexivity.
  - exists b1, a, b2, d, s3, got. split; [exact H1|]. split; [exact H2|]. split; [exact H3|exact H4].
Defined.

(** A system whose only task runs, without an idle task. *)
Definition lone_world : world unit :=
  default world_init (run_steps [OAdd (task_at 1) (as_at 0) 0x3000 0x4000; OStart] world_init).

Lemma lone_sched_ok : sched_ok (wsched lone_world) [].
Proof.
  assert (Hr : reachable lone_world).
  { apply (reachable_steps [OAdd (task_at 1) (as_at 0) 0x3000 0x4000; OStart] world_init);
      [apply reach_init| |vm_compute; reflexivity].
    split; [vm_compute; reflexivity|]. vm_compute. split; [|exact I]. split; [reflexivity|]. left. discriminate. }
  destruct (reachable_ok lone_world Hr) as [l Hw]. pose proof (wo_sched _ _ Hw) as Hs.
  assert (waiting_list (ready (wsched lone_world)) = []) as <- by (vm_compute; reflexivity).
  by rewrite (waiting_list_rep _ _ _ (so_queue _ _ Hs)).
Qed.

Lemma recv_deadlock_rolls_back_witness :
  ∃ b' : Bridge unit, ipc_recv_and_yield sample_arena h0
      {| bsched := wsched lone_world; bipc := {| queues := IpcQueues_new; table := receiver_table |} |}
      = Some (b', Err Deadlock) ∧ bsched b' = wsched lone_world.
Proof.
  destruct (recv_deadlock_rolls_back sample_arena
      {| bsched := wsched lone_world; bipc := {| queues := IpcQueues_new; table := receiver_table |} |}
      [] (task_at 1) h0 lone_sched_ok) as (b' & r & Hr & Hroll & Hiff).
  - vm_compute. reflexivity.
  - exact sample_queues_WF.
  - exact receiver_table_WF.
  - assert (Hd : r = Err Deadlock).
    { apply Hiff. split; [reflexivity|]. split; [left; vm_compute; reflexivity|]. exists ep_h.
      split; [|split; [eexists; vm_compute; reflexivity|vm_compute; reflexivity]].
      eexists. split; [vm_compute; reflexivity|]. split; [reflexivity|]. vm_compute. reflexivity. }
    exists b'. rewrite Hd in Hr. split; [exact Hr|]. apply (Hroll Hd).
Defined.

Lemma recv_resume_outcomes_witness :
  ∃ s', ipc_recv_resume sample_arena h0 {| queues := IpcQueues_new; table := receiver_table |}
    = Some (s', Err (SIpc PendingAfterResume)) ∧ ep_state (queues s') ep_h = RecvWaiting.
Proof.
  destruct (recv_resume_outcomes sample_arena {| queues := IpcQueues_new; table := receiver_table |} h0
    sample_queues_WF receiver_table_WF) as (s' & r & Hr & _).
  exists s'. assert (r = Err (SIpc PendingAfterResume)) as -> by (vm_compute in Hr; congruence).
  split; [exact Hr|]. vm_compute in Hr. injection Hr as <-. vm_compute. reflexivity.
Defined.
