(* ===== verification/Cpu.v ===== *)
(** * The CPU of the QEMU board (bsp-qemu-virt/src/cpu.rs, hal/src/cpu.rs)

The interrupt mask with its guard, the saved context of a task, and the two assembly
routines of the board, [context_switch_asm] and [enter_el0], as programs of a small
instruction set over the core's registers and byte memory. *)

From S2P Require Import Prelude.
From S2P Require Import Hal.
From S2P Require Import UserAccess.
From S2P Require Import Words.
From S2P Require Import Timer.
From S2P Require Import Gic.
From S2P Require Import Sched.
Local Open Scope Z_scope.

(** ** The core *)

(** System registers the routines write. *)
Inductive sysreg := SP_EL0 | ELR_EL1 | SPSR_EL1 | ESR_EL1 | FPCR | FPSR | TPIDR_EL0 | TPIDRRO_EL0.

#[export] Instance sysreg_eq_dec : EqDecision sysreg.
Proof. solve_decision. Defined.

(** [x0]-[x30], the stack pointer of EL1, the 128-bit [v0]-[v31], the program counter
    and the processor state in the layout of [SPSR_EL1]. *)
Record Core := {
  xreg : nat → Z;
  sp_el1 : Z;
  vreg : nat → Z;
  sysregs : sysreg → Z;
  pc : Z;
  pstate : Z;
}.

Definition upd (f : nat → Z) (n : nat) (v : Z) : nat → Z := λ j, if (j =? n)%nat then v else f j.
Definition upd_sys (f : sysreg → Z) (r : sysreg) (v : Z) : sysreg → Z := λ j, if bool_decide (j = r) then v else f j.

Definition set_x (n : nat) (v : Z) (c : Core) : Core :=
  {| xreg := upd (xreg c) n v; sp_el1 := sp_el1 c; vreg := vreg c; sysregs := sysregs c; pc := pc c; pstate := pstate c |}.
Definition set_sp (v : Z) (c : Core) : Core :=
  {| xreg := xreg c; sp_el1 := v; vreg := vreg c; sysregs := sysregs c; pc := pc c; pstate := pstate c |}.
Definition set_v (n : nat) (v : Z) (c : Core) : Core :=
  {| xreg := xreg c; sp_el1 := sp_el1 c; vreg := upd (vreg c) n v; sysregs := sysregs c; pc := pc c; pstate := pstate c |}.
Definition set_sys (r : sysreg) (v : Z) (c : Core) : Core :=
  {| xreg := xreg c; sp_el1 := sp_el1 c; vreg := vreg c; sysregs := upd_sys (sysregs c) r v; pc := pc c; pstate := pstate c |}.
Definition set_pstate (v : Z) (c : Core) : Core :=
  {| xreg := xreg c; sp_el1 := sp_el1 c; vreg := vreg c; sysregs := sysregs c; pc := pc c; pstate := v |}.
Definition branch (pc_ pstate_ : Z) (c : Core) : Core :=
  {| xreg := xreg c; sp_el1 := sp_el1 c; vreg := vreg c; sysregs := sysregs c; pc := pc_; pstate := pstate_ |}.

(** [d<n>] is the low half of [v<n>]; loading it clears the high half. *)
Definition dreg (c : Core) (n : nat) : Z := vreg c n `mod` 2 ^ 64.

(** [CurrentEL], and what [current_el] of the HAL reads from it. *)
Definition CurrentEL (c : Core) : Z := Z.shiftl (Z.land (Z.shiftr (pstate c) 2) 3) 2.
Definition current_el (c : Core) : Z := Z.land (Z.shiftr (CurrentEL c) 2) 3.

(** ** Instructions *)

Inductive instr :=
| Stp (a b base : nat) (off : Z)
| StpD (a b base : nat) (off : Z)
| Str (a base : nat) (off : Z)
| Ldp (a b base : nat) (off : Z)
| LdpD (a b base : nat) (off : Z)
| Ldr (a base : nat) (off : Z)
| StpSp (a b : nat) (off : Z)
| LdpSp (a b : nat) (off : Z)
| MovFromSp (a : nat)
| MovToSp (a : nat)
| SubSp (imm : Z)
| AddSp (imm : Z)
| Lsr (a : nat) (imm : Z)
| AndImm (a : nat) (imm : Z)
| Mrs (a : nat) (r : sysreg)
| MovImm (a : nat) (imm : Z)
| MovZr (a : nat)
| MoviZero (v : nat)
| Msr (r : sysreg) (a : nat)
| MsrZr (r : sysreg)
| Ret
| Eret.

Definition ea (c : Core) (base : nat) (off : Z) : Z := wrapping_add64 (xreg c base) off.

(** One instruction at EL1, but for the program counter of a straight line. *)
Definition step (i : instr) (s : Core * Mem) : Core * Mem :=
  let '(c, m) := s in
  match i with
  | Stp a b n off => (c, write64 (write64 m (ea c n off) (xreg c a)) (ea c n (off + 8)) (xreg c b))
  | StpD a b n off => (c, write64 (write64 m (ea c n off) (dreg c a)) (ea c n (off + 8)) (dreg c b))
  | Str a n off => (c, write64 m (ea c n off) (xreg c a))
  | Ldp a b n off => (set_x b (read64 m (ea c n (off + 8))) (set_x a (read64 m (ea c n off)) c), m)
  | LdpD a b n off => (set_v b (read64 m (ea c n (off + 8))) (set_v a (read64 m (ea c n off)) c), m)
  | Ldr a n off => (set_x a (read64 m (ea c n off)) c, m)
  | StpSp a b off =>
      (c, write64 (write64 m (wrapping_add64 (sp_el1 c) off) (xreg c a)) (wrapping_add64 (sp_el1 c) (off + 8)) (xreg c b))
  | LdpSp a b off =>
      (set_x b (read64 m (wrapping_add64 (sp_el1 c) (off + 8))) (set_x a (read64 m (wrapping_add64 (sp_el1 c) off)) c), m)
  | SubSp imm => (set_sp (wrapping_add64 (sp_el1 c) (- imm)) c, m)
  | AddSp imm => (set_sp (wrapping_add64 (sp_el1 c) imm) c, m)
  | Lsr a imm => (set_x a (Z.shiftr (xreg c a) imm) c, m)
  | AndImm a imm => (set_x a (Z.land (xreg c a) imm) c, m)
  | Mrs a r => (set_x a (sysregs c r) c, m)
  | MovFromSp a => (set_x a (sp_el1 c) c, m)
  | MovToSp a => (set_sp (xreg c a) c, m)
  | MovImm a imm => (set_x a imm c, m)
  | MovZr a => (set_x a 0 c, m)
  | MoviZero v => (set_v v 0 c, m)
  | Msr r a => (set_sys r (xreg c a) c, m)
  | MsrZr r => (set_sys r 0 c, m)
  | Ret => (branch (xreg c 30) (pstate c) c, m)
  | Eret => (branch (sysregs c ELR_EL1) (sysregs c SPSR_EL1) c, m)
  end.

Definition privileged (i : instr) : bool :=
  match i with Mrs _ _ | Msr _ _ | MsrZr _ | Eret => true | _ => false end.

(** A routine runs to the [ret] or [eret] it ends in; without one, and for a privileged
    instruction outside EL1, there is no result. *)
Fixpoint exec (prog : list instr) (s : Core * Mem) : option (Core * Mem) :=
  match prog with
  | [] => None
  | i :: rest =>
      if privileged i && negb (bool_decide (current_el s.1 = 1)) then None else
      match i with
      | Ret | Eret => Some (step i s)
      | _ => exec rest (step i s)
      end
  end.

(** ** The task context *)

Record Aarch64TaskContext := { x19_x28 : list Z; fp : Z; lr : Z; sp : Z; d8_d15 : list Z }.

Definition context_zero : Aarch64TaskContext :=
  {| x19_x28 := replicate 10 0; fp := 0; lr := 0; sp := 0; d8_d15 := replicate 8 0 |}.

Definition CONTEXT_SIZE : Z := 168.

(** [repr(C)]: the words in the order of the fields. *)
Definition context_words (c : Aarch64TaskContext) : list Z := x19_x28 c ++ [fp c; lr c; sp c] ++ d8_d15 c.
Definition context_of_words (w : nat → Z) : Aarch64TaskContext :=
  {| x19_x28 := w <$> seq 0 10; fp := w 10%nat; lr := w 11%nat; sp := w 12%nat; d8_d15 := w <$> seq 13 8 |}.

Fixpoint write_words (m : Mem) (p : Z) (ws : list Z) : Mem :=
  match ws with [] => m | w :: ws => write_words (write64 m p w) (p + 8) ws end.
Definition store_context (p : Z) (c : Aarch64TaskContext) (m : Mem) : Mem := write_words m p (context_words c).
Definition load_context (p : Z) (m : Mem) : Aarch64TaskContext := context_of_words (λ i, read64 m (p + 8 * Z.of_nat i)).

(** What the procedure call standard has a callee keep, as a context. *)
Definition image (c : Core) : Aarch64TaskContext :=
  {| x19_x28 := xreg c <$> seq 19 10; fp := xreg c 29; lr := xreg c 30; sp := sp_el1 c; d8_d15 := dreg c <$> seq 8 8 |}.

(** The contexts of the slots, in an array at [base]. *)
Definition slot (base : Z) (i : nat) : Z := base + CONTEXT_SIZE * Z.of_nat i.

(** ** The assembly *)

Definition context_switch_asm : list instr := [
  Stp 19 20 0 0; Stp 21 22 0 16; Stp 23 24 0 32; Stp 25 26 0 48; Stp 27 28 0 64; Stp 29 30 0 80;
  MovFromSp 8; Str 8 0 96;
  StpD 8 9 0 104; StpD 10 11 0 120; StpD 12 13 0 136; StpD 14 15 0 152;
  LdpD 14 15 1 152; LdpD 12 13 1 136; LdpD 10 11 1 120; LdpD 8 9 1 104;
  Ldr 8 1 96; MovToSp 8;
  Ldp 29 30 1 80; Ldp 27 28 1 64; Ldp 25 26 1 48; Ldp 23 24 1 32; Ldp 21 22 1 16; Ldp 19 20 1 0;
  Ret ].

Definition enter_el0 : list instr := [
  Msr SP_EL0 20; Msr ELR_EL1 19; MovImm 8 0x3c0; Msr SPSR_EL1 8;
  MovZr 0; MovZr 1; MovZr 2; MovZr 3; MovZr 4; MovZr 5; MovZr 6; MovZr 7; MovZr 8; MovZr 9; MovZr 10;
  MovZr 11; MovZr 12; MovZr 13; MovZr 14; MovZr 15; MovZr 16; MovZr 17; MovZr 18; MovZr 19; MovZr 20;
  MovZr 21; MovZr 22; MovZr 23; MovZr 24; MovZr 25; MovZr 26; MovZr 27; MovZr 28; MovZr 29; MovZr 30;
  MoviZero 0; MoviZero 1; MoviZero 2; MoviZero 3; MoviZero 4; MoviZero 5; MoviZero 6; MoviZero 7;
  MoviZero 8; MoviZero 9; MoviZero 10; MoviZero 11; MoviZero 12; MoviZero 13; MoviZero 14; MoviZero 15;
  MoviZero 16; MoviZero 17; MoviZero 18; MoviZero 19; MoviZero 20; MoviZero 21; MoviZero 22; MoviZero 23;
  MoviZero 24; MoviZero 25; MoviZero 26; MoviZero 27; MoviZero 28; MoviZero 29; MoviZero 30; MoviZero 31;
  MsrZr FPCR; MsrZr FPSR; MsrZr TPIDR_EL0; MsrZr TPIDRRO_EL0;
  Eret ].

(** ** ContextSwitch for QemuVirtCpu *)

Section context_switch.
  Context (enter_el0_addr : Z).

Definition qemu_init_context (ctx : Aarch64TaskContext) (entry stack_top : Z) : Aarch64TaskContext :=
  {| x19_x28 := x19_x28 ctx; fp := fp ctx; lr := entry; sp := stack_top; d8_d15 := d8_d15 ctx |}.

Definition qemu_init_user_context (ctx : Aarch64TaskContext) (user_entry user_sp kernel_stack_top : Z) : Aarch64TaskContext :=
  {| x19_x28 := <[1%nat := user_sp]> (<[0%nat := user_entry]> (x19_x28 ctx)); fp := fp ctx; lr := enter_el0_addr;
     sp := kernel_stack_top; d8_d15 := d8_d15 ctx |}.

Definition qemu_contexts : Contexts Aarch64TaskContext :=
  {| ctx_default := context_zero; Sched.init_context := qemu_init_context; Sched.init_user_context := qemu_init_user_context |}.
End context_switch.

(** The call: the two pointers in [x0] and [x1], the return address in [x30]. *)
Definition call (current next return_to : Z) (c : Core) : Core := set_x 30 return_to (set_x 1 next (set_x 0 current c)).
Definition context_switch (current next return_to : Z) (s : Core * Mem) : option (Core * Mem) :=
  exec context_switch_asm (call current next return_to s.1, s.2).

(** ** Cpu *)

(** The trait; a saved [IrqState] is a word.  The two hints change no state of the
    kernel's. *)
Class Cpu (C : Type) := {
  current_core_id : C → Z;
  disable_irqs : C → C * Z;
  restore_irq_state : Z → C → C;
  wait_for_interrupt : C → option C;
  instruction_barrier : C → option C;
}.

(** The D, A, I and F bits. *)
Definition DAIF_MASK : Z := 0x3c0.
Definition daif (c : Core) : Z := Z.land (pstate c) DAIF_MASK.
Definition set_daif (v : Z) (c : Core) : Core :=
  set_pstate (Z.lor (Z.land (pstate c) (Z.lnot DAIF_MASK)) (Z.land v DAIF_MASK)) c.

Definition core_id (mpidr_el1 : Z) : Z := Z.land mpidr_el1 0xFF.

Definition qemu_cpu (mpidr_el1 : Z) : Cpu Core := {|
  current_core_id _ := core_id mpidr_el1;
  disable_irqs c := (set_pstate (Z.lor (pstate c) DAIF_MASK) c, daif c);
  restore_irq_state v c := set_daif v c;
  wait_for_interrupt c := Some c;
  instruction_barrier c := Some c;
|}.

(** [IrqGuard]: masked at the construction, restored at the drop. *)
Section guard.
  Context `{Cpu C}.

Definition guard_new (s : C) : C * Z := disable_irqs s.
Definition guard_drop (prev : Z) (s : C) : C := restore_irq_state prev s.

(** A scope that holds a guard around its body. *)
Definition guarded (body : C → C) (s : C) : C := let '(s, prev) := guard_new s in guard_drop prev (body s).
End guard.

(** [QemuVirtCpu::new]: EL1, then the timer's frequency. *)
Definition QemuVirtCpu_new (cntfrq_el0 : Z) (c : Core) : option QemuVirtCpu :=
  if negb (bool_decide (current_el c = 1)) then None else cpu_new cntfrq_el0.
