(* ===== verification/CpuProps.v ===== *)
(** * Properties of the CPU: switching is invisible, and EL0 starts clean

A switch saves and restores exactly what the procedure call standard asks a callee to
keep, so a task sees a call to [context_switch] that returns.  The first entry to EL0
leaves nothing of the kernel in the registers user code can read. *)

From S2P Require Import Prelude.
From S2P Require Import Hal.
From S2P Require Import UserAccess.
From S2P Require Import Words.
From S2P Require Import Timer.
From S2P Require Import Gic.
From S2P Require Import Sched.
From S2P Require Import Cpu.
Local Open Scope Z_scope.

(** ** The interrupt mask *)

(** What a critical section needs of a CPU: interrupts are masked after [disable_irqs],
    restoring the word it gave brings the mask back, and zero enables them. *)
Class IrqMask (C : Type) `{Cpu C} := {
  masked : C → bool;
  disable_masks c : masked (disable_irqs c).1 = true;
  restore_previous c c' : masked (restore_irq_state (disable_irqs c).2 c') = masked c;
  restore_zero c : masked (restore_irq_state 0 c) = false;
}.

(** A guard's body runs masked, and after the drop the mask is what it was, whatever the
    body did; so a guard inside another leaves the outer section masked. *)
Lemma guarded_scope `{IrqMask C} (body : C → C) c :
  masked (guard_new c).1 = true ∧ masked (guarded body c) = masked c.
Proof.
  unfold guarded, guard_new, guard_drop. pose proof (disable_masks c) as Hd.
  pose proof (λ c', restore_previous c c') as Hr. destruct (disable_irqs c) as [c1 prev]. by split.
Qed.

(** The board: interrupts are masked by the I bit. *)
#[export] Program Instance qemu_mask mpidr : @IrqMask Core (qemu_cpu mpidr) := { masked c := Z.testbit (pstate c) 7 }.
Next Obligation. intros mpidr c. change (Z.testbit (Z.lor (pstate c) DAIF_MASK) 7 = true). by rewrite Z.lor_spec, orb_true_r. Qed.
Next Obligation.
  intros mpidr c c'.
  change (Z.testbit (Z.lor (Z.land (pstate c') (Z.lnot DAIF_MASK)) (Z.land (Z.land (pstate c) DAIF_MASK) DAIF_MASK)) 7 = Z.testbit (pstate c) 7).
  rewrite Z.lor_spec, !Z.land_spec, Z.lnot_spec by done. change (Z.testbit DAIF_MASK 7) with true.
  by rewrite andb_false_r, !andb_true_r.
Qed.
Next Obligation.
  intros mpidr c. change (Z.testbit (Z.lor (Z.land (pstate c) (Z.lnot DAIF_MASK)) (Z.land 0 DAIF_MASK)) 7 = false).
  rewrite Z.lor_spec, !Z.land_spec, Z.lnot_spec by done. change (Z.testbit DAIF_MASK 7) with true.
  by rewrite andb_false_r.
Qed.

(** ** Contexts in memory *)

Definition wf_context (c : Aarch64TaskContext) : Prop :=
  length (x19_x28 c) = 10%nat ∧ length (d8_d15 c) = 8%nat ∧ Forall is_u64 (context_words c).

Definition core_ok (c : Core) : Prop := (∀ n, is_u64 (xreg c n)) ∧ is_u64 (sp_el1 c).

(** A pointer to a context: all of it is addressable. *)
Definition context_ptr (p : Z) : Prop := 0 ≤ p ∧ p + CONTEXT_SIZE ≤ 2 ^ 64.
Lemma context_ptr_u64 p : context_ptr p → is_u64 p.
Proof. unfold context_ptr, is_u64, CONTEXT_SIZE. lia. Qed.

Definition apart (p q : Z) : Prop := p + CONTEXT_SIZE ≤ q ∨ q + CONTEXT_SIZE ≤ p.

Lemma set_x_ok n v c : is_u64 v → core_ok c → core_ok (set_x n v c).
Proof. intros Hv [Hx Hs]. split; [|done]. intros k. cbn. unfold upd. by destruct (k =? n)%nat. Qed.

Lemma set_sp_ok v c : is_u64 v → core_ok c → core_ok (set_sp v c).
Proof. intros Hv [Hx Hs]. by split. Qed.

Lemma set_v_ok n v c : core_ok c → core_ok (set_v n v c).
Proof. done. Qed.

Lemma branch_ok p q c : core_ok c → core_ok (branch p q c).
Proof. done. Qed.

Lemma call_core_ok current next return_to c : is_u64 current → is_u64 next → is_u64 return_to → core_ok c →
  core_ok (call current next return_to c).
Proof. intros. by repeat apply set_x_ok. Qed.

Lemma dreg_u64 c n : is_u64 (dreg c n).
Proof. by apply Z.mod_pos_bound. Qed.

Lemma image_wf c : core_ok c → wf_context (image c).
Proof.
  intros [Hx Hs]. split; [done|]. split; [done|]. unfold context_words, image. cbn [x19_x28 fp lr sp d8_d15].
  rewrite !Forall_app, !Forall_fmap. split; [|split].
  - apply Forall_forall. intros. apply Hx.
  - by repeat apply Forall_cons_2.
  - apply Forall_forall. intros. apply dreg_u64.
Qed.

Lemma write_words_out ws : ∀ (m : Mem) p b, b < p ∨ p + 8 * Z.of_nat (length ws) ≤ b → write_words m p ws b = m b.
Proof.
  induction ws as [|w ws IH]; intros m p b Hb; cbn [write_words length] in *; [done|].
  rewrite IH by lia. apply write64_out. lia.
Qed.

Lemma write_words_lookup ws : ∀ m p i w, Forall is_u64 ws → ws !! i = Some w →
  read64 (write_words m p ws) (p + 8 * Z.of_nat i) = w.
Proof.
  induction ws as [|x ws IH]; intros m p i w Hf Hi; [done|]. apply Forall_cons in Hf as [Hx Hf]. cbn [write_words].
  destruct i as [|i]; cbn in Hi.
  - simplify_eq. rewrite Z.add_0_r. rewrite (read64_ext _ (write64 m p w)); [by apply read64_write64|].
    intros b Hb. apply write_words_out. lia.
  - rewrite <- (IH (write64 m p x) (p + 8) i w Hf Hi). f_equal. lia.
Qed.

Lemma context_words_length c : wf_context c → length (context_words c) = 21%nat.
Proof. intros (H1 & H2 & _). unfold context_words. rewrite !length_app, H1, H2. done. Qed.

Lemma store_context_out p c m b : wf_context c → b < p ∨ p + CONTEXT_SIZE ≤ b → store_context p c m b = m b.
Proof. intros Hc Hb. apply write_words_out. rewrite context_words_length by done. unfold CONTEXT_SIZE in Hb. lia. Qed.

Lemma load_context_ext p (m m' : Mem) : (∀ b, p ≤ b < p + CONTEXT_SIZE → m b = m' b) → load_context p m = load_context p m'.
Proof.
  intros H. unfold load_context, context_of_words. unfold CONTEXT_SIZE in H.
  assert (Hr : ∀ i : nat, (i < 21)%nat → read64 m (p + 8 * Z.of_nat i) = read64 m' (p + 8 * Z.of_nat i)).
  { intros i Hi. apply read64_ext. intros b Hb. apply H. lia. }
  f_equal; try (apply Hr; lia); apply list_fmap_ext; intros k x Hx; apply lookup_seq in Hx as [-> Hx]; apply Hr; lia.
Qed.

Lemma load_store_context p c m : wf_context c → load_context p (store_context p c m) = c.
Proof.
  intros Hc. pose proof Hc as (H1 & H2 & Hw).
  assert (Hr : ∀ i w, context_words c !! i = Some w → read64 (store_context p c m) (p + 8 * Z.of_nat i) = w)
    by (intros; by apply write_words_lookup).
  revert Hr. generalize (store_context p c m). intros m' Hr. unfold load_context, context_of_words.
  destruct c as [xs f l s ds]. unfold context_words in Hr. cbn [x19_x28 fp lr sp d8_d15] in *.
  f_equal.
  - apply list_eq. intros i. rewrite list_lookup_fmap. destruct (decide (i < 10)%nat) as [Hi|Hi].
    + destruct (lookup_lt_is_Some_2 xs i) as [x Hx]; [lia|]. rewrite lookup_seq_lt by done. rewrite Hx. cbn. f_equal. apply Hr.
      by rewrite lookup_app_l by lia.
    + rewrite lookup_ge_None_2 by (rewrite length_seq; lia). by rewrite lookup_ge_None_2 by lia.
  - apply Hr. rewrite lookup_app_r by lia. by rewrite H1.
  - apply Hr. rewrite lookup_app_r by lia. by rewrite H1.
  - apply Hr. rewrite lookup_app_r by lia. by rewrite H1.
  - apply list_eq. intros i. rewrite list_lookup_fmap. destruct (decide (i < 8)%nat) as [Hi|Hi].
    + destruct (lookup_lt_is_Some_2 ds i) as [x Hx]; [lia|]. rewrite lookup_seq_lt by done. rewrite Hx. cbn [fmap option_fmap option_map].
      f_equal. apply Hr. rewrite lookup_app_r by lia. rewrite H1. rewrite lookup_app_r by (cbn; lia).
      cbn [length]. by replace (13 + i - 10 - 3)%nat with i by lia.
    + rewrite lookup_ge_None_2 by (rewrite length_seq; lia). by rewrite lookup_ge_None_2 by lia.
Qed.

(** ** Running a routine *)

Definition ends (i : instr) : bool := match i with Ret | Eret => true | _ => false end.
Definition steps (l : list instr) (s : Core * Mem) : Core * Mem := fold_left (λ s i, step i s) l s.

Lemma step_pstate i s : ends i = false → pstate (step i s).1 = pstate s.1.
Proof. destruct s as [c m]. by destruct i. Qed.

(** A straight line runs instruction by instruction; a privileged one at EL1. *)
Lemma exec_app l1 l2 : ∀ s, forallb (λ i, negb (ends i)) l1 = true →
  forallb (λ i, negb (privileged i)) l1 = true ∨ current_el s.1 = 1 → exec (l1 ++ l2) s = exec l2 (steps l1 s).
Proof.
  induction l1 as [|i l1 IH]; intros s He Hp; [done|]. cbn in He, Hp. apply andb_prop in He as [He1 He2]. apply negb_true_iff in He1.
  rewrite <- app_comm_cons. cbn [exec]. change (steps (i :: l1) s) with (steps l1 (step i s)).
  assert (Hgo : privileged i && negb (bool_decide (current_el s.1 = 1)) = false).
  { destruct Hp as [Hp|Hp]; [|rewrite Hp; apply andb_false_r]. apply andb_prop in Hp as [Hp _]. by destruct (privileged i). }
  rewrite Hgo. rewrite <- IH; [by destruct i|done|].
  destruct Hp as [Hp|Hp]; [left; apply andb_prop in Hp as [_ Hp]; exact Hp|right].
  unfold current_el, CurrentEL in *. by rewrite step_pstate.
Qed.

(** ** The switch *)

Lemma wrap_ptr p off : context_ptr p → 0 ≤ off < CONTEXT_SIZE → wrapping_add64 p off = p + off.
Proof. intros [? ?] ?. apply Z.mod_small. lia. Qed.

Lemma write64_cong m m' a a' v v' : m = m' → a = a' → v = v' → write64 m a v = write64 m' a' v'.
Proof. congruence. Qed.

Definition save_half : list instr := take 12 context_switch_asm.
Definition restore_half : list instr := drop 12 context_switch_asm.

#[local] Opaque write64 read64 wrapping_add64 Z.modulo.

(** Registers after a run of updates. *)
Ltac upds := cbn; unfold upd; cbn.

(** The stores write the image to [x0]; only [x8] changes in the core. *)
Lemma save_half_runs c m : context_ptr (xreg c 0) →
  steps save_half (c, m) = (set_x 8 (sp_el1 c) c, store_context (xreg c 0) (image c) m).
Proof.
  intros Hp. unfold steps, save_half. cbn. f_equal. unfold ea. upds.
  rewrite !wrap_ptr by first [exact Hp | unfold CONTEXT_SIZE; lia].
  unfold store_context. cbn. repeat (apply write64_cong; [|lia|done]). done.
Qed.

(** Word [i] of the context at [p]. *)
Definition word_at (m : Mem) (p : Z) (i : nat) : Z := read64 m (p + 8 * Z.of_nat i).

Lemma word_at_ea c m p base off i : xreg c base = p → context_ptr p → off = 8 * Z.of_nat i → (i < 21)%nat →
  read64 m (ea c base off) = word_at m p i.
Proof. intros <- Hp -> Hi. unfold ea, word_at. rewrite wrap_ptr; [done|done|]. unfold CONTEXT_SIZE. lia. Qed.

Lemma exec_ldp c m p i a b off rest : xreg c 1 = p → context_ptr p → off = 8 * Z.of_nat i → (i < 20)%nat →
  exec (Ldp a b 1 off :: rest) (c, m) = exec rest (set_x b (word_at m p (S i)) (set_x a (word_at m p i) c), m).
Proof.
  intros H1 Hp Ho Hi. cbn [exec privileged andb step]. by rewrite (word_at_ea c m p 1 off i), (word_at_ea c m p 1 (off + 8) (S i)) by (done || lia).
Qed.

Lemma exec_ldpd c m p i a b off rest : xreg c 1 = p → context_ptr p → off = 8 * Z.of_nat i → (i < 20)%nat →
  exec (LdpD a b 1 off :: rest) (c, m) = exec rest (set_v b (word_at m p (S i)) (set_v a (word_at m p i) c), m).
Proof.
  intros H1 Hp Ho Hi. cbn [exec privileged andb step]. by rewrite (word_at_ea c m p 1 off i), (word_at_ea c m p 1 (off + 8) (S i)) by (done || lia).
Qed.

Lemma exec_ldr c m p i a off rest : xreg c 1 = p → context_ptr p → off = 8 * Z.of_nat i → (i < 20)%nat →
  exec (Ldr a 1 off :: rest) (c, m) = exec rest (set_x a (word_at m p i) c, m).
Proof. intros H1 Hp Ho Hi. cbn [exec privileged andb step]. by rewrite (word_at_ea c m p 1 off i) by (done || lia). Qed.

Lemma exec_mov_to_sp c m a rest : exec (MovToSp a :: rest) (c, m) = exec rest (set_sp (xreg c a) c, m).
Proof. done. Qed.

#[local] Opaque word_at.

(** The loads give the core the context at [x1], and [ret] goes where it says. *)
Lemma restore_half_runs c m : context_ptr (xreg c 1) → wf_context (load_context (xreg c 1) m) →
  ∃ c', exec restore_half (c, m) = Some (c', m) ∧ image c' = load_context (xreg c 1) m ∧
    pc c' = lr (load_context (xreg c 1) m) ∧ pstate c' = pstate c ∧ sysregs c' = sysregs c ∧ (core_ok c → core_ok c').
Proof.
  intros Hp (_ & _ & Hwf). set (p := xreg c 1) in *.
  change (context_words (load_context p m)) with (word_at m p <$> seq 0 21) in Hwf. rewrite Forall_fmap, Forall_forall in Hwf.
  assert (Hu : ∀ i : nat, (i < 21)%nat → is_u64 (word_at m p i)) by (intros i Hi; apply Hwf, elem_of_seq; lia).
  assert (Hd : Forall (λ i : nat, word_at m p i `mod` 2 ^ 64 = word_at m p i) (seq 13 8)).
  { apply Forall_forall. intros i Hi%elem_of_seq. apply Z.mod_small, Hu. lia. }
  unfold restore_half. cbn [drop context_switch_asm].
  rewrite (exec_ldpd _ _ p 19), (exec_ldpd _ _ p 17), (exec_ldpd _ _ p 15), (exec_ldpd _ _ p 13), (exec_ldr _ _ p 12) by (done || lia).
  rewrite exec_mov_to_sp. rewrite (exec_ldp _ _ p 10), (exec_ldp _ _ p 8), (exec_ldp _ _ p 6), (exec_ldp _ _ p 4), (exec_ldp _ _ p 2), (exec_ldp _ _ p 0) by (done || lia).
  cbn [exec privileged andb step]. eexists. split; [reflexivity|]. split; [|split_and!; [done..|]].
  - repeat (apply Forall_cons in Hd as [? Hd]).
    change (load_context p m) with (context_of_words (word_at m p)).
    unfold image, context_of_words, dreg. cbn.
    f_equal. by repeat f_equal.
  - intros Hok. apply branch_ok. repeat (apply set_x_ok; [by apply Hu; lia|]).
    apply set_sp_ok; [by apply (Hu 12%nat); lia|]. apply set_x_ok; [by apply Hu; lia|]. exact Hok.
Qed.

#[local] Transparent word_at.

(** A switch: the image goes to [current], and the core continues as [next] says. *)
Lemma context_switch_runs current next return_to c m : context_ptr current → context_ptr next →
  core_ok c → is_u64 return_to → let m' := store_context current (image (set_x 30 return_to c)) m in
  wf_context (load_context next m') →
  ∃ c', context_switch current next return_to (c, m) = Some (c', m') ∧ image c' = load_context next m' ∧
    pc c' = lr (load_context next m') ∧ pstate c' = pstate c ∧ sysregs c' = sysregs c ∧ core_ok c'.
Proof.
  intros Hc Hn Hok Hr m' Hwf. unfold context_switch. change context_switch_asm with (save_half ++ restore_half).
  rewrite exec_app by (done || by left). cbn [fst snd]. rewrite save_half_runs by done.
  destruct (restore_half_runs (set_x 8 (sp_el1 c) (call current next return_to c)) m' Hn Hwf) as (c' & ? & ? & ? & ? & ? & Hok').
  exists c'. split_and!; [done..|]. apply Hok', set_x_ok; [apply Hok|]. apply call_core_ok; [| |done|done]; by apply context_ptr_u64.
Qed.

(** ** Histories of switches *)

Section turns.
  Context (base : Z) (n : nat).

(** One switch: who leaves (nobody, when the scheduler starts or a task is gone: its
    context is then a throwaway on the stack), where to, where the call returns, and the
    core before and after. *)
Record turn := { from : option nat; to : nat; context_at : Z; return_to : Z; leaving : Core; arriving : Core }.

Definition left_with (t : turn) : Aarch64TaskContext := image (set_x 30 (return_to t) (leaving t)).

Definition turn_ok (t : turn) : Prop :=
  (to t < n)%nat ∧ core_ok (leaving t) ∧ is_u64 (return_to t) ∧
  match from t with
  | Some i => (i < n)%nat ∧ context_at t = slot base i
  | None => context_ptr (context_at t) ∧ (context_at t + CONTEXT_SIZE ≤ base ∨ slot base n ≤ context_at t)
  end.

(** Between switches the running task does anything to core and memory, the contexts
    excepted. *)
Inductive turns : Mem → list turn → Mem → Prop :=
| turns_nil (m : Mem) : turns m [] m
| turns_cons (m m1 m2 m' : Mem) t ts :
    (∀ a, base ≤ a < slot base n → m1 a = m a) → turn_ok t →
    context_switch (context_at t) (slot base (to t)) (return_to t) (leaving t, m1) = Some (arriving t, m2) →
    turns m2 ts m' → turns m (t :: ts) m'.

(** The slots hold these contexts. *)
Definition holds (m : Mem) (cs : list Aarch64TaskContext) : Prop :=
  length cs = n ∧ ∀ i c, cs !! i = Some c → wf_context c ∧ load_context (slot base i) m = c.

(** What the slots hold after some turns: of each, what it last left with. *)
Definition save (cs : list Aarch64TaskContext) (t : turn) : list Aarch64TaskContext :=
  match from t with Some i => <[i := left_with t]> cs | None => cs end.
Definition saved (cs : list Aarch64TaskContext) (ts : list turn) : list Aarch64TaskContext := fold_left save ts cs.

Context (base_ok : 0 ≤ base) (top_ok : slot base n ≤ 2 ^ 64).

Lemma context_slot_ptr i : (i < n)%nat → context_ptr (slot base i).
Proof. unfold context_ptr, slot, CONTEXT_SIZE in *. lia. Qed.

Lemma left_with_wf t : turn_ok t → wf_context (left_with t).
Proof.
  intros (_ & [Hx Hs] & Hr & _). apply image_wf. split; [|done]. intros k. cbn. unfold upd. by destruct (k =? 30)%nat.
Qed.

Lemma holds_ext (m m1 : Mem) cs : (∀ a, base ≤ a < slot base n → m1 a = m a) → holds m cs → holds m1 cs.
Proof.
  intros Hm [Hl Hh]. split; [done|]. intros i c Hi. destruct (Hh i c Hi) as [Hwf <-]. split; [done|].
  apply lookup_lt_Some in Hi. apply load_context_ext. intros b Hb. apply Hm. unfold slot, CONTEXT_SIZE in *. lia.
Qed.

Lemma holds_insert (m : Mem) cs i c : (i < n)%nat → wf_context c → holds m cs →
  holds (store_context (slot base i) c m) (<[i := c]> cs).
Proof.
  intros Hi Hwf [Hl Hh]. split; [by rewrite length_insert|]. intros j d Hj.
  apply list_lookup_insert_Some in Hj as [(<- & <- & _)|(Hne & Hj)].
  - split; [done|]. by apply load_store_context.
  - destruct (Hh j d Hj) as [? <-]. split; [done|]. apply load_context_ext. intros b Hb. apply store_context_out; [done|].
    unfold slot, CONTEXT_SIZE in *. lia.
Qed.

Lemma holds_store m cs t : turn_ok t → holds m cs → holds (store_context (context_at t) (left_with t) m) (save cs t).
Proof.
  intros Ht. pose proof (left_with_wf t Ht) as Hwf. destruct Ht as (_ & _ & _ & Hf). unfold save. destruct (from t) as [i|].
  - destruct Hf as [Hi ->]. by apply holds_insert.
  - destruct Hf as [Hp Hap]. apply holds_ext. intros a Ha. apply store_context_out; [done|]. lia.
Qed.

(** One turn: the switch returns, in the context its slot holds by then. *)
Lemma turn_runs m cs t : turn_ok t → holds m cs →
  ∃ c', context_switch (context_at t) (slot base (to t)) (return_to t) (leaving t, m) =
      Some (c', store_context (context_at t) (left_with t) m) ∧
    core_ok c' ∧
    ∃ c, save cs t !! to t = Some c ∧ image c' = c ∧ pc c' = lr c ∧ pstate c' = pstate (leaving t) ∧ sysregs c' = sysregs (leaving t).
Proof.
  intros Ht Hh. pose proof (holds_store m cs t Ht Hh) as [Hl Hs]. pose proof Ht as (Hto & Hok & Hr & Hf).
  destruct (lookup_lt_is_Some_2 (save cs t) (to t)) as [c Hc]; [lia|]. destruct (Hs _ _ Hc) as [Hwf Hload].
  destruct (context_switch_runs (context_at t) (slot base (to t)) (return_to t) (leaving t) m) as (c' & Hrun & Hi & Hpc & Hps & Hsys & Hok'); [|by apply context_slot_ptr|exact Hok|exact Hr| |].
  - destruct (from t); [destruct Hf as [? ->]; by apply context_slot_ptr|by destruct Hf].
  - fold (left_with t). rewrite Hload. exact Hwf.
  - fold (left_with t) in Hi, Hpc. rewrite Hload in Hi, Hpc. exists c'. split; [exact Hrun|]. split; [exact Hok'|]. exists c.
    split; [done|]. split; [exact Hi|]. split; [exact Hpc|]. split; [exact Hps|exact Hsys].
Qed.

Lemma turns_resume m ts m' : turns m ts m' → ∀ cs, holds m cs → holds m' (saved cs ts) ∧
  ∀ k t, ts !! k = Some t → ∃ c, saved cs (take (S k) ts) !! to t = Some c ∧
    image (arriving t) = c ∧ pc (arriving t) = lr c ∧ pstate (arriving t) = pstate (leaving t) ∧
    sysregs (arriving t) = sysregs (leaving t).
Proof.
  induction 1 as [m|m m1 m2 m' t ts Hm Ht Hrun _ IH]; intros cs Hh; [by split|].
  pose proof (holds_ext _ _ _ Hm Hh) as Hh1. destruct (turn_runs m1 cs t Ht Hh1) as (c' & Hrun' & _ & Hres).
  rewrite Hrun in Hrun'. injection Hrun' as Hc' ->. rewrite <- Hc' in Hres.
  destruct (IH (save cs t) (holds_store _ _ _ Ht Hh1)) as [Hend Hall]. split; [exact Hend|].
  intros [|k] t' Hk; cbn in Hk; [injection Hk as <-; exact Hres|]. by apply Hall.
Qed.
End turns.

(** ** The claims *)

(** Switching is invisible.  In any history of switches between the slots of the
    scheduler, whatever the running tasks do in between to core and memory short of the
    contexts: every switch returns; the core then has exactly the callee-saved registers,
    stack and return address with which the slot it goes to last left, or which
    [init_context] gave it when it has not run yet; the interrupt mask and the system
    registers are those of the leaving core; and the slots hold what their tasks last
    left with, so that the next switch returns too. *)
Theorem switches_are_invisible base n m cs ts m' : 0 ≤ base → slot base n ≤ 2 ^ 64 → holds base n m cs → turns base n m ts m' →
  (∀ k t, ts !! k = Some t → ∃ c, saved cs (take (S k) ts) !! to t = Some c ∧
     image (arriving t) = c ∧ pc (arriving t) = lr c ∧ pstate (arriving t) = pstate (leaving t) ∧
     sysregs (arriving t) = sysregs (leaving t)) ∧
  holds base n m' (saved cs ts) ∧
  (∀ t (m1 : Mem), turn_ok base n t → (∀ a, base ≤ a < slot base n → m1 a = m' a) →
     ∃ c' m2, context_switch (context_at t) (slot base (to t)) (return_to t) (leaving t, m1) = Some (c', m2)).
Proof.
  intros Hb Ht Hh Hts. destruct (turns_resume base n Hb Ht m ts m' Hts cs Hh) as [Hend Hall]. split; [exact Hall|]. split; [exact Hend|].
  intros t m1 Hok Hm. destruct (turn_runs base n Hb Ht m1 (saved cs ts) t Hok) as (c' & Hrun & _); [by eapply holds_ext|].
  by eexists _, _.
Qed.

(** Two tasks at 0x4000 and 0x5000, started by a scheduler whose own context is at
    0x9000: task 0 runs, task 1 runs, task 0 runs on. *)
Definition sample_contexts : list Aarch64TaskContext :=
  [qemu_init_context context_zero 0x4000 0x8000; qemu_init_context context_zero 0x5000 0x8800].
Definition sample_slots : Mem :=
  store_context 0x1000 (qemu_init_context context_zero 0x4000 0x8000)
    (store_context 0x10a8 (qemu_init_context context_zero 0x5000 0x8800) (λ _, 0)).
(** Every register of a core, and its stack pointer, holds the same. *)
Definition core_of (v : Z) : Core :=
  {| xreg := λ _, v; sp_el1 := v; vreg := λ _, v; sysregs := λ _, 0; pc := 0; pstate := 0x3c5 |}.

Lemma core_of_ok v : is_u64 v → core_ok (core_of v).
Proof. by split. Qed.

Lemma small_context_wf entry stack_top : 0 ≤ entry < 0x10000 → 0 ≤ stack_top < 0x10000 →
  wf_context (qemu_init_context context_zero entry stack_top).
Proof.
  intros ? ?. split; [done|]. split; [done|]. unfold context_words, is_u64. cbn [qemu_init_context context_zero x19_x28 fp lr sp d8_d15 replicate app].
  repeat (apply Forall_cons_2; [lia|]). by apply Forall_nil.
Qed.

Lemma sample_slots_hold : holds 0x1000 2 sample_slots sample_contexts.
Proof.
  split; [done|]. intros [|[|i]] c Hi; [injection Hi as <-|injection Hi as <-|done].
  - split; [by apply small_context_wf|]. apply load_store_context. by apply small_context_wf.
  - assert (Hwf : wf_context (qemu_init_context context_zero 0x5000 0x8800)) by by apply small_context_wf.
    split; [exact Hwf|].
    transitivity (load_context 0x10a8 (store_context 0x10a8 (qemu_init_context context_zero 0x5000 0x8800) (λ _, 0)));
      [|by apply load_store_context].
    apply load_context_ext. intros b Hb. apply store_context_out; [by apply small_context_wf|].
    unfold slot, CONTEXT_SIZE in *. lia.
Qed.

Lemma switches_are_invisible_witness : ∃ a1 a2 a3 m',
  turns 0x1000 2 sample_slots
    [ {| from := None; to := 0; context_at := 0x9000; return_to := 0x100; leaving := core_of 1; arriving := a1 |};
      {| from := Some 0%nat; to := 1; context_at := 0x1000; return_to := 0x200; leaving := core_of 77; arriving := a2 |};
      {| from := Some 1%nat; to := 0; context_at := 0x10a8; return_to := 0x300; leaving := core_of 88; arriving := a3 |} ] m' ∧
  pc a1 = 0x4000 ∧ sp_el1 a1 = 0x8000 ∧ pc a2 = 0x5000 ∧ pc a3 = 0x200 ∧ xreg a3 19 = 77 ∧ sp_el1 a3 = 77 ∧ dreg a3 8 = 77.
Proof.
  pose (t1 a := {| from := None; to := 0%nat; context_at := 0x9000; return_to := 0x100; leaving := core_of 1; arriving := a |}).
  pose (t2 a := {| from := Some 0%nat; to := 1%nat; context_at := 0x1000; return_to := 0x200; leaving := core_of 77; arriving := a |}).
  pose (t3 a := {| from := Some 1%nat; to := 0%nat; context_at := 0x10a8; return_to := 0x300; leaving := core_of 88; arriving := a |}).
  assert (O1 : ∀ a, turn_ok 0x1000 2 (t1 a)).
  { intros a. split; [cbn; lia|]. split; [by apply core_of_ok|]. split; [done|]. split; [by split|]. right. cbn. unfold slot, CONTEXT_SIZE. lia. }
  assert (O2 : ∀ a, turn_ok 0x1000 2 (t2 a)).
  { intros a. split; [cbn; lia|]. split; [by apply core_of_ok|]. split; [done|]. split; [cbn; lia|done]. }
  assert (O3 : ∀ a, turn_ok 0x1000 2 (t3 a)).
  { intros a. split; [cbn; lia|]. split; [by apply core_of_ok|]. split; [done|]. split; [cbn; lia|done]. }
  assert (Htop : slot 0x1000 2 ≤ 2 ^ 64) by done.
  pose proof sample_slots_hold as H0.
  destruct (turn_runs 0x1000 2 ltac:(lia) Htop _ _ _ (O1 (core_of 0)) H0) as (a1 & R1 & _).
  pose proof (holds_store 0x1000 2 _ _ _ (O1 a1) H0) as H1.
  destruct (turn_runs 0x1000 2 ltac:(lia) Htop _ _ _ (O2 (core_of 0)) H1) as (a2 & R2 & _).
  pose proof (holds_store 0x1000 2 _ _ _ (O2 a2) H1) as H2.
  destruct (turn_runs 0x1000 2 ltac:(lia) Htop _ _ _ (O3 (core_of 0)) H2) as (a3 & R3 & _).
  pose proof (holds_store 0x1000 2 _ _ _ (O3 a3) H2) as H3.
  assert (Hts : turns 0x1000 2 sample_slots [t1 a1; t2 a2; t3 a3]
    (store_context 0x10a8 (left_with (t3 a3)) (store_context 0x1000 (left_with (t2 a2)) (store_context 0x9000 (left_with (t1 a1)) sample_slots)))).
  { eapply turns_cons; [intros b _; reflexivity|apply O1|exact R1|].
    eapply turns_cons; [intros b _; reflexivity|apply O2|exact R2|].
    eapply turns_cons; [intros b _; reflexivity|apply O3|exact R3|apply turns_nil]. }
  destruct (switches_are_invisible 0x1000 2 sample_slots sample_contexts [t1 a1; t2 a2; t3 a3] _ ltac:(lia) Htop H0 Hts) as [Hall _].
  destruct (Hall 0%nat (t1 a1) eq_refl) as (c1 & E1 & I1 & P1 & _). apply (inj Some) in E1. rewrite <- E1 in I1, P1.
  destruct (Hall 1%nat (t2 a2) eq_refl) as (c2 & E2 & I2 & P2 & _). apply (inj Some) in E2. rewrite <- E2 in I2, P2.
  destruct (Hall 2%nat (t3 a3) eq_refl) as (c3 & E3 & I3 & P3 & _). apply (inj Some) in E3. rewrite <- E3 in I3, P3.
  exists a1, a2, a3. eexists. split; [exact Hts|]. split; [exact P1|]. split; [exact (f_equal sp I1)|]. split; [exact P2|]. split; [exact P3|].
  split; [|split; [exact (f_equal sp I3)|]].
  - apply (inj Some). exact (f_equal (λ k, x19_x28 k !! 0%nat) I3).
  - apply (inj Some). exact (f_equal (λ k, d8_d15 k !! 0%nat) I3).
Defined.

(** What a program at EL0 can read of the core. *)
Record El0View := { view_x : list Z; view_v : list Z; view_sys : list Z; view_pc : Z; view_pstate : Z }.
Definition el0_view (c : Core) : El0View :=
  {| view_x := xreg c <$> seq 0 31; view_v := vreg c <$> seq 0 32;
     view_sys := sysregs c <$> [SP_EL0; FPCR; FPSR; TPIDR_EL0; TPIDRRO_EL0]; view_pc := pc c; view_pstate := pstate c |}.

(** The view of a program that starts: EL0 with everything masked, its entry and stack,
    zeroes. *)
Definition fresh_view (user_entry user_sp : Z) : El0View :=
  {| view_x := replicate 31 0; view_v := replicate 32 0; view_sys := [user_sp; 0; 0; 0; 0]; view_pc := user_entry;
     view_pstate := 0x3c0 |}.

Lemma enter_el0_runs c m : current_el c = 1 →
  ∃ c', exec enter_el0 (c, m) = Some (c', m) ∧ el0_view c' = fresh_view (xreg c 19) (xreg c 20) ∧ sp_el1 c' = sp_el1 c.
Proof.
  intros Hel. assert (Hm : ∀ l c, (steps (take 71 enter_el0) (c, l)).2 = l) by reflexivity.
  exists (step Eret (steps (take 71 enter_el0) (c, m))).1. split; [|by vm_compute].
  change enter_el0 with (take 71 enter_el0 ++ [Eret]) at 1. rewrite exec_app by (done || by right). cbn [exec].
  assert (Hel' : current_el (steps (take 71 enter_el0) (c, m)).1 = 1) by exact Hel.
  rewrite Hel'. cbn [privileged andb negb]. rewrite bool_decide_true by done. cbn [negb].
  specialize (Hm m c). revert Hm. generalize (steps (take 71 enter_el0) (c, m)). intros [c0 m0] Hm. cbn in Hm. by subst m0.
Qed.

(** C14: the first entry to EL0 shows the program nothing of the kernel.  From any
    kernel core, with a context at [next] that [init_user_context] seeded, whatever it
    held before, a switch arrives at [enter_el0], which ends at EL0 in the program's
    entry with its stack, interrupts masked, every general and vector register and every
    other register EL0 reads zero, and the kernel stack in place for the first trap; no
    memory but the context of the leaving task changed. *)
Theorem el0_entry_is_clean addr ctx user_entry user_sp kernel_stack_top current next return_to c m :
  context_ptr current → context_ptr next → apart current next → core_ok c → is_u64 return_to → current_el c = 1 →
  wf_context ctx → is_u64 addr → is_u64 user_entry → is_u64 user_sp → is_u64 kernel_stack_top →
  load_context next m = qemu_init_user_context addr ctx user_entry user_sp kernel_stack_top →
  ∃ c1 m1 c2, context_switch current next return_to (c, m) = Some (c1, m1) ∧ pc c1 = addr ∧
    exec enter_el0 (c1, m1) = Some (c2, m1) ∧ el0_view c2 = fresh_view user_entry user_sp ∧
    current_el c2 = 0 ∧ sp_el1 c2 = kernel_stack_top ∧
    ∀ a, a < current ∨ current + CONTEXT_SIZE ≤ a → m1 a = m a.
Proof.
  intros Hc Hn Hap Hok Hr Hel (Hx & Hd & Hw) Ha He Hs Hk Hload.
  assert (Hwi : wf_context (image (set_x 30 return_to c))).
  { apply image_wf. destruct Hok. split; [|done]. intros k. cbn. unfold upd. by destruct (k =? 30)%nat. }
  assert (Hl : load_context next (store_context current (image (set_x 30 return_to c)) m) =
    qemu_init_user_context addr ctx user_entry user_sp kernel_stack_top).
  { rewrite <- Hload. apply load_context_ext. intros b Hb. apply store_context_out; [done|]. unfold apart in Hap. lia. }
  assert (Hwf : wf_context (qemu_init_user_context addr ctx user_entry user_sp kernel_stack_top)).
  { split; [cbn; by rewrite !length_insert|]. split; [done|]. unfold context_words in *. cbn. apply Forall_app in Hw as [Hw1 Hw].
    cbn in Hw. apply Forall_cons in Hw as [? Hw]. apply Forall_cons in Hw as [? Hw]. apply Forall_cons in Hw as [? Hw].
    apply Forall_app. split; [by repeat apply Forall_insert|by repeat apply Forall_cons_2]. }
  destruct (context_switch_runs current next return_to c m Hc Hn Hok Hr) as (c1 & Hrun & Hi & Hpc & Hps & _); [by rewrite Hl|].
  rewrite Hl in Hi, Hpc. destruct (enter_el0_runs c1 (store_context current (image (set_x 30 return_to c)) m)) as (c2 & Hrun2 & Hv & Hsp).
  { unfold current_el, CurrentEL in *. by rewrite Hps. }
  exists c1, (store_context current (image (set_x 30 return_to c)) m), c2. split; [exact Hrun|]. split; [exact Hpc|]. split; [exact Hrun2|].
  assert (Hreg : xreg c1 19 = user_entry ∧ xreg c1 20 = user_sp ∧ sp_el1 c1 = kernel_stack_top).
  { destruct ctx as [xs ? ? ? ?]. cbn in Hx. do 2 (destruct xs as [|? xs]; [done|]). split_and!.
    - apply (inj Some). exact (f_equal (λ k, x19_x28 k !! 0%nat) Hi).
    - apply (inj Some). exact (f_equal (λ k, x19_x28 k !! 1%nat) Hi).
    - exact (f_equal Cpu.sp Hi). }
  destruct Hreg as (H19 & H20 & Hks). rewrite H19, H20 in Hv. split; [exact Hv|]. split; [|split; [by rewrite Hsp|]].
  - assert (Hp2 : pstate c2 = 0x3c0) by exact (f_equal view_pstate Hv). unfold current_el, CurrentEL. by rewrite Hp2.
  - intros a Ha'. by apply store_context_out.
Qed.

(** A context that a task of the kernel used before, seeded again for a program: none of
    the 99s in the context and of the 77s in the core is left. *)
Definition used_context : Aarch64TaskContext :=
  {| x19_x28 := replicate 10 99; fp := 99; lr := 99; sp := 99; d8_d15 := replicate 8 99 |}.
Definition seeded : Aarch64TaskContext := qemu_init_user_context 0x7000 used_context 0x800000 0x803000 0x8000.

Lemma seeded_wf : wf_context seeded.
Proof. split; [done|]. split; [done|]. unfold context_words. cbn. by repeat apply Forall_cons_2. Qed.

Lemma el0_entry_is_clean_witness : ∃ c1 m1 c2,
  context_switch 0x1000 0x2000 0x100 (core_of 77, store_context 0x2000 seeded (λ _, 0)) = Some (c1, m1) ∧
  exec enter_el0 (c1, m1) = Some (c2, m1) ∧ el0_view c2 = fresh_view 0x800000 0x803000 ∧ sp_el1 c2 = 0x8000.
Proof.
  destruct (el0_entry_is_clean 0x7000 used_context 0x800000 0x803000 0x8000 0x1000 0x2000 0x100 (core_of 77)
    (store_context 0x2000 seeded (λ _, 0))) as (c1 & m1 & c2 & H1 & _ & H2 & Hv & _ & Hs & _).
  1-2: by split.
  - by left.
  - by apply core_of_ok.
  - done.
  - done.
  - split; [done|]. split; [done|]. unfold context_words. cbn. by repeat apply Forall_cons_2.
  - done.
  - done.
  - done.
  - done.
  - apply load_store_context, seeded_wf.
  - exists c1, m1, c2. split; [exact H1|]. split; [exact H2|]. split; [exact Hv|exact Hs].
Defined.
