(* ===== verification/Board.v ===== *)
(** * Tasks on the core: the scheduler composed with the assembly

The scheduler decides where control goes, the board's [context_switch] takes it there, and
the contexts of the tasks are words in memory.  Here the two run together: an
operation of the scheduler is followed by the switch it asks for, executed instruction by
instruction.  The specification beside it gives every task a core of its own, on which
nothing but the task itself works. *)

From stdpp Require Import gmap.
From S2P Require Import Prelude.
From S2P Require Import Hal.
From S2P Require Import Objects.
From S2P Require Import UserAccess.
From S2P Require Import Words.
From S2P Require Import Sched.
From S2P Require Import SchedRun.
From S2P Require Import Cpu.
Local Open Scope Z_scope.

(** ** The switch an operation asks for *)

(** The slot left (none when the scheduler starts or a task exits), and the slot
    entered. *)
Definition hop : Type := option nat * nat.

Definition hop_of (d : dispatch) : option hop :=
  match d with Stay => None | Switch i j _ => Some (Some i, j) end.

Section moves.
  Context `{Build} `{Contexts Ctx}.

(** Each operation, with the switch that ends it. *)
Definition op_hop (op : sched_op) : M (Scheduler Ctx) SchedError (option hop) :=
  match op with
  | OStart => let* r := start in ret (Some (None, r.2))
  | OExit => let* r := task_exit_current in ret (Some (None, r.2))
  | OYield => let* d := yield_now in ret (hop_of d)
  | OBlock ep =>
      let* d := block_and_dispatch ep in
      match d with
      | None => ret None
      | Some (i, j, a) => let* d := switch_to i j a in ret (hop_of d)
      end
  | _ => let* _ := op_run op in ret None
  end.

(** A registration: the slot, and what it does to the context there. *)
Definition seed (op : sched_op) : option (nat * (Ctx → Ctx)) :=
  match op with
  | OAdd h _ entry sp | OIdle h _ entry sp => Some (task_index h, λ c, init_context c entry sp)
  | OAddUser h _ entry usp ksp _ => Some (task_index h, λ c, init_user_context c entry usp ksp)
  | _ => None
  end.
End moves.

(** ** Runs *)

(** Code between two calls of the scheduler: it leaves this core, and has written
    these bytes.  A call: the address it returns to, and, for a start or an exit, where
    the throwaway context lies on the stack. *)
Inductive event :=
| EBody (c : Core) (ws : list (Z * Z))
| EOp (op : sched_op) (return_to throwaway : Z).

Definition pokes (ws : list (Z * Z)) (m : Mem) : Mem :=
  fold_left (λ (m : Mem) w a, if bool_decide (a = w.1) then w.2 else m a) ws m.

Section board.
  Context `{Build} (enter_el0_addr base : Z).

#[local] Instance board_contexts : Contexts Aarch64TaskContext := qemu_contexts enter_el0_addr.

Notation TaskWorld := (world Aarch64TaskContext).

(** *** The board *)

(** One core; the contexts of the tasks that do not run are in the array at [base]. *)
Record Board := { bworld : TaskWorld; bcore : Core; bmem : Mem }.

(** The registration writes its context. *)
Definition seeded_memory (op : sched_op) (m : Mem) : Mem :=
  match seed op with
  | Some (i, f) => store_context (slot base i) (f (load_context (slot base i) m)) m
  | None => m
  end.

Definition board_step (e : event) (b : Board) : option Board :=
  match e with
  | EBody c ws => Some {| bworld := bworld b; bcore := c; bmem := pokes ws (bmem b) |}
  | EOp op return_to throwaway =>
      match world_step op (bworld b), op_hop op (wsched (bworld b)) with
      | Some w, Some (_, Ok h) =>
          match h with
          | None => Some {| bworld := w; bcore := bcore b; bmem := seeded_memory op (bmem b) |}
          | Some (from, to) =>
              let left := match from with Some i => slot base i | None => throwaway end in
              match context_switch left (slot base to) return_to (bcore b, bmem b) with
              | Some (c, m) => Some {| bworld := w; bcore := c; bmem := m |}
              | None => None
              end
          end
      | _, _ => None
      end
  end.

Fixpoint board_run (es : list event) (b : Board) : option Board :=
  match es with
  | [] => Some b
  | e :: es => match board_step e b with Some b' => board_run es b' | None => None end
  end.

(** *** A core for each task *)

(** What of a core is a task's own: where it goes on, and what the procedure call
    standard keeps for it. *)
Record VCore := { v_pc : Z; v_saved : Aarch64TaskContext }.

Definition vcore_of (c : Core) : VCore := {| v_pc := pc c; v_saved := image c |}.

(** A task that has called the scheduler goes on where the call returns. *)
Definition vcore_called (return_to : Z) (v : VCore) : VCore :=
  {| v_pc := return_to;
     v_saved := {| x19_x28 := x19_x28 (v_saved v); fp := fp (v_saved v); lr := return_to; sp := sp (v_saved v);
                   d8_d15 := d8_d15 (v_saved v) |} |}.

(** A new task starts with the context it was registered with, on zeroes. *)
Definition vcore_new (f : Aarch64TaskContext → Aarch64TaskContext) : VCore :=
  {| v_pc := lr (f context_zero); v_saved := f context_zero |}.

(** Every task has its core; the processor state, the system registers and the memory
    belong to all. [vboot] is the core before the scheduler starts. *)
Record VBoard := {
  vworld : TaskWorld;
  vcores : gmap nat VCore;
  vboot : VCore;
  vpstate : Z;
  vsys : sysreg → Z;
  vmem : Mem;
}.

Definition running (w : TaskWorld) : option nat := task_index <$> current (wsched w).

(** The core at work. *)
Definition vrunning (v : VBoard) : VCore :=
  match running (vworld v) with
  | Some i => default (vboot v) (vcores v !! i)
  | None => vboot v
  end.

(** A call that passes control on: the caller's core waits at its return, but an exited
    task is gone, with its core. *)
Definition vleave (op : sched_op) (w w' : TaskWorld) (return_to : Z) (cs : gmap nat VCore) : gmap nat VCore :=
  match running w with
  | Some i =>
      if bool_decide (running w' = Some i) then cs else
      match op with
      | OExit => delete i cs
      | _ => alter (vcore_called return_to) i cs
      end
  | None => cs
  end.

Definition vseed (op : sched_op) (cs : gmap nat VCore) : gmap nat VCore :=
  match seed op with
  | Some (i, f) => <[i := vcore_new f]> cs
  | None => cs
  end.

(** A start or an exit spills what it leaves to the throwaway. *)
Definition vspill (op : sched_op) (return_to throwaway : Z) (v : VBoard) : Mem :=
  match op with
  | OStart | OExit => store_context throwaway (v_saved (vcore_called return_to (vrunning v))) (vmem v)
  | _ => vmem v
  end.

Definition virtual_step (e : event) (v : VBoard) : option VBoard :=
  match e with
  | EBody c ws =>
      Some {| vworld := vworld v;
              vcores := match running (vworld v) with Some i => <[i := vcore_of c]> (vcores v) | None => vcores v end;
              vboot := match running (vworld v) with Some _ => vboot v | None => vcore_of c end;
              vpstate := pstate c; vsys := sysregs c; vmem := pokes ws (vmem v) |}
  | EOp op return_to throwaway =>
      match world_step op (vworld v) with
      | Some w =>
          Some {| vworld := w; vcores := vseed op (vleave op (vworld v) w return_to (vcores v)); vboot := vboot v;
                  vpstate := vpstate v; vsys := vsys v; vmem := vspill op return_to throwaway v |}
      | None => None
      end
  end.

Fixpoint virtual_run (es : list event) (v : VBoard) : option VBoard :=
  match es with
  | [] => Some v
  | e :: es => match virtual_step e v with Some v' => virtual_run es v' | None => None end
  end.
End board.
