(* ===== verification/BoardProps.v ===== *)
(** * Properties of tasks on the core: every task has a core of its own

Whatever the tasks do between their calls, the board's one core, switched by the
scheduler through contexts in memory, is at every moment the core of the running task
in a machine where each task has its own. *)

From stdpp Require Import gmap.
From S2P Require Import Prelude.
From S2P Require Import Hal.
From S2P Require Import Arena.
From S2P Require Import Objects.
From S2P Require Import UserAccess.
From S2P Require Import Words.
From S2P Require Import Sched.
From S2P Require Import SchedInv.
From S2P Require Import SchedOps.
From S2P Require Import SchedRun.
From S2P Require Import SchedProps.
From S2P Require Import Cpu.
From S2P Require Import CpuProps.
From S2P Require Import Board.
Local Open Scope Z_scope.

(** ** What an operation does to the running task *)

Section moved.
Context `{Build} `{!Contexts Ctx}.
Implicit Types (s : Scheduler Ctx) (w : world Ctx).

Inductive moved (op : sched_op) s s' : option hop → Prop :=
| moved_seed h f c : seed op = Some (task_index h, f) → fresh_slot s h →
    contexts s !! task_index h = Some c → contexts s' !! task_index h = Some (f c) →
    task_handles s' = <[task_index h := Some h]> (task_handles s) → current s' = current s → moved op s s' None
| moved_stay : seed op = None → op ≠ OStart → op ≠ OExit →
    task_handles s' = task_handles s → current s' = current s → moved op s s' None
| moved_switch c h : op = OYield ∨ (∃ ep, op = OBlock ep) → current s = Some c → current s' = Some h → h ≠ c →
    registered s h → task_handles s' = task_handles s → moved op s s' (Some (Some (task_index c), task_index h))
| moved_boot h : op = OStart ∧ current s = None ∨ (op = OExit ∧ ∃ c, current s = Some c ∧ h ≠ c) → current s' = Some h →
    registered s h → task_handles s' = task_handles s → moved op s s' (Some (None, task_index h)).

Lemma op_hop_run op s s' hop : op_hop op s = Some (s', Ok hop) → ∃ a, op_run op s = Some (s', Ok a).
Proof.
  assert (Hok : ∀ E A B (m : M (Scheduler Ctx) E A) (k : A → M (Scheduler Ctx) E B) s b,
    bind m k s = Some (s', Ok b) ↔ ∃ s1 a, m s = Some (s1, Ok a) ∧ k a s1 = Some (s', Ok b)).
  { intros E A B m k s0 b. unfold bind. destruct (m s0) as [[s1 [a|e]]|]; naive_solver. }
  destruct op; cbn [op_hop op_run]; intros (s1 & r & E1 & E2)%Hok; cbn [ret] in E2.
  1-3, 8: injection E2 as -> _; by exists r.
  1-2: injection E2 as -> _; exists r.1; apply Hok; by eexists _, _.
  - injection E2 as -> _; exists (activated r); apply Hok; by eexists _, _.
  - destruct r as [[[i j] a]|]; [apply Hok in E2 as (s2 & d & E2 & E3); injection E3 as -> _|injection E2 as -> _].
    + exists (activated d). apply Hok. eexists _, _. split; [exact E1|]. apply Hok. by eexists _, _.
    + exists None. apply Hok. eexists _, _. by split; [exact E1|].
Qed.

Lemma op_hop_of op s (Q : option hop → Scheduler Ctx → Prop) : wp (op_hop op) s (λ s' r, ∃ o, r = Ok o ∧ Q o s') →
  ∃ s' o, op_hop op s = Some (s', Ok o) ∧ Q o s'.
Proof. intros (s' & r & E & o & -> & HQ)%wp_run. eauto. Qed.

(** A registration has written the context of its slot. *)
Ltac seeds Hc :=
  red; cbn [ret]; red; cbn [ret]; eexists; (split; [done|]); eapply moved_seed; [done|done|exact Hc| |done..];
  cbn; apply list_lookup_insert_eq; by eapply lookup_lt_Some.

Lemma op_moved op w l : world_ok w l → op_pre op (wsched w) →
  ∃ s' o, op_hop op (wsched w) = Some (s', Ok o) ∧ moved op (wsched w) s' o.
Proof.
  intros Hw Hpre. pose proof (wo_sched _ _ Hw) as Hs. apply (op_hop_of op (wsched w) (λ o s', moved op (wsched w) s' o)).
  destruct op; cbn [op_hop op_run op_pre] in *; apply wp_bind.
  - apply wp_bind. eapply wp_mono; [by apply (add_task_wp _ l)|]. intros s' r (-> & q & c & Hc & Hq & ->). by seeds Hc.
  - destruct Hpre as (Hf & H1 & H2 & H3 & H4).
    apply wp_bind. eapply wp_mono; [by apply (add_user_task_wp _ l)|]. intros s' r (-> & q & c & Hc & Hq & ->). by seeds Hc.
  - destruct Hpre as [Hf Hi].
    apply wp_bind. eapply wp_mono; [by apply (register_idle_wp _ l)|]. intros s' r (-> & c & Hc & ->). by seeds Hc.
  - destruct Hpre as [Hc Hn]. destruct (boot_next_some _ _ Hs Hn) as [h Hh].
    eapply wp_mono; [by apply start_wp|]. intros s' r (q & a & -> & _ & -> & Hok). red; cbn [ret snd].
    eexists. split; [done|]. apply moved_boot; [by left|done| |done]. by apply (so_current _ _ Hok).
  - destruct Hpre as [(c & Hc & Hci) Hn]. destruct (boot_next_some _ _ Hs Hn) as [h Hh].
    eapply wp_mono; [by apply start_wp|]. intros s' r (q & a & -> & _ & -> & Hok). red; cbn [ret snd].
    eexists. split; [done|]. apply moved_boot; [right; split; [done|]; exists c; split; [done|]|done| |done].
    + destruct (boot_next_in _ _ _ Hh) as [_ [Hin|?]]; [|congruence]. intros ->.
      by apply (so_ready _ _ Hs) in Hin as (_ & ? & _).
    + by apply (so_current _ _ Hok).
  - destruct Hpre as [c Hc]. eapply wp_mono; [by apply (yield_now_wp _ l)|].
    intros s' r (q & l' & next & Hy & Hq & Hr). destruct next as [h|].
    + destruct Hr as (-> & a & b & Ha & Hb & ->). red; cbn [ret hop_of]. eexists. split; [done|].
      destruct l as [|h' t]; [done|]. cbn in Hy. injection Hy as _ <-.
      destruct (so_ready _ _ Hs h) as ([? _] & ? & _); [by left|].
      apply moved_switch; [by left|done|done|congruence|done|done].
    + destruct Hr as (-> & ->). red; cbn [ret hop_of]. eexists. split; [done|]. by apply moved_stay.
  - destruct Hpre as (c & Hc & Hci). eapply wp_mono; [by apply (block_and_dispatch_wp _ l)|]. intros s' r.
    destruct (block_next (wsched w) l c) as [h|] eqn:Hn.
    + intros (q & a & b & Hq & Hne & Hrh & -> & Ha & Hb & ->).
      pose proof (so_current _ _ Hs c Hc) as [Hreg _].
      apply wp_bind. eapply switch_to_wp; [by eapply blocked_state_ok|..].
      * intros Hi. apply Hne. symmetry. by apply (registered_inj (wsched w)); [done|apply Hrh|].
      * by eapply registered_lt.
      * eapply registered_lt; [done|apply Hrh].
      * red; cbn [ret hop_of]. eexists. split; [done|]. apply moved_switch; [right; by eexists|done|done|done|apply Hrh|done].
    + intros (-> & ->). red; cbn [ret]. eexists. split; [done|]. by apply moved_stay.
  - apply wp_bind. eapply wp_mono; [by apply (unblock_loop_wp TASK_ARENA_CAPACITY 0)|].
    intros s' r (-> & [(-> & _)|(i & (_ & Hb & _) & Hwk)]); red; cbn [ret]; red; cbn [ret]; eexists; (split; [done|]).
    + by apply moved_stay.
    + destruct (woken_ok _ _ _ _ _ Hs Hb Hwk) as (h & Hh & Hok & Hc & Hi & Hst & Hsti & Hth). by apply moved_stay.
Qed.
End moved.

(** ** Memory *)

Lemma pokes_out ws : ∀ (m : Mem) a, Forall (λ w, w.1 ≠ a) ws → pokes ws m a = m a.
Proof.
  induction ws as [|w ws IH]; intros m a Ha; [done|]. apply Forall_cons in Ha as [Hw Ha]. cbn [pokes fold_left].
  rewrite (IH _ a Ha). by rewrite bool_decide_false.
Qed.

Lemma pokes_ext ws : ∀ (m m' : Mem) a, m a = m' a → pokes ws m a = pokes ws m' a.
Proof. induction ws as [|w ws IH]; intros m m' a Ha; [done|]. cbn [pokes fold_left]. apply IH. by case_bool_decide. Qed.

Lemma store_context_same p c (m m' : Mem) a : m a = m' a → store_context p c m a = store_context p c m' a.
Proof.
  unfold store_context. generalize (context_words c). intros ws. revert p m m'.
  induction ws as [|w ws IH]; intros p m m' Ha; cbn [write_words]; [done|]. apply IH.
  unfold write64, write_bytes. case_bool_decide; [|done]. by destruct (_ !! _).
Qed.

(** ** The simulation *)

Section sim.
Context `{Build} (addr base : Z).
Context (base_ok : 0 ≤ base) (top_ok : slot base TASK_ARENA_CAPACITY ≤ 2 ^ 64) (addr_ok : is_u64 addr).

#[local] Hint Extern 0 (Contexts Aarch64TaskContext) => exact (board_contexts addr) : typeclass_instances.
Notation TaskWorld := (world Aarch64TaskContext).
Notation in_contexts a := (base ≤ a < slot base TASK_ARENA_CAPACITY).

(** What the code around the scheduler guarantees: bodies compute 64-bit words and
    leave the contexts alone; calls keep the scheduler's own obligations; entries,
    stacks and return addresses are words; a throwaway context lies on a stack. *)
Definition op_words (op : sched_op) : Prop :=
  match op with
  | OAdd _ _ entry sp | OIdle _ _ entry sp => is_u64 entry ∧ is_u64 sp
  | OAddUser _ _ entry usp ksp _ => is_u64 entry ∧ is_u64 usp ∧ is_u64 ksp
  | _ => True
  end.

Definition event_ok (e : event) (v : VBoard) : Prop :=
  match e with
  | EBody c ws => core_ok c ∧ Forall (λ w, ¬ in_contexts w.1) ws
  | EOp op return_to throwaway =>
      op_pre op (wsched (vworld v)) ∧ op_words op ∧ is_u64 return_to ∧ context_ptr throwaway ∧
      (throwaway + CONTEXT_SIZE ≤ base ∨ slot base TASK_ARENA_CAPACITY ≤ throwaway)
  end.

Fixpoint events_ok (es : list event) (v : VBoard) : Prop :=
  match es with
  | [] => True
  | e :: es => event_ok e v ∧ ∀ v', virtual_step addr e v = Some v' → events_ok es v'
  end.

(** What the two machines share: the scheduler's state, the core of the running task,
    the processor state, the system registers, and all memory but the contexts. *)
Record shows (b : Board) (v : VBoard) : Prop := {
  sh_world : vworld v = bworld b;
  sh_core : vrunning v = vcore_of (bcore b);
  sh_state : vpstate v = pstate (bcore b) ∧ vsys v = sysregs (bcore b);
  sh_mem : ∀ a, ¬ in_contexts a → vmem v a = bmem b a;
}.

(** The contexts: of a slot nobody has, zeroes; of a task that waits, its core. *)
Record parked (w : TaskWorld) (cs : list Aarch64TaskContext) (vs : gmap nat VCore) : Prop := {
  pk_free : ∀ i, task_handles (wsched w) !! i = Some None → cs !! i = Some context_zero;
  pk_waits : ∀ h, registered (wsched w) h → h ∉ wexited w → current (wsched w) ≠ Some h →
    ∃ c, cs !! task_index h = Some c ∧ vs !! task_index h = Some {| v_pc := lr c; v_saved := c |};
  pk_runs : ∀ i, running w = Some i → is_Some (vs !! i);
}.

Record sim (b : Board) (v : VBoard) : Prop := {
  si_shows : shows b v;
  si_ok : core_ok (bcore b);
  si_world : ∃ l, world_ok (bworld b) l;
  si_contexts : ∃ cs, holds base TASK_ARENA_CAPACITY (bmem b) cs ∧ parked (bworld b) cs (vcores v);
}.

Lemma seed_wf op i f : op_words op → seed op = Some (i, f) → wf_context (f context_zero).
Proof.
  destruct op; intros Hw [= <- <-]; cbn in Hw; destruct_and?;
    (split; [done|]; split; [done|]; unfold context_words; cbn; repeat apply Forall_cons_2; done).
Qed.

Lemma body_sim b v c ws : sim b v → event_ok (EBody c ws) v →
  ∃ b' v', board_step addr base (EBody c ws) b = Some b' ∧ virtual_step addr (EBody c ws) v = Some v' ∧ sim b' v'.
Proof.
  intros [[Ew Ec [Ep Esys] Em] Hok [l Hw] (cs & Hh & [Pf Pw Pr])] [Hc Hws]. eexists _, _. split; [done|]. split; [done|].
  assert (Hout : ∀ a, in_contexts a → pokes ws (bmem b) a = bmem b a).
  { intros a Ha. apply pokes_out. eapply Forall_impl; [exact Hws|]. intros w Hn <-. by apply Hn. }
  split; cbn [bworld bcore bmem vworld vcores].
  - split; cbn [bworld bcore bmem vworld vcores vpstate vsys vmem]; [done| |done|intros a Ha; by apply pokes_ext, Em].
    unfold vrunning; cbn [vworld vcores vboot]. rewrite Ew. destruct (running (bworld b)) as [i|]; [|done]. by rewrite lookup_insert_eq.
  - exact Hc.
  - by exists l.
  - exists cs. split; [by eapply holds_ext|]. rewrite Ew. split; [exact Pf|..].
    + intros h Hr Hx Hn. destruct (Pw h Hr Hx Hn) as (d & Hd & Hv). exists d. split; [exact Hd|].
      destruct (running (bworld b)) as [i|] eqn:Hi; [|exact Hv]. rewrite lookup_insert_ne; [exact Hv|].
      unfold running in Hi. destruct (current (wsched (bworld b))) as [h'|] eqn:Hc'; [|done]. injection Hi as <-. intros Hi.
      apply Hn. f_equal. apply (registered_inj (wsched (bworld b))); [|done|done]. by apply (so_current _ _ (wo_sched _ _ Hw)).
    + intros i Hi. rewrite Hi. by rewrite lookup_insert_eq.
Qed.

(** An operation steps the scheduler, and moves the running task. *)
Lemma op_steps op (w : TaskWorld) l : world_ok w l → op_pre op (wsched w) → ∃ (w' : TaskWorld) l' o,
  world_step op w = Some w' ∧ world_ok w' l' ∧ wexited w' = op_exited op (wsched w) (wexited w) ∧
  op_hop op (wsched w) = Some (wsched w', Ok o) ∧ moved op (wsched w) (wsched w') o.
Proof.
  intros Hw Hpre. destruct (step_ok w l op Hw Hpre) as (w' & l' & E & Hok).
  destruct (op_moved op w l Hw Hpre) as (s' & o & Eo & Hm). destruct (op_hop_run _ _ _ _ Eo) as [a Ea].
  exists w', l', o. unfold world_step in E. rewrite Ea in E. injection E as <-. cbn [wsched wexited] in *.
  split_and!; [|done..]. unfold world_step. by rewrite Ea.
Qed.

Lemma parked_same (w w' : TaskWorld) cs vs : parked w cs vs → task_handles (wsched w') = task_handles (wsched w) →
  current (wsched w') = current (wsched w) → (∀ h, h ∈ wexited w → h ∈ wexited w') → parked w' cs vs.
Proof.
  intros [Pf Pw Pr] E1 E2 Hx. split.
  - intros i. rewrite E1. apply Pf.
  - intros h Hr Hn Hc. unfold registered in Hr. rewrite E1 in Hr. rewrite E2 in Hc. apply Pw; [done| |done]. by intros ?%Hx.
  - intros i. unfold running. rewrite E2. apply Pr.
Qed.

(** A context enters an unused slot. *)
Lemma parked_seed (w w' : TaskWorld) l cs vs h c : world_ok w l → parked w cs vs → fresh_slot (wsched w) h →
  (task_index h < length cs)%nat →
  task_handles (wsched w') = <[task_index h := Some h]> (task_handles (wsched w)) →
  current (wsched w') = current (wsched w) → (∀ h, h ∈ wexited w → h ∈ wexited w') →
  parked w' (<[task_index h := c]> cs) (<[task_index h := {| v_pc := lr c; v_saved := c |}]> vs).
Proof.
  intros Hw [Pf Pw Pr] Hf Hlt E1 E2 Hx. split.
  - intros i. rewrite E1. destruct (decide (i = task_index h)) as [->|Hi].
    + rewrite list_lookup_insert_eq; [done|]. unfold fresh_slot in Hf. by apply lookup_lt_Some in Hf.
    + rewrite !list_lookup_insert_ne by done. apply Pf.
  - intros x Hr Hn Hc. rewrite E2 in Hc. unfold registered in Hr. rewrite E1 in Hr.
    destruct (decide (task_index x = task_index h)) as [Hi|Hi].
    + rewrite Hi. exists c. by rewrite list_lookup_insert_eq, lookup_insert_eq.
    + rewrite list_lookup_insert_ne in Hr by done. rewrite list_lookup_insert_ne, lookup_insert_ne by done.
      apply Pw; [done| |done]. by intros ?%Hx.
  - intros i. unfold running. rewrite E2. intros [y Hy]%Pr. destruct (decide (i = task_index h)) as [->|Hi].
    + by rewrite lookup_insert_eq.
    + by rewrite lookup_insert_ne.
Qed.

(** Control passes to [h]: its core, which waited, is the board's. *)
Lemma parked_pass (w w' : TaskWorld) l l' cs cs' vs vs' h : world_ok w l → world_ok w' l' → parked w cs vs →
  registered (wsched w) h → current (wsched w) ≠ Some h → task_handles (wsched w') = task_handles (wsched w) →
  current (wsched w') = Some h → (∀ x, x ∈ wexited w → x ∈ wexited w') →
  (∀ i, task_handles (wsched w) !! i = Some None → cs' !! i = cs !! i) →
  (∀ x, registered (wsched w) x → current (wsched w) ≠ Some x → cs' !! task_index x = cs !! task_index x ∧ vs' !! task_index x = vs !! task_index x) →
  (∀ x, current (wsched w) = Some x → x ∉ wexited w' →
     ∃ c, cs' !! task_index x = Some c ∧ vs' !! task_index x = Some {| v_pc := lr c; v_saved := c |}) →
  parked w' cs' vs' ∧ ∃ c, cs' !! task_index h = Some c ∧ vs' !! task_index h = Some {| v_pc := lr c; v_saved := c |}.
Proof.
  intros Hw Hw' [Pf Pw Pr] Hreg Hne E1 E2 Hx Hfree Hsame Hleft.
  assert (Hh : ∃ c, cs' !! task_index h = Some c ∧ vs' !! task_index h = Some {| v_pc := lr c; v_saved := c |}).
  { destruct (Hsame h Hreg Hne) as [-> ->]. apply Pw; [done| |done]. intros Hin%Hx.
    by destruct (exited_not w' l' h Hw' Hin) as (_ & ? & _). }
  split; [|exact Hh]. split.
  - intros i Hi. rewrite E1 in Hi. rewrite (Hfree i Hi). by apply Pf.
  - intros x Hr Hn Hc. unfold registered in Hr. rewrite E1 in Hr.
    destruct (decide (current (wsched w) = Some x)) as [Hcx|Hcx]; [by apply Hleft|].
    destruct (Hsame x Hr Hcx) as [-> ->]. apply Pw; [done| |done]. by intros ?%Hx.
  - intros i. unfold running. rewrite E2. intros [= <-]. destruct Hh as (c & _ & ->). by eexists.
Qed.

Lemma op_exited_in op (s : Scheduler Aarch64TaskContext) X h : h ∈ X → h ∈ op_exited op s X.
Proof. intros Hh. unfold op_exited. destruct op; try done. destruct (current s); [by right|done]. Qed.

Lemma running_some (w : TaskWorld) h : current (wsched w) = Some h → running w = Some (task_index h).
Proof. unfold running. by intros ->. Qed.

Lemma vleave_stay op (w w' : TaskWorld) r cs : current (wsched w') = current (wsched w) → vleave op w w' r cs = cs.
Proof. intros E. unfold vleave, running. rewrite E. destruct (current (wsched w)); [|done]. cbn. by rewrite bool_decide_true. Qed.

(** An operation that returns: at most a context is written. *)
Lemma return_sim b v op ret_ thr w' l' : sim b v → event_ok (EOp op ret_ thr) v → world_ok w' l' →
  wexited w' = op_exited op (wsched (bworld b)) (wexited (bworld b)) → moved op (wsched (bworld b)) (wsched w') None →
  sim {| bworld := w'; bcore := bcore b; bmem := seeded_memory addr base op (bmem b) |}
      {| vworld := w'; vcores := vseed addr op (vleave op (bworld b) w' ret_ (vcores v)); vboot := vboot v;
         vpstate := vpstate v; vsys := vsys v; vmem := vspill op ret_ thr v |}.
Proof.
  intros [[Ew Ec [Ep Esys] Em] Hok [l Hw] (cs & Hh & Hp)] (Hpre & Hwords & _) Hw' Ex Hm.
  assert (Hx : ∀ h, h ∈ wexited (bworld b) → h ∈ wexited w') by (intros h; rewrite Ex; apply op_exited_in).
  inversion Hm as [h f c Hseed Hf Hc0 Hc1 Eh Ecur|Hseed Ns Ne Eh Ecur| |]; subst.
  - assert (Hno : vspill op ret_ thr v = vmem v) by (destruct op; done). rewrite Hno, vleave_stay by done.
    unfold seeded_memory, vseed, vcore_new. rewrite Hseed.
    assert (Hlt : (task_index h < TASK_ARENA_CAPACITY)%nat) by (eapply fresh_lt; [by apply (wo_sched _ _ Hw)|done]).
    assert (Hz : load_context (slot base (task_index h)) (bmem b) = context_zero).
    { destruct Hh as [_ Hh]. apply (Hh (task_index h) context_zero), Hp, Hf. }
    rewrite Hz. pose proof (seed_wf op _ f Hwords Hseed) as Hwf.
    split; cbn [bworld bcore bmem vworld vcores]; [split; cbn [bworld bcore bmem vworld vcores vpstate vsys vmem]|..]; [done| |done|..].
    + rewrite <- Ec. unfold vrunning, running; cbn [vworld vcores vboot]. rewrite Ew, Ecur.
      destruct (current (wsched (bworld b))) as [x|] eqn:Hcur; [|done]. cbn.
      rewrite lookup_insert_ne; [done|]. intros Hi.
      destruct (so_current _ _ (wo_sched _ _ Hw) x Hcur) as [Hr _]. by apply (fresh_not_registered _ _ _ Hf Hr).
    + intros a Ha. rewrite store_context_out; [by apply Em|done|]. unfold slot, CONTEXT_SIZE in *. lia.
    + exact Hok.
    + by exists l'.
    + exists (<[task_index h := f context_zero]> cs). split; [by apply holds_insert|].
      eapply (parked_seed (bworld b) w' l); [done|done|done| |done..]. destruct Hh as [-> _]. exact Hlt.
  - assert (Hno : vspill op ret_ thr v = vmem v) by (destruct op; done). rewrite Hno, vleave_stay by done.
    unfold seeded_memory, vseed. rewrite Hseed.
    split; cbn [bworld bcore bmem vworld vcores]; [split; cbn [bworld bcore bmem vworld vcores vpstate vsys vmem]|..]; [done| |done|..].
    + rewrite <- Ec. unfold vrunning, running; cbn [vworld vcores vboot]. by rewrite Ew, Ecur.
    + exact Em.
    + exact Hok.
    + by exists l'.
    + exists cs. split; [done|]. by eapply (parked_same (bworld b)).
Qed.

(** The core of a task that passes control on, in the context it leaves. *)
Lemma left_core r c : vcore_called r (vcore_of c) = {| v_pc := lr (image (set_x 30 r c)); v_saved := image (set_x 30 r c) |}.
Proof. done. Qed.

(** The slots and the tasks' cores when control passes on. *)
Lemma pass_parked (w w' : TaskWorld) l l' cs vs op ret_ c from to : world_ok w l → world_ok w' l' → parked w cs vs →
  wexited w' = op_exited op (wsched w) (wexited w) → moved op (wsched w) (wsched w') (Some (from, to)) →
  length cs = TASK_ARENA_CAPACITY → (∀ i, running w = Some i → vs !! i = Some (vcore_of c)) →
  let cs' := match from with Some i => <[i := image (set_x 30 ret_ c)]> cs | None => cs end in
  let vs' := vseed addr op (vleave op w w' ret_ vs) in
  parked w' cs' vs' ∧ running w' = Some to ∧
  ∃ d, cs' !! to = Some d ∧ vs' !! to = Some {| v_pc := lr d; v_saved := d |}.
Proof.
  intros Hw Hw' Hp Ex Hm Hl Hrun. cbv zeta.
  assert (Hx : ∀ h, h ∈ wexited w → h ∈ wexited w') by (intros h; rewrite Ex; apply op_exited_in).
  assert (Hcur : ∀ x, current (wsched w) = Some x → registered (wsched w) x) by (intros x; by intros [? _]%(so_current _ _ (wo_sched _ _ Hw))).
  assert (Hidx : ∀ x y, registered (wsched w) x → registered (wsched w) y → x ≠ y → task_index x ≠ task_index y).
  { intros x y Hx' Hy Hne Hi. apply Hne. by apply (registered_inj (wsched w)). }
  assert (Hfree : ∀ x i, registered (wsched w) x → task_handles (wsched w) !! i = Some None → task_index x ≠ i)
    by (intros x i Hr Hi <-; unfold registered in Hr; congruence).
  inversion Hm as [| |y h Hop Hy Hc' Hne Hreg Eh|h Hop Hc' Hreg Eh]; subst.
  - assert (Hvs : vseed addr op (vleave op w w' ret_ vs) = alter (vcore_called ret_) (task_index y) vs).
    { unfold vseed, vleave. rewrite (running_some w y), (running_some w' h) by done.
      rewrite bool_decide_false; [|intros [= Hi]; by apply (Hidx h y); [|apply Hcur|..]].
      by destruct Hop as [-> |[ep ->]]. }
    rewrite Hvs. rewrite (running_some w' h) by done.
    destruct (parked_pass w w' l l' cs (<[task_index y := image (set_x 30 ret_ c)]> cs) vs (alter (vcore_called ret_) (task_index y) vs) h)
      as [Hpk Hd]; [done..| |done|done|done| | | |by split_and!].
    + congruence.
    + intros i Hi. by rewrite list_lookup_insert_ne by (apply Hfree; [by apply Hcur|done]).
    + intros x Hxr Hxc. assert (task_index y ≠ task_index x) by (apply Hidx; [by apply Hcur|done|congruence]).
      by rewrite list_lookup_insert_ne, lookup_alter_ne.
    + intros x Hxc _. assert (x = y) as -> by congruence. exists (image (set_x 30 ret_ c)). split.
      * apply list_lookup_insert_eq. rewrite Hl. by eapply registered_lt; [apply Hw|apply Hcur].
      * rewrite lookup_alter_eq. rewrite (Hrun (task_index y)) by (by apply running_some). exact (f_equal Some (left_core ret_ c)).
  - rewrite (running_some w' h) by done.
    destruct (parked_pass w w' l l' cs cs vs (vseed addr op (vleave op w w' ret_ vs)) h)
      as [Hpk Hd]; [done..| |done|done|done| | | |by split_and!].
    + destruct Hop as [[-> Hn]|(-> & y & Hy & Hne)]; congruence.
    + done.
    + intros x Hxr Hxc. split; [done|]. destruct Hop as [[-> Hn]|(-> & y & Hy & Hne)].
      * unfold vseed, vleave, running. cbn [seed]. by rewrite Hn.
      * unfold vseed, vleave. cbn [seed]. rewrite (running_some w y), (running_some w' h) by done.
        rewrite bool_decide_false; [|intros [= Hi]; by apply (Hidx h y); [|apply Hcur|..]].
        apply lookup_delete_ne. apply Hidx; [by apply Hcur|done|congruence].
    + intros x Hxc Hnx. destruct Hop as [[-> Hn]|(-> & y & Hy & Hne)]; [congruence|]. exfalso. apply Hnx.
      rewrite Ex. unfold op_exited. rewrite Hxc. by left.
Qed.

(** An operation that passes control on: the switch runs. *)
Lemma pass_sim b v op ret_ thr w' l' from to : sim b v → event_ok (EOp op ret_ thr) v → world_ok w' l' →
  wexited w' = op_exited op (wsched (bworld b)) (wexited (bworld b)) →
  moved op (wsched (bworld b)) (wsched w') (Some (from, to)) →
  ∃ c m, context_switch (match from with Some i => slot base i | None => thr end) (slot base to) ret_ (bcore b, bmem b) = Some (c, m) ∧
  sim {| bworld := w'; bcore := c; bmem := m |}
      {| vworld := w'; vcores := vseed addr op (vleave op (bworld b) w' ret_ (vcores v)); vboot := vboot v;
         vpstate := vpstate v; vsys := vsys v; vmem := vspill op ret_ thr v |}.
Proof.
  intros [[Ew Ec [Ep Esys] Em] Hok [l Hw] (cs & Hh & Hp)] (Hpre & _ & Hr & Hptr & Hout) Hw' Ex Hm.
  set (t := {| from := from; to := to; context_at := match from with Some i => slot base i | None => thr end;
               return_to := ret_; leaving := bcore b; arriving := bcore b |}).
  assert (Hlt : ∀ h, registered (wsched (bworld b)) h → (task_index h < TASK_ARENA_CAPACITY)%nat)
    by (intros h; by eapply registered_lt, wo_sched).
  assert (Ht : turn_ok base TASK_ARENA_CAPACITY t).
  { unfold turn_ok, t; cbn. inversion Hm as [| |c h Hop Hc Hc' Hne Hreg Eh|h Hop Hc' Hreg Eh]; subst; split_and!; try done; try by apply Hlt.
    apply Hlt. by apply (so_current _ _ (wo_sched _ _ Hw)). }
  destruct (turn_runs base TASK_ARENA_CAPACITY base_ok top_ok (bmem b) cs t Ht Hh) as (c' & Hrun & Hok' & d & Hd & Hi & Hpc & Hps & Hsys).
  exists c', (store_context (context_at t) (left_with t) (bmem b)). split; [exact Hrun|].
  assert (Hrc : ∀ i, running (bworld b) = Some i → vcores v !! i = Some (vcore_of (bcore b))).
  { intros i Hri. rewrite <- Ec. unfold vrunning. rewrite Ew, Hri. destruct (pk_runs _ _ _ Hp i Hri) as [y Hy]. by rewrite Hy. }
  destruct (pass_parked (bworld b) w' l l' cs (vcores v) op ret_ (bcore b) from to) as (Hpk & Hrun' & e & He & Hv); [done..|apply Hh|done|].
  assert (e = d) as ->. { apply (inj Some). rewrite <- He, <- Hd. unfold save, t. by destruct from. }
  split; cbn [bworld bcore bmem vworld vcores]; [split; cbn [bworld bcore bmem vworld vcores vpstate vsys vmem]|..].
  - done.
  - unfold vrunning; cbn [vworld vcores vboot]. rewrite Hrun', Hv. unfold vcore_of. by rewrite Hi, Hpc.
  - rewrite Hps, Hsys. split; [exact Ep|exact Esys].
  - intros a Ha. inversion Hm as [| |y h Hop|h Hop]; subst from to.
    + assert (vspill op ret_ thr v = vmem v) as -> by (by destruct Hop as [-> |[ep ->]]).
      rewrite store_context_out; [by apply Em|by eapply left_with_wf|]. cbn [context_at t].
      destruct Ht as (_ & _ & _ & Hlt' & _). unfold slot, CONTEXT_SIZE in *. lia.
    + assert (vspill op ret_ thr v = store_context thr (v_saved (vcore_called ret_ (vrunning v))) (vmem v)) as ->
        by (by destruct Hop as [[-> _]|[-> _]]).
      rewrite Ec. by apply store_context_same, Em.
  - exact Hok'.
  - by exists l'.
  - exists (save cs t). split; [by apply holds_store|]. unfold save, t; cbn. by destruct from.
Qed.

Lemma step_sim e b v : sim b v → event_ok e v →
  ∃ b' v', board_step addr base e b = Some b' ∧ virtual_step addr e v = Some v' ∧ sim b' v'.
Proof.
  destruct e as [c ws|op r thr]; intros Hs He; [by apply body_sim|].
  pose proof (sh_world _ _ (si_shows _ _ Hs)) as Ew. destruct (si_world _ _ Hs) as [l Hw].
  pose proof (proj1 He) as Hpre. rewrite Ew in Hpre.
  destruct (op_steps op (bworld b) l Hw Hpre) as (w' & l' & o & E & Hw' & Ex & Eo & Hm).
  cbn [board_step virtual_step]. rewrite Ew, E, Eo. destruct o as [[from to]|].
  - destruct (pass_sim b v op r thr w' l' from to Hs He Hw' Ex Hm) as (c & m & Ec & Hs'). rewrite Ec.
    eexists _, _. split; [reflexivity|]. split; [reflexivity|exact Hs'].
  - eexists _, _. split; [done|]. split; [done|]. by apply (return_sim b v op r thr w' l').
Qed.

Lemma run_sim es : ∀ b v, sim b v → events_ok es v →
  ∃ b' v', board_run addr base es b = Some b' ∧ virtual_run addr es v = Some v' ∧ sim b' v'.
Proof.
  induction es as [|e es IH]; intros b v Hs Hes; [by exists b, v|]. destruct Hes as [He Hes].
  destruct (step_sim e b v Hs He) as (b1 & v1 & Eb & Ev & Hs1). cbn [board_run virtual_run]. rewrite Eb, Ev.
  apply IH; [done|]. by apply Hes.
Qed.

(** Reset: no tasks, and the array of contexts is zeroes. *)
Definition board_init (c : Core) (m : Mem) : Board := {| bworld := world_init; bcore := c; bmem := m |}.
Definition virtual_init (c : Core) (m : Mem) : VBoard :=
  {| vworld := world_init; vcores := ∅; vboot := vcore_of c; vpstate := pstate c; vsys := sysregs c; vmem := m |}.

Lemma zero_wf : wf_context context_zero.
Proof. split; [done|]. split; [done|]. unfold context_words. cbn. by repeat apply Forall_cons_2. Qed.

Lemma init_sim c m : core_ok c → (∀ i, (i < TASK_ARENA_CAPACITY)%nat → load_context (slot base i) m = context_zero) →
  sim (board_init c m) (virtual_init c m).
Proof.
  intros Hc Hm. split.
  - by split.
  - exact Hc.
  - exists []. apply world_init_ok.
  - exists (replicate TASK_ARENA_CAPACITY context_zero). split; [|split].
    + split; [by rewrite length_replicate|]. intros i d [-> Hi]%lookup_replicate. split; [apply zero_wf|by apply Hm].
    + intros i [_ Hi]%lookup_replicate. by apply lookup_replicate.
    + intros h Hr. apply lookup_replicate in Hr as [Hr _]. done.
    + done.
Qed.
End sim.

(** ** The claim *)

(** C15: every task has a core of its own.  From reset, whatever the tasks do between
    their calls of the scheduler to core and memory short of the contexts, and
    whatever registrations, starts, yields, blocks, wake-ups and exits they call: the
    board never stops, each switch of the assembly returns, and the one core is at
    every moment, in its program counter and in all the registers the calling
    convention keeps, the core of the running task in the machine where each task
    works on its own: a task that called the scheduler goes on at the return of its
    call with the registers and the stack it had, a new task on what it was registered
    with and zeroes; the processor state, the system registers and all other memory are
    as the tasks left them. *)
Theorem tasks_have_their_own_cores `{Build} addr base c m es : 0 ≤ base → slot base TASK_ARENA_CAPACITY ≤ 2 ^ 64 →
  is_u64 addr → core_ok c → (∀ i, (i < TASK_ARENA_CAPACITY)%nat → load_context (slot base i) m = context_zero) →
  events_ok addr base es (virtual_init addr c m) →
  ∃ b v, board_run addr base es (board_init addr c m) = Some b ∧
    virtual_run addr es (virtual_init addr c m) = Some v ∧ shows base b v.
Proof.
  intros Hb Ht Ha Hc Hm Hes.
  destruct (run_sim addr base Hb Ht Ha es _ _ (init_sim addr base c m Hc Hm) Hes) as (b & v & Eb & Ev & Hs).
  exists b, v. split; [exact Eb|]. split; [exact Ev|apply Hs].
Qed.

(** *** A run of two tasks *)

(** The obligations, but for those on the state of the scheduler. *)
Definition static_ok (base : Z) (e : event) : Prop :=
  match e with
  | EBody c ws => core_ok c ∧ Forall (λ w, ¬ base ≤ w.1 < slot base TASK_ARENA_CAPACITY) ws
  | EOp op return_to throwaway =>
      op_words op ∧ is_u64 return_to ∧ context_ptr throwaway ∧
      (throwaway + CONTEXT_SIZE ≤ base ∨ slot base TASK_ARENA_CAPACITY ≤ throwaway)
  end.

Definition op_of (e : event) : option sched_op := match e with EBody _ _ => None | EOp op _ _ => Some op end.

Lemma events_ok_steps `{Build} addr base es : ∀ v, Forall (static_ok base) es →
  steps_pre (Contexts0 := board_contexts addr) (omap op_of es) (vworld v) → events_ok addr base es v.
Proof.
  induction es as [|e es IH]; intros v Hf Hp; [done|]. apply Forall_cons in Hf as [He Hf]. destruct e as [c ws|op r t].
  - split; [exact He|]. intros v' [= <-]. by apply IH.
  - destruct Hp as [Hpre Hp]. split; [by split|]. intros v' Hv. cbn [virtual_step] in Hv.
    destruct (world_step _ _) as [w|]; [|done]. injection Hv as <-. by apply IH.
Qed.

#[local] Existing Instance debug_build.

(** A kernel task and a user task; the user task enters through 0x7000. *)
Definition two_tasks : list event :=
  [EOp (OAdd (task_at 1) (as_at 0) 0x4000 0x8000) 0x100 0x9000;
   EOp (OAddUser (task_at 2) (as_at 1) 0x800000 0x803000 0x8800 0x6000) 0x104 0x9000;
   EOp OStart 0x108 0x9000; EBody (core_of 77) [(0x20000, 5)]; EOp OYield 0x200 0x9000;
   EBody (core_of 88) [(0x20001, 6)]; EOp OYield 0x300 0x9000].

Lemma two_tasks_ok : events_ok 0x7000 0x1000 two_tasks (virtual_init 0x7000 (core_of 1) (λ _, 0)).
Proof.
  apply events_ok_steps.
  - assert (Hp : context_ptr 0x9000) by by split.
    assert (Ht : slot 0x1000 TASK_ARENA_CAPACITY ≤ 0x9000) by by vm_compute.
    repeat (apply Forall_cons_2; [first [by split_and!; first [done|right] | split; [by apply core_of_ok|by repeat constructor; intros [_ Hx]; vm_compute in Hx]]|]). by apply Forall_nil.
  - vm_compute. repeat match goal with
    | |- _ ∧ _ => split
    | |- _ ∨ _ => left; discriminate
    | |- _ = _ => reflexivity
    | |- True => exact I
    | |- ∃ _, _ => eexists; reflexivity
    end; try discriminate.
Qed.

Lemma two_tasks_end : ∃ v, virtual_run 0x7000 two_tasks (virtual_init 0x7000 (core_of 1) (λ _, 0)) = Some v ∧ vrunning v = vcore_called 0x200 (vcore_of (core_of 77)) ∧
  vmem v 0x20000 = 5 ∧ vmem v 0x20001 = 6.
Proof.
  pose (out := virtual_run 0x7000 two_tasks (virtual_init 0x7000 (core_of 1) (λ _, 0))).
  assert (Hv : (vrunning <$> out) = Some (vcore_called 0x200 (vcore_of (core_of 77)))) by by vm_compute.
  assert (Hm5 : ((λ v, vmem v 0x20000) <$> out) = Some 5) by by vm_compute.
  assert (Hm6 : ((λ v, vmem v 0x20001) <$> out) = Some 6) by by vm_compute.
  fold out. revert Hv Hm5 Hm6. generalize out. clear out. intros [v|] Hv Hm5 Hm6; [|done].
  apply (inj Some) in Hv, Hm5, Hm6. by exists v.
Qed.

Lemma zero_slots i : load_context (slot 0x1000 i) (λ _, 0) = context_zero.
Proof. reflexivity. Qed.

Lemma small_slots : slot 0x1000 TASK_ARENA_CAPACITY ≤ 0x20000.
Proof. by vm_compute. Qed.

Lemma tasks_have_their_own_cores_witness : ∃ b, board_run 0x7000 0x1000 two_tasks (board_init 0x7000 (core_of 1) (λ _, 0)) = Some b ∧
  pc (bcore b) = 0x200 ∧ sp_el1 (bcore b) = 77 ∧ image (bcore b) = image (set_x 30 0x200 (core_of 77)) ∧
  bmem b 0x20000 = 5 ∧ bmem b 0x20001 = 6.
Proof.
  pose proof small_slots as Hs.
  destruct (tasks_have_their_own_cores 0x7000 0x1000 (core_of 1) (λ _, 0) two_tasks) as (b & v & Eb & Ev & [_ Hc _ Hm]).
  - done.
  - etransitivity; [exact Hs|done].
  - done.
  - by apply core_of_ok.
  - intros i _. apply zero_slots.
  - apply two_tasks_ok.
  - destruct two_tasks_end as (v' & E & Hv & H5 & H6). rewrite E in Ev. apply (inj Some) in Ev. subst v'. rewrite Hv in Hc.
    exists b. split; [exact Eb|]. split; [exact (eq_sym (f_equal v_pc Hc))|].
    split; [exact (eq_sym (f_equal (λ k, sp (v_saved k)) Hc))|]. split; [exact (eq_sym (f_equal v_saved Hc))|].
    split; (rewrite <- Hm; [assumption|clear - Hs; lia]).
Defined.
