(* ===== verification/TestFakes.v ===== *)
(** * The fakes of the host tests (test-hal/src: cpu, console, timer, irq_controller,
context_switch)

What the kernel's unit tests run on besides the MMU ([TestMmu]).  Each records what it
is asked; the mutexes around the records have no effect in a single thread.  The
counters are [u64]s incremented with [+]: a debug build panics at the top, a release
build wraps. *)

From stdpp Require Import gmap.
From S2P Require Import Prelude.
From S2P Require Import Timer.
From S2P Require Import Gic.
From S2P Require Import Sched.
From S2P Require Import Cpu.
From S2P Require Import CpuProps.
Local Open Scope Z_scope.

(** [+= 1] on [u64]. *)
Definition count_up `{Build} (n : Z) : option Z :=
  if debug_assertions && bool_decide (n = U64_MAX) then None else Some (wrapping_add64 n 1).

(** ** FakeCpu *)

Record FakeCpu := { fake_core_id : Z; irqs_enabled : bool; wait_for_interrupt_count : Z; instruction_barrier_count : Z }.

Definition FakeCpu_with_core_id (core_id : Z) : FakeCpu :=
  {| fake_core_id := core_id; irqs_enabled := true; wait_for_interrupt_count := 0; instruction_barrier_count := 0 |}.
Definition FakeCpu_new : FakeCpu := FakeCpu_with_core_id 0.

Definition set_irqs_enabled (b : bool) (c : FakeCpu) : FakeCpu :=
  {| fake_core_id := fake_core_id c; irqs_enabled := b; wait_for_interrupt_count := wait_for_interrupt_count c;
     instruction_barrier_count := instruction_barrier_count c |}.

(** The saved state is 0 when interrupts were enabled. *)
#[export] Instance fake_cpu `{Build} : Cpu FakeCpu := {
  current_core_id := fake_core_id;
  disable_irqs c := (set_irqs_enabled false c, if irqs_enabled c then 0 else 1);
  restore_irq_state v c := set_irqs_enabled (bool_decide (v = 0)) c;
  wait_for_interrupt c :=
    n ← count_up (wait_for_interrupt_count c);
    Some {| fake_core_id := fake_core_id c; irqs_enabled := irqs_enabled c; wait_for_interrupt_count := n;
            instruction_barrier_count := instruction_barrier_count c |};
  instruction_barrier c :=
    n ← count_up (instruction_barrier_count c);
    Some {| fake_core_id := fake_core_id c; irqs_enabled := irqs_enabled c;
            wait_for_interrupt_count := wait_for_interrupt_count c; instruction_barrier_count := n |};
}.

(** ** FakeContextSwitch *)

Record FakeTaskContext := { switched : bool; initialized : bool; is_user : bool; entry_addr : Z; user_sp : Z; ctx_stack_top : Z }.

Definition FakeTaskContext_default : FakeTaskContext :=
  {| switched := false; initialized := false; is_user := false; entry_addr := 0; user_sp := 0; ctx_stack_top := 0 |}.

Record FakeContextSwitch := { switch_count : Z; init_count : Z }.
Definition FakeContextSwitch_new : FakeContextSwitch := {| switch_count := 0; init_count := 0 |}.

Section fake_switch.
  Context `{Build}.

(** The outgoing context is marked; nothing runs. *)
Definition fake_context_switch (self : FakeContextSwitch) (current : FakeTaskContext) : option (FakeContextSwitch * FakeTaskContext) :=
  n ← count_up (switch_count self);
  Some ({| switch_count := n; init_count := init_count self |},
        {| switched := true; initialized := initialized current; is_user := is_user current; entry_addr := entry_addr current;
           user_sp := user_sp current; ctx_stack_top := ctx_stack_top current |}).

(** The other two count themselves and fill the context in. *)
Definition count_init (self : FakeContextSwitch) : option FakeContextSwitch :=
  n ← count_up (init_count self); Some {| switch_count := switch_count self; init_count := n |}.

Definition fake_init_context (ctx : FakeTaskContext) (entry stack_top : Z) : FakeTaskContext :=
  {| switched := switched ctx; initialized := true; is_user := false; entry_addr := entry; user_sp := 0; ctx_stack_top := stack_top |}.
Definition fake_init_user_context (ctx : FakeTaskContext) (user_entry user_sp_ kernel_stack_top : Z) : FakeTaskContext :=
  {| switched := switched ctx; initialized := true; is_user := true; entry_addr := user_entry; user_sp := user_sp_;
     ctx_stack_top := kernel_stack_top |}.
End fake_switch.

#[export] Instance fake_contexts : Contexts FakeTaskContext :=
  {| ctx_default := FakeTaskContext_default; Sched.init_context := fake_init_context;
     Sched.init_user_context := fake_init_user_context |}.

(** ** FakeConsole *)

Record FakeConsole := { captured : list Z }.
Definition FakeConsole_new : FakeConsole := {| captured := [] |}.
Definition fake_write_bytes (bytes : list Z) (c : FakeConsole) : FakeConsole := {| captured := captured c ++ bytes |}.

(** ** FakeTimer *)

Record FakeTimer := { timer_resolution_ns : Z; timer_now_ns : Z; armed_deadline : option Z; cancel_count : Z }.

Definition FakeTimer_new (resolution_ns : Z) : FakeTimer :=
  {| timer_resolution_ns := resolution_ns; timer_now_ns := 0; armed_deadline := None; cancel_count := 0 |}.
Definition set_now (ns : Z) (t : FakeTimer) : FakeTimer :=
  {| timer_resolution_ns := timer_resolution_ns t; timer_now_ns := ns; armed_deadline := armed_deadline t; cancel_count := cancel_count t |}.
Definition advance (delta_ns : Z) (t : FakeTimer) : FakeTimer := set_now (saturating_add64 (timer_now_ns t) delta_ns) t.
Definition fake_arm_deadline (deadline_ns : Z) (t : FakeTimer) : FakeTimer :=
  {| timer_resolution_ns := timer_resolution_ns t; timer_now_ns := timer_now_ns t; armed_deadline := Some deadline_ns;
     cancel_count := cancel_count t |}.
Definition fake_cancel_deadline `{Build} (t : FakeTimer) : option FakeTimer :=
  n ← count_up (cancel_count t);
  Some {| timer_resolution_ns := timer_resolution_ns t; timer_now_ns := timer_now_ns t; armed_deadline := None; cancel_count := n |}.

(** ** FakeIrqController *)

Definition FAKE_MAX_IRQ : Z := 1020.

Record FakeIrqController := { fake_enabled : gset Z; fake_pending : list Z; eoi_history : list Z }.
Definition FakeIrqController_new : FakeIrqController := {| fake_enabled := ∅; fake_pending := []; eoi_history := [] |}.

Definition inject (irq : IrqNumber) (c : FakeIrqController) : FakeIrqController :=
  {| fake_enabled := fake_enabled c; fake_pending := fake_pending c ++ [irq_id irq]; eoi_history := eoi_history c |}.

Section fake_irq.
  Context {E : Type}.

(** [assert!] of the line number, as in the driver. *)
Definition fake_line (f : Z → gset Z → gset Z) (irq : IrqNumber) : M FakeIrqController E unit :=
  if negb (bool_decide (irq_id irq < FAKE_MAX_IRQ)) then panic else
  modify (λ c, {| fake_enabled := f (irq_id irq) (fake_enabled c); fake_pending := fake_pending c; eoi_history := eoi_history c |}).
Definition fake_enable : IrqNumber → M FakeIrqController E unit := fake_line (λ n s, {[n]} ∪ s).
Definition fake_disable : IrqNumber → M FakeIrqController E unit := fake_line (λ n s, s ∖ {[n]}).

Definition fake_acknowledge : M FakeIrqController E (option IrqNumber) := λ c,
  match fake_pending c with
  | [] => Some (c, Ok None)
  | n :: rest => Some ({| fake_enabled := fake_enabled c; fake_pending := rest; eoi_history := eoi_history c |}, Ok (Some {| irq_id := n |}))
  end.
Definition fake_end_of_interrupt (irq : IrqNumber) : M FakeIrqController E unit :=
  modify (λ c, {| fake_enabled := fake_enabled c; fake_pending := fake_pending c; eoi_history := eoi_history c ++ [irq_id irq] |}).
End fake_irq.

(** ** What they share with the board *)

(** The kernel's critical sections mean the same on the fake: [IrqMask] is the contract
    the board's CPU satisfies. *)
#[export] Program Instance fake_mask `{Build} : IrqMask FakeCpu := { masked c := negb (irqs_enabled c) }.
Next Obligation. done. Qed.
Next Obligation. intros ? c c'. cbn. by destruct (irqs_enabled c). Qed.
Next Obligation. done. Qed.

(** A line the board's driver refuses is a line the fake refuses. *)
Lemma fake_line_panics_alike `{Mmio D} {E} (gic : QemuVirtGic) (irq : IrqNumber) (c : FakeIrqController) (d : D) :
  (fake_enable (E := E) irq c = None ↔ enable (E := E) gic irq d = None) ∧
  (fake_disable (E := E) irq c = None ↔ disable (E := E) gic irq d = None).
Proof.
  unfold fake_enable, fake_disable, fake_line, enable, disable, write_line, FAKE_MAX_IRQ, GIC_MAX_IRQ, panic, write_distributor, modify.
  by case_bool_decide.
Qed.

(** Interrupts are taken in the order they came in, and each is ended once: after
    injecting some and handling them, all are in the history. *)
Fixpoint handle_all {E} (n : nat) : M FakeIrqController E unit :=
  match n with
  | O => ret tt
  | S n => let* o := fake_acknowledge in match o with None => ret tt | Some irq => fake_end_of_interrupt irq ;; handle_all n end
  end.

Lemma fake_irqs_in_order {E} n : ∀ c, (length (fake_pending c) ≤ n)%nat →
  handle_all (E := E) n c =
    Some ({| fake_enabled := fake_enabled c; fake_pending := []; eoi_history := eoi_history c ++ fake_pending c |}, Ok tt).
Proof.
  induction n as [|n IH]; intros [en [|x l] eoi] Hl; cbn in Hl; try lia.
  - cbn. by rewrite app_nil_r.
  - cbn. by rewrite app_nil_r.
  - cbn [handle_all]. unfold bind, fake_acknowledge, fake_end_of_interrupt, modify. cbn. rewrite IH by (cbn; lia). cbn.
    by rewrite <- app_assoc.
Qed.
