(* ===== verification/Text.v ===== *)
(** * Text on the console

What [write!] makes of string literals and integers (bsp-qemu-virt/src/main.rs: the
banners, the tasks and [FmtWriter]). *)

From Stdlib Require Import Ascii String.
From S2P Require Import Prelude.
Local Open Scope Z_scope.

(** The bytes of a string literal; the newline escape is added by [line]. *)
Definition bytes_of (s : string) : list Z := (λ c, Z.of_nat (nat_of_ascii c)) <$> list_ascii_of_string s.
Definition line (s : string) : list Z := bytes_of s ++ [10].

(** [{:x}] and [{}] of an integer; a [u64] has at most 20 digits in base 10. *)
Definition digit (d : Z) : Z := if bool_decide (d < 10) then 48 + d else 87 + d.
Fixpoint digits (fuel : nat) (radix n : Z) (acc : list Z) : list Z :=
  match fuel with
  | O => acc
  | S fuel =>
      let acc := digit (n `mod` radix) :: acc in
      if bool_decide (n `div` radix = 0) then acc else digits fuel radix (n `div` radix) acc
  end.
Definition lower_hex (n : Z) : list Z := digits 20 16 n [].
Definition decimal (n : Z) : list Z := digits 20 10 n [].
