(* ===== verification/SyscallEntry.v ===== *)
(** * The system-call trap of the board (bsp-qemu-virt/src/syscall.rs)

[syscall_entry]: the running task's table, window and address space are looked up
in the scheduler, [dispatch] runs on them, and its directive is carried out.  The
board's statics are the fields of [Kernel]; a task's table is behind its pointer,
so [tables] maps addresses to tables, and a pointer to none is undefined behaviour
([None]); so is the fail-closed table, a static cell, before something is written to it.  The reschedule and the exit give the scheduler's directive as a result. *)

From stdpp Require Import gmap.
From S2P Require Import Prelude.
From S2P Require Import Hal.
From S2P Require Import Arena.
From S2P Require Import Objects.
From S2P Require Import Caps.
From S2P Require Import CapTable.
From S2P Require Import Ipc.
From S2P Require Import SyscallError.
From S2P Require Import Abi.
From S2P Require Import UserAccess.
From S2P Require Import Dispatch.
From S2P Require Import QemuMmu.
From S2P Require Import AddressSpace.
From S2P Require Import Sched.

(** The saved registers in memory order: x0 to x30, then sp_el0, elr and spsr. *)
Record SyscallTrapFrame := { regs : list Z }.

Definition set_reg (i : nat) (v : Z) (f : SyscallTrapFrame) : SyscallTrapFrame := {| regs := <[i := v]> (regs f) |}.

Record Kernel (AS Ctx : Type) := {
  SCHED : Scheduler Ctx;
  AS_ARENA : AddressSpaceArena AS;
  EP_ARENA : EndpointArena;
  IPC_QUEUES : IpcQueues;
  tables : gmap Z CapabilityTable;
  FAILCLOSED_TABLE : option CapabilityTable;
  BOOTSTRAP_AS : AS;
  CONSOLE : list Z;
  MEMORY : Mem;
}.
Arguments SCHED {AS Ctx} k : rename.
Arguments AS_ARENA {AS Ctx} k : rename.
Arguments EP_ARENA {AS Ctx} k : rename.
Arguments IPC_QUEUES {AS Ctx} k : rename.
Arguments tables {AS Ctx} k : rename.
Arguments FAILCLOSED_TABLE {AS Ctx} k : rename.
Arguments BOOTSTRAP_AS {AS Ctx} k : rename.
Arguments CONSOLE {AS Ctx} k : rename.
Arguments MEMORY {AS Ctx} k : rename.

(** What the trap ends with: a return to the task, a reschedule (the frame is returned
    to when the task runs again), or a task that is gone. *)
Inductive trap :=
| Returned (f : SyscallTrapFrame)
| Rescheduled (d : Sched.dispatch) (f : SyscallTrapFrame)
| Exited (next : option AddressSpaceHandle * nat).

(** [b"tyrne: userspace task exited\n"] *)
Definition EXIT_MESSAGE : list Z :=
  [116; 121; 114; 110; 101; 58; 32; 117; 115; 101; 114; 115; 112; 97; 99; 101; 32; 116; 97; 115; 107; 32;
   101; 120; 105; 116; 101; 100; 10]%Z.

Section entry.
  Context `{Build} `{Translate AS} `{Contexts Ctx}.
  Implicit Types (k : Kernel AS Ctx) (f : SyscallTrapFrame).

Definition set_SCHED (s : Scheduler Ctx) k : Kernel AS Ctx :=
  {| SCHED := s; AS_ARENA := AS_ARENA k; EP_ARENA := EP_ARENA k; IPC_QUEUES := IPC_QUEUES k; tables := tables k;
     FAILCLOSED_TABLE := FAILCLOSED_TABLE k; BOOTSTRAP_AS := BOOTSTRAP_AS k; CONSOLE := CONSOLE k; MEMORY := MEMORY k |}.
Definition write_console (bs : list Z) k : Kernel AS Ctx :=
  {| SCHED := SCHED k; AS_ARENA := AS_ARENA k; EP_ARENA := EP_ARENA k; IPC_QUEUES := IPC_QUEUES k; tables := tables k;
     FAILCLOSED_TABLE := FAILCLOSED_TABLE k; BOOTSTRAP_AS := BOOTSTRAP_AS k; CONSOLE := CONSOLE k ++ bs; MEMORY := MEMORY k |}.

(** The running user task: its table's address, its window, its address space. *)
Definition user_task k : option (option (Z * UserAccessWindow * AS)) :=
  match current_user_table (SCHED k), current_address_space_handle (SCHED k), current_user_window (SCHED k) with
  | Some current_table, Some current_as, Some current_window =>
      let resolved_task_as := current_as ≫= get_address_space (AS_ARENA k) in
      Some match current_table, current_window, resolved_task_as with
           | Some table_ptr, Some window, Some asp => Some (table_ptr, window, inner asp)
           | _, _, _ => None
           end
  | _, _, _ => None
  end.

Definition context_of k (t : CapabilityTable) (w : UserAccessWindow) (a : AS) (cur : bool) : SyscallContext AS :=
  {| ep_arena := EP_ARENA k; sc_ipc := {| Ipc.queues := IPC_QUEUES k; Ipc.table := t |}; console := CONSOLE k;
     user_window := w; sc_mem := MEMORY k; task_as := a; has_current_task := cur |}.

(** The context, and the pointer to the table in it; [None] is the fail-closed table. *)
Definition make_context k : option (SyscallContext AS * option Z) :=
  match user_task k with
  | None => None
  | Some (Some (p, w, a)) =>
      match tables k !! p with
      | None => None
      | Some t => Some (context_of k t w a true, Some p)
      end
  | Some None =>
      match FAILCLOSED_TABLE k with
      | None => None
      | Some t => Some (context_of k t window_empty (BOOTSTRAP_AS k) false, None)
      end
  end.

(** The statics after [dispatch] wrote through the context's references. *)
Definition commit (p : option Z) (c : SyscallContext AS) k : Kernel AS Ctx :=
  {| SCHED := SCHED k; AS_ARENA := AS_ARENA k; EP_ARENA := EP_ARENA k; IPC_QUEUES := queues (sc_ipc c);
     tables := match p with Some p => <[p := caller_table c]> (tables k) | None => tables k end;
     FAILCLOSED_TABLE := match p with Some _ => FAILCLOSED_TABLE k | None => Some (caller_table c) end;
     BOOTSTRAP_AS := BOOTSTRAP_AS k; CONSOLE := console c; MEMORY := sc_mem c |}.

Definition syscall_args f : SyscallArgs :=
  {| number := arg (regs f) 8; args := take 6 (regs f) |}.

Definition set_result (r : SyscallReturn) f : SyscallTrapFrame :=
  set_reg 7 (arg (payload r) 6) (set_reg 6 (arg (payload r) 5) (set_reg 5 (arg (payload r) 4) (set_reg 4 (arg (payload r) 3)
  (set_reg 3 (arg (payload r) 2) (set_reg 2 (arg (payload r) 1) (set_reg 1 (arg (payload r) 0)
  (set_reg 0 (status r) f))))))).

Definition apply_effect {E} (e : SyscallEffect) f : M (Kernel AS Ctx) E trap :=
  match e with
  | Resume r => ret (Returned (set_result r f))
  | Reschedule =>
      let* res := attempt (zoom SCHED set_SCHED yield_now) in
      debug_assert (match res with Ok _ => true | Err _ => false end) ;;
      ret (Rescheduled (match res with Ok d => d | Err _ => Stay end) (set_reg 0 OK_STATUS f))
  | Terminate _ =>
      modify (write_console EXIT_MESSAGE) ;;
      let* next := zoom SCHED set_SCHED task_exit_current in
      ret (Exited next)
  end.

Definition syscall_entry {E} f : M (Kernel AS Ctx) E trap := λ k,
  match make_context k with
  | None => None
  | Some (ctx, p) =>
      match Dispatch.dispatch (syscall_args f) ctx with
      | None => None
      | Some (ctx', Err e) => Some (commit p ctx' k, Err e)
      | Some (ctx', Ok effect) => apply_effect effect f (commit p ctx' k)
      end
  end.
End entry.
