(* ===== verification/SyscallEntryProps.v ===== *)
(** * Properties of the system-call trap

Whatever a task puts in its registers, the trap returns and reaches only what the
task was given: its own table, the endpoints its capabilities name, the console. *)

From stdpp Require Import gmap.
From S2P Require Import Prelude.
From S2P Require Import Hal.
From S2P Require Import Arena.
From S2P Require Import Objects.
From S2P Require Import Caps.
From S2P Require Import CapTable.
From S2P Require Import CapTableInv.
From S2P Require Import Ipc.
From S2P Require Import SyscallError.
From S2P Require Import Abi.
From S2P Require Import UserAccess.
From S2P Require Import UserAccessOps.
From S2P Require Import UserAccessProps.
From S2P Require Import Dispatch.
From S2P Require Import IpcSpec.
From S2P Require Import IpcProps.
From S2P Require Import DispatchProps.
From S2P Require Import QemuMmu.
From S2P Require Import AddressSpace.
From S2P Require Import Sched.
From S2P Require Import SchedInv.
From S2P Require Import SchedOps.
From S2P Require Import SchedRun.
From S2P Require Import SchedProps.
From S2P Require Import SyscallEntry.

Section entry.
  Context `{Build} `{Translate AS} `{Contexts Ctx}.
  Implicit Types (k : Kernel AS Ctx) (f : SyscallTrapFrame) (c : SyscallContext AS).

(** What the board keeps true of its statics, with the ready list [l]: the scheduler's
    invariant and an idle task, well-formed queues and tables, every address space
    mapped into the direct map, no capability in the fail-closed table, and for the
    running task, if it is a user task, a table and a window within the address space. *)
Record kernel_ok k (l : list TaskHandle) : Prop := {
  ko_sched : sched_ok (SCHED k) l;
  ko_idle : is_Some (idle (SCHED k));
  ko_queues : IpcWF (EP_ARENA k) (IPC_QUEUES k);
  ko_tables : ∀ p t, tables k !! p = Some t → WF t;
  ko_failclosed : ∀ t, FAILCLOSED_TABLE k = Some t → WF t ∧ ∀ h, named t h = None;
  ko_spaces : ∀ hd a, get_address_space (AS_ARENA k) hd = Some a → direct_mapped (MEMORY k) (inner a);
  ko_bootstrap : direct_mapped (MEMORY k) (BOOTSTRAP_AS k);
  ko_bound : ∀ i p, task_cap_tables (SCHED k) !! i = Some (Some p) → is_Some (tables k !! p);
  ko_windows : ∀ i w, task_user_windows (SCHED k) !! i = Some (Some w) → (0 ≤ base w ≤ U64_MAX)%Z;
}.

(** A saved frame: 34 words of 64 bits. *)
Definition frame_ok f : Prop := length (regs f) = 34 ∧ Forall is_u64 (regs f).

Lemma frame_args f : frame_ok f → args_ok (syscall_args f).
Proof.
  intros [_ Hf]. assert (Hz : ∀ xs, Forall is_u64 xs → ∀ i, is_u64 (arg xs i)).
  { intros xs Hxs i. unfold arg. destruct (xs !! i) as [x|] eqn:Hx; cbn; [|by split].
    rewrite Forall_forall in Hxs. apply Hxs. by apply list_elem_of_lookup_2 in Hx. }
  split; cbn [number args syscall_args]; [by apply Hz|]. apply Hz. by apply Forall_take.
Qed.

(** The lookups for the running task. *)
Lemma user_task_total k l : kernel_ok k l → ∃ u, user_task k = Some u ∧
  match u with
  | Some (p, w, a) => is_Some (tables k !! p) ∧ (0 ≤ base w ≤ U64_MAX)%Z ∧ direct_mapped (MEMORY k) a ∧
      is_Some (current (SCHED k))
  | None => True
  end.
Proof.
  intros Hk. pose proof (ko_sched _ _ Hk) as Hs. unfold user_task, current_user_table, current_address_space_handle,
    current_user_window, current_slot.
  destruct (current (SCHED k)) as [h|] eqn:Hc; [|eexists; split; [done|done]].
  pose proof (registered_lt _ _ _ Hs (proj1 (so_current _ _ Hs h Hc))) as Hlt.
  destruct (lookup_lt_is_Some_2 (task_cap_tables (SCHED k)) (task_index h)) as [ot Hot]; [by rewrite (so_tables _ _ Hs)|].
  destruct (lookup_lt_is_Some_2 (task_address_space_handles (SCHED k)) (task_index h)) as [oa Hoa]; [by rewrite (so_as _ _ Hs)|].
  destruct (lookup_lt_is_Some_2 (task_user_windows (SCHED k)) (task_index h)) as [ow How]; [by rewrite (so_windows _ _ Hs)|].
  rewrite Hot, Hoa, How. eexists. split; [done|].
  destruct ot as [p|], ow as [w|]; try done. destruct (oa ≫= get_address_space (AS_ARENA k)) as [a|] eqn:Ha; [|done].
  split; [by apply (ko_bound _ _ Hk (task_index h))|]. split; [by apply (ko_windows _ _ Hk (task_index h))|].
  split; [|done]. destruct oa as [hd|]; [|done]. by apply (ko_spaces _ _ Hk hd).
Qed.

(** ** The frame of a dispatch: what it cannot change *)

Lemma dispatch_frame c a c' eff : dispatch_post c a c' eff →
  ep_arena c' = ep_arena c ∧ sc_mem c' = sc_mem c ∧ user_window c' = user_window c ∧ task_as c' = task_as c.
Proof.
  unfold dispatch_post. destruct (decode (number a)) as [[]|].
  - by intros (i' & r & _ & -> & _).
  - by intros (i' & r & _ & -> & _).
  - by intros [-> _].
  - by intros [-> _].
  - by intros (r & _ & [(_ & _ & _ & ->)|[(_ & _ & _ & ->)|(e & _ & _ & ->)]]).
  - by intros [_ ->].
Qed.

Lemma decode_number a n : decode (number a) = Some n → number a = as_u64 n.
Proof.
  unfold decode. repeat case_bool_decide; try (intros [= <-]; done).
  destruct debug_assertions; cbn; [intros [= <-]|]; done.
Qed.

(** Only two calls give a directive, and they leave the context alone. *)
Lemma dispatch_effect c a c' eff : dispatch_post c a c' eff →
  match eff with
  | Resume _ => True
  | Reschedule => number a = 3%Z ∧ c' = c
  | Terminate _ => number a = 4%Z ∧ c' = c
  end.
Proof.
  unfold dispatch_post. destruct (decode (number a)) as [[]|] eqn:Hn; [pose proof (decode_number _ _ Hn) as Hd..|].
  - by intros (i' & r & _ & _ & ->).
  - by intros (i' & r & _ & _ & ->).
  - intros [-> ->]. by destruct (has_current_task c).
  - intros [-> ->]. by destruct (has_current_task c).
  - by intros (r & -> & _).
  - by intros [-> _].
Qed.

(** A caller without a capability and without a task gets an error and nothing else. *)
Lemma dispatch_no_caps {E} c a : has_current_task c = false → (∀ h, named (caller_table c) h = None) →
  ∃ e, Dispatch.dispatch (E := E) a c = Some (c, Ok (Resume (ret_error e))).
Proof.
  intros Hcur Hno. unfold caller_table in Hno.
  assert (Hv : ∀ h r, validate_ep_cap (Ipc.table (sc_ipc c)) h r = Some (Err StaleHandle)).
  { intros h r. unfold validate_ep_cap. rewrite lookup_eq, Hno. done. }
  assert (Hc : set_ipc (sc_ipc c) c = c) by (by destruct c).
  unfold Dispatch.dispatch. destruct (decode (number a)) as [[]|].
  - unfold sys_send, attempt, on_sys_ipc, zoom, ipc_send, reads, bind. rewrite Hv, Hc. by eexists.
  - unfold sys_recv, attempt, on_sys_ipc, zoom, ipc_recv, reads, bind. rewrite Hv, Hc. by eexists.
  - unfold bind, gets. rewrite Hcur. by eexists.
  - unfold bind, gets. rewrite Hcur. by eexists.
  - unfold sys_console_write, attempt, console_write_body, reads, bind. unfold validate_debug_console_cap, caller_table.
    rewrite lookup_eq, Hno. by eexists.
  - by eexists.
Qed.

(** A directive leaves the statics as they were. *)
Lemma commit_same k p t w a : tables k !! p = Some t → commit (Some p) (context_of k t w a true) k = k.
Proof.
  intros Ht. destruct k as [k1 k2 k3 k4 k5 k6 k7 k8 k9]. unfold commit, context_of, caller_table.
  cbn [SCHED tables AS_ARENA EP_ARENA IPC_QUEUES FAILCLOSED_TABLE BOOTSTRAP_AS CONSOLE MEMORY Ipc.queues Ipc.table sc_ipc sc_mem console] in *.
  f_equal. by apply insert_id.
Qed.

(** A console write leaves all but the console. *)
Lemma commit_console k p t w a bs : tables k !! p = Some t →
  commit (Some p) (console_write_bytes bs (context_of k t w a true)) k = write_console bs k.
Proof. intros Ht. change (write_console bs (commit (Some p) (context_of k t w a true) k) = write_console bs k). by rewrite commit_same. Qed.

(** ** What a call may do

The user task that traps has the table [t] at [p], the window [w] and the address
space [a]; its call [f] is answered with [r] and the statics become [k'].  One
constructor per way a call ends: each names the capability of the caller that allows
what it changes. *)

(** [k] with the queues [q] and the caller's table [t'] at [p]. *)
Definition after_ipc (q : IpcQueues) (p : Z) (t' : CapabilityTable) k : Kernel AS Ctx :=
  {| SCHED := SCHED k; AS_ARENA := AS_ARENA k; EP_ARENA := EP_ARENA k; IPC_QUEUES := q; tables := <[p := t']> (tables k);
     FAILCLOSED_TABLE := FAILCLOSED_TABLE k; BOOTSTRAP_AS := BOOTSTRAP_AS k; CONSOLE := CONSOLE k; MEMORY := MEMORY k |}.

Inductive call_effect k (p : Z) (w : UserAccessWindow) (a : AS) (t : CapabilityTable) f : SyscallReturn → Kernel AS Ctx → Prop :=
| ce_refused r : status r ≠ OK_STATUS → call_effect k p w a t f r k
| ce_refreshed r right ep : status r ≠ OK_STATUS →
    grants t (decode_required_cap_handle (arg (regs f) 0)) right ep → live_ep (EP_ARENA k) ep →
    (arg (regs f) 8 = 1%Z ∧ right = SEND ∨ arg (regs f) 8 = 2%Z ∧ right = RECV) →
    call_effect k p w a t f r (after_ipc (put ep (ep_state (IPC_QUEUES k) ep) (IPC_QUEUES k)) p t k)
| ce_sent ep owned t' new out : arg (regs f) 8 = 1%Z →
    grants t (decode_required_cap_handle (arg (regs f) 0)) SEND ep → live_ep (EP_ARENA k) ep →
    taken t (decode_cap_handle (arg (regs f) 5)) owned t' →
    send_step (ep_state (IPC_QUEUES k) ep) (decode_send_message (take 6 (regs f))) owned new out →
    call_effect k p w a t f (with_payload 0 ret_ok (encode_send_outcome out)) (after_ipc (put ep new (IPC_QUEUES k)) p t' k)
| ce_received ep t' new out : arg (regs f) 8 = 2%Z →
    grants t (decode_required_cap_handle (arg (regs f) 0)) RECV ep → live_ep (EP_ARENA k) ep →
    recv_step (ep_state (IPC_QUEUES k) ep) t new t' out →
    call_effect k p w a t f (encode_recv_outcome out) (after_ipc (put ep new (IPC_QUEUES k)) p t' k)
| ce_wrote : arg (regs f) 8 = 5%Z →
    console_granted t (decode_required_cap_handle (arg (regs f) 0)) →
    accessible (MEMORY k) a w false (arg (regs f) 1) (arg (regs f) 2) →
    call_effect k p w a t f (with_payload 0 ret_ok (arg (regs f) 2))
      (write_console (user_bytes (MEMORY k) a (arg (regs f) 1) (Z.to_nat (arg (regs f) 2))) k).

Lemma args_arg f i : i < 6 → arg (args (syscall_args f)) i = arg (regs f) i.
Proof. intros Hi. unfold arg. cbn [args syscall_args]. by rewrite lookup_take_lt. Qed.

Lemma ret_error_status e : status (ret_error e) ≠ OK_STATUS.
Proof. destruct e as [| | |e|e]; try destruct e; done. Qed.

Section call.
  Context k (p : Z) (w : UserAccessWindow) (a : AS) (t : CapabilityTable) f.
  Context (Ht : tables k !! p = Some t) (Hq : IpcWF (EP_ARENA k) (IPC_QUEUES k)) (Hwf : WF t).
  Notation c := (context_of k t w a true).
  Notation cap := (decode_required_cap_handle (arg (regs f) 0)).

Lemma commit_ipc i : commit (Some p) (set_ipc i c) k = after_ipc (queues i) p (Ipc.table i) k.
Proof. done. Qed.

Lemma after_ipc_same : after_ipc (IPC_QUEUES k) p t k = k.
Proof. unfold after_ipc. rewrite insert_id by done. by destruct k. Qed.

Lemma refused_effect i' right r : unchanged (EP_ARENA k) cap right (sc_ipc c) i' → status r ≠ OK_STATUS →
  (arg (regs f) 8 = 1%Z ∧ right = SEND ∨ arg (regs f) 8 = 2%Z ∧ right = RECV) →
  call_effect k p w a t f r (commit (Some p) (set_ipc i' c) k).
Proof.
  intros [Htab Hqs] Hr Hn. rewrite commit_ipc. cbn [context_of sc_ipc Ipc.table queues] in Htab, Hqs. rewrite Htab.
  destruct Hqs as [-> | (ep & Hg & Hl & ->)]; [rewrite after_ipc_same; by apply ce_refused|by eapply ce_refreshed].
Qed.

Lemma send_effect i' r : arg (regs f) 8 = 1%Z →
  send_post (EP_ARENA k) (sc_ipc c) cap (decode_send_message (take 6 (regs f))) (decode_cap_handle (arg (regs f) 5)) i' r →
  call_effect k p w a t f (match r with Ok o => with_payload 0 ret_ok (encode_send_outcome o) | Err e => ret_error (EIpc e) end)
    (commit (Some p) (set_ipc i' c) k).
Proof.
  intros Hn. destruct r as [out|e]; cbn [send_post].
  - intros (ep & owned & new & Hg & Hl & Htk & Hst & Hput). rewrite commit_ipc, Hput. by eapply ce_sent.
  - intros [Hu _]. eapply refused_effect; [exact Hu|apply ret_error_status|by left].
Qed.

Lemma recv_effect i' r : arg (regs f) 8 = 2%Z → recv_post (EP_ARENA k) (sc_ipc c) cap i' r →
  call_effect k p w a t f (match r with Ok o => encode_recv_outcome o | Err e => ret_error (EIpc e) end)
    (commit (Some p) (set_ipc i' c) k).
Proof.
  intros Hn. destruct r as [out|e]; cbn [recv_post].
  - intros (ep & new & Hg & Hl & Hst & Hput). rewrite commit_ipc, Hput. by eapply ce_received.
  - intros [Hu _]. eapply refused_effect; [exact Hu|apply ret_error_status|by right].
Qed.

Lemma console_effect c' r : arg (regs f) 8 = 5%Z → console_post c (take 6 (regs f)) c' r →
  call_effect k p w a t f r (commit (Some p) c' k).
Proof.
  intros Hn. assert (Ha : ∀ i, i < 6 → arg (take 6 (regs f)) i = arg (regs f) i) by apply args_arg.
  pose proof (commit_same k p t w a Ht) as Hc.
  unfold console_post. rewrite !Ha by lia. intros [(-> & Hg & Hok & ->)|[(-> & _ & _ & ->)|(e & -> & _ & ->)]].
  - rewrite (commit_console k p t w a) by done. by apply ce_wrote.
  - rewrite Hc. by apply ce_refused.
  - rewrite Hc. apply ce_refused, ret_error_status.
Qed.

(** Every answer of the dispatcher is such an effect. *)
Lemma dispatch_call_effect c' r : dispatch_post c (syscall_args f) c' (Resume r) → call_effect k p w a t f r (commit (Some p) c' k).
Proof.
  pose proof (commit_same k p t w a Ht) as Hc.
  unfold dispatch_post. destruct (decode (number (syscall_args f))) as [n|] eqn:Hn; [pose proof (decode_number _ _ Hn) as Hx|].
  2:{ intros [[= ->] ->]. rewrite Hc. apply ce_refused, ret_error_status. }
  cbn [number syscall_args] in Hx. destruct n; cbn in Hx.
  - intros (i' & v & Hv & -> & [= ->]). apply send_effect; [done|]. rewrite !args_arg in Hv by lia.
    exact (wp_det _ _ _ _ _ (ipc_send_wp (EP_ARENA k) (sc_ipc c) Hq Hwf _ _ _) Hv).
  - intros (i' & v & Hv & -> & [= ->]). apply recv_effect; [done|]. rewrite !args_arg in Hv by lia.
    exact (wp_det _ _ _ _ _ (ipc_recv_wp (EP_ARENA k) (sc_ipc c) Hq Hwf _) Hv).
  - by intros [_ ?].
  - by intros [_ ?].
  - intros (v & [= ->] & Hp). by apply console_effect.
Qed.
End call.

(** ** The trap *)

Lemma kernel_ok_sched k l s' l' : kernel_ok k l → sched_ok s' l' → idle s' = idle (SCHED k) →
  task_cap_tables s' = task_cap_tables (SCHED k) → task_user_windows s' = task_user_windows (SCHED k) →
  kernel_ok (set_SCHED s' k) l'.
Proof.
  intros [] Hs Hi Ht Hw. split; cbn [set_SCHED SCHED tables AS_ARENA EP_ARENA IPC_QUEUES FAILCLOSED_TABLE BOOTSTRAP_AS MEMORY];
    rewrite ?Hi, ?Ht, ?Hw; done.
Qed.

Lemma kernel_ok_console k l bs : kernel_ok k l → kernel_ok (write_console bs k) l.
Proof. by intros []. Qed.

(** The context of a user task and what [dispatch] leaves of it. *)
Lemma context_ok k l p w a t : kernel_ok k l → tables k !! p = Some t → (0 ≤ base w ≤ U64_MAX)%Z →
  direct_mapped (MEMORY k) a → ctx_ok (context_of k t w a true).
Proof. intros Hk Ht Hw Ha. split; [|done|done]. split; [apply Hk|by apply (ko_tables _ _ Hk p)]. Qed.

Lemma commit_ok k l p w a t args c' eff : kernel_ok k l → tables k !! p = Some t →
  ctx_ok c' → dispatch_post (context_of k t w a true) args c' eff → kernel_ok (commit (Some p) c' k) l.
Proof.
  intros [] Ht [[Hq Hc] _ _] Hp. destruct (dispatch_frame _ _ _ _ Hp) as (He & Hm & _ & _). cbn in He, Hm.
  rewrite He in Hq. split; cbn [commit SCHED tables AS_ARENA EP_ARENA IPC_QUEUES FAILCLOSED_TABLE BOOTSTRAP_AS MEMORY];
    rewrite ?Hm; try done.
  - intros p' t' [[<- <-]|[_ Ht']]%lookup_insert_Some; [exact Hc|by apply (ko_tables0 p')].
  - intros i p' Hi. apply lookup_insert_is_Some'. right. by apply (ko_bound0 i).
Qed.

Lemma commit_none k t : FAILCLOSED_TABLE k = Some t →
  commit None (context_of k t window_empty (BOOTSTRAP_AS k) false) k = k.
Proof. destruct k as [k1 k2 k3 k4 k5 k6 k7 k8 k9]. cbn [FAILCLOSED_TABLE]. by intros ->. Qed.

Lemma set_result_keeps r f i : 8 ≤ i → regs (set_result r f) !! i = regs f !! i.
Proof. intros Hi. unfold set_result, set_reg. cbn [regs]. rewrite !list_lookup_insert_ne by lia. done. Qed.

Lemma set_result_length r f : length (regs (set_result r f)) = length (regs f).
Proof. unfold set_result, set_reg. cbn [regs]. by rewrite !length_insert. Qed.

(** The frame of a trap that returns. *)
Lemma returned_frame (k k' : Kernel AS Ctx) f r (P : SyscallReturn → Prop) : frame_ok f → SCHED k' = SCHED k → P r →
  SCHED k' = SCHED k ∧ length (regs (set_result r f)) = 34 ∧ (∀ i, 8 ≤ i → regs (set_result r f) !! i = regs f !! i) ∧
  ∃ v, set_result r f = set_result v f ∧ P v.
Proof.
  intros [Hf _] Hs HP. split; [done|]. split; [by rewrite set_result_length|]. split; [apply set_result_keeps|by exists r].
Qed.

(** The trap of a task whose context is incomplete. *)
Lemma fallback_trap {E} k l f : kernel_ok k l → user_task k = Some None → is_Some (FAILCLOSED_TABLE k) →
  ∃ e, syscall_entry (E := E) f k = Some (k, Ok (Returned (set_result (ret_error e) f))).
Proof.
  intros Hk Hu [t Ht]. unfold syscall_entry, make_context. rewrite Hu, Ht.
  destruct (dispatch_no_caps (E := E) (context_of k t window_empty (BOOTSTRAP_AS k) false) (syscall_args f) eq_refl
    (proj2 (ko_failclosed _ _ Hk t Ht))) as [e ->].
  exists e. by rewrite (commit_none k t Ht).
Qed.

(** A reschedule and an exit, by the scheduler's own theorems. *)
Lemma reschedule_wp {E} k l f : kernel_ok k l → is_Some (current (SCHED k)) →
  ∃ s' d l', apply_effect (E := E) Reschedule f k = Some (set_SCHED s' k, Ok (Rescheduled d (set_reg 0 OK_STATUS f))) ∧
    yield_now (SCHED k) = Some (s', Ok d) ∧ kernel_ok (set_SCHED s' k) l'.
Proof.
  intros Hk [cur Hcur]. pose proof (ko_sched _ _ Hk) as Hs.
  destruct (proj1 (wp_run _ _ _) (yield_now_wp (SCHED k) l cur Hs Hcur)) as (s' & r & Hrun & q & l' & next & Hy & Hq & Hn).
  pose proof (yield_next_ok _ _ _ q l' next Hs Hcur Hy Hq) as Hok.
  assert (Hres : ∃ d, r = Ok d ∧ sched_ok s' l' ∧ idle s' = idle (SCHED k) ∧
    task_cap_tables s' = task_cap_tables (SCHED k) ∧ task_user_windows s' = task_user_windows (SCHED k)).
  { destruct next as [h|]; [destruct Hn as (-> & a & b & _ & _ & ->)|destruct Hn as [-> ->]]; by eexists. }
  destruct Hres as (d & -> & Hok' & Hi & Ht & Hw). exists s', d, l'. split; [|split; [done|by eapply kernel_ok_sched]].
  unfold apply_effect, attempt, zoom, bind, debug_assert. rewrite Hrun. by rewrite andb_false_r.
Qed.

Lemma exit_wp {E} k l f code : kernel_ok k l →
  ∃ s' n l', apply_effect (E := E) (Terminate code) f k =
      Some (set_SCHED s' (write_console EXIT_MESSAGE k), Ok (Exited n)) ∧
    task_exit_current (E := E) (SCHED k) = Some (s', Ok n) ∧ kernel_ok (set_SCHED s' (write_console EXIT_MESSAGE k)) l'.
Proof.
  intros Hk. pose proof (ko_sched _ _ Hk) as Hs. assert (∃ h, boot_next (SCHED k) l = Some h) as [h Hh].
  { destruct (ko_idle _ _ Hk) as [i Hi]. destruct l; [by exists i|by eexists]. }
  destruct (proj1 (wp_run _ _ _) (start_prelude_wp (E := E) (SCHED k) l h Hs Hh)) as (s' & r & Hrun & -> & q & -> & Hok).
  pose proof (registered_lt _ _ _ Hok (proj1 (so_current _ _ Hok h eq_refl))) as Hlt.
  set (s' := set_current (Some h) (set_ready q (SCHED k))) in *.
  destruct (lookup_lt_is_Some_2 (task_address_space_handles s') (task_index h)) as [oa Hoa]; [by rewrite (so_as _ _ Hok)|].
  destruct (lookup_lt_is_Some_2 (contexts s') (task_index h)) as [x Hx]; [by rewrite (so_contexts _ _ Hok)|].
  assert (Hex : task_exit_current (E := E) (SCHED k) = Some (s', Ok (oa, task_index h))).
  { unfold task_exit_current, bind at 1. rewrite Hrun. unfold run_dispatched, bind, idx. by rewrite Hoa, Hx. }
  exists s', (oa, task_index h), (tail l). split; [|split; [done|]].
  - unfold apply_effect, modify, zoom, bind. cbn [write_console SCHED]. by rewrite Hex.
  - apply (kernel_ok_sched _ l); try done. by apply kernel_ok_console.
Qed.
End entry.

(** C8: a system call is confined to what its task was given.  Let the board's statics
    be well formed ([kernel_ok], and the fail-closed table written if it is needed).
    For any 34 saved words the trap returns in either build and the statics stay well
    formed; memory, the arenas, the fail-closed table and the table of every task but the
    caller's are untouched.  A result replaces x0 to x7 and no other register, leaves the
    scheduler as it was, and everything else it changes is a [call_effect]: an endpoint's
    queue changes only if the caller's table holds the capability for that endpoint with
    the right the call needs, by one step of its state machine, and no other queue does;
    the caller's table loses the capability it sent or gains the one that waited at that
    endpoint, and nothing else; the console gets the bytes of the caller's readable
    buffer, if the caller holds the console capability; a refused call changes nothing
    that can be observed.  Only call 3 reschedules and only call 4 ends the task; then the
    scheduler does exactly its yield or exit and nothing else changes (but the farewell on
    the console).  A trap from a task without a table, a window or an address space
    changes nothing at all and answers an error. *)
Theorem syscall_entry_is_confined `{Build} `{Translate AS} `{Contexts Ctx} {E} (k : Kernel AS Ctx) l f :
  kernel_ok k l → (user_task k = Some None → is_Some (FAILCLOSED_TABLE k)) → frame_ok f →
  ∃ k' r l', syscall_entry (E := E) f k = Some (k', Ok r) ∧ kernel_ok k' l' ∧
    MEMORY k' = MEMORY k ∧ AS_ARENA k' = AS_ARENA k ∧ EP_ARENA k' = EP_ARENA k ∧ FAILCLOSED_TABLE k' = FAILCLOSED_TABLE k ∧
    (∀ p, (∀ w a, user_task k ≠ Some (Some (p, w, a))) → tables k' !! p = tables k !! p) ∧
    (user_task k = Some None → ∃ e, k' = k ∧ r = Returned (set_result (ret_error e) f)) ∧
    match r with
    | Returned f' => SCHED k' = SCHED k ∧ length (regs f') = 34 ∧ (∀ i, 8 ≤ i → regs f' !! i = regs f !! i) ∧
        ∃ v, f' = set_result v f ∧
        ∀ p w a t, user_task k = Some (Some (p, w, a)) → tables k !! p = Some t → call_effect k p w a t f v k'
    | Rescheduled d f' => arg (regs f) 8 = 3%Z ∧ k' = set_SCHED (SCHED k') k ∧
        yield_now (SCHED k) = Some (SCHED k', Ok d) ∧ f' = set_reg 0 OK_STATUS f
    | Exited n => arg (regs f) 8 = 4%Z ∧ k' = set_SCHED (SCHED k') (write_console EXIT_MESSAGE k) ∧
        task_exit_current (E := E) (SCHED k) = Some (SCHED k', Ok n)
    end.
Proof.
  intros Hk Hfc Hf. destruct (user_task_total k l Hk) as (u & Hu & Hspec). rewrite Hu.
  destruct u as [[[p w] a]|].
  2:{ destruct (fallback_trap (E := E) k l f Hk Hu (Hfc Hu)) as [e ->].
      exists k, (Returned (set_result (ret_error e) f)), l. split; [done|].
      do 6 (split; [done|]). split; [intros _; by exists e|]. by apply returned_frame. }
  destruct Hspec as ([t Ht] & Hw & Ha & Hcur). unfold syscall_entry, make_context. rewrite Hu, Ht.
  pose proof (context_ok k l p w a t Hk Ht Hw Ha) as Hctx. pose proof (frame_args f Hf) as Hargs.
  destruct (proj1 (wp_run _ _ _) (dispatch_post_wp (E := E) _ _ Hctx Hargs)) as (c' & x & -> & eff & -> & Hpost).
  pose proof (dispatch_post_ok _ _ _ _ Hctx Hpost) as Hctx'. pose proof (commit_ok k l p w a t _ _ _ Hk Ht Hctx' Hpost) as Hk'.
  destruct (dispatch_frame _ _ _ _ Hpost) as (_ & Hmem & _ & _). cbn [context_of sc_mem] in Hmem.
  assert (Hother : ∀ p', (∀ w' a', Some (Some (p, w, a)) ≠ Some (Some (p', w', a'))) →
    tables (commit (Some p) c' k) !! p' = tables k !! p').
  { intros p' Hp'. apply lookup_insert_ne. intros ->. by apply (Hp' w a). }
  pose proof (dispatch_effect _ _ _ _ Hpost) as Heff. destruct eff as [r| |code].
  - exists (commit (Some p) c' k), (Returned (set_result r f)), l. split; [done|]. split; [done|].
    split; [exact Hmem|]. do 3 (split; [done|]). split; [exact Hother|]. split; [done|].
    apply returned_frame; [done..|]. intros p' w' a' t' [= <- <- <-] Ht'. assert (t' = t) as -> by congruence.
    apply dispatch_call_effect; [done|by apply (ko_queues _ _ Hk)|by apply (ko_tables _ _ Hk p)|done].
  - destruct Heff as [Hn ->]. rewrite commit_same in * by done.
    destruct (reschedule_wp (E := E) k l f Hk Hcur) as (s' & d & l' & -> & Hy & Hok).
    exists (set_SCHED s' k), (Rescheduled d (set_reg 0 OK_STATUS f)), l'. split; [done|]. by do 8 (split; [done|]).
  - destruct Heff as [Hn ->]. rewrite commit_same in * by done.
    destruct (exit_wp (E := E) k l f code Hk) as (s' & n & l' & -> & Hy & Hok).
    exists (set_SCHED s' (write_console EXIT_MESSAGE k)), (Exited n), l'. split; [done|]. by do 8 (split; [done|]).
Qed.

(** ** A sample kernel: the user task in slot 2 runs, another waits in slot 3 *)

#[local] Existing Instance no_contexts.
#[local] Existing Instance debug_build.
#[local] Existing Instance two_pages.

Definition add_space (a : AddressSpaceArena unit) : AddressSpaceArena unit :=
  match allocate (from_mmu_address_space tt) a with Some (a', _) => a' | None => a end.

Definition sample_kernel : Kernel unit unit :=
  {| SCHED := wsched yielded_world; AS_ARENA := add_space (add_space (Arena.new ADDRESS_SPACE_ARENA_CAPACITY));
     EP_ARENA := sample_arena; IPC_QUEUES := IpcQueues_new;
     tables := {[0x6000%Z := console_table; 0x8000%Z := console_table]}; FAILCLOSED_TABLE := Some new; BOOTSTRAP_AS := tt;
     CONSOLE := []; MEMORY := counting |}.

(** A call of [task_yield], with other registers in use. *)
Definition sample_frame : SyscallTrapFrame := {| regs := replicate 8 7%Z ++ [3%Z] ++ replicate 25 9%Z |}.

Lemma sample_frame_ok : frame_ok sample_frame.
Proof.
  split; [reflexivity|]. apply Forall_app_2; [by apply Forall_replicate|].
  apply Forall_app_2; [by apply Forall_singleton|by apply Forall_replicate].
Qed.

Lemma Forall_at {X} (P : X → Prop) (xs : list X) i x : Forall P xs → xs !! i = Some x → P x.
Proof. intros Hf Hx. by apply (Forall_lookup_1 _ _ _ _ Hf Hx). Qed.

Lemma sample_kernel_ok : ∃ l, kernel_ok sample_kernel l.
Proof.
  destruct (reachable_ok yielded_world yielded_reachable) as [l Hw]. exists l.
  split; cbn [sample_kernel SCHED AS_ARENA EP_ARENA IPC_QUEUES tables FAILCLOSED_TABLE BOOTSTRAP_AS CONSOLE MEMORY].
  - apply (wo_sched _ _ Hw).
  - exists (task_at 0). vm_compute. reflexivity.
  - apply sample_queues_WF.
  - intros p t [[_ <-]|[_ Ht]]%lookup_insert_Some; [apply console_table_WF|].
    apply lookup_singleton_Some in Ht as [_ <-]. apply console_table_WF.
  - intros t [= <-]. split; [apply new_WF|]. intros h. destruct (named new h) as [e|] eqn:He; [|done]. exfalso.
    apply named_Some in He as [_ He]. revert He. unfold ent.
    assert (Forall (λ x, entry x = None) (slots new)) as Hall by (vm_compute; repeat constructor).
    destruct (slots new !! ch_index h) as [x|] eqn:Hx; cbn; [|done].
    by rewrite (Forall_at _ _ _ _ Hall Hx).
  - intros hd [[]] _. exact (two_pages_direct counting).
  - exact (two_pages_direct counting).
  - intros i p Hi.
    assert (p = 0x6000%Z ∨ p = 0x8000%Z) as [-> | ->].
    { refine (Forall_at (λ o, match o with Some p => p = 0x6000%Z ∨ p = 0x8000%Z | None => True end) _ i (Some p) _ Hi).
      vm_compute. repeat first [apply Forall_nil_2|apply Forall_cons_2]; auto. }
    + exists console_table. apply lookup_insert_eq.
    + exists console_table. rewrite lookup_insert_ne by done. apply lookup_singleton_eq.
  - intros i w Hi.
    assert (w = {| base := 0x80000000; len := 0x10000 |}) as ->.
    { refine (Forall_at (λ o, match o with Some w => w = {| base := 0x80000000; len := 0x10000 |} | None => True end) _ i (Some w) _ Hi).
      vm_compute. repeat first [apply Forall_nil_2|apply Forall_cons_2]; auto. }
    unfold U64_MAX. cbn. lia.
Qed.

(** A write of no bytes to the console. *)
Definition write_frame : SyscallTrapFrame := {| regs := replicate 8 0%Z ++ [5%Z] ++ replicate 25 9%Z |}.

Lemma write_frame_ok : frame_ok write_frame.
Proof.
  split; [reflexivity|]. apply Forall_app_2; [by apply Forall_replicate|].
  apply Forall_app_2; [by apply Forall_singleton|by apply Forall_replicate].
Qed.

Lemma syscall_entry_is_confined_witness :
  (∃ k' f', syscall_entry (E := unit) sample_frame sample_kernel =
      Some (k', Ok (Rescheduled (Switch 2 3 (Some (as_at 2))) f')) ∧
    tables k' !! 0x8000%Z = Some console_table ∧ regs f' !! 0 = Some 0%Z ∧ regs f' !! 1 = Some 7%Z) ∧
  (∃ k' f' v, syscall_entry (E := unit) write_frame sample_kernel = Some (k', Ok (Returned f')) ∧ status v = OK_STATUS ∧
    call_effect sample_kernel 0x6000 {| base := 0x80000000; len := 0x10000 |} tt console_table write_frame v k').
Proof.
  destruct sample_kernel_ok as [l Hk]. split.
  - destruct (syscall_entry_is_confined (E := unit) sample_kernel l sample_frame Hk) as (k' & r & l' & Hrun & _ & _ & _ & _ & _ & Ho & _ & Hr).
    { intros _. by eexists. }
    { exact sample_frame_ok. }
    assert (Hx : ∃ f', r = Rescheduled (Switch 2 3 (Some (as_at 2))) f').
    { apply (f_equal (fmap snd)) in Hrun. vm_compute in Hrun. injection Hrun as <-. by eexists. }
    destruct Hx as [f' ->]. exists k', f'. split; [exact Hrun|]. destruct Hr as (_ & _ & _ & ->).
    split; [|split; reflexivity]. rewrite Ho; [vm_compute; reflexivity|].
    intros w a Hu. apply (f_equal (fmap (fmap (λ x : Z * UserAccessWindow * unit, x.1.1)))) in Hu. vm_compute in Hu. discriminate Hu.
  - destruct (syscall_entry_is_confined (E := unit) sample_kernel l write_frame Hk) as (k' & r & l' & Hrun & _ & _ & _ & _ & _ & _ & _ & Hr).
    { intros _. by eexists. }
    { exact write_frame_ok. }
    assert (Hx : ∃ f', r = Returned f' ∧ regs f' !! 0 = Some OK_STATUS).
    { apply (f_equal (fmap snd)) in Hrun. vm_compute in Hrun. injection Hrun as <-. by eexists. }
    destruct Hx as (f' & -> & Hst). destruct Hr as (_ & _ & _ & v & -> & Hce).
    exists k', (set_result v write_frame), v. split; [exact Hrun|]. split; [by injection Hst|].
    apply Hce; vm_compute; reflexivity.
Defined.
