(* ===== verification/Vectors.v ===== *)
(** * Exception entry (bsp-qemu-virt/src/vectors.s, exceptions.rs)

The vector table and its trampolines around the Rust handlers.  What the hardware does
on an exception is [take_exception]; a Rust handler is a parameter, a function of the
core and memory it is called with. *)

From Stdlib Require Import String.
From S2P Require Import Prelude.
From S2P Require Import Hal.
From S2P Require Import UserAccess.
From S2P Require Import Words.
From S2P Require Import Cpu.
From S2P Require Import SyscallEntry.
Local Open Scope Z_scope.

(** ** The exception classes *)

Inductive exception := Sync | Irq | Fiq | SError.

#[export] Instance exception_eq_dec : EqDecision exception.
Proof. solve_decision. Defined.

(** Where an exception comes from: EL1 on either stack pointer, EL0 in either state. *)
Inductive origin := CurrElSp0 | CurrElSpx | LowerAarch64 | LowerAarch32.

Inductive trampoline :=
| tyrne_sync_trampoline
| tyrne_irq_curr_el_trampoline
| tyrne_unhandled_exception_trampoline
| tyrne_unhandled_irq_trampoline.

(** The sixteen entries, 0x80 bytes each. *)
Definition tyrne_vectors : list trampoline := [
  tyrne_unhandled_exception_trampoline; tyrne_unhandled_irq_trampoline;
  tyrne_unhandled_exception_trampoline; tyrne_unhandled_exception_trampoline;
  tyrne_sync_trampoline; tyrne_irq_curr_el_trampoline;
  tyrne_unhandled_exception_trampoline; tyrne_unhandled_exception_trampoline;
  tyrne_sync_trampoline; tyrne_unhandled_irq_trampoline;
  tyrne_unhandled_exception_trampoline; tyrne_unhandled_exception_trampoline;
  tyrne_unhandled_exception_trampoline; tyrne_unhandled_irq_trampoline;
  tyrne_unhandled_exception_trampoline; tyrne_unhandled_exception_trampoline ].

Definition class_index (e : exception) : nat := match e with Sync => 0 | Irq => 1 | Fiq => 2 | SError => 3 end.
Definition origin_index (o : origin) : nat :=
  match o with CurrElSp0 => 0 | CurrElSpx => 1 | LowerAarch64 => 2 | LowerAarch32 => 3 end.
Definition vector_offset (o : origin) (e : exception) : Z := 0x200 * Z.of_nat (origin_index o) + 0x80 * Z.of_nat (class_index e).
Definition vector (o : origin) (e : exception) : option trampoline := tyrne_vectors !! Z.to_nat (vector_offset o e / 0x80).

(** Where the core is, from its processor state: AArch64 EL0, EL1 with its own stack
    pointer or with that of EL0; the kernel never enters AArch32. *)
Definition origin_of (c : Core) : origin :=
  if bool_decide (current_el c = 0) then LowerAarch64 else if Z.testbit (pstate c) 0 then CurrElSpx else CurrElSp0.

(** The hardware: the return address and state are saved, and EL1 goes on at the vector,
    on its stack pointer, with everything masked; the condition flags stay. *)
Definition take_exception (vbar : Z) (e : exception) (esr : Z) (c : Core) : Core :=
  branch (vbar + vector_offset (origin_of c) e) (Z.lor (Z.land (pstate c) 0xF0000000) 0x3c5)
    (set_sys ESR_EL1 esr (set_sys SPSR_EL1 (pstate c) (set_sys ELR_EL1 (pc c) c))).

(** ** The system-call trampoline *)

Definition SYNC_FRAME : Z := 272.

Definition sync_save : list instr := [
  SubSp 272;
  StpSp 0 1 0x00; StpSp 2 3 0x10; StpSp 4 5 0x20; StpSp 6 7 0x30; StpSp 8 9 0x40; StpSp 10 11 0x50; StpSp 12 13 0x60;
  StpSp 14 15 0x70; StpSp 16 17 0x80; StpSp 18 19 0x90; StpSp 20 21 0xA0; StpSp 22 23 0xB0; StpSp 24 25 0xC0;
  StpSp 26 27 0xD0; StpSp 28 29 0xE0;
  Mrs 0 SP_EL0; StpSp 30 0 0xF0;
  Mrs 0 ELR_EL1; Mrs 1 SPSR_EL1; StpSp 0 1 0x100 ].
Definition sync_class : list instr := [ Mrs 0 ESR_EL1; Lsr 0 26; AndImm 0 0x3f ].
Definition sync_restore : list instr := [
  LdpSp 0 1 0x100; Msr ELR_EL1 0; Msr SPSR_EL1 1;
  LdpSp 30 0 0xF0; Msr SP_EL0 0;
  LdpSp 2 3 0x10; LdpSp 4 5 0x20; LdpSp 6 7 0x30; LdpSp 8 9 0x40; LdpSp 10 11 0x50; LdpSp 12 13 0x60; LdpSp 14 15 0x70;
  LdpSp 16 17 0x80; LdpSp 18 19 0x90; LdpSp 20 21 0xA0; LdpSp 22 23 0xB0; LdpSp 24 25 0xC0; LdpSp 26 27 0xD0;
  LdpSp 28 29 0xE0; LdpSp 0 1 0x00;
  AddSp 272; Eret ].

(** Instructions without an end. *)
Fixpoint run (prog : list instr) (s : Core * Mem) : option (Core * Mem) :=
  match prog with
  | [] => Some s
  | i :: rest => if privileged i && negb (bool_decide (current_el s.1 = 1)) then None else run rest (step i s)
  end.

(** How a trap ends: the interrupted code goes on, or [panic_entry] is called. *)
Inductive trap_end :=
| Resumes (s : Core * Mem)
| PanicEntry (class esr : Z).

Definition EC_SVC64 : Z := 0x15.

Section handlers.
  Context (rust : Core * Mem → option (Core * Mem)).

(** The call has the frame's address in [x0]. *)
Definition run_sync (s : Core * Mem) : option trap_end :=
  s ← run sync_save s; s ← run sync_class s;
  if bool_decide (xreg s.1 0 = EC_SVC64) then
    s ← run [MovFromSp 0] s; s ← rust s; s ← exec sync_restore s; Some (Resumes s)
  else
    s ← run [MovImm 0 0; Mrs 1 ESR_EL1] s; Some (PanicEntry (xreg s.1 0) (xreg s.1 1)).

(** ** The interrupt trampoline *)

Definition irq_save : list instr := [
  SubSp 192;
  StpSp 0 1 0x00; StpSp 2 3 0x10; StpSp 4 5 0x20; StpSp 6 7 0x30; StpSp 8 9 0x40; StpSp 10 11 0x50; StpSp 12 13 0x60;
  StpSp 14 15 0x70; StpSp 16 17 0x80; StpSp 18 30 0x90;
  Mrs 0 ELR_EL1; Mrs 1 SPSR_EL1; StpSp 0 1 0xA0;
  MovFromSp 0 ].
Definition irq_restore : list instr := [
  LdpSp 0 1 0xA0; Msr ELR_EL1 0; Msr SPSR_EL1 1;
  LdpSp 18 30 0x90; LdpSp 16 17 0x80; LdpSp 14 15 0x70; LdpSp 12 13 0x60; LdpSp 10 11 0x50; LdpSp 8 9 0x40; LdpSp 6 7 0x30;
  LdpSp 4 5 0x20; LdpSp 2 3 0x10; LdpSp 0 1 0x00;
  AddSp 192; Eret ].

Definition run_irq (s : Core * Mem) : option trap_end :=
  s ← run irq_save s; s ← rust s; s ← exec irq_restore s; Some (Resumes s).
End handlers.

(** The unhandled ones only report, with their class. *)
Definition run_unhandled (class : Z) (s : Core * Mem) : option trap_end :=
  s ← run [SubSp 16; MovImm 0 class; Mrs 1 ESR_EL1] s; Some (PanicEntry (xreg s.1 0) (xreg s.1 1)).

Definition run_trampoline (syscall_entry irq_entry : Core * Mem → option (Core * Mem)) (t : trampoline) :
    Core * Mem → option trap_end :=
  match t with
  | tyrne_sync_trampoline => run_sync syscall_entry
  | tyrne_irq_curr_el_trampoline => run_irq irq_entry
  | tyrne_unhandled_exception_trampoline => run_unhandled 0
  | tyrne_unhandled_irq_trampoline => run_unhandled 1
  end.

(** An exception taken by the core. *)
Definition trap (vbar : Z) (syscall_entry irq_entry : Core * Mem → option (Core * Mem)) (e : exception) (esr : Z)
    (s : Core * Mem) : option trap_end :=
  t ← vector (origin_of s.1) e;
  run_trampoline syscall_entry irq_entry t (take_exception vbar e esr s.1, s.2).

(** ** panic_entry *)

Inductive PanicClass := Generic | UnhandledIrqMode.
Definition PanicClass_from_u64 (raw : Z) : PanicClass := if bool_decide (raw = 1) then UnhandledIrqMode else Generic.
Definition PanicClass_as_str (self : PanicClass) : string :=
  match self with
  | Generic => "unhandled-class exception"
  | UnhandledIrqMode => "IRQ taken from unsupported mode (not curr_el_spx)"
  end.

(** ** Frames *)

(** A frame is 34 words at the address handed to the handler; the interrupt frame has 22
    and two that stay unwritten. *)
Definition frame_words (m : Mem) (p : Z) (n : nat) : list Z := (λ i, read64 m (p + 8 * Z.of_nat i)) <$> seq 0 n.
Definition syscall_frame (m : Mem) (p : Z) : SyscallTrapFrame := {| regs := frame_words m p 34 |}.

(** What the program at EL0 has in the registers a frame holds. *)
Definition user_frame (c : Core) : SyscallTrapFrame :=
  {| regs := (xreg c <$> seq 0 31) ++ [sysregs c SP_EL0; pc c; pstate c] |}.
