(* ===== verification/VectorsProps.v ===== *)
(** * Properties of exception entry

A system call hands the handler the program's registers and gives the program back what
the handler left in the frame; an interrupt gives the interrupted kernel code its
registers back, the vector registers excepted. *)

From Stdlib Require Import String.
From S2P Require Import Prelude.
From S2P Require Import Hal.
From S2P Require Import UserAccess.
From S2P Require Import Abi.
From S2P Require Import UserAccessProps.
From S2P Require Import Words.
From S2P Require Import Sched.
From S2P Require Import SchedProps.
From S2P Require Import Cpu.
From S2P Require Import CpuProps.
From S2P Require Import SyscallEntry.
From S2P Require Import SyscallEntryProps.
From S2P Require Import Vectors.
Local Open Scope Z_scope.

(** ** Taking an exception *)

Lemma masked_el1 p : Z.land (Z.shiftr (Z.shiftl (Z.land (Z.shiftr (Z.lor (Z.land p 0xF0000000) 0x3c5) 2) 3) 2) 2) 3 = 1.
Proof.
  apply Z.bits_inj'. intros k Hk. rewrite Z.land_spec, Z.shiftr_spec, Z.shiftl_spec by lia.
  destruct (decide (k < 2)) as [Hlt|Hge].
  - replace (k + 2 - 2) with k by lia. rewrite Z.land_spec, Z.shiftr_spec, Z.lor_spec, Z.land_spec by lia.
    assert (k = 0 ∨ k = 1) as [->| ->] by lia; cbn -[Z.testbit]; change (Z.testbit 0xF0000000 2) with false;
      change (Z.testbit 0xF0000000 3) with false; rewrite andb_false_r; done.
  - change 3 with (Z.ones 2). rewrite (Z.ones_spec_high 2 k) by lia. rewrite andb_false_r. symmetry.
    change 1 with (Z.ones 1). apply Z.ones_spec_high. lia.
Qed.

Lemma take_exception_el1 vbar e esr c : current_el (take_exception vbar e esr c) = 1.
Proof. apply masked_el1. Qed.

(** ** Running straight lines *)

Lemma run_steps l : ∀ s, forallb (λ i, negb (ends i)) l = true → current_el s.1 = 1 → run l s = Some (steps l s).
Proof.
  induction l as [|i l IH]; intros s He Hel; [done|]. cbn in He. apply andb_prop in He as [He1 He2]. apply negb_true_iff in He1.
  cbn [run]. rewrite Hel. cbn [negb bool_decide]. rewrite bool_decide_true, andb_false_r by done. rewrite IH; [done|done|].
  unfold current_el, CurrentEL in *. by rewrite step_pstate.
Qed.

Lemma steps_el1 l s : forallb (λ i, negb (ends i)) l = true → current_el s.1 = 1 → current_el (steps l s).1 = 1.
Proof.
  revert s. induction l as [|i l IH]; intros s He Hel; [done|]. cbn in He. apply andb_prop in He as [He1 He2]. apply negb_true_iff in He1.
  apply IH; [done|]. unfold current_el, CurrentEL in *. by rewrite step_pstate.
Qed.

(** ** Frames *)

Lemma frame_words_written ws n m p : Forall is_u64 ws → length ws = n → frame_words (write_words m p ws) p n = ws.
Proof.
  intros Hf <-. apply list_eq. intros i. unfold frame_words. rewrite list_lookup_fmap. destruct (ws !! i) as [w|] eqn:Hi.
  - rewrite lookup_seq_lt by (by eapply lookup_lt_Some). cbn [fmap option_fmap option_map]. f_equal. by apply write_words_lookup.
  - apply lookup_ge_None in Hi. by rewrite lookup_ge_None_2 by (by rewrite length_seq).
Qed.

(** A stack with room for a frame of [n] bytes. *)
Definition room (n sp_ : Z) : Prop := n ≤ sp_ < 2 ^ 64.

Lemma wrap_small x y : 0 ≤ x + y < 2 ^ 64 → wrapping_add64 x y = x + y.
Proof. apply Z.mod_small. Qed.

Lemma frame_base n sp_ : room n sp_ → 0 < n → wrapping_add64 sp_ (- n) = sp_ - n.
Proof. unfold room. intros Hr Hn. rewrite wrap_small by lia. lia. Qed.
Lemma frame_ea n sp_ off : room n sp_ → 0 < n → 0 ≤ off < n → wrapping_add64 (wrapping_add64 sp_ (- n)) off = sp_ - n + off.
Proof. unfold room. intros Hr Hn Ho. rewrite frame_base by done. apply wrap_small. lia. Qed.
Lemma frame_pop n sp_ : room n sp_ → 0 < n → wrapping_add64 (sp_ - n) n = sp_.
Proof. unfold room. intros Hr Hn. rewrite wrap_small by lia. lia. Qed.

#[local] Opaque write64 read64 wrapping_add64.

(** What the trampoline saves: the frame's words, in order. *)
Definition saved_words (c : Core) : list Z := (xreg c <$> seq 0 31) ++ [sysregs c SP_EL0; sysregs c ELR_EL1; sysregs c SPSR_EL1].

Lemma sync_save_runs c m : room SYNC_FRAME (sp_el1 c) →
  (steps sync_save (c, m)).2 = write_words m (sp_el1 c - SYNC_FRAME) (saved_words c).
Proof.
  intros Hr. unfold steps, sync_save. cbn. unfold SYNC_FRAME in *. change (wrapping_add64 (sp_el1 c) (-272)) with (wrapping_add64 (sp_el1 c) (- 272)).
  rewrite !(frame_ea 272 (sp_el1 c)) by (done || lia).
  repeat (apply write64_cong; [|lia|done]). done.
Qed.

(** Loads from the frame. *)
Lemma exec_ldpsp c m p n i a b off rest : sp_el1 c = p → 0 ≤ p → p + n ≤ 2 ^ 64 → off = 8 * Z.of_nat i → off + 16 ≤ n →
  exec (LdpSp a b off :: rest) (c, m) = exec rest (set_x b (word_at m p (S i)) (set_x a (word_at m p i) c), m).
Proof.
  intros <- H0 Hp -> Hn. cbn [exec privileged andb step]. unfold word_at.
  assert (Hw : ∀ o, 0 ≤ o < n → wrapping_add64 (sp_el1 c) o = sp_el1 c + o)
    by (intros o Ho; apply wrap_small; lia).
  rewrite !Hw by lia. do 4 f_equal. f_equal. lia.
Qed.

Lemma exec_msr c m r a rest : current_el c = 1 → exec (Msr r a :: rest) (c, m) = exec rest (set_sys r (xreg c a) c, m).
Proof. intros Hel. cbn [exec privileged andb fst]. by rewrite bool_decide_true. Qed.

Lemma exec_add_sp c m n rest : exec (AddSp n :: rest) (c, m) = exec rest (set_sp (wrapping_add64 (sp_el1 c) n) c, m).
Proof. done. Qed.

Lemma exec_eret c m rest : current_el c = 1 → exec (Eret :: rest) (c, m) = Some (branch (sysregs c ELR_EL1) (sysregs c SPSR_EL1) c, m).
Proof. intros Hel. cbn [exec privileged andb fst]. by rewrite bool_decide_true. Qed.

#[local] Opaque word_at.

Lemma sync_restore_runs c m p : sp_el1 c = p → current_el c = 1 → 0 ≤ p → p + SYNC_FRAME ≤ 2 ^ 64 →
  ∃ c', exec sync_restore (c, m) = Some (c', m) ∧ user_frame c' = syscall_frame m p ∧
    sp_el1 c' = wrapping_add64 p SYNC_FRAME ∧ vreg c' = vreg c.
Proof.
  intros Hsp Hel H0 Hp. unfold SYNC_FRAME, sync_restore in *.
  rewrite (exec_ldpsp _ _ p 272 32) by (done || lia). do 2 (rewrite exec_msr by exact Hel).
  rewrite (exec_ldpsp _ _ p 272 30) by (done || lia). rewrite exec_msr by exact Hel.
  rewrite (exec_ldpsp _ _ p 272 2), (exec_ldpsp _ _ p 272 4), (exec_ldpsp _ _ p 272 6), (exec_ldpsp _ _ p 272 8),
    (exec_ldpsp _ _ p 272 10), (exec_ldpsp _ _ p 272 12), (exec_ldpsp _ _ p 272 14), (exec_ldpsp _ _ p 272 16),
    (exec_ldpsp _ _ p 272 18), (exec_ldpsp _ _ p 272 20), (exec_ldpsp _ _ p 272 22), (exec_ldpsp _ _ p 272 24),
    (exec_ldpsp _ _ p 272 26), (exec_ldpsp _ _ p 272 28), (exec_ldpsp _ _ p 272 0) by (done || lia).
  rewrite exec_add_sp, exec_eret by exact Hel. eexists. split; [reflexivity|]. split; [|split; [|done]].
  - done.
  - by rewrite <- Hsp.
Qed.

#[local] Transparent word_at.

(** ** A system call *)

(** What the trampoline relies on: [syscall_entry] gets the frame's address, leaves the
    stack pointer and the exception level, and leaves [f'] in the frame. *)
Definition syscall_handler (rust : Core * Mem → option (Core * Mem)) (p : Z) (f f' : SyscallTrapFrame) : Prop :=
  ∀ c m, xreg c 0 = p → sp_el1 c = p → current_el c = 1 → syscall_frame m p = f →
    ∃ c' m', rust (c, m) = Some (c', m') ∧ sp_el1 c' = p ∧ current_el c' = 1 ∧ syscall_frame m' p = f'.

(** The trampoline up to the call: the class of the exception in [x0], the frame saved. *)
Lemma sync_prologue c m : current_el c = 1 → room SYNC_FRAME (sp_el1 c) → Forall is_u64 (saved_words c) →
  ∃ c1 m1, run sync_save (c, m) ≫= run sync_class = Some (c1, m1) ∧
    xreg c1 0 = Z.land (Z.shiftr (sysregs c ESR_EL1) 26) 0x3f ∧ sp_el1 c1 = sp_el1 c - SYNC_FRAME ∧ current_el c1 = 1 ∧
    sysregs c1 ESR_EL1 = sysregs c ESR_EL1 ∧ regs (syscall_frame m1 (sp_el1 c - SYNC_FRAME)) = saved_words c.
Proof.
  intros Hel Hroom Hw. pose proof (sync_save_runs c m Hroom) as Hm. pose proof (steps_el1 sync_save (c, m) eq_refl Hel) as Hel1.
  assert (Hs : sp_el1 (steps sync_save (c, m)).1 = wrapping_add64 (sp_el1 c) (- SYNC_FRAME)) by reflexivity.
  assert (He : sysregs (steps sync_save (c, m)).1 = sysregs c) by reflexivity.
  rewrite run_steps by done. cbn [mbind option_bind]. rewrite run_steps by done.
  destruct (steps sync_save (c, m)) as [c0 m0]. cbn [fst snd] in *.
  exists (steps sync_class (c0, m0)).1, (steps sync_class (c0, m0)).2. split; [done|].
  assert (Hsp : sp_el1 c0 = sp_el1 c - SYNC_FRAME) by (rewrite Hs; by apply frame_base).
  split; [by rewrite <- He|]. split; [exact Hsp|]. split; [exact Hel1|]. split; [by rewrite <- He|].
  change (steps sync_class (c0, m0)).2 with m0. rewrite Hm. by apply frame_words_written.
Qed.

Lemma origin_el0 c : current_el c = 0 → origin_of c = LowerAarch64.
Proof. intros Hel. unfold origin_of. by rewrite bool_decide_true. Qed.

Lemma returned_is_result `{Build} `{UserAccess.Translate AS} `{Contexts Ctx} {E} (k k' : Kernel AS Ctx) f f' :
  syscall_entry (E := E) f k = Some (k', Ok (Returned f')) → ∃ r, f' = set_result r f.
Proof.
  unfold syscall_entry. destruct (make_context k) as [[ctx p]|]; [|done].
  destruct (Dispatch.dispatch _ ctx) as [[ctx' [eff|e]]|]; [|done|done]. destruct eff as [r| |code]; cbn [apply_effect].
  - unfold ret. intros [= _ <-]. by exists r.
  - unfold bind at 1. destruct (attempt _ _) as [[k1 [x|x]]|]; [|done|done]. unfold bind. destruct (debug_assert _ k1) as [[k2 [y|y]]|]; done.
  - unfold bind at 1. cbn. unfold bind. destruct (zoom _ _ _ _) as [[k1 [x|x]]|]; done.
Qed.

(** C17: a system call comes back to the program.  A program at EL0 that executes [svc]
    with a kernel stack that has room enters [syscall_entry] with a frame of its 34
    registers as they were; when [syscall_entry] returns to the task, the program goes on
    behind its [svc] with exactly the frame's registers: the results in x0 to x7, and
    x8 to x30, its stack pointer, its flags and its privilege unchanged; the kernel stack
    is as deep as before. *)
Theorem syscall_trap_roundtrip `{Build} `{UserAccess.Translate AS} `{Contexts Ctx} {E} (k k' : Kernel AS Ctx) f'
    vbar rust irq esr c m :
  current_el c = 0 → Forall is_u64 (regs (user_frame c)) → room SYNC_FRAME (sp_el1 c) →
  Z.land (Z.shiftr esr 26) 0x3f = EC_SVC64 →
  syscall_entry (E := E) (user_frame c) k = Some (k', Ok (Returned f')) →
  syscall_handler rust (sp_el1 c - SYNC_FRAME) (user_frame c) f' →
  ∃ c' m', trap vbar rust irq Sync esr (c, m) = Some (Resumes (c', m')) ∧ user_frame c' = f' ∧
    sp_el1 c' = sp_el1 c ∧ pc c' = pc c ∧ pstate c' = pstate c ∧ sysregs c' SP_EL0 = sysregs c SP_EL0 ∧
    ∀ i, (8 ≤ i ≤ 30)%nat → xreg c' i = xreg c i.
Proof.
  intros Hel Hu Hroom Hesr Hret Hrust. apply returned_is_result in Hret as [r ->].
  unfold trap. cbn [fst snd]. rewrite origin_el0 by done. change (vector LowerAarch64 Sync) with (Some tyrne_sync_trampoline).
  cbn [mbind option_bind run_trampoline]. unfold run_sync.
  destruct (sync_prologue (take_exception vbar Sync esr c) m) as (c1 & m1 & Hrun & Hcls & Hsp & Hel1 & _ & Hfr);
    [apply take_exception_el1|exact Hroom|exact Hu|].
  destruct (run sync_save _) as [s0|]; [|done]. cbn [mbind option_bind] in Hrun |- *. rewrite Hrun. cbn [fst snd mbind option_bind].
  rewrite Hcls. change (sysregs (take_exception vbar Sync esr c) ESR_EL1) with esr. rewrite Hesr, bool_decide_true by done.
  change (sp_el1 (take_exception vbar Sync esr c)) with (sp_el1 c) in *.
  cbn [run privileged andb mbind option_bind].
  destruct (Hrust (set_x 0 (sp_el1 c1) c1) m1) as (c2 & m2 & Hr & Hsp2 & Hel2 & Hf2); [exact Hsp|exact Hsp|exact Hel1| |].
  { destruct (syscall_frame m1 _) as [ws]. cbn in Hfr. by subst ws. }
  change (step (MovFromSp 0) (c1, m1)) with (set_x 0 (sp_el1 c1) c1, m1). rewrite Hr. cbn [mbind option_bind].
  destruct (sync_restore_runs c2 m2 (sp_el1 c - SYNC_FRAME) Hsp2 Hel2) as (c3 & Hex & Huf & Hsp3 & _); [unfold room in Hroom; lia..|].
  rewrite Hex. cbn [mbind option_bind]. exists c3, m2. rewrite Hf2 in Huf. split; [done|]. split; [exact Huf|].
  split; [rewrite Hsp3; by apply frame_pop|].
  assert (Hk : ∀ i, (8 ≤ i)%nat → regs (user_frame c3) !! i = regs (user_frame c) !! i)
    by (intros i Hi; rewrite Huf; by apply set_result_keeps).
  split; [apply (inj Some); exact (Hk 32%nat ltac:(lia))|]. split; [apply (inj Some); exact (Hk 33%nat ltac:(lia))|].
  split; [apply (inj Some); exact (Hk 31%nat ltac:(lia))|].
  intros i Hi. apply (inj Some). pose proof (Hk i ltac:(lia)) as Hx. unfold user_frame in Hx. cbn [regs] in Hx.
  rewrite !lookup_app_l, !list_lookup_fmap, !lookup_seq_lt in Hx by (rewrite ?length_fmap, ?length_seq; lia). exact Hx.
Qed.

(** A program that makes call 99, which there is not, on the sample kernel; the handler
    leaves the answer in the frame and spoils registers. *)
#[local] Existing Instance no_contexts.
#[local] Existing Instance debug_build.
#[local] Existing Instance two_pages.

Definition sample_caller : Core :=
  {| xreg := λ i, if (i =? 8)%nat then 99 else 1000 + Z.of_nat i; sp_el1 := 0x9000; vreg := λ _, 5; sysregs := λ _, 0x803000;
     pc := 0x800010; pstate := 0x80000000 |}.
Definition sample_result : SyscallTrapFrame :=
  match syscall_entry (E := unit) (user_frame sample_caller) sample_kernel with
  | Some (_, Ok (Returned f)) => f
  | _ => {| regs := [] |}
  end.
Definition sample_handler : Core * Mem → option (Core * Mem) := λ '(c, m),
  Some (set_x 19 66 (set_x 0 67 (set_v 0 68 c)), write_words m (xreg c 0) (regs sample_result)).

Lemma sample_result_ok : length (regs sample_result) = 34%nat ∧ Forall is_u64 (regs sample_result).
Proof.
  assert (Hb : forallb (λ x, bool_decide (0 ≤ x) && bool_decide (x < 2 ^ 64)) (regs sample_result) = true) by (vm_compute; reflexivity).
  split; [vm_compute; reflexivity|]. apply Forall_forall. intros x Hx. rewrite forallb_forall in Hb.
  apply list_elem_of_In in Hx. specialize (Hb x Hx). apply andb_prop in Hb as [H1 H2]. apply bool_decide_eq_true in H1, H2. by split.
Qed.

Lemma sample_handler_ok p f : syscall_handler sample_handler p f sample_result.
Proof.
  intros c m Hx Hs Hel _. destruct sample_result_ok as [Hlen Hwf]. unfold sample_handler.
  eexists _, _. split; [reflexivity|]. split; [exact Hs|]. split; [exact Hel|]. rewrite Hx. unfold syscall_frame.
  rewrite frame_words_written by done. by destruct sample_result.
Qed.

Lemma syscall_trap_roundtrip_witness : ∃ c' m',
  trap 0x40080000 sample_handler (λ _, None) Sync (0x15 * 2 ^ 26) (sample_caller, λ _, 0) = Some (Resumes (c', m')) ∧
  xreg c' 0 = 1 ∧ pc c' = 0x800010 ∧ pstate c' = 0x80000000 ∧ xreg c' 19 = 1019.
Proof.
  assert (Hret : ∃ k', syscall_entry (E := unit) (user_frame sample_caller) sample_kernel = Some (k', Ok (Returned sample_result))).
  { unfold sample_result. assert (Hv : match syscall_entry (E := unit) (user_frame sample_caller) sample_kernel with
      Some (_, Ok (Returned _)) => true | _ => false end = true) by (vm_compute; reflexivity).
    destruct (syscall_entry _ _) as [[k' [[f|d f|n]|e]]|]; try discriminate Hv. by exists k'. }
  destruct Hret as [k' Hret].
  destruct (syscall_trap_roundtrip (E := unit) sample_kernel k' sample_result 0x40080000 sample_handler (λ _, None) (0x15 * 2 ^ 26) sample_caller (λ _, 0))
    as (c' & m' & Hrun & Hu & _ & Hpc & Hps & _ & Hx); [vm_compute; reflexivity| |by split|vm_compute; reflexivity|exact Hret|apply sample_handler_ok|].
  { cbn. unfold is_u64. repeat (apply Forall_cons_2; [lia|]). by apply Forall_nil. }
  exists c', m'. split; [exact Hrun|]. split; [|split; [exact Hpc|split; [exact Hps|exact (Hx 19%nat ltac:(lia))]]].
  apply (inj Some). change (Some (xreg c' 0)) with (regs (user_frame c') !! 0%nat). rewrite Hu. vm_compute. reflexivity.
Defined.

(** ** An interrupt of the kernel *)

Definition IRQ_FRAME : Z := 192.

(** The procedure call standard for [irq_entry]: the stack pointer, x19 to x29 and the
    low halves of v8 to v15 survive, and so does the frame. *)
Definition irq_handler (rust : Core * Mem → option (Core * Mem)) (p : Z) : Prop :=
  ∀ c m, xreg c 0 = p → sp_el1 c = p → current_el c = 1 →
    ∃ c' m', rust (c, m) = Some (c', m') ∧ sp_el1 c' = p ∧ current_el c' = 1 ∧
      (∀ i, (19 ≤ i ≤ 29)%nat → xreg c' i = xreg c i) ∧ (∀ i, (8 ≤ i ≤ 15)%nat → dreg c' i = dreg c i) ∧
      frame_words m' p 22 = frame_words m p 22.

Definition irq_words (c : Core) : list Z := (xreg c <$> seq 0 19) ++ [xreg c 30; sysregs c ELR_EL1; sysregs c SPSR_EL1].

Lemma irq_save_runs c m : room IRQ_FRAME (sp_el1 c) →
  (steps irq_save (c, m)).2 = write_words m (sp_el1 c - IRQ_FRAME) (irq_words c).
Proof.
  intros Hr. unfold steps, irq_save. cbn. unfold IRQ_FRAME in *. change (wrapping_add64 (sp_el1 c) (-192)) with (wrapping_add64 (sp_el1 c) (- 192)).
  rewrite !(frame_ea 192 (sp_el1 c)) by (done || lia).
  repeat (apply write64_cong; [|lia|done]). done.
Qed.

#[local] Opaque word_at.

Lemma irq_restore_runs c m p : sp_el1 c = p → current_el c = 1 → 0 ≤ p → p + IRQ_FRAME ≤ 2 ^ 64 →
  ∃ c', exec irq_restore (c, m) = Some (c', m) ∧
    (xreg c' <$> seq 0 19) ++ [xreg c' 30; pc c'; pstate c'] = word_at m p <$> seq 0 22 ∧
    sp_el1 c' = wrapping_add64 p IRQ_FRAME ∧ (xreg c' <$> seq 19 11) = (xreg c <$> seq 19 11) ∧ vreg c' = vreg c.
Proof.
  intros Hsp Hel H0 Hp. unfold IRQ_FRAME, irq_restore in *.
  rewrite (exec_ldpsp _ _ p 192 20) by (done || lia). do 2 (rewrite exec_msr by exact Hel).
  rewrite (exec_ldpsp _ _ p 192 18), (exec_ldpsp _ _ p 192 16), (exec_ldpsp _ _ p 192 14), (exec_ldpsp _ _ p 192 12),
    (exec_ldpsp _ _ p 192 10), (exec_ldpsp _ _ p 192 8), (exec_ldpsp _ _ p 192 6), (exec_ldpsp _ _ p 192 4),
    (exec_ldpsp _ _ p 192 2), (exec_ldpsp _ _ p 192 0) by (done || lia).
  rewrite exec_add_sp, exec_eret by exact Hel. eexists. split; [reflexivity|]. split; [done|]. split; [by rewrite <- Hsp|]. by split.
Qed.

#[local] Transparent word_at.

Lemma irq_trap_runs vbar sys rust esr c m :
  origin_of c = CurrElSpx → (∀ i, is_u64 (xreg c i)) → is_u64 (pc c) → is_u64 (pstate c) → room IRQ_FRAME (sp_el1 c) →
  irq_handler rust (sp_el1 c - IRQ_FRAME) →
  ∃ c1 m1 c2 m2 c' m', rust (c1, m1) = Some (c2, m2) ∧ vreg c1 = vreg c ∧ vreg c' = vreg c2 ∧
    trap vbar sys rust Irq esr (c, m) = Some (Resumes (c', m')) ∧ pc c' = pc c ∧ pstate c' = pstate c ∧
    sp_el1 c' = sp_el1 c ∧ (∀ i, (i ≤ 30)%nat → xreg c' i = xreg c i) ∧ (∀ i, (8 ≤ i ≤ 15)%nat → dreg c' i = dreg c i).
Proof.
  intros Ho Hx Hpc Hps Hroom Hrust. unfold trap. cbn [fst snd]. rewrite Ho.
  change (vector CurrElSpx Irq) with (Some tyrne_irq_curr_el_trampoline). cbn [mbind option_bind run_trampoline]. unfold run_irq.
  set (c0 := take_exception vbar Irq esr c). pose proof (take_exception_el1 vbar Irq esr c) as Hel0. fold c0 in Hel0.
  rewrite run_steps by done. cbn [mbind option_bind].
  pose proof (irq_save_runs c0 m Hroom) as Hm. pose proof (steps_el1 irq_save (c0, m) eq_refl Hel0) as Hel1.
  assert (Hs : sp_el1 (steps irq_save (c0, m)).1 = sp_el1 c - IRQ_FRAME) by (rewrite <- (frame_base IRQ_FRAME (sp_el1 c) Hroom eq_refl); reflexivity).
  assert (H0 : xreg (steps irq_save (c0, m)).1 0 = sp_el1 c - IRQ_FRAME) by (rewrite <- Hs; reflexivity).
  assert (Hk : ∀ i, (19 ≤ i)%nat → xreg (steps irq_save (c0, m)).1 i = xreg c i).
  { intros i Hi. do 19 (destruct i as [|i]; [lia|]). reflexivity. }
  assert (Hv : vreg (steps irq_save (c0, m)).1 = vreg c) by reflexivity.
  destruct (steps irq_save (c0, m)) as [c1 m1]. cbn [fst snd] in *.
  destruct (Hrust c1 m1 H0 Hs Hel1) as (c2 & m2 & Hr & Hsp2 & Hel2 & Hkeep & Hd & Hf). rewrite Hr. cbn [mbind option_bind].
  destruct (irq_restore_runs c2 m2 (sp_el1 c - IRQ_FRAME) Hsp2 Hel2) as (c3 & Hex & Hw & Hsp3 & Hhigh & Hv3); [unfold room in Hroom; lia..|].
  rewrite Hex. cbn [mbind option_bind]. exists c1, m1, c2, m2, c3, m2. split; [exact Hr|]. split; [exact Hv|]. split; [exact Hv3|]. split; [done|].
  assert (Hwords : (xreg c3 <$> seq 0 19) ++ [xreg c3 30; pc c3; pstate c3] = irq_words c0).
  { rewrite Hw. change (word_at m2 (sp_el1 c - IRQ_FRAME) <$> seq 0 22) with (frame_words m2 (sp_el1 c - IRQ_FRAME) 22).
    rewrite Hf, Hm. change (sp_el1 c0) with (sp_el1 c). apply frame_words_written; [|done]. unfold irq_words.
    apply Forall_app. split; [apply Forall_fmap, Forall_forall; intros; apply Hx|].
    repeat apply Forall_cons_2; [apply Hx|exact Hpc|exact Hps|by apply Forall_nil]. }
  assert (Hat : ∀ i w w', ((xreg c3 <$> seq 0 19) ++ [xreg c3 30; pc c3; pstate c3]) !! i = Some w → irq_words c0 !! i = Some w' → w = w')
    by (intros i w w' H1 H2; rewrite Hwords, H2 in H1; by apply (inj Some) in H1).
  split; [by apply (Hat 20%nat)|]. split; [by apply (Hat 21%nat)|]. split; [rewrite Hsp3; by apply frame_pop|].
  split; [|intros i Hi; unfold dreg in *; rewrite Hv3, Hd, Hv; done].
  intros i Hi. destruct (decide (i = 30%nat)) as [->|]; [by apply (Hat 19%nat)|].
  destruct (decide (i < 19)%nat) as [Hlow|Hh].
  - apply (Hat i); [|unfold irq_words]; rewrite lookup_app_l by (rewrite length_fmap, length_seq; lia);
      by rewrite list_lookup_fmap, lookup_seq_lt by lia.
  - assert (Hi3 : xreg c3 i = xreg c2 i).
    { apply (f_equal (λ l, l !! (i - 19)%nat)) in Hhigh. rewrite !list_lookup_fmap, !lookup_seq_lt in Hhigh by lia.
      apply (inj Some) in Hhigh. by replace (19 + (i - 19))%nat with i in Hhigh by lia. }
    rewrite Hi3, Hkeep, Hk by lia. done.
Qed.

(** Kernel code that is interrupted goes on where it was with all its general registers
    and its stack, and with the part of the vector registers a callee must keep; what
    else the vector registers hold is the handler's. *)
Lemma irq_keeps_general_registers vbar sys rust esr c m :
  origin_of c = CurrElSpx → (∀ i, is_u64 (xreg c i)) → is_u64 (pc c) → is_u64 (pstate c) → room IRQ_FRAME (sp_el1 c) →
  irq_handler rust (sp_el1 c - IRQ_FRAME) →
  ∃ c' m', trap vbar sys rust Irq esr (c, m) = Some (Resumes (c', m')) ∧ pc c' = pc c ∧ pstate c' = pstate c ∧
    sp_el1 c' = sp_el1 c ∧ (∀ i, (i ≤ 30)%nat → xreg c' i = xreg c i) ∧ (∀ i, (8 ≤ i ≤ 15)%nat → dreg c' i = dreg c i).
Proof.
  intros Ho Hx Hpc Hps Hroom Hrust.
  destruct (irq_trap_runs vbar sys rust esr c m Ho Hx Hpc Hps Hroom Hrust) as (c1 & m1 & c2 & m2 & c' & m' & _ & _ & _ & Hres). by exists c', m'.
Qed.

(** The rest is lost: a handler that keeps the standard may leave its own value in v0. *)
Lemma irq_spoils_v0 vbar sys esr c m :
  origin_of c = CurrElSpx → (∀ i, is_u64 (xreg c i)) → is_u64 (pc c) → is_u64 (pstate c) → room IRQ_FRAME (sp_el1 c) →
  ∃ rust c' m', irq_handler rust (sp_el1 c - IRQ_FRAME) ∧ trap vbar sys rust Irq esr (c, m) = Some (Resumes (c', m')) ∧
    vreg c' 0 ≠ vreg c 0.
Proof.
  intros Ho Hx Hpc Hps Hroom. set (rust := λ s : Core * Mem, Some (set_v 0 (vreg s.1 0 + 1) s.1, s.2)).
  assert (Hrust : irq_handler rust (sp_el1 c - IRQ_FRAME)).
  { intros c1 m1 _ Hs Hel. exists (set_v 0 (vreg c1 0 + 1) c1), m1. split; [done|]. split; [exact Hs|]. split; [exact Hel|].
    split; [done|]. split; [|done]. intros i Hi. unfold dreg. cbn. unfold upd. by destruct i; [lia|]. }
  destruct (irq_trap_runs vbar sys rust esr c m Ho Hx Hpc Hps Hroom Hrust) as (c1 & m1 & c2 & m2 & c' & m' & Hr & H1 & H2 & Hrun & _).
  exists rust, c', m'. split; [done|]. split; [done|]. rewrite H2. unfold rust in Hr. apply (inj Some) in Hr.
  apply (f_equal fst) in Hr. cbn [fst] in Hr. rewrite <- Hr. cbn. unfold upd. cbn. rewrite H1. lia.
Qed.

(** ** Everything else *)

(** A synchronous exception that is no system call, and every exception whose entry has
    no handler, end in [panic_entry] with the class the table gives it and its syndrome. *)
Lemma other_sync_panics vbar rust irq esr c m : current_el c = 0 ∨ origin_of c = CurrElSpx →
  Forall is_u64 (regs (user_frame c)) → room SYNC_FRAME (sp_el1 c) → Z.land (Z.shiftr esr 26) 0x3f ≠ EC_SVC64 →
  trap vbar rust irq Sync esr (c, m) = Some (PanicEntry 0 esr).
Proof.
  intros Ho Hu Hroom Hesr. unfold trap. cbn [fst snd].
  assert (vector (origin_of c) Sync = Some tyrne_sync_trampoline) as -> by (destruct Ho as [Hel| ->]; [by rewrite origin_el0|done]).
  cbn [mbind option_bind run_trampoline]. unfold run_sync.
  destruct (sync_prologue (take_exception vbar Sync esr c) m) as (c1 & m1 & Hrun & Hcls & _ & Hel1 & He & _);
    [apply take_exception_el1|exact Hroom|exact Hu|].
  destruct (run sync_save _) as [s0|]; [|done]. cbn [mbind option_bind] in Hrun |- *. rewrite Hrun. cbn [fst snd mbind option_bind].
  rewrite Hcls. change (sysregs (take_exception vbar Sync esr c) ESR_EL1) with esr in *. rewrite bool_decide_false by done.
  rewrite run_steps by done. cbn [mbind option_bind]. do 2 f_equal. exact He.
Qed.

Lemma unhandled_panics vbar rust irq e esr c m :
  origin_of c = CurrElSp0 ∨ origin_of c = LowerAarch64 ∧ e ≠ Sync ∨ origin_of c = CurrElSpx ∧ (e = Fiq ∨ e = SError) →
  trap vbar rust irq e esr (c, m) = Some (PanicEntry (if bool_decide (e = Irq) then 1 else 0) esr).
Proof.
  intros Ho. unfold trap. cbn [fst snd].
  assert (vector (origin_of c) e = Some (if bool_decide (e = Irq) then tyrne_unhandled_irq_trampoline else tyrne_unhandled_exception_trampoline)) as ->.
  { destruct Ho as [-> |[[-> He]|[-> [-> | ->]]]]; first [done|by destruct e]. }
  cbn [mbind option_bind]. destruct (bool_decide (e = Irq)); cbn [run_trampoline]; unfold run_unhandled;
    (rewrite run_steps by (done || apply take_exception_el1)); done.
Qed.
