(* ===== verification/Boot.v ===== *)
(** * The boot of the board (bsp-qemu-virt/src/main.rs)

[kernel_entry] turns the MMU on and crosses to the high half; [kernel_main_high]
leaves the low half, builds every kernel object, loads the user program, registers
the tasks and starts the scheduler.  What the linker places is the record [Image], by
low address; the registers that a read of the machine answers (the counter and its
frequency) are arguments, and the interrupt controller is a device.  The kernel's
memory is physical memory seen through the direct map.  An [expect] is a panic.

The console is the bytes written so far.  The stack pointer's own page is not modelled,
and the kernel's tasks are their entry addresses. *)

From Stdlib Require Import Ascii String.
From stdpp Require Import gmap.
From S2P Require Import Prelude.
From S2P Require Import Hal.
From S2P Require Import Arena.
From S2P Require Import Objects.
From S2P Require Import Caps.
From S2P Require Import CapTable.
From S2P Require Import Ipc.
From S2P Require Import SyscallError.
From S2P Require Import UserAccess.
From S2P Require Import Pmm.
From S2P Require Import Vmsav8.
From S2P Require Import QemuMmu.
From S2P Require Import BootMmu.
From S2P Require Import QemuMmuProps.
From S2P Require Import AddressSpace.
From S2P Require Import TaskLoader.
From S2P Require Import Timer.
From S2P Require Import Gic.
From S2P Require Import Sched.
From S2P Require Import Text.
From S2P Require Import Uart.
From S2P Require Import SyscallEntry.
Local Open Scope Z_scope.

Definition PL011_UART_BASE : Z := 0x09000000.
Definition PMM_EXTENT_START : Z := 0x40000000.
Definition PMM_EXTENT_END : Z := 0x48000000.
Definition KERNEL_IMAGE_START : Z := 0x40080000.
Definition PMM_BITMAP_BYTES : Z := div_ceil ((PMM_EXTENT_END - PMM_EXTENT_START) `div` PAGE_SIZE) 8.
Definition PMM_RESERVED_RANGES : nat := 8.
Definition KERNEL_IMAGE_PA_MASK : Z := 0xFFFFFFFF.
Definition USERSPACE_IMAGE_BASE_VA : VirtAddr := 0x800000.
Definition USERSPACE_STACK_PAGES : Z := 1.

(** The linker's placement: low addresses, but for the slice of the user program and
    the pointers the scheduler keeps, which the kernel uses in the high half. *)
Record Image := {
  boot_pt : BootTables;
  tyrne_vectors : Z;
  kernel_main_high_addr : Z;
  stack_top : Z;
  USERSPACE_IMAGE : Slice;
  task_a : Z; task_b : Z; idle_entry : Z;
  TASK_A_STACK : Z; TASK_B_STACK : Z; TASK_IDLE_STACK : Z; USER_TASK_STACK : Z;
  USER_TASK_TABLE : Z;
}.

(** [.expect(..)] *)
Definition expect {S E A} (m : M S E A) (s : S) : option (S * A) :=
  match m s with Some (s', Ok a) => Some (s', a) | _ => None end.
Definition pexpect {E A} (m : P E A) : option A :=
  match m with Some (Ok a) => Some a | _ => None end.

(** The address of a low symbol, taken in the high half. *)
Definition high (low : Z) : Z := KERNEL_HIGH_HALF_OFFSET + low.

(** ** The low half *)

Section low.
  Context `{Build} {E : Type}.

Definition high_half_alias (addr : Z) : M BootState E Z :=
  let pa := Z.land addr KERNEL_IMAGE_PA_MASK in
  debug_assert (bool_decide (addr = pa) || bool_decide (addr = Z.lor KERNEL_HIGH_HALF_OFFSET pa)) ;;
  ret (Z.lor KERNEL_HIGH_HALF_OFFSET pa).

(** Where control goes on: the vectors, the stack, the entry. *)
Record Control := { vbar : Z; sp : Z; pc : Z }.

(** The machine, the bytes on the console, and the vector base register ([None]: its
    value at reset, which the architecture leaves unknown). *)
Record Early := { early : BootState; early_console : list Z; early_vbar : option Z }.
Definition reset_state (s : BootState) : Early := {| early := s; early_console := []; early_vbar := None |}.
Definition on_machine {A} (m : M BootState E A) : M Early E A :=
  zoom early (λ s e, {| early := s; early_console := early_console e; early_vbar := early_vbar e |}) m.
Definition early_write (bs : list Z) : M Early E unit :=
  modify (λ e, {| early := early e; early_console := early_console e ++ bs; early_vbar := early_vbar e |}).
Definition msr_vbar_el1 (addr : Z) : M Early E unit :=
  modify (λ e, {| early := early e; early_console := early_console e; early_vbar := Some addr |}).

Definition kernel_entry (img : Image) (sp : Z) : M Early E Control :=
  early_write (line "tyrne: hello from kernel_main") ;;
  msr_vbar_el1 (tyrne_vectors img) ;;
  on_machine (mmu_bootstrap (boot_pt img)) ;;
  early_write (line "tyrne: mmu activated") ;;
  on_machine (high_half_activate (boot_pt img)) ;;
  let* high_vbar := on_machine (high_half_alias (tyrne_vectors img)) in
  let* high_entry := on_machine (high_half_alias (kernel_main_high_addr img)) in
  msr_vbar_el1 high_vbar ;;
  ret {| vbar := high_vbar; sp := wrapping_add64 sp KERNEL_HIGH_HALF_OFFSET; pc := high_entry |}.

(** The first step of [kernel_main_high]: no more translation of low addresses. *)
Definition leave_low_half : M BootState E unit :=
  msr (λ r, {| mair_el1 := mair_el1 r; tcr_el1 := tcr_el1 r; ttbr0_el1 := 0; ttbr1_el1 := ttbr1_el1 r;
               sctlr_el1 := sctlr_el1 r |}) ;;
  msr (λ r, {| mair_el1 := mair_el1 r; tcr_el1 := Z.lor (tcr_el1 r) TCR_EL1_EPD0_BIT; ttbr0_el1 := ttbr0_el1 r;
               ttbr1_el1 := ttbr1_el1 r; sctlr_el1 := sctlr_el1 r |}).
End low.

(** ** The kernel's objects *)

Section boot.
  Context `{Build} `{Contexts Ctx} `{Mmio D}.

Definition boot_pmm (img : Image) : option Pmm :=
  stack_top_addr ← kernel_va_to_phys (high (stack_top img));
  let stack_top_aligned_up := Z.land (saturating_add64 stack_top_addr (PAGE_SIZE - 1)) (not64 (PAGE_SIZE - 1)) in
  let pmm_extent := {| Hal.start := PMM_EXTENT_START; end_ := PMM_EXTENT_END |} in
  let pmm_reserved := [{| Hal.start := PMM_EXTENT_START; end_ := KERNEL_IMAGE_START |};
                       {| Hal.start := KERNEL_IMAGE_START; end_ := stack_top_aligned_up |}] in
  pexpect (Pmm_new (Z.to_nat PMM_BITMAP_BYTES) PMM_RESERVED_RANGES pmm_extent pmm_reserved).

(** The bootstrap address space, its arena, and the capability for it. *)
Definition boot_address_space (img : Image) :
    option (QemuVirtAddressSpace * AddressSpaceArena QemuVirtAddressSpace * CapabilityTable * CapHandle) :=
  pa ← kernel_va_to_phys (high (boot_pt_l0 (boot_pt img)));
  l0_root ← from_aligned pa;
  let inner := from_existing_root l0_root in
  '(arena, bootstrap_as_handle) ←
    expect (AddressSpace.create_address_space (wrap_bootstrap inner)) (Arena.new ADDRESS_SPACE_ARENA_CAPACITY);
  '(table, bootstrap_as_cap) ←
    expect (insert_root {| rights := bitor (bitor (bitor DUPLICATE DERIVE) REVOKE) TRANSFER;
                           object := OAddressSpace bootstrap_as_handle |}) CapTable.new;
  Some (inner, arena, table, bootstrap_as_cap).

(** The user program, loaded under the bootstrap capability. *)
Definition load_user_image (img : Image) (p : Pmm) (table : CapabilityTable) (arena : AddressSpaceArena QemuVirtAddressSpace)
    (parent_cap : CapHandle) (m : Mem) : option (MmState QemuVirtAddressSpace Pmm * LoadedImage) :=
  expect (load_image (H0 := QemuVirtMmu) (USERSPACE_IMAGE img) parent_cap Caps.empty USERSPACE_IMAGE_BASE_VA USERSPACE_STACK_PAGES)
    {| AddressSpace.table := table; as_arena := arena; provider := p; memory := m; flushed := [] |}.

(** The interrupt controller, through its high addresses. *)
Definition boot_gic (d : D) : option (QemuVirtGic * D) :=
  gicd ← phys_to_kernel_va QEMU_VIRT_GIC_DISTRIBUTOR_BASE;
  gicc ← phys_to_kernel_va QEMU_VIRT_GIC_CPU_INTERFACE_BASE;
  let gic := gic_new gicd gicc in
  '(d, _) ← expect (Gic.init (E := unit) gic) d;
  Some (gic, d).

(** [msr daifclr, #imm]: the bits of [imm] leave the mask of [pstate], which is in the
    layout of [SPSR_EL1]. *)
Definition daifclr (imm pstate : Z) : Z := Z.land pstate (Z.lnot (Z.shiftl imm 6)).

(** The tasks: A, B, idle and the user task. *)
Record Tasks := {
  handle_a : TaskHandle; handle_b : TaskHandle; handle_idle : TaskHandle;
  user_task_handle : TaskHandle; user_as_handle : AddressSpaceHandle;
}.

Definition boot_tasks (loaded : LoadedImage) (bootstrap_table : CapabilityTable)
    : option (CapabilityTable * TaskArena * Tasks) :=
  let kernel_task id := {| task_id := id; task_address_space_handle := BOOTSTRAP_ADDRESS_SPACE_HANDLE |} in
  '(arena, ha) ← expect (create_task (kernel_task 0)) (Arena.new TASK_ARENA_CAPACITY);
  '(arena, hb) ← expect (create_task (kernel_task 1)) arena;
  '(arena, hi) ← expect (create_task (kernel_task 2)) arena;
  cap ← pexpect (lookup bootstrap_table (as_cap loaded));
  user_as ← match object cap with OAddressSpace h => Some h | _ => None end;
  '((bootstrap_table, arena), task_cap) ←
    expect (task_create_from_image loaded 3 (bitor (bitor DUPLICATE DERIVE) REVOKE)) (bootstrap_table, arena);
  cap ← pexpect (lookup bootstrap_table task_cap);
  user_task ← match object cap with OTask h => Some h | _ => None end;
  Some (bootstrap_table, arena, {| handle_a := ha; handle_b := hb; handle_idle := hi;
                                   user_task_handle := user_task; user_as_handle := user_as |}).

(** The endpoint of the kernel's tasks, the tables, and the user task's one capability. *)
Record Tables := {
  boot_ep_arena : EndpointArena;
  TABLE_A : CapabilityTable; EP_CAP_A : CapHandle;
  TABLE_B : CapabilityTable; EP_CAP_B : CapHandle;
  user_task_table : CapabilityTable;
}.

Definition boot_tables : option Tables :=
  '(ep_arena, ep_handle) ← expect (create_endpoint {| endpoint_id := 0 |}) (Arena.new ENDPOINT_ARENA_CAPACITY);
  let ep_cap := {| rights := bitor SEND RECV; object := OEndpoint ep_handle |} in
  '(table_a, ep_cap_a) ← expect (insert_root ep_cap) CapTable.new;
  '(table_b, ep_cap_b) ← expect (insert_root ep_cap) CapTable.new;
  '(user_table, console_cap) ←
    expect (insert_root {| rights := CONSOLE_WRITE; object := ODebugConsole |}) CapTable.new;
  if negb (bool_decide (ch_index console_cap = 0%nat) && bool_decide (ch_generation console_cap = 0)) then None else
  Some {| boot_ep_arena := ep_arena; TABLE_A := table_a; EP_CAP_A := ep_cap_a; TABLE_B := table_b;
          EP_CAP_B := ep_cap_b; user_task_table := user_table |}.

(** Registration: B before A, the user task, the idle task. *)
Definition boot_sched (img : Image) (t : Tasks) (loaded : LoadedImage) : M (Scheduler Ctx) SchedError unit :=
  add_task (handle_b t) BOOTSTRAP_ADDRESS_SPACE_HANDLE (task_b img) (TASK_B_STACK img) ;;
  add_task (handle_a t) BOOTSTRAP_ADDRESS_SPACE_HANDLE (task_a img) (TASK_A_STACK img) ;;
  add_user_task (user_task_handle t) (user_as_handle t) (entry_va loaded) (stack_top_va loaded)
    (USER_TASK_STACK img) (USER_TASK_TABLE img) ;;
  register_idle (handle_idle t) BOOTSTRAP_ADDRESS_SPACE_HANDLE (idle_entry img) (TASK_IDLE_STACK img).

(** The lines that report numbers. *)
Definition pmm_line (s : PmmStats) : list Z :=
  bytes_of "tyrne: pmm initialized (" ++ decimal (free_frames s) ++ bytes_of " frames available; " ++
  decimal (reserved_frames s) ++ line " reserved)".
Definition arena_line (bootstrap_root_pa : Z) : list Z :=
  bytes_of "tyrne: address-space-arena ready (1 / " ++ decimal (Z.of_nat ADDRESS_SPACE_ARENA_CAPACITY) ++
  bytes_of " slots used; bootstrap AS root = 0x" ++ lower_hex bootstrap_root_pa ++ line ")".
Definition timer_line (cpu : QemuVirtCpu) : list Z :=
  bytes_of "tyrne: timer ready (" ++ decimal (frequency_hz cpu) ++ bytes_of " Hz, resolution " ++
  decimal (resolution_ns cpu) ++ line " ns)".

(** What the boot leaves behind: the statics of the trap, the others, and where the
    scheduler starts. *)
Record Booted := {
  bt_kernel : Kernel QemuVirtAddressSpace Ctx;
  bt_pmm : Pmm; bt_tasks : TaskArena; bt_as_table : CapabilityTable; bt_tables : Tables;
  bt_cpu : QemuVirtCpu; bt_ns : Z; bt_gic : QemuVirtGic; bt_device : D; bt_pstate : Z;
  bt_handles : Tasks; bt_loaded : LoadedImage;
  bt_start : option AddressSpaceHandle * nat;
}.

(** What both workloads find: the clock, the memory manager, the bootstrap address space
    with its capability, and the console. *)
Record Prepared := {
  pr_cpu : QemuVirtCpu; pr_ns : Z; pr_pmm : Pmm; pr_bootstrap : QemuVirtAddressSpace;
  pr_arena : AddressSpaceArena QemuVirtAddressSpace; pr_table : CapabilityTable; pr_cap : CapHandle; pr_console : list Z;
}.

(** [kernel_main_high] up to the choice of the workload; [con] is what the console has
    shown before. *)
Definition kernel_prepare (img : Image) (cntfrq cntvct : Z) (con : list Z) : option Prepared :=
  _ ← phys_to_kernel_va PL011_UART_BASE;
  cpu ← cpu_new cntfrq;
  let con := con ++ line "tyrne: high-half active" in
  boot_ns ← now_ns cpu cntvct;
  p ← boot_pmm img;
  let con := con ++ pmm_line (stats p) in
  '(bootstrap_as, arena, table, bootstrap_as_cap) ← boot_address_space img;
  let con := con ++ arena_line (frame_addr (root bootstrap_as)) in
  Some {| pr_cpu := cpu; pr_ns := boot_ns; pr_pmm := p; pr_bootstrap := bootstrap_as; pr_arena := arena; pr_table := table;
          pr_cap := bootstrap_as_cap; pr_console := con |}.

(** The demo, the workload of a build without [perf-bench]. *)
Definition kernel_main_high (img : Image) (pstate cntfrq cntvct : Z) (con : list Z) (m : Mem) (d : D) : option Booted :=
  k ← kernel_prepare img cntfrq cntvct con;
  '(st, loaded) ← load_user_image img (pr_pmm k) (pr_table k) (pr_arena k) (pr_cap k) m;
  '(gic, d) ← boot_gic d;
  let pstate := daifclr 0x2 pstate in
  let con := pr_console k ++ timer_line (pr_cpu k) in
  '(table, task_arena, tasks) ← boot_tasks loaded (AddressSpace.table st);
  ts ← boot_tables;
  '(sched, _) ← expect (boot_sched img tasks loaded) Scheduler_new;
  let con := con ++ line "tyrne: starting cooperative scheduler" in
  '(sched, next) ← expect (Sched.start (E := SchedError)) sched;
  Some {| bt_kernel := {| SCHED := sched; AS_ARENA := as_arena st; EP_ARENA := boot_ep_arena ts; IPC_QUEUES := IpcQueues_new;
                          tables := {[USER_TASK_TABLE img := user_task_table ts]}; FAILCLOSED_TABLE := Some CapTable.new;
                          BOOTSTRAP_AS := pr_bootstrap k; CONSOLE := con; MEMORY := memory st |};
          bt_pmm := provider st; bt_tasks := task_arena; bt_as_table := table; bt_tables := ts; bt_cpu := pr_cpu k; bt_ns := pr_ns k;
          bt_gic := gic; bt_device := d; bt_pstate := pstate; bt_handles := tasks; bt_loaded := loaded; bt_start := next |}.

(** Physical memory through the direct map. *)
Definition direct_map (m : Mem) : Mem := λ va, m (va - KERNEL_HIGH_HALF_OFFSET).

(** The whole boot. *)
Definition boot (img : Image) (sp pstate cntfrq cntvct : Z) (s : BootState) (d : D) : option (BootState * Control * Booted) :=
  '(e, ctl) ← expect (kernel_entry (E := unit) img sp) (reset_state s);
  '(s, _) ← expect (leave_low_half (E := unit)) (early e);
  b ← kernel_main_high img pstate cntfrq cntvct (early_console e) (direct_map (boot_mem s)) d;
  Some (s, ctl, b).
End boot.

(** ** The panic handler *)

Section panic.
  Context `{Mmio D} {E : Type}.

(** The alias of the UART for the half in which the panic struck. *)
Definition panic_uart_base (sp : Z) : option Z :=
  if bool_decide (KERNEL_HIGH_HALF_OFFSET ≤ sp) then phys_to_kernel_va PL011_UART_BASE else Some PL011_UART_BASE.

(** [info] is the text of the panic; the loop that follows does nothing more.  [fuel]
    bounds the wait for room before each byte. *)
Definition panic_handler (fuel : nat) (sp : Z) (info : list Z) : M D E unit := λ d,
  match panic_uart_base sp with
  | None => None
  | Some uart_base =>
      (Uart.write_bytes fuel {| uart_base := uart_base |} ([10] ++ line "!! tyrne panic !!") ;;
       Uart.write_bytes fuel {| uart_base := uart_base |} (info ++ [10])) d
  end.
End panic.
