(* ===== verification/BootSteps.v ===== *)
(** * The steps of the boot

What each step of [kernel_main_high] builds: the memory manager over the board's RAM,
the bootstrap address space on the boot's tables, the loaded user program, the tasks,
their tables and the scheduler with its first task dispatched. *)

From stdpp Require Import gmap.
From S2P Require Import Prelude.
From S2P Require Import Hal.
From S2P Require Import Arena.
From S2P Require Import Objects.
From S2P Require Import Caps.
From S2P Require Import CapTable.
From S2P Require Import CapTableInv.
From S2P Require Import CapTableOps.
From S2P Require Import CapSpec.
From S2P Require Import CapProps.
From S2P Require Import Ipc.
From S2P Require Import SyscallError.
From S2P Require Import UserAccess.
From S2P Require Import UserAccessOps.
From S2P Require Import IpcSpec.
From S2P Require Import Pmm.
From S2P Require Import PmmInv.
From S2P Require Import PmmNew.
From S2P Require Import PmmProps.
From S2P Require Import Vmsav8.
From S2P Require Import Words.
From S2P Require Import QemuMmu.
From S2P Require Import QemuMmuInv.
From S2P Require Import QemuMmuOps.
From S2P Require Import QemuMmuProps.
From S2P Require Import BootMmu.
From S2P Require Import BootMmuProps.
From S2P Require Import AddressSpace.
From S2P Require Import AddressSpaceProps.
From S2P Require Import TaskLoader.
From S2P Require Import TaskLoaderInv.
From S2P Require Import TaskLoaderProps.
From S2P Require Import UserProgram.
From S2P Require Import Timer.
From S2P Require Import Gic.
From S2P Require Import GicProps.
From S2P Require Import Sched.
From S2P Require Import SchedInv.
From S2P Require Import SchedOps.
From S2P Require Import SchedRun.
From S2P Require Import SchedProps.
From S2P Require Import SyscallEntry.
From S2P Require Import SyscallEntryProps.
From S2P Require Import Boot.
Local Open Scope Z_scope.

Lemma expect_wp {S E A} (m : M S E A) s Q : wp m s Q → (∀ s' e, Q s' (Err e) → False) →
  ∃ s' a, expect m s = Some (s', a) ∧ Q s' (Ok a).
Proof.
  intros (s' & [a|e] & Hr & HQ)%wp_run Herr; [|by apply Herr in HQ].
  exists s', a. unfold expect. by rewrite Hr.
Qed.

Lemma kernel_va_to_phys_high pa : 0 ≤ pa < 0x100000000 → kernel_va_to_phys (high pa) = Some pa.
Proof. intros Hp. apply kernel_va_to_phys_inverse; [lia|]. by apply phys_to_kernel_va_Some. Qed.

(** ** The memory manager *)

Lemma align_up x : 0 ≤ x → x + 4095 < 2 ^ 64 →
  Z.land (saturating_add64 x (PAGE_SIZE - 1)) (not64 (PAGE_SIZE - 1)) = (x + 4095) `div` 4096 * 4096.
Proof.
  intros H0 H1. rewrite saturating_add64_eq by (unfold U64_MAX, PAGE_SIZE; lia).
  replace (x + (PAGE_SIZE - 1)) with (x + 4095) by (unfold PAGE_SIZE; lia).
  change (not64 (PAGE_SIZE - 1)) with (Z.shiftl (Z.ones 52) 12).
  assert (Hy : 0 ≤ x + 4095) by lia. generalize dependent (x + 4095). intros y H1 Hy.
  change 4096 with (2 ^ 12). rewrite <- Z.shiftr_div_pow2, <- Z.shiftl_mul_pow2 by done.
  apply Z.bits_inj'. intros n Hn. rewrite Z.land_spec. destruct (Z.ltb_spec n 12).
  - rewrite (Z.shiftl_spec_low _ 12 n), (Z.shiftl_spec_low _ 12 n) by done. apply andb_false_r.
  - rewrite !Z.shiftl_spec, Z.shiftr_spec by lia. replace (n - 12 + 12) with n by lia.
    destruct (Z.ltb_spec n 64); [rewrite Z.ones_spec_low by lia; apply andb_true_r|].
    rewrite <- (Z.mod_small y (2 ^ 64)) by lia. by rewrite Z.mod_pow2_bits_high by lia.
Qed.

Definition page_up (x : Z) : Z := (x + 4095) `div` 4096 * 4096.

Lemma page_up_bounds x : x ≤ page_up x < x + 4096 ∧ page_up x `mod` PAGE_SIZE = 0.
Proof.
  unfold page_up, PAGE_SIZE. split; [|apply Z.mod_mul; done]. Z.to_euclidean_division_equations; lia.
Qed.

Lemma mark_reserved_count e rs : ∀ bm c bm' c', mark_reserved e rs bm c = Some (bm', c') →
  c' = foldl (λ c r, saturating_add64 c (frame_count r)) c rs.
Proof.
  induction rs as [|r rs IH]; intros bm c bm' c'; cbn [mark_reserved foldl]; [by intros [= _ <-]|].
  destruct (set_bits bm _ _) as [bm1|]; cbn [mbind option_bind]; [apply IH|done].
Qed.

(** The counters of a fresh manager. *)
Lemma Pmm_new_stats N R e rs p : Pmm_new N R e rs = Some (Ok p) →
  let n := foldl (λ c r, saturating_add64 c (frame_count r)) 0 rs in
  stats p = {| total_frames := frame_count e; reserved_frames := n; allocated_frames := 0;
               free_frames := saturating_sub64 (frame_count e) n |}.
Proof.
  unfold Pmm_new. repeat case_match; try done; unfold pbind; repeat case_match; try done.
  intros [= <-]. unfold stats. cbn [extent reserved_count allocated_count free_count].
  match goal with H : mark_reserved _ _ _ _ = Some _ |- _ => apply mark_reserved_count in H; rewrite H; done end.
Qed.

Lemma frame_count_eq a b : 0 ≤ a ≤ b → frame_count {| Hal.start := a; end_ := b |} = (b - a) `div` PAGE_SIZE.
Proof. intros H. unfold frame_count, len_bytes. by rewrite saturating_sub64_eq by (cbn; lia). Qed.

(** The counters the boot reports: of the 128 MiB of RAM, what lies above the kernel's
    stack is free. *)
Definition boot_stats (img : Image) : PmmStats :=
  {| total_frames := 32768; reserved_frames := (page_up (stack_top img) - PMM_EXTENT_START) `div` PAGE_SIZE;
     allocated_frames := 0; free_frames := (PMM_EXTENT_END - page_up (stack_top img)) `div` PAGE_SIZE |}.

(** The frames the boot leaves to the allocator: from the end of the kernel's stack on. *)
Lemma boot_pmm_ok img : KERNEL_IMAGE_START ≤ stack_top img ≤ PMM_EXTENT_END →
  ∃ p, boot_pmm img = Some p ∧ PWF p ∧ extent p = {| Hal.start := PMM_EXTENT_START; end_ := PMM_EXTENT_END |} ∧
    reserved_list p = [{| Hal.start := PMM_EXTENT_START; end_ := KERNEL_IMAGE_START |};
                       {| Hal.start := KERNEL_IMAGE_START; end_ := page_up (stack_top img) |}] ∧
    Z.of_nat (pmm_free p) = (PMM_EXTENT_END - page_up (stack_top img)) `div` PAGE_SIZE ∧ stats p = boot_stats img.
Proof.
  unfold KERNEL_IMAGE_START, PMM_EXTENT_END, PMM_EXTENT_START. intros Hst.
  destruct (page_up_bounds (stack_top img)) as [Hup Hal]. unfold boot_pmm.
  rewrite kernel_va_to_phys_high by lia. cbn [mbind option_bind]. rewrite align_up by lia. fold (page_up (stack_top img)).
  set (up := page_up (stack_top img)) in *. unfold KERNEL_IMAGE_START, PMM_EXTENT_END, PMM_EXTENT_START.
  set (e := {| Hal.start := 0x40000000; end_ := 0x48000000 |}).
  set (r1 := {| Hal.start := 0x40000000; end_ := 0x40080000 |}). set (r2 := {| Hal.start := 0x40080000; end_ := up |}).
  assert (Hup' : up ≤ 0x48000000).
  { pose proof (Z.div_mod up PAGE_SIZE). unfold PAGE_SIZE in *. lia. }
  destruct (Pmm_new_spec (Z.to_nat PMM_BITMAP_BYTES) PMM_RESERVED_RANGES e [r1; r2]) as (r & Hr & Hs); [done|done|].
  assert (Hv : valid_layout (Z.to_nat PMM_BITMAP_BYTES) PMM_RESERVED_RANGES e [r1; r2]).
  { split; [done|]. split; [by vm_compute|]. split; [cbn; unfold PMM_RESERVED_RANGES; lia|]. split.
    - apply Forall_cons. split; [|apply Forall_singleton]; (split; [|cbn; lia]); [done|].
      unfold is_aligned, r2. cbn [Hal.start end_]. by rewrite (bool_decide_true (up `mod` PAGE_SIZE = 0)).
    - cbn [disjoint_ranges]. split; [|by split; [apply Forall_nil|]]. apply Forall_singleton. unfold overlaps. cbn [Hal.start end_ r1 r2].
      rewrite (bool_decide_false (0x40080000 < 0x40080000)) by lia. apply andb_false_r. }
  destruct r as [p|x]; [|by destruct Hs]. destruct Hs as (_ & Hp & He & Hrl & _).
  pose proof (Pmm_new_stats _ _ _ _ _ Hr) as Hst'.
  assert (Hb : stats p = boot_stats img); [|exists p; rewrite Hr; do 4 (split; [done|])].
  { rewrite Hst'. unfold boot_stats. fold up. cbn [foldl]. unfold e, r1, r2, PMM_EXTENT_START, PMM_EXTENT_END. rewrite !frame_count_eq by lia.
    change (0x40080000 - 0x40000000) with (128 * PAGE_SIZE). change (0x48000000 - 0x40000000) with (32768 * PAGE_SIZE).
    rewrite !Z.div_mul by done.
    assert (Hd : (up - 0x40080000) `div` PAGE_SIZE = up `div` PAGE_SIZE - 0x40080 ∧
                 (up - 0x40000000) `div` PAGE_SIZE = up `div` PAGE_SIZE - 0x40000 ∧
                 (0x48000000 - up) `div` PAGE_SIZE = 0x48000 - up `div` PAGE_SIZE).
    { unfold PAGE_SIZE in *. Z.to_euclidean_division_equations; lia. }
    destruct Hd as (-> & -> & ->). pose proof (Z.div_mod up PAGE_SIZE). unfold saturating_sub64, saturating_add64, U64_MAX, PAGE_SIZE in *. f_equal; lia. }
  pose proof (f_equal free_frames Hb) as Hfr. cbn [stats free_frames boot_stats] in Hfr. fold up in Hfr.
  unfold PMM_EXTENT_END in Hfr. split; [|exact Hb]. unfold pmm_free. rewrite Hfr. rewrite Z2Nat.id; [done|]. apply Z.div_pos; [lia|done].
Qed.

(** ** Capability tables *)

Definition root_node (c : Capability) : anode := {| an_cap := c; an_parent := None; an_depth := 0 |}.

(** A root capability goes into a table that is not full. *)
Lemma insert_ok `{Build} t c : CapTableInv.WF t → CapTable.is_full t = false →
  ∃ t' h, expect (insert_root c) t = Some (t', h) ∧ insert_root c t = Some (t', Ok h) ∧ CapTableInv.WF t' ∧
    fresh (live t) h ∧ ∀ h', live t' h' = upd (live t) h (Some (root_node c)) h'.
Proof.
  intros Ht Hf. pose proof (insert_root_wp t c Ht) as Hins. apply wp_run in Hins as (t' & x & Hrun & Hx).
  destruct (proj1 (wp_run _ _ _) (refine_insert_root t Ht c)) as (t2 & x2 & Hrun2 & Ht' & m' & Hst & Hm).
  unfold run_op, bind in Hrun2. rewrite Hrun in Hrun2. destruct x as [h|y].
  2:{ destruct Hx as (_ & _ & Hfull). congruence. }
  cbn [ret] in Hrun2. injection Hrun2 as <- <-. inversion Hst; subst. exists t', h.
  split; [unfold expect; by rewrite Hrun|]. do 3 (split; [done|]). exact Hm.
Qed.

Lemma live_new h : live CapTable.new h = None.
Proof.
  rewrite live_eq. destruct (named CapTable.new h) as [e|] eqn:He; [|done]. exfalso.
  apply named_Some in He as [_ He]. revert He. unfold CapTableInv.ent.
  assert (Forall (λ x, CapTable.entry x = None) (CapTable.slots CapTable.new)) as Hall by (vm_compute; repeat constructor).
  destruct (CapTable.slots CapTable.new !! ch_index h) as [x|] eqn:Hx; cbn; [|done]. by rewrite (Forall_at _ _ _ _ Hall Hx).
Qed.

(** The only capability of a table. *)
Definition only_cap (t : CapabilityTable) (h : CapHandle) (c : Capability) : Prop :=
  ∀ h', live t h' = if decide (h' = h) then Some (root_node c) else None.

Lemma first_cap `{Build} c : ∃ t h, expect (insert_root c) CapTable.new = Some (t, h) ∧
  insert_root c CapTable.new = Some (t, Ok h) ∧ CapTableInv.WF t ∧ only_cap t h c.
Proof.
  destruct (insert_ok CapTable.new c new_WF) as (t & h & He & Hi & Ht & _ & Hl); [by vm_compute|].
  exists t, h. do 3 (split; [done|]). intros h'. rewrite Hl. unfold upd. case_decide; [done|apply live_new].
Qed.

(** Two capabilities do not fill a table. *)
Lemma full_two_not t (h1 h2 : CapHandle) : (∀ h, h ≠ h1 → h ≠ h2 → live t h = None) → ¬ full (live t).
Proof.
  intros Hl Hf.
  assert (Hi : ∀ i, (i < CAP_TABLE_CAPACITY)%nat → i = ch_index h1 ∨ i = ch_index h2).
  { intros i Hi. destruct (Hf i Hi) as (h & <- & [n Hn]). destruct (decide (h = h1)) as [->|H1]; [by left|].
    destruct (decide (h = h2)) as [->|H2]; [by right|]. by rewrite Hl in Hn. }
  pose proof (Hi 0%nat ltac:(by apply Nat.ltb_lt)). pose proof (Hi 1%nat ltac:(by apply Nat.ltb_lt)).
  pose proof (Hi 2%nat ltac:(by apply Nat.ltb_lt)). lia.
Qed.

Lemma not_full_two t (h1 h2 : CapHandle) : CapTableInv.WF t →
  (∀ h, h ≠ h1 → h ≠ h2 → live t h = None) → CapTable.is_full t = false.
Proof.
  intros Ht Hl. apply not_true_iff_false. intros Hf%full_abs; [|done]. by apply (full_two_not t h1 h2) in Hf.
Qed.

Lemma only_cap_not_full t h c : CapTableInv.WF t → only_cap t h c → CapTable.is_full t = false.
Proof. intros Ht Ho. apply (not_full_two t h h Ht). intros h' Hne _. by rewrite Ho, decide_False. Qed.

Lemma lookup_live t h n : live t h = Some n → lookup t h = Some (Ok (an_cap n)).
Proof. intros (e & He & ->)%live_Some. by rewrite lookup_eq, He. Qed.

Lemma pexpect_lookup t h n : live t h = Some n → pexpect (lookup t h) = Some (an_cap n).
Proof. intros Hn. unfold pexpect. by rewrite (lookup_live _ _ _ Hn). Qed.

(** ** The bootstrap address space *)

Definition bootstrap_rights : CapRights := bitor (bitor (bitor DUPLICATE DERIVE) REVOKE) TRANSFER.

Lemma arena_new_get {X} N id : Arena.get (Arena.new (T := X) N) id = None.
Proof.
  unfold Arena.get, Arena.new. cbn [Arena.slots]. rewrite list_lookup_fmap.
  destruct (seq 0 N !! id_index id); cbn; [by destruct (negb _)|done].
Qed.

(** The first object of an arena of eight. *)
Lemma first_object `{Build} {X} (v : X) (id : SlotId) : id = {| id_index := 0; id_generation := 0 |} →
  ∃ a, allocate v (Arena.new 8) = Some (a, Ok id) ∧ Arena.WF 8 a ∧ Arena.is_full a = false ∧
    ∀ id', Arena.get a id' = if decide (id' = id) then Some v else None.
Proof.
  intros ->. pose proof (allocate_wp (N := 8) (Arena.new 8) v (arena_new_WF 8 ltac:(apply Nat.ltb_lt; reflexivity))) as Hw.
  apply wp_run in Hw as (a & r & Hrun & Ha & Hr).
  assert (Hc : r = Ok {| id_index := 0; id_generation := 0 |} ∧ Arena.is_full a = false).
  { pose proof (f_equal (fmap (λ x, (x.2, Arena.is_full x.1))) Hrun) as Hc. destruct H as [[]]; vm_compute in Hc; by injection Hc. }
  destruct Hc as [-> Hnf]. destruct Hr as (_ & _ & Hg & _ & _ & Ho & _). exists a. do 3 (split; [done|]).
  intros id'. case_decide as Hd; [by subst|]. by rewrite Ho, arena_new_get.
Qed.

Lemma boot_address_space_ok `{Build} img : frame_at (boot_pt_l0 (boot_pt img)) → boot_pt_l0 (boot_pt img) < 0x100000000 →
  let inner := space_at (boot_pt_l0 (boot_pt img)) in
  ∃ arena table cap, boot_address_space img = Some (inner, arena, table, cap) ∧
    CapTableInv.WF table ∧
    only_cap table cap {| rights := bootstrap_rights; object := OAddressSpace BOOTSTRAP_ADDRESS_SPACE_HANDLE |} ∧
    Arena.WF ADDRESS_SPACE_ARENA_CAPACITY arena ∧ Arena.is_full arena = false ∧
    ∀ hd, get_address_space arena hd = if decide (hd = BOOTSTRAP_ADDRESS_SPACE_HANDLE) then Some {| inner := inner |} else None.
Proof.
  intros [Hal Hr] Hlt inner. unfold boot_address_space. rewrite kernel_va_to_phys_high by lia.
  cbn [mbind option_bind]. unfold from_aligned. rewrite bool_decide_true by done. cbn [mbind option_bind].
  destruct (first_object (wrap_bootstrap inner) first_slot eq_refl) as (arena & Halloc & Ha & Hnf & Hget).
  assert (Hcr : expect (AddressSpace.create_address_space (wrap_bootstrap inner)) (Arena.new ADDRESS_SPACE_ARENA_CAPACITY)
                = Some (arena, BOOTSTRAP_ADDRESS_SPACE_HANDLE)).
  { unfold expect, AddressSpace.create_address_space, or_err, map_ok, map_err, bind. change ADDRESS_SPACE_ARENA_CAPACITY with 8%nat.
    by rewrite Halloc. }
  change (from_existing_root _) with inner. rewrite Hcr. cbn [mbind option_bind].
  destruct (first_cap {| rights := bootstrap_rights; object := OAddressSpace BOOTSTRAP_ADDRESS_SPACE_HANDLE |})
    as (table & cap & Hins & _ & Ht & Ho).
  fold bootstrap_rights. rewrite Hins. cbn [mbind option_bind]. exists arena, table, cap. do 5 (split; [done|]).
  intros [id]. unfold get_address_space. cbn [address_space_slot]. rewrite Hget.
  destruct (decide (id = first_slot)) as [->|Hne]; [by rewrite decide_True|]. rewrite decide_False; [done|]. by intros [=].
Qed.

(** ** The bootstrap tables as an address space *)

(** Physical memory, from the kernel's. *)
Definition phys (m : Mem) : Mem := λ pa, m (high pa).

Lemma le_read_shift m c n : ∀ a, le_read (λ x, m (c + x)) a n = le_read m (c + a) n.
Proof.
  induction n as [|n IH]; intros a; cbn [le_read]; [done|]. rewrite IH. by replace (c + (a + 1)) with (c + a + 1) by lia.
Qed.

Lemma tentry_phys m f i : tentry (phys m) f i = QemuMmuInv.entry m f i.
Proof.
  unfold tentry, QemuMmuInv.entry, slot, read64, phys, high. rewrite le_read_shift. f_equal. lia.
Qed.

(** The low identity tables in the kernel's memory. *)
Record boot_mapped (t : BootTables) (m : Mem) : Prop := {
  bm_blocks : blocks t (phys m);
  bm_upper : upper t (phys m) (boot_pt_l0 t) (boot_pt_l1 t) 0 0;
}.

Definition boot_tree (t : BootTables) : gmap Z (list Z) :=
  {[boot_pt_l0 t := []; boot_pt_l1 t := [0]; boot_pt_l2_low t := [0; 0]; boot_pt_l2_high t := [0; 1]]}.

Section tree.
  Context (t : BootTables) (m0 m : Mem) (Hl : linked t m0) (Hm : boot_mapped t m).
  Context (Hlow : ∀ f, f ∈ table_frames t → f < 0x100000000).

Lemma boot_table_ok f : f ∈ table_frames t → table_ok f.
Proof. intros Hf. destruct (linked_frame _ _ _ Hl Hf) as [Ha Hr]. split; [done|]. pose proof (Hlow f Hf). lia. Qed.

Lemma boot_l0 i : index_ok i → QemuMmuInv.entry m (boot_pt_l0 t) i = if bool_decide (i = 0) then table_descriptor (boot_pt_l1 t) else 0.
Proof. intros Hi. rewrite <- tentry_phys. by apply (up_root _ _ _ _ _ _ (bm_upper _ _ Hm)). Qed.

Lemma boot_l1 i : index_ok i → QemuMmuInv.entry m (boot_pt_l1 t) i =
  if bool_decide (i = 0) then table_descriptor (boot_pt_l2_low t)
  else if bool_decide (i = 0 + 1) then table_descriptor (boot_pt_l2_high t) else 0.
Proof. intros Hi. rewrite <- tentry_phys. by apply (up_l1 _ _ _ _ _ _ (bm_upper _ _ Hm)). Qed.

(** The second level holds blocks and nothing else. *)
Lemma boot_l2 f i : f = boot_pt_l2_low t ∨ f = boot_pt_l2_high t → index_ok i →
  is_table (QemuMmuInv.entry m f i) = false.
Proof.
  intros Hf Hi. rewrite <- tentry_phys. unfold index_ok in *. destruct Hf as [-> | ->].
  - rewrite (bl_low _ _ (bm_blocks _ _ Hm)) by done. case_bool_decide as Hd; [|done].
    apply block_at_fields; [by left|unfold BLOCK_2MIB; lia|]. by rewrite Z.mul_comm, Z.mod_mul.
  - rewrite (bl_high _ _ (bm_blocks _ _ Hm)) by done. case_bool_decide as Hd; [|done].
    apply block_at_fields; [by right|unfold BLOCK_2MIB; lia|]. unfold BLOCK_2MIB.
    replace (0x40000000 + 2 * 1024 * 1024 * i) with ((512 + i) * 2 ^ 21) by lia. by apply Z.mod_mul.
Qed.

Lemma boot_descriptor f : f ∈ table_frames t →
  is_valid (table_descriptor f) = true ∧ is_table (table_descriptor f) = true ∧ Z.land (table_descriptor f) TABLE_NLA_MASK = f.
Proof. intros Hf. destruct (linked_frame _ _ _ Hl Hf) as [Ha Hr]. by apply table_descriptor_fields. Qed.

Lemma boot_tree_lookup f p : boot_tree t !! f = Some p →
  (f = boot_pt_l0 t ∧ p = []) ∨ (f = boot_pt_l1 t ∧ p = [0]) ∨
  (f = boot_pt_l2_low t ∧ p = [0; 0]) ∨ (f = boot_pt_l2_high t ∧ p = [0; 1]).
Proof.
  unfold boot_tree. rewrite !lookup_insert_Some, lookup_singleton_Some. intuition.
Qed.
(** The boot's tables are page tables like any other. *)
Lemma boot_PT : PT m (boot_pt_l0 t) (boot_tree t).
Proof.
  pose proof (boot_descriptor (boot_pt_l1 t) ltac:(in_frames)) as (Hv1 & Ht1 & Ha1).
  pose proof (boot_descriptor (boot_pt_l2_low t) ltac:(in_frames)) as (Hv2 & Ht2 & Ha2).
  pose proof (boot_descriptor (boot_pt_l2_high t) ltac:(in_frames)) as (Hv3 & Ht3 & Ha3).
  assert (Hd : boot_pt_l0 t ≠ boot_pt_l1 t ∧ boot_pt_l0 t ≠ boot_pt_l2_low t ∧ boot_pt_l0 t ≠ boot_pt_l2_high t ∧
    boot_pt_l1 t ≠ boot_pt_l2_low t ∧ boot_pt_l1 t ≠ boot_pt_l2_high t ∧ boot_pt_l2_low t ≠ boot_pt_l2_high t).
  { frames_differ Hl Hne. tauto. }
  destruct Hd as (N1 & N2 & N3 & N4 & N5 & N6).
  assert (L0 : boot_tree t !! boot_pt_l0 t = Some []) by apply lookup_insert_eq.
  assert (L1 : boot_tree t !! boot_pt_l1 t = Some [0]).
  { unfold boot_tree. rewrite lookup_insert_ne by done. apply lookup_insert_eq. }
  assert (L2 : boot_tree t !! boot_pt_l2_low t = Some [0; 0]).
  { unfold boot_tree. rewrite !lookup_insert_ne by done. apply lookup_insert_eq. }
  assert (L3 : boot_tree t !! boot_pt_l2_high t = Some [0; 1]).
  { unfold boot_tree. rewrite !lookup_insert_ne by done. apply lookup_singleton_eq. }
  assert (I0 : index_ok 0) by done. assert (I1 : index_ok 1) by done.
  assert (W1 : walk_to m (boot_pt_l0 t) [0] = Some (boot_pt_l1 t)).
  { cbn [walk_to]. rewrite boot_l0, bool_decide_true by done. by rewrite Hv1, Ht1, Ha1. }
  split; [done|..].
  - intros f p [[-> ->]|[[-> ->]|[[-> ->]|[-> ->]]]]%boot_tree_lookup;
      (split; [apply boot_table_ok; in_frames|split; [cbn; lia|by repeat constructor]]).
  - intros f p i [[-> ->]|[[-> ->]|[Hb|Hb]]]%boot_tree_lookup Hlen Hi.
    + rewrite boot_l0 by done. case_bool_decide; [|done]. subst. by rewrite Ha1.
    + rewrite boot_l1 by done. repeat case_bool_decide; [..|done]; subst; by rewrite ?Ha2, ?Ha3.
    + destruct Hb as [-> ->]. intros _. by rewrite boot_l2 by (done || by left).
    + destruct Hb as [-> ->]. intros _. by rewrite boot_l2 by (done || by right).
  - intros f p i [[-> ->]|[[-> ->]|[[-> ->]|[-> ->]]]]%boot_tree_lookup Hlen; cbn in Hlen; lia.
  - intros f p [[-> ->]|[[-> ->]|[[-> ->]|[-> ->]]]]%boot_tree_lookup; [done|exact W1|..];
      cbn [walk_to]; rewrite boot_l0, bool_decide_true, Hv1, Ht1, Ha1 by done; cbn [andb]; rewrite boot_l1 by done.
    + by rewrite bool_decide_true, Hv2, Ht2, Ha2.
    + by rewrite bool_decide_false, bool_decide_true, Hv3, Ht3, Ha3.
Qed.

(** It translates no page: everything in it is a block. *)
Lemma boot_direct `{Build} : direct_mapped m (space_at (boot_pt_l0 t)).
Proof.
  intros va f0 fl. cbn. unfold space_at, create_address_space. rewrite (translate_xlate m _ _ va boot_PT).
  pose proof (boot_descriptor (boot_pt_l1 t) ltac:(in_frames)) as (Hv1 & Ht1 & Ha1).
  pose proof (boot_descriptor (boot_pt_l2_low t) ltac:(in_frames)) as (Hv2 & Ht2 & Ha2).
  pose proof (boot_descriptor (boot_pt_l2_high t) ltac:(in_frames)) as (Hv3 & Ht3 & Ha3).
  assert (H2 : ∀ f, f = boot_pt_l2_low t ∨ f = boot_pt_l2_high t →
    xlate_path m f [va_index va VA_L2_SHIFT; va_index va VA_L3_SHIFT] ≠ Ok (f0, fl)).
  { intros f Hf. cbn [xlate_path]. rewrite (boot_l2 f) by (done || by apply va_index_ok). cbn [negb].
    by destruct (negb (is_valid _)). }
  intros Ht. exfalso. revert Ht. unfold xlate, va_path. rewrite xlate_path_cons.
  rewrite boot_l0 by (by apply va_index_ok). case_bool_decide; [|by rewrite is_valid_0].
  rewrite Hv1, Ht1, Ha1. cbn [negb]. rewrite xlate_path_cons, boot_l1 by (by apply va_index_ok).
  case_bool_decide; [|case_bool_decide; [|by rewrite is_valid_0]].
  - rewrite Hv2, Ht2, Ha2. cbn [negb]. apply H2. by left.
  - rewrite Hv3, Ht3, Ha3. cbn [negb]. apply H2. by right.
Qed.
End tree.

(** ** The load of the user program *)

(** What the linker promises of the image: the boot's frames, the code and the user
    program lie below the top of the kernel's stack, and RAM has room for the program. *)
Record image_ok (img : Image) (m0 : Mem) : Prop := {
  io_linked : linked (boot_pt img) m0;
  io_stack : KERNEL_IMAGE_START ≤ stack_top img ≤ PMM_EXTENT_END;
  io_frames : ∀ f, f ∈ table_frames (boot_pt img) → KERNEL_IMAGE_START ≤ f ∧ f + PAGE_SIZE ≤ stack_top img;
  io_program : ∃ pa, as_ptr (USERSPACE_IMAGE img) = high pa ∧ KERNEL_IMAGE_START ≤ pa ∧
    0 < slice_len (USERSPACE_IMAGE img) ∧ pa + slice_len (USERSPACE_IMAGE img) ≤ stack_top img;
  io_room : frames_needed (USERSPACE_IMAGE img) USERSPACE_IMAGE_BASE_VA USERSPACE_STACK_PAGES ≤
    (PMM_EXTENT_END - page_up (stack_top img)) `div` PAGE_SIZE;
  io_code : KERNEL_IMAGE_START ≤ tyrne_vectors img < stack_top img ∧ KERNEL_IMAGE_START ≤ kernel_main_high_addr img < stack_top img;
  io_user_stack : USER_TASK_STACK img ≠ 0 ∧ USER_TASK_STACK img `mod` 16 = 0;
  io_user_table : USER_TASK_TABLE img ≠ 0;
}.

(** The frames of RAM below the kernel's heap-less end: the image and its stack. *)
Definition kernel_frames (img : Image) : gset Z :=
  list_to_set ((λ k, PMM_EXTENT_START + PAGE_SIZE * Z.of_nat k) <$>
    seq 0 (Z.to_nat ((page_up (stack_top img) - PMM_EXTENT_START) `div` PAGE_SIZE))).

Lemma elem_of_kernel_frames img f : KERNEL_IMAGE_START ≤ stack_top img →
  f ∈ kernel_frames img ↔ f `mod` PAGE_SIZE = 0 ∧ PMM_EXTENT_START ≤ f < page_up (stack_top img).
Proof.
  intros Hst. destruct (page_up_bounds (stack_top img)) as [Hup Hal].
  unfold kernel_frames, KERNEL_IMAGE_START, PMM_EXTENT_START, PAGE_SIZE in *.
  rewrite elem_of_list_to_set, list_elem_of_fmap. split.
  - intros (k & -> & Hk%elem_of_seq). Z.to_euclidean_division_equations; lia.
  - intros (Hf & Hlo & Hhi). exists (Z.to_nat ((f - 0x40000000) `div` 4096)). rewrite elem_of_seq.
    Z.to_euclidean_division_equations; lia.
Qed.

Section load.
  Context `{Build} (img : Image) (m0 m : Mem) (Hio : image_ok img m0) (Hm : boot_mapped (boot_pt img) m).
  Context (p : Pmm) (Hp : PWF p).
  Context (Hres : reserved_list p = [{| Hal.start := PMM_EXTENT_START; end_ := KERNEL_IMAGE_START |};
                       {| Hal.start := KERNEL_IMAGE_START; end_ := page_up (stack_top img) |}]).
  Context (Hfree : Z.of_nat (pmm_free p) = (PMM_EXTENT_END - page_up (stack_top img)) `div` PAGE_SIZE).
  Context (table : CapabilityTable) (cap : CapHandle) (Htab : CapTableInv.WF table).
  Context (Hcap : only_cap table cap {| rights := bootstrap_rights; object := OAddressSpace BOOTSTRAP_ADDRESS_SPACE_HANDLE |}).
  Context (arena : AddressSpaceArena QemuVirtAddressSpace) (Har : Arena.WF ADDRESS_SPACE_ARENA_CAPACITY arena).
  Context (Hnf : Arena.is_full arena = false).
Let st : MmState QemuVirtAddressSpace Pmm :=
  {| AddressSpace.table := table; as_arena := arena; provider := p; memory := m; flushed := [] |}.

(** No frame of the kernel's is ever given out. *)
Lemma image_reserved pa : PMM_EXTENT_START ≤ pa < page_up (stack_top img) →
  ∃ r, r ∈ reserved_list p ∧ range_contains r pa = true.
Proof.
  intros Hpa. rewrite Hres. destruct (decide (pa < KERNEL_IMAGE_START)).
  - eexists. split; [apply list_elem_of_here|]. unfold range_contains. cbn [Hal.start end_]. by rewrite !bool_decide_true by lia.
  - eexists. split; [apply list_elem_of_further, list_elem_of_here|].
    unfold range_contains. cbn [Hal.start end_]. by rewrite !bool_decide_true by lia.
Qed.

Lemma boot_holds : pmm_holds p (kernel_frames img).
Proof.
  split; [done|]. intros i Hi Hb [_ Hin]%elem_of_kernel_frames; [|apply (io_stack _ _ Hio)].
  destruct (image_reserved (frame_pa p i) Hin) as (r & Hr & Hc).
  assert (is_reserved p i = true) as Hx.
  { apply existsb_exists. exists r. split; [by apply list_elem_of_In|done]. }
  by rewrite (pw_bits _ Hp i Hi Hx) in Hb.
Qed.

Lemma boot_mm_ok : mm_ok st (kernel_frames img).
Proof. split; [done|done|exact boot_holds]. Qed.

Lemma boot_not_refused e : load_refused st (USERSPACE_IMAGE img) cap Caps.empty USERSPACE_IMAGE_BASE_VA USERSPACE_STACK_PAGES e → False.
Proof.
  destruct (io_program _ _ Hio) as (pa & Hptr & Hpa & Hlen & Htop). pose proof (io_stack _ _ Hio) as Hst.
  assert (Hlv : live table cap = Some (root_node {| rights := bootstrap_rights; object := OAddressSpace BOOTSTRAP_ADDRESS_SPACE_HANDLE |})).
  { rewrite Hcap, decide_True by done. done. }
  destruct e as [| |va|b en|x|nd av|x| | |x]; cbn [load_refused]; try done.
  - lia.
  - intros [-> Hx]. by apply Hx.
  - unfold image_page_count, div_ceil, USERSPACE_IMAGE_BASE_VA, USERSPACE_STACK_PAGES, USERSPACE_VA_LIMIT, PAGE_SIZE.
    change (Z.shiftl 1 48) with (2 ^ 48). unfold PMM_EXTENT_END, KERNEL_IMAGE_START in *. intros [_ Hx]. Z.to_euclidean_division_equations; lia.
  - intros [[_ Hx]|(_ & n & Hx & Hk)]; cbn [AddressSpace.table st] in Hx; [congruence|]. rewrite Hlv in Hx. by injection Hx as <-.
  - intros (-> & -> & Hx). cbn [provider st] in Hx. rewrite Hfree in Hx. pose proof (io_room _ _ Hio). lia.
  - intros [Hne Hx]. destruct x as [| | |y| |]; cbn [create_refused] in Hx; try done.
    { cbn [as_arena st] in Hx. congruence. }
    assert (Hy : (∃ o, refuses (live table) (Derive cap Caps.empty o) y) ∨
      (y = WrongKind ∧ ∃ n, live table cap = Some n ∧ cap_kind (an_cap n) ≠ KAddressSpace)) by (destruct y; try (by left); by right).
    destruct Hy as [[o Hy]|(_ & n & Hn & Hk)]; [|rewrite Hlv in Hn; by injection Hn as <-].
    destruct y; cbn [refuses] in Hy; try done.
    + apply (full_two_not table cap cap) in Hy; [done|]. intros h' Hne' _. by rewrite Hcap, decide_False.
    + congruence.
    + destruct Hy as (n & Hn & Hs). rewrite Hlv in Hn. injection Hn as <-. apply Hs. by apply contains_spec.
    + destruct Hy as (n & Hn & Hs). rewrite Hlv in Hn. injection Hn as <-. apply Hs. by apply contains_spec.
    + destruct Hy as (n & Hn & Hs). rewrite Hlv in Hn. by injection Hn as <-.
  - intros (f & Hal & _ & Hout & k & Hk & Hin). cbn [provider st] in Hout.
    destruct (page_up_bounds (stack_top img)) as [Hup0 _].
    destruct (image_reserved (pa + k)) as (r & Hr & Hc); [unfold KERNEL_IMAGE_START, PMM_EXTENT_START in *; lia|]. specialize (Hout r Hr). rewrite Hres in Hr.
    rewrite Hptr in Hin. unfold in_frame, high in Hin.
    destruct (page_up_bounds (stack_top img)) as [_ Hup]. unfold range_contains in *.
    rewrite !elem_of_cons, elem_of_nil in Hr. apply andb_true_iff in Hc as [Hc1 Hc2].
    apply andb_false_iff in Hout. rewrite !bool_decide_eq_true in *. rewrite !bool_decide_eq_false in Hout.
    unfold KERNEL_IMAGE_START, PMM_EXTENT_START, PAGE_SIZE in *.
    destruct Hr as [->|[->|[]]]; cbn [Hal.start end_] in *; Z.to_euclidean_division_equations; lia.
Qed.

(** The load succeeds, and takes none of the boot's frames. *)
Lemma boot_load : ∃ s' l hd rt L T used',
  expect (load_image (H0 := QemuVirtMmu) (USERSPACE_IMAGE img) cap Caps.empty USERSPACE_IMAGE_BASE_VA USERSPACE_STACK_PAGES) st
    = Some (s', l) ∧ stack_top_va l ≤ USERSPACE_VA_LIMIT ∧
  loaded st s' (kernel_frames img) (USERSPACE_IMAGE img) cap Caps.empty USERSPACE_IMAGE_BASE_VA USERSPACE_STACK_PAGES
    l hd rt L T used'.
Proof.
  destruct (io_program _ _ Hio) as (pa & Hptr & Hpa & Hlen & Htop). pose proof (io_stack _ _ Hio) as Hst.
  unfold KERNEL_IMAGE_START, PMM_EXTENT_END in *.
  pose proof (load_image_wp st _ (USERSPACE_IMAGE img) cap Caps.empty USERSPACE_IMAGE_BASE_VA USERSPACE_STACK_PAGES pa boot_mm_ok) as Hw.
  destruct (expect_wp _ _ _ (Hw ltac:(done) ltac:(done) ltac:(lia) ltac:(lia) Hptr ltac:(lia))) as (s' & l & Hrun & Hb & Hl).
  { intros s' e [_ Hr]. by apply boot_not_refused in Hr. }
  destruct Hl as (hd & rt & L & T & used' & Hl). exists s', l, hd, rt, L, T, used'. split; [exact Hrun|]. split; [apply Hb|exact Hl].
Qed.
End load.

(** ** The tasks *)

Lemma task_create_run `{Build} l id rts t a c hd a' th t' h : lookup t (as_cap l) = Some (Ok c) →
  object c = OAddressSpace hd → create_task {| task_id := id; task_address_space_handle := hd |} a = Some (a', Ok th) →
  insert_root {| rights := rts; object := OTask th |} t = Some (t', Ok h) →
  expect (task_create_from_image l id rts) (t, a) = Some ((t', a'), h).
Proof.
  intros Hc Ho Hct Hins. unfold expect, task_create_from_image, bind at 1, reads. cbn [fst]. rewrite Hc. cbn [pmap_err fmap option_fmap option_map res_map_err].
  rewrite Ho. unfold bind at 1, map_err, zoom. cbn [snd]. rewrite Hct. cbn [res_map_err].
  unfold bind, attempt. cbn [set_snd fst]. rewrite Hins. done.
Qed.

(** The four tasks get the first four slots. *)
Lemma boot_task_slots `{Build} hd :
  let kt id := {| task_id := id; task_address_space_handle := BOOTSTRAP_ADDRESS_SPACE_HANDLE |} in
  ∃ a1 a2 a3 a4, expect (create_task (kt 0)) (Arena.new TASK_ARENA_CAPACITY) = Some (a1, task_at 0) ∧
    expect (create_task (kt 1)) a1 = Some (a2, task_at 1) ∧ expect (create_task (kt 2)) a2 = Some (a3, task_at 2) ∧
    create_task {| task_id := 3; task_address_space_handle := hd |} a3 = Some (a4, Ok (task_at 3)).
Proof.
  destruct H as [[]]; do 4 eexists; (split; [vm_compute; reflexivity|]); (split; [vm_compute; reflexivity|]);
    (split; [vm_compute; reflexivity|]); vm_compute; reflexivity.
Qed.

(** The bootstrap table with the two address spaces. *)
Record two_spaces (t : CapabilityTable) (cap cap' : CapHandle) (hd : AddressSpaceHandle) : Prop := {
  ts_wf : CapTableInv.WF t;
  ts_user : ∃ n, live t cap' = Some n ∧ object (an_cap n) = OAddressSpace hd;
  ts_only : ∀ h, h ≠ cap → h ≠ cap' → live t h = None;
}.

Definition boot_handles (hd : AddressSpaceHandle) : Tasks :=
  {| handle_a := task_at 0; handle_b := task_at 1; handle_idle := task_at 2; user_task_handle := task_at 3; user_as_handle := hd |}.

Lemma boot_tasks_ok `{Build} l t cap hd : two_spaces t cap (as_cap l) hd →
  ∃ t' a, boot_tasks l t = Some (t', a, boot_handles hd) ∧ CapTableInv.WF t'.
Proof.
  intros [Ht (n & Hn & Ho) Hothers]. destruct (boot_task_slots hd) as (a1 & a2 & a3 & a4 & E1 & E2 & E3 & E4).
  unfold boot_tasks. rewrite E1. cbn [mbind option_bind]. rewrite E2. cbn [mbind option_bind]. rewrite E3. cbn [mbind option_bind].
  pose proof (lookup_live _ _ _ Hn) as Hlk. rewrite (pexpect_lookup _ _ _ Hn). cbn [mbind option_bind]. rewrite Ho. cbn [mbind option_bind].
  destruct (insert_ok t {| rights := bitor (bitor DUPLICATE DERIVE) REVOKE; object := OTask (task_at 3) |} Ht
    (not_full_two t cap (as_cap l) Ht Hothers)) as (t' & h & _ & Hins & Ht' & _ & Hl').
  rewrite (task_create_run l 3 _ t a3 _ hd a4 (task_at 3) t' h Hlk Ho E4 Hins). cbn [mbind option_bind].
  assert (Hu : live t' h = Some (root_node {| rights := bitor (bitor DUPLICATE DERIVE) REVOKE; object := OTask (task_at 3) |})).
  { rewrite Hl'. unfold upd. by rewrite decide_True. }
  rewrite (pexpect_lookup _ _ _ Hu). cbn [mbind option_bind an_cap root_node object]. by exists t', a4.
Qed.

(** ** The tables of the tasks *)

Definition console_cap : Capability := {| rights := CONSOLE_WRITE; object := ODebugConsole |}.

(** The first handle of a new table. *)
Lemma first_handle `{Build} c t h : insert_root c CapTable.new = Some (t, Ok h) → h = CapHandle_from_raw 0 0.
Proof.
  intros Hr. apply (f_equal (fmap snd)) in Hr. destruct H as [[]]; vm_compute in Hr; by injection Hr as <-.
Qed.

Lemma boot_endpoint `{Build} : ∃ a, expect (create_endpoint {| endpoint_id := 0 |}) (Arena.new ENDPOINT_ARENA_CAPACITY)
  = Some (a, EndpointHandle_from_slot first_slot) ∧ Arena.WF ENDPOINT_ARENA_CAPACITY a ∧
    live_ep a (EndpointHandle_from_slot first_slot).
Proof.
  assert (Hn : Arena.WF ENDPOINT_ARENA_CAPACITY (Arena.new (T := Endpoint) ENDPOINT_ARENA_CAPACITY)).
  { apply arena_new_WF, Nat.ltb_lt. reflexivity. }
  destruct (expect_wp _ _ _ (create_wp EndpointHandle_from_slot {| endpoint_id := 0 |} ENDPOINT_ARENA_CAPACITY _ Hn)) as (a & h & Hr & Ha & id & Hid & _ & _ & Hget & _).
  { intros a e (_ & _ & _ & Hf). by vm_compute in Hf. }
  change (or_err _ _) with (create_endpoint {| endpoint_id := 0 |}) in Hr. exists a.
  assert (Hh : h = EndpointHandle_from_slot first_slot).
  { apply (f_equal (fmap snd)) in Hr. destruct H as [[]]; vm_compute in Hr; by injection Hr as <-. }
  split; [by rewrite Hr, Hh|]. split; [done|]. rewrite Hh in Hid. injection Hid as Hid. unfold live_ep.
  cbn [endpoint_slot]. rewrite Hid, Hget. by eexists.
Qed.

(** What tasks A and B each have: the right to send and to receive on the endpoint. *)
Definition demo_endpoint : EndpointHandle := EndpointHandle_from_slot first_slot.
Definition demo_cap : Capability := {| rights := bitor SEND RECV; object := OEndpoint demo_endpoint |}.

Record tables_ok (ts : Tables) : Prop := {
  tk_arena : Arena.WF ENDPOINT_ARENA_CAPACITY (boot_ep_arena ts) ∧ live_ep (boot_ep_arena ts) demo_endpoint;
  tk_a : CapTableInv.WF (TABLE_A ts) ∧ only_cap (TABLE_A ts) (EP_CAP_A ts) demo_cap;
  tk_b : CapTableInv.WF (TABLE_B ts) ∧ only_cap (TABLE_B ts) (EP_CAP_B ts) demo_cap;
  tk_user : CapTableInv.WF (user_task_table ts) ∧ only_cap (user_task_table ts) (CapHandle_from_raw 0 0) console_cap;
}.

Lemma boot_tables_ok `{Build} : ∃ ts, boot_tables = Some ts ∧ tables_ok ts.
Proof.
  destruct boot_endpoint as (a & Ha & Hwf & Hlive). unfold boot_tables. rewrite Ha. cbn [mbind option_bind].
  destruct (first_cap {| rights := bitor SEND RECV; object := OEndpoint (EndpointHandle_from_slot first_slot) |})
    as (ta & ha & Ea & _ & Ta & Oa). rewrite Ea. cbn [mbind option_bind].
  destruct (first_cap console_cap) as (tu & hu & Eu & Iu & Hu & Ou). fold console_cap. rewrite Eu. cbn [mbind option_bind].
  rewrite (first_handle _ _ _ Iu) in *. cbn. eexists. split; [done|]. by split.
Qed.

(** ** The scheduler the boot builds *)

Section sched.
  Context `{Build} `{Contexts Ctx}.
  Implicit Types (s : Scheduler Ctx) (w : world Ctx).

(** One registration, as a run and as a step of the scheduler's world. *)
Lemma registered_step (m : M (Scheduler Ctx) SchedError unit) op w s' : reachable w → op_pre op (wsched w) →
  op_run op = (m ;; ret None) → m (wsched w) = Some (s', Ok tt) → op_exited op (wsched w) (wexited w) = wexited w →
  reachable {| wsched := s'; wactive := wactive w; wexited := wexited w |}.
Proof.
  intros Hw Hpre Hop Hrun Hex. apply (reach_step op w); [done|done|]. unfold world_step. rewrite Hop. unfold bind.
  rewrite Hrun. cbn [ret]. by rewrite Hex.
Qed.

Definition boot_world s : world Ctx := {| wsched := s; wactive := None; wexited := [] |}.

Lemma add_task_run s l h a entry sp : sched_ok s l → reachable (boot_world s) → fresh_slot s h →
  ∃ q c, add_task h a entry sp s = Some (registered_state s q c h a, Ok tt) ∧
    sched_ok (registered_state s q c h a) (l ++ [h]) ∧ reachable (boot_world (registered_state s q c h a)).
Proof.
  intros Hs Hw Hf. destruct (proj1 (wp_run _ _ _) (add_task_wp s l h Hs Hf a entry sp)) as (s' & r & Hrun & -> & q & c & _ & Hq & ->).
  exists q, (init_context c entry sp). split; [done|]. split; [by apply new_list_ok|].
  by apply (registered_step (add_task h a entry sp) (OAdd h a entry sp) (boot_world s)).
Qed.

Lemma add_user_task_run s l h a entry usp ksp t : sched_ok s l → reachable (boot_world s) → fresh_slot s h →
  ksp ≠ 0 → ksp `mod` 16 = 0 → usp `mod` 16 = 0 → t ≠ 0 →
  ∃ q c, let s' := set_user_binding (task_index h) (Some t) (Some (window_new entry (saturating_sub64 usp entry)))
                     (registered_state s q c h a) in
    add_user_task h a entry usp ksp t s = Some (s', Ok tt) ∧ sched_ok s' (l ++ [h]) ∧ reachable (boot_world s').
Proof.
  intros Hs Hw Hf H1 H2 H3 H4.
  destruct (proj1 (wp_run _ _ _) (add_user_task_wp s l h Hs Hf a entry usp ksp t H1 H2 H3 H4)) as (s' & r & Hrun & -> & q & c & _ & Hq & ->).
  exists q, (init_user_context c entry usp ksp). split; [done|]. split; [by apply add_user_ok, new_list_ok|].
  by apply (registered_step (add_user_task h a entry usp ksp t) (OAddUser h a entry usp ksp t) (boot_world s)).
Qed.

Lemma register_idle_run s l h a entry sp : sched_ok s l → reachable (boot_world s) → fresh_slot s h → idle s = None →
  ∃ c, let s' := set_idle (Some h) (registered_state s (ready s) c h a) in
    register_idle h a entry sp s = Some (s', Ok tt : result SchedError unit) ∧ sched_ok s' l ∧ reachable (boot_world s').
Proof.
  intros Hs Hw Hf Hi.
  destruct (proj1 (wp_run _ _ _) (register_idle_wp (E := SchedError) s l h Hs Hf a entry sp Hi)) as (s' & r & Hrun & -> & c & _ & ->).
  exists (init_context c entry sp). split; [done|]. split; [by apply idle_list_ok|].
  by apply (registered_step (register_idle h a entry sp) (OIdle h a entry sp) (boot_world s)).
Qed.

(** The start dispatches the first of the ring. *)
Lemma start_run s l h a : sched_ok s (h :: l) → reachable (boot_world s) → current s = None →
  task_address_space_handles s !! task_index h = Some (Some a) →
  ∃ q, let s' := set_current (Some h) (set_ready q s) in
    Sched.start (E := SchedError) s = Some (s', Ok (Some a, task_index h)) ∧ sched_ok s' l ∧
    reachable {| wsched := s'; wactive := Some a; wexited := [] |}.
Proof.
  intros Hs Hw Hc Ha.
  destruct (proj1 (wp_run _ _ _) (start_prelude_wp (E := SchedError) s (h :: l) h Hs eq_refl)) as (s' & r & Hrun & -> & q & -> & Hok).
  exists q. cbn zeta. destruct (lookup_lt_is_Some_2 (contexts s) (task_index h)) as [c Hcx].
  { rewrite (so_contexts _ _ Hs). apply (registered_lt _ _ _ Hs). apply (so_ready _ _ Hs). by left. }
  assert (Hst : Sched.start (E := SchedError) s = Some (set_current (Some h) (set_ready q s), Ok (Some a, task_index h))).
  { unfold Sched.start, bind at 1. rewrite Hrun. unfold run_dispatched, idx, bind, gets.
    cbn [set_current set_ready task_address_space_handles contexts]. rewrite Ha. cbn. by rewrite Hcx. }
  split; [exact Hst|]. split; [exact Hok|]. apply (reach_step OStart (boot_world s)); [done|..].
  - split; [exact Hc|]. left. pose proof (so_queue _ _ Hs) as Hq. cbn [boot_world wsched]. by rewrite (qr_len _ _ _ Hq).
  - unfold world_step. cbn [op_run boot_world wsched]. unfold bind. by rewrite Hst.
Qed.

(** What the scheduler's state is when the boot hands over: [first] runs in the address
    space [active], the tasks [waiting] follow. *)
Record booted_sched (waiting : list TaskHandle) (first : TaskHandle) (active : AddressSpaceHandle) (img : Image)
    (hd : AddressSpaceHandle) (l : LoadedImage) s : Prop := {
  bs_ok : sched_ok s waiting;
  bs_reachable : reachable {| wsched := s; wactive := Some active; wexited := [] |};
  bs_current : current s = Some first;
  bs_idle : idle s = Some (task_at 2);
  bs_user : task_handles s !! 3%nat = Some (Some (task_at 3)) ∧ task_address_space_handles s !! 3%nat = Some (Some hd);
  bs_tables : task_cap_tables s = <[3%nat := Some (USER_TASK_TABLE img)]> (replicate TASK_ARENA_CAPACITY None);
  bs_windows : task_user_windows s = <[3%nat := Some (window_new (entry_va l) (saturating_sub64 (stack_top_va l) (entry_va l)))]>
    (replicate TASK_ARENA_CAPACITY None);
  bs_handles : ∀ i, (i < 4)%nat → task_handles s !! i = Some (Some (task_at i));
  bs_spaces : ∀ i, (i < 3)%nat → task_address_space_handles s !! i = Some (Some BOOTSTRAP_ADDRESS_SPACE_HANDLE);
  bs_nobody : ∀ i ep, task_states s !! i ≠ Some (Blocked ep);
}.

Lemma boot_sched_ok img hd l : USER_TASK_STACK img ≠ 0 → USER_TASK_STACK img `mod` 16 = 0 → USER_TASK_TABLE img ≠ 0 →
  stack_top_va l `mod` 16 = 0 →
  ∃ s s', expect (boot_sched img (boot_handles hd) l) Scheduler_new = Some (s, tt) ∧
    expect (Sched.start (E := SchedError)) s = Some (s', (Some BOOTSTRAP_ADDRESS_SPACE_HANDLE, 1%nat)) ∧
    booted_sched [task_at 0; task_at 3] (task_at 1) BOOTSTRAP_ADDRESS_SPACE_HANDLE img hd l s'.
Proof.
  intros H1 H2 H3 H4. unfold boot_sched. cbn [boot_handles handle_a handle_b handle_idle user_task_handle user_as_handle].
  destruct (add_task_run Scheduler_new [] (task_at 1) BOOTSTRAP_ADDRESS_SPACE_HANDLE (task_b img) (TASK_B_STACK img)
    Scheduler_new_ok reach_init eq_refl) as (q1 & c1 & E1 & O1 & R1).
  destruct (add_task_run _ _ (task_at 0) BOOTSTRAP_ADDRESS_SPACE_HANDLE (task_a img) (TASK_A_STACK img) O1 R1 eq_refl)
    as (q2 & c2 & E2 & O2 & R2).
  destruct (add_user_task_run _ _ (task_at 3) hd (entry_va l) (stack_top_va l) (USER_TASK_STACK img) (USER_TASK_TABLE img)
    O2 R2 eq_refl H1 H2 H4 H3) as (q3 & c3 & E3 & O3 & R3).
  destruct (register_idle_run _ _ (task_at 2) BOOTSTRAP_ADDRESS_SPACE_HANDLE (idle_entry img) (TASK_IDLE_STACK img)
    O3 R3 eq_refl eq_refl) as (c4 & E4 & O4 & R4).
  destruct (start_run _ _ (task_at 1) BOOTSTRAP_ADDRESS_SPACE_HANDLE O4 R4 eq_refl eq_refl) as (q5 & E5 & O5 & R5).
  do 2 eexists. split; [unfold expect, bind; rewrite E1, E2, E3, E4; reflexivity|].
  split; [unfold expect; rewrite E5; reflexivity|]. split; [exact O5|exact R5|done..| | |].
  - intros i Hi. do 4 (destruct i as [|i]; [reflexivity|]). lia.
  - intros i Hi. do 3 (destruct i as [|i]; [reflexivity|]). lia.
  - intros i ep. do 16 (destruct i as [|i]; [discriminate|]). discriminate.
Qed.
End sched.
Arguments bs_ok {_ _ _ _ _ _ _ _ _ _} _.
Arguments bs_reachable {_ _ _ _ _ _ _ _ _ _} _.
Arguments bs_current {_ _ _ _ _ _ _ _ _ _} _.
Arguments bs_idle {_ _ _ _ _ _ _ _ _ _} _.
Arguments bs_user {_ _ _ _ _ _ _ _ _ _} _.
Arguments bs_tables {_ _ _ _ _ _ _ _ _ _} _.
Arguments bs_windows {_ _ _ _ _ _ _ _ _ _} _.
Arguments bs_handles {_ _ _ _ _ _ _ _ _ _} _.
Arguments bs_spaces {_ _ _ _ _ _ _ _ _ _} _.
Arguments bs_nobody {_ _ _ _ _ _ _ _ _ _} _.
