(* ===== verification/BootProps.v ===== *)
(** * From reset to the first task

The boot as one computation: whatever memory holds outside the boot's own frames, the
kernel comes up, and the state it starts the scheduler in is the one the theorems
about system calls begin from. *)

From Stdlib Require Import Ascii String.
From stdpp Require Import gmap.
From S2P Require Import Prelude.
From S2P Require Import Hal.
From S2P Require Import Arena.
From S2P Require Import Objects.
From S2P Require Import Caps.
From S2P Require Import CapTable.
From S2P Require Import CapTableInv.
From S2P Require Import CapTableOps.
From S2P Require Import CapSpec.
From S2P Require Import CapProps.
From S2P Require Import Ipc.
From S2P Require Import SyscallError.
From S2P Require Import UserAccess.
From S2P Require Import UserAccessOps.
From S2P Require Import IpcSpec.
From S2P Require Import Pmm.
From S2P Require Import PmmInv.
From S2P Require Import PmmNew.
From S2P Require Import PmmProps.
From S2P Require Import Vmsav8.
From S2P Require Import Words.
From S2P Require Import QemuMmu.
From S2P Require Import QemuMmuInv.
From S2P Require Import QemuMmuOps.
From S2P Require Import QemuMmuProps.
From S2P Require Import BootMmu.
From S2P Require Import BootMmuProps.
From S2P Require Import AddressSpace.
From S2P Require Import AddressSpaceProps.
From S2P Require Import TaskLoader.
From S2P Require Import TaskLoaderInv.
From S2P Require Import TaskLoaderProps.
From S2P Require Import UserProgram.
From S2P Require Import Timer.
From S2P Require Import Gic.
From S2P Require Import GicProps.
From S2P Require Import Sched.
From S2P Require Import SchedInv.
From S2P Require Import SchedOps.
From S2P Require Import SchedRun.
From S2P Require Import SchedProps.
From S2P Require Import Text.
From S2P Require Import Uart.
From S2P Require Import SyscallEntry.
From S2P Require Import SyscallEntryProps.
From S2P Require Import Boot.
From S2P Require Import BootSteps.
Local Open Scope Z_scope.

(** ** The low half *)

Lemma offset_lor pa : 0 ≤ pa < 0x100000000 → Z.lor KERNEL_HIGH_HALF_OFFSET pa = high pa.
Proof.
  intros Hp. unfold high. pose proof (Z.add_lor_land KERNEL_HIGH_HALF_OFFSET pa).
  assert (Z.land KERNEL_HIGH_HALF_OFFSET pa = 0); [|lia].
  change KERNEL_HIGH_HALF_OFFSET with (Z.shiftl (Z.ones 32) 32). apply Z.bits_inj'. intros n Hn.
  rewrite Z.land_spec, Z.bits_0. destruct (Z.ltb_spec n 32); [by rewrite Z.shiftl_spec_low|].
  rewrite <- (Z.mod_small pa (2 ^ 32)) by lia. by rewrite Z.mod_pow2_bits_high, andb_false_r by lia.
Qed.

Lemma high_half_alias_low `{Build} {E} addr s : 0 ≤ addr < 0x100000000 →
  high_half_alias (E := E) addr s = Some (s, Ok (high addr)).
Proof.
  intros Ha. unfold high_half_alias. change KERNEL_IMAGE_PA_MASK with (Z.ones 32).
  rewrite Z.land_ones, Z.mod_small, offset_lor by lia. unfold bind, debug_assert.
  rewrite (bool_decide_true (addr = addr)) by done. by rewrite andb_false_r.
Qed.

(** The state in which the high half begins: only the top window translates. *)
Record entered (img : Image) (sp0 : Z) (s s' : BootState) (ctl : Control) : Prop := {
  en_within : within (table_frames (boot_pt img)) (boot_mem s) (boot_mem s');
  en_blocks : blocks (boot_pt img) (boot_mem s');
  en_upper : upper (boot_pt img) (boot_mem s') (boot_pt_l0 (boot_pt img)) (boot_pt_l1 (boot_pt img)) 0 0;
  en_stage1 : ∀ va, is_u64 va → stage1 (sys s') (boot_mem s') va =
    if bool_decide (va < 2 ^ 48) then None else window_at KERNEL_HIGH_HALF_OFFSET va;
  en_high : upper (boot_pt img) (boot_mem s') (boot_pt_l0_hh (boot_pt img)) (boot_pt_l1_hh (boot_pt img)) 511 508;
  en_regs : tcr_el1 (sys s') = Z.lor TCR_EL1_VALUE_HIGH_HALF TCR_EL1_EPD0_BIT ∧ ttbr1_el1 (sys s') = boot_pt_l0_hh (boot_pt img);
  en_control : ctl = {| vbar := high (tyrne_vectors img); sp := high sp0; pc := high (kernel_main_high_addr img) |};
}.

(** What the two halves write. *)
Definition entry_banner : list Z := line "tyrne: hello from kernel_main" ++ line "tyrne: mmu activated".
Definition prepare_banner (img : Image) : list Z :=
  entry_banner ++ line "tyrne: high-half active" ++ pmm_line (boot_stats img) ++ arena_line (boot_pt_l0 (boot_pt img)).
Definition boot_banner (img : Image) (cpu : QemuVirtCpu) : list Z :=
  prepare_banner img ++ timer_line cpu ++ line "tyrne: starting cooperative scheduler".

Lemma entry_banner_eq : ([] ++ line "tyrne: hello from kernel_main") ++ line "tyrne: mmu activated" = entry_banner.
Proof. done. Qed.

Lemma prepare_banner_eq img :
  ((entry_banner ++ line "tyrne: high-half active") ++ pmm_line (boot_stats img)) ++ arena_line (boot_pt_l0 (boot_pt img)) = prepare_banner img.
Proof. unfold prepare_banner. by rewrite <- !app_assoc. Qed.

Lemma boot_banner_eq img cpu :
  (prepare_banner img ++ timer_line cpu) ++ line "tyrne: starting cooperative scheduler" = boot_banner img cpu.
Proof. unfold boot_banner. by rewrite <- app_assoc. Qed.

Lemma enter_high `{Build} img sp0 s : image_ok img (boot_mem s) → 0 ≤ sp0 < 0x100000000 →
  ∃ s1 ctl s2, expect (kernel_entry (E := unit) img sp0) (reset_state s) =
      Some ({| early := s1; early_console := entry_banner; early_vbar := Some (vbar ctl) |}, ctl) ∧
    expect (leave_low_half (E := unit)) s1 = Some (s2, tt) ∧ entered img sp0 s s2 ctl.
Proof.
  intros Hio Hsp. pose proof (io_linked _ _ Hio) as Hl. set (t := boot_pt img) in *.
  destruct (io_stack _ _ Hio) as [Hs1 Hs2]. destruct (io_code _ _ Hio) as [Hc1 Hc2].
  unfold KERNEL_IMAGE_START, PMM_EXTENT_END in *.
  destruct (populate_tables_wp (E := unit) t s Hl) as (m1 & Hrun1 & Hw1 & Hb1 & Hu1 & Hz1).
  set (s1 := {| boot_mem := m1; sys := {| mair_el1 := MAIR_EL1_VALUE; tcr_el1 := TCR_EL1_VALUE; ttbr0_el1 := boot_pt_l0 t;
    ttbr1_el1 := 0; sctlr_el1 := Z.lor (sctlr_el1 (sys s)) SCTLR_EL1_MMU_ENABLE_MASK |} |}).
  destruct (high_half_wp (E := unit) t (boot_mem s) s1 Hl Hb1 Hu1 Hz1) as (m2 & Hrun2 & Hw2 & Hb2 & Hu2 & Hh2).
  assert (Hboot : mmu_bootstrap (E := unit) t s = Some (s1, Ok tt)) by (unfold mmu_bootstrap, bind; by rewrite Hrun1).
  eexists _, {| vbar := _; sp := _; pc := _ |}, _. split.
  { unfold expect, kernel_entry, on_machine, early_write, msr_vbar_el1, reset_state, zoom, bind, modify. cbn [early early_console early_vbar]. fold t.
    rewrite Hboot. cbn [early early_console early_vbar]. rewrite Hrun2. cbn [early early_console early_vbar].
    rewrite !high_half_alias_low by lia. cbn [early early_console early_vbar vbar ret]. by rewrite entry_banner_eq. }
  split; [reflexivity|]. split; [..|unfold wrapping_add64, high; f_equal; rewrite Z.mod_small; unfold KERNEL_HIGH_HALF_OFFSET; lia].
  - intros b Hb. cbn [boot_mem]. rewrite (Hw2 b Hb). apply (Hw1 b Hb).
  - exact Hb2.
  - exact Hu2.
  - intros va [Hva1 Hva2]. cbn [boot_mem sys]. case_bool_decide as Hv.
    + unfold stage1. rewrite bool_decide_true by done. cbn [tcr_el1]. by change (half_enabled _ 0 7 14 0) with false.
    + rewrite stage1_high by lia. cbn [tcr_el1 ttbr1_el1]. change (half_enabled _ _ _ _ _) with true.
      rewrite andb_true_r, <- window_high by lia. case_bool_decide; [|done].
      apply (hw_walk_window t (boot_mem s) m2 (boot_pt_l0_hh t) (boot_pt_l1_hh t) 511 508 va Hl ltac:(in_frames) ltac:(in_frames) Hb2 Hh2); by split.
  - exact Hh2.
  - done.
Qed.

(** ** The panic handler *)

Definition panic_text (info : list Z) : list Z := ([10] ++ line "!! tyrne panic !!") ++ info ++ [10].

Lemma panic_base_ok sp0 b : panic_uart_base sp0 = Some b →
  b = (if bool_decide (KERNEL_HIGH_HALF_OFFSET ≤ sp0) then high PL011_UART_BASE else PL011_UART_BASE).
Proof.
  unfold panic_uart_base. case_bool_decide; [|by intros [= <-]]. rewrite phys_to_kernel_va_Some by done. by intros [= <-].
Qed.

Lemma panic_text_sent `{Pl011 D ub n} fuel sp0 info (d : D) : panic_uart_base sp0 = Some ub →
  (backlog d < fuel)%nat → (n < fuel)%nat →
  ∃ d', panic_handler (E := unit) fuel sp0 info d = Some (d', Ok tt) ∧ taken d' = taken d ++ panic_text info.
Proof.
  intros Hb Hd Hf. assert (Hub : 0 ≤ ub < 2 ^ 64 - 0x1000).
  { rewrite (panic_base_ok _ _ Hb). by case_bool_decide. }
  destruct (write_bytes_sent (E := unit) Hub fuel ([10] ++ line "!! tyrne panic !!") d Hd Hf) as (d1 & H1 & T1 & B1).
  destruct (write_bytes_sent (E := unit) Hub fuel (info ++ [10]) d1 B1 Hf) as (d2 & H2 & T2 & _).
  exists d2. split; [|by rewrite T2, T1, <- app_assoc]. unfold panic_handler. rewrite Hb. unfold bind. rewrite H1. exact H2.
Qed.

(** The panic handler is heard, whichever half the kernel runs in.  Through the boot
    and after it, the alias it picks by the stack pointer is the UART's device memory
    in the translation that is live: below the high half from [mmu_bootstrap] on until the
    crossing, in the high half from [high_half_activate] on and after the low half is gone.
    The UART then takes exactly the panic's text. *)
Theorem panic_is_heard `{Pl011 D ub n} t s sp0 fuel info (d : D) : linked t (boot_mem s) →
  panic_uart_base sp0 = Some ub → (backlog d < fuel)%nat → (n < fuel)%nat →
  ∃ s1 s2 s3, mmu_bootstrap (E := unit) t s = Some (s1, Ok tt) ∧ high_half_activate (E := unit) t s1 = Some (s2, Ok tt) ∧
    leave_low_half (E := unit) s2 = Some (s3, Ok tt) ∧
    (∀ s' off, (if bool_decide (KERNEL_HIGH_HALF_OFFSET ≤ sp0) then s' = s2 ∨ s' = s3 else s' = s1 ∨ s' = s2) → 0 ≤ off < PAGE_SIZE →
       stage1 (sys s') (boot_mem s') (ub + off) = Some (PL011_UART_BASE + off, DEVICE_FLAGS)) ∧
    ∃ d', panic_handler (E := unit) fuel sp0 info d = Some (d', Ok tt) ∧ taken d' = taken d ++ panic_text info.
Proof.
  intros Hl Hb Hd Hf. destruct (boot_regime (E := unit) t s Hl) as (s1 & s2 & H1' & H2' & _ & _ & Hlow & Hall & _).
  exists s1, s2. eexists. split; [exact H1'|]. split; [exact H2'|]. split; [reflexivity|]. split; [|by apply panic_text_sent].
  intros s' off Hs Hoff. rewrite (panic_base_ok _ _ Hb). unfold PAGE_SIZE in Hoff.
  assert (Hw : boot_window (PL011_UART_BASE + off) = Some DEVICE_FLAGS).
  { unfold boot_window, PL011_UART_BASE. by rewrite bool_decide_true by lia. }
  assert (Htcr : tcr_el1 (sys s2) = TCR_EL1_VALUE_HIGH_HALF).
  { unfold high_half_activate, bind, write_entry, msr, modify in H2'. by injection H2' as <-. }
  case_bool_decide as Hsp.
  - assert (Hva : stage1 (sys s2) (boot_mem s2) (high PL011_UART_BASE + off) = Some (PL011_UART_BASE + off, DEVICE_FLAGS)).
    { rewrite Hall by (unfold is_u64, high, PL011_UART_BASE, KERNEL_HIGH_HALF_OFFSET; lia).
      rewrite bool_decide_false by (unfold high, PL011_UART_BASE, KERNEL_HIGH_HALF_OFFSET; lia). unfold window_at, high.
      replace (KERNEL_HIGH_HALF_OFFSET + PL011_UART_BASE + off - KERNEL_HIGH_HALF_OFFSET) with (PL011_UART_BASE + off) by lia. by rewrite Hw. }
    destruct Hs as [-> | ->]; [exact Hva|]. rewrite stage1_high in * by (unfold high, PL011_UART_BASE, KERNEL_HIGH_HALF_OFFSET; lia).
    cbn [sys boot_mem tcr_el1 ttbr1_el1]. rewrite Htcr in *. exact Hva.
  - assert (Hva : window_at 0 (PL011_UART_BASE + off) = Some (PL011_UART_BASE + off, DEVICE_FLAGS)).
    { unfold window_at. by rewrite Z.sub_0_r, Hw. }
    destruct Hs as [-> | ->]; rewrite ?Hlow, ?Hall by (unfold is_u64, PL011_UART_BASE; lia);
      by rewrite bool_decide_true by (unfold PL011_UART_BASE; lia).
Qed.

(** ** The kernel's memory *)

Lemma tentry_direct m f i : tentry (phys (direct_map m)) f i = tentry m f i.
Proof. apply read64_ext. intros b _. unfold phys, direct_map, high. f_equal. lia. Qed.

Lemma mapped_from_boot t m : blocks t m → upper t m (boot_pt_l0 t) (boot_pt_l1 t) 0 0 → boot_mapped t (direct_map m).
Proof.
  intros [Hb1 Hb2] [Hu1 Hu2]. split; (split; intros i Hi; rewrite tentry_direct; auto).
Qed.

(** The boot's tables survive what leaves their frames alone. *)
Lemma mapped_kept t m m' : boot_mapped t m →
  (∀ f a, f ∈ table_frames t → in_frame f a → m' a = m a) → boot_mapped t m'.
Proof.
  intros [[Hb1 Hb2] [Hu1 Hu2]] Hm.
  assert (He : ∀ f i, f ∈ table_frames t → index_ok i → tentry (phys m') f i = tentry (phys m) f i).
  { intros f i Hf Hi. rewrite !tentry_phys. apply entry_ext; [|done]. intros a Ha. by apply (Hm f). }
  split; (split; intros i Hi; rewrite He by (done || in_frames); auto).
Qed.

(** ** The state the kernel starts in *)

(** The user task: slot 3, its own address space holding the program and its stack and
    nothing else, a window over exactly those pages, one capability. *)
Record user_program `{Build} `{Contexts Ctx} {D} (img : Image) (m : Mem) (b : Booted (Ctx := Ctx) (D := D))
    (hd : AddressSpaceHandle) (a : QemuVirtAddressSpace) (L : list Z) : Prop := {
  up_task : task_handles (SCHED (bt_kernel b)) !! 3%nat = Some (Some (task_at 3)) ∧
    task_address_space_handles (SCHED (bt_kernel b)) !! 3%nat = Some (Some hd) ∧
    get_address_space (AS_ARENA (bt_kernel b)) hd = Some {| inner := a |} ∧ hd ≠ BOOTSTRAP_ADDRESS_SPACE_HANDLE;
  up_sched : booted_sched [task_at 0; task_at 3] (task_at 1) BOOTSTRAP_ADDRESS_SPACE_HANDLE img hd (bt_loaded b) (SCHED (bt_kernel b));
  up_caps : ∃ t, tables (bt_kernel b) = {[USER_TASK_TABLE img := t]} ∧ only_cap t (CapHandle_from_raw 0 0) console_cap ∧
    task_cap_tables (SCHED (bt_kernel b)) = <[3%nat := Some (USER_TASK_TABLE img)]> (replicate TASK_ARENA_CAPACITY None);
  up_window : task_user_windows (SCHED (bt_kernel b)) =
    <[3%nat := Some (window_new USERSPACE_IMAGE_BASE_VA (Z.of_nat (length L) * PAGE_SIZE))]> (replicate TASK_ARENA_CAPACITY None);
  up_layout : layout (MEMORY (bt_kernel b)) a USERSPACE_IMAGE_BASE_VA (Z.to_nat (image_page_count (USERSPACE_IMAGE img))) L;
  up_tables : ∃ rt T, a = space_at rt ∧ PT (MEMORY (bt_kernel b)) rt T;
  up_bytes : ∀ v, in_span USERSPACE_IMAGE_BASE_VA L v → MEMORY (bt_kernel b) (uaddr (MEMORY (bt_kernel b)) a v) =
    program_byte (direct_map m) (USERSPACE_IMAGE img) USERSPACE_IMAGE_BASE_VA v;
  up_frames : ∀ f, f ∈ L → ¬ (PMM_EXTENT_START ≤ f < page_up (stack_top img));
}.

(** The kernel itself, with [m] what memory holds when it starts. *)
Record started `{Build} `{Contexts Ctx} `{Mmio D} (img : Image) (pstate cntfrq cntvct : Z) (m : Mem) (d : D)
    (b : Booted (Ctx := Ctx) (D := D)) : Prop := {
  st_kernel : kernel_ok (bt_kernel b) [task_at 0; task_at 3];
  st_sched : reachable {| wsched := SCHED (bt_kernel b); wactive := (bt_start b).1; wexited := [] |};
  st_first : bt_start b = (Some BOOTSTRAP_ADDRESS_SPACE_HANDLE, 1%nat) ∧ current (SCHED (bt_kernel b)) = Some (task_at 1) ∧
    idle (SCHED (bt_kernel b)) = Some (task_at 2);
  st_memory : ∀ pa, PMM_EXTENT_START ≤ pa < page_up (stack_top img) → MEMORY (bt_kernel b) (high pa) = m pa;
  st_tables : tables_ok (bt_tables b) ∧ EP_ARENA (bt_kernel b) = boot_ep_arena (bt_tables b) ∧
    IPC_QUEUES (bt_kernel b) = IpcQueues_new;
  st_fallback : FAILCLOSED_TABLE (bt_kernel b) = Some CapTable.new;
  st_console : CONSOLE (bt_kernel b) = boot_banner img (bt_cpu b);
  st_cpu : cpu_new cntfrq = Some (bt_cpu b);
  st_clock : bt_ns b = Z.min ((cntvct * NANOS_PER_SECOND) `div` cntfrq) U64_MAX;
  st_irqs : ∀ i, 0 ≤ i → Z.testbit (bt_pstate b) i = if bool_decide (i = 7) then false else Z.testbit pstate i;
  st_gic : bt_gic b = gic_new (high QEMU_VIRT_GIC_DISTRIBUTOR_BASE) (high QEMU_VIRT_GIC_CPU_INTERFACE_BASE) ∧
    Gic.init (E := unit) (bt_gic b) d = Some (bt_device b, Ok tt);
}.

(** ** After the load *)

Section after.
  Context `{Build} (img : Image) (m0 m : Mem) (Hio : image_ok img m0) (Hm : boot_mapped (boot_pt img) (direct_map m)).
  Context (table : CapabilityTable) (cap : CapHandle).
  Context (Hcap : only_cap table cap {| rights := bootstrap_rights; object := OAddressSpace BOOTSTRAP_ADDRESS_SPACE_HANDLE |}).
  Context (arena : AddressSpaceArena QemuVirtAddressSpace) (p : Pmm).
  Context (Harena : ∀ hd, get_address_space arena hd =
    if decide (hd = BOOTSTRAP_ADDRESS_SPACE_HANDLE) then Some {| inner := space_at (boot_pt_l0 (boot_pt img)) |} else None).
  Context (s' : MmState QemuVirtAddressSpace Pmm) (l : LoadedImage) (hd : AddressSpaceHandle) (rt : Z) (L : list Z)
    (T : gmap Z (list Z)) (used' : gset Z).
  Context (Hl : loaded {| AddressSpace.table := table; as_arena := arena; provider := p; memory := direct_map m; flushed := [] |}
    s' (kernel_frames img) (USERSPACE_IMAGE img) cap Caps.empty USERSPACE_IMAGE_BASE_VA USERSPACE_STACK_PAGES l hd rt L T used').
  Context (Htop : stack_top_va l ≤ USERSPACE_VA_LIMIT).

Lemma after_spaces : two_spaces (AddressSpace.table s') cap (as_cap l) hd.
Proof.
  destruct (lo_ok _ _ _ _ _ _ _ _ _ _ _ _ _ _ Hl) as (Hok & _). destruct (lo_cap _ _ _ _ _ _ _ _ _ _ _ _ _ _ Hl) as (m' & Hst & Hm').
  cbn [AddressSpace.table] in Hst. inversion Hst; subst. split; [apply Hok|..].
  - eexists. rewrite Hm'. unfold upd. by rewrite decide_True.
  - intros h H1 H2. rewrite Hm'. unfold upd. rewrite decide_False by done. by rewrite Hcap, decide_False.
Qed.

(** No store of the load is in a kernel's frame. *)
Lemma after_memory pa : PMM_EXTENT_START ≤ pa < page_up (stack_top img) → memory s' (high pa) = m pa.
Proof.
  intros Hpa. pose proof (io_stack _ _ Hio) as Hst. destruct (page_up_bounds (stack_top img)) as [Hup Hal].
  assert (Hf : pa - pa `mod` PAGE_SIZE ∈ kernel_frames img ∧ table_ok (pa - pa `mod` PAGE_SIZE) ∧
    in_frame (pa - pa `mod` PAGE_SIZE) (high pa)).
  { rewrite elem_of_kernel_frames by apply Hst. unfold table_ok, in_frame, high, KERNEL_IMAGE_START, PMM_EXTENT_START, PMM_EXTENT_END, PAGE_SIZE in *.
    Z.to_euclidean_division_equations; lia. }
  destruct Hf as (Hk & Hok & Hin). rewrite (lo_memory _ _ _ _ _ _ _ _ _ _ _ _ _ _ Hl _ _ Hk Hok Hin).
  cbn [memory]. unfold direct_map, high. f_equal. lia.
Qed.

Lemma after_mapped : boot_mapped (boot_pt img) (memory s').
Proof.
  apply (mapped_kept _ _ _ Hm). intros f a Hf Ha. pose proof (io_frames _ _ Hio f Hf) as Hfr.
  pose proof (io_stack _ _ Hio) as Hst. destruct (page_up_bounds (stack_top img)) as [Hup _].
  replace a with (high (a - KERNEL_HIGH_HALF_OFFSET)) at 1 by (unfold high; lia). rewrite after_memory; [done|].
  unfold in_frame, KERNEL_IMAGE_START, PMM_EXTENT_START in *. lia.
Qed.

Lemma after_bootstrap : direct_mapped (memory s') (space_at (boot_pt_l0 (boot_pt img))).
Proof.
  apply (boot_direct _ m0 _ (io_linked _ _ Hio) after_mapped). intros f Hf. pose proof (io_frames _ _ Hio f Hf).
  pose proof (io_stack _ _ Hio). unfold PMM_EXTENT_END, PAGE_SIZE in *. lia.
Qed.

Lemma after_program : 0 < slice_len (USERSPACE_IMAGE img) ∧
  layout (memory s') (space_at rt) USERSPACE_IMAGE_BASE_VA (Z.to_nat (image_page_count (USERSPACE_IMAGE img))) L ∧
  (∀ v, in_span USERSPACE_IMAGE_BASE_VA L v → memory s' (uaddr (memory s') (space_at rt) v) =
    program_byte (direct_map m) (USERSPACE_IMAGE img) USERSPACE_IMAGE_BASE_VA v) ∧
  entry_va l = USERSPACE_IMAGE_BASE_VA ∧ stack_top_va l = USERSPACE_IMAGE_BASE_VA + Z.of_nat (length L) * PAGE_SIZE.
Proof.
  destruct (io_program _ _ Hio) as (pa & _ & _ & Hlen & _). split; [done|].
  destruct (program_span _ _ _ _ _ _ _ _ _ _ _ _ _ _ Hl eq_refl Hlen Htop) as (Hspan & _).
  split; [by eapply program_layout|]. split; [|split; [apply Hl|done]].
  intros v Hv. by apply (program_bytes _ _ _ _ _ _ _ _ _ _ _ _ _ _ Hl).
Qed.

Lemma after_tables : PT (memory s') rt T.
Proof.
  destruct (lo_ok _ _ _ _ _ _ _ _ _ _ _ _ _ _ Hl) as (_ & _ & Hs & _). apply (sp_pt _ _ _ _ (so_space _ _ _ _ _ Hs)).
Qed.

Lemma after_frames f : f ∈ L → ¬ (PMM_EXTENT_START ≤ f < page_up (stack_top img)).
Proof.
  intros Hf Hr. destruct (lo_frames _ _ _ _ _ _ _ _ _ _ _ _ _ _ Hl) as (_ & _ & Hfr). destruct (Hfr f Hf) as ([Hal _] & Hno & _).
  apply Hno, elem_of_kernel_frames; [apply (io_stack _ _ Hio)|done].
Qed.

(** Every address space is seen through the direct map. *)
Lemma after_direct hd' a : get_address_space (as_arena s') hd' = Some a → direct_mapped (memory s') (inner a).
Proof.
  intros Ha. destruct (decide (hd' = hd)) as [->|Hne].
  - destruct (lo_ok _ _ _ _ _ _ _ _ _ _ _ _ _ _ Hl) as (_ & _ & Hs & _). rewrite (so_arena _ _ _ _ _ Hs) in Ha.
    injection Ha as <-. destruct after_program as (_ & Hly & _). apply (layout_direct _ _ _ _ _ Hly).
  - rewrite (lo_spaces _ _ _ _ _ _ _ _ _ _ _ _ _ _ Hl hd' Hne) in Ha. cbn [as_arena] in Ha. rewrite Harena in Ha.
    case_decide; [|done]. injection Ha as <-. apply after_bootstrap.
Qed.

Lemma after_new_space : get_address_space (as_arena s') hd = Some {| inner := space_at rt |} ∧ hd ≠ BOOTSTRAP_ADDRESS_SPACE_HANDLE.
Proof.
  destruct (lo_ok _ _ _ _ _ _ _ _ _ _ _ _ _ _ Hl) as (_ & _ & Hs & _). split; [apply (so_arena _ _ _ _ _ Hs)|].
  intros ->. pose proof (lo_fresh _ _ _ _ _ _ _ _ _ _ _ _ _ _ Hl) as Hf. cbn [as_arena] in Hf. rewrite Harena, decide_True in Hf by done. done.
Qed.
End after.

(** ** The whole boot *)

Lemma cpu_ok cntfrq cntvct : is_u64 cntfrq → cntfrq ≠ 0 → is_u64 cntvct →
  ∃ cpu, cpu_new cntfrq = Some cpu ∧ now_ns cpu cntvct = Some (Z.min ((cntvct * NANOS_PER_SECOND) `div` cntfrq) U64_MAX).
Proof.
  intros Hf Hne Hv. destruct (resolution_rounds cntfrq Hf Hne) as (r & Hr & _). unfold cpu_new.
  rewrite bool_decide_true by (destruct Hf; lia). cbn [negb]. rewrite Hr. eexists. split; [done|].
  unfold now_ns. cbn [frequency_hz]. by apply ticks_to_ns_eq.
Qed.

Lemma stack_aligned n : (USERSPACE_IMAGE_BASE_VA + n * PAGE_SIZE) `mod` 16 = 0.
Proof.
  unfold USERSPACE_IMAGE_BASE_VA, PAGE_SIZE. replace (0x800000 + n * 4096) with ((0x80000 + n * 256) * 16) by lia. by apply Z.mod_mul.
Qed.

Lemma kernel_statics `{Build} `{Contexts Ctx} img l m s ts ar fc inner cons : fc = None ∨ fc = Some CapTable.new →
  sched_ok s l → is_Some (idle s) → Arena.WF ENDPOINT_ARENA_CAPACITY (boot_ep_arena ts) → CapTableInv.WF (user_task_table ts) →
  (∀ hd a, get_address_space ar hd = Some a → direct_mapped m (AddressSpace.inner a)) → direct_mapped m inner →
  task_cap_tables s = <[3%nat := Some (USER_TASK_TABLE img)]> (replicate TASK_ARENA_CAPACITY None) →
  (∀ i w, task_user_windows s !! i = Some (Some w) → 0 ≤ base w ≤ U64_MAX) →
  kernel_ok (Ctx := Ctx) {| SCHED := s; AS_ARENA := ar; EP_ARENA := boot_ep_arena ts; IPC_QUEUES := IpcQueues_new;
     tables := {[USER_TASK_TABLE img := user_task_table ts]}; FAILCLOSED_TABLE := fc; BOOTSTRAP_AS := inner;
     CONSOLE := cons; MEMORY := m |} l.
Proof.
  intros Hfc Hs Hi Ha Ht Hsp Hb Htb Hw. split; cbn; [done|done|by apply IpcQueues_new_WF| | |done|done| |done].
  - by intros p t [_ <-]%lookup_singleton_Some.
  - intros t' ->. destruct Hfc as [|[= ->]]; [done|]. split; [apply new_WF|]. intros h. apply live_None, live_new.
  - intros i p. rewrite Htb. intros [(<- & [= <-] & _)|(_ & [? _]%lookup_replicate)]%list_lookup_insert_Some; [|done].
    rewrite lookup_singleton_eq. by eexists.
Qed.

Lemma expect_ok {S E A} (op : M S E A) s s' a : op s = Some (s', Ok a) → expect op s = Some (s', a).
Proof. unfold expect. by intros ->. Qed.

Lemma gic_ok `{Mmio D} (d : D) : let g := gic_new (high QEMU_VIRT_GIC_DISTRIBUTOR_BASE) (high QEMU_VIRT_GIC_CPU_INTERFACE_BASE) in
  ∃ d', Gic.init (E := unit) g d = Some (d', Ok tt) ∧ boot_gic d = Some (g, d').
Proof.
  intros g. assert (∃ d', Gic.init (E := unit) g d = Some (d', Ok tt)) as [d' Hi].
  { destruct (read_volatile (distributor_base g + GICD_TYPER) (dist_write g d (GICD_CTLR, 0))) as [d1 typer] eqn:Hr.
    eexists. apply (init_eq g); [|exact Hr]. by vm_compute. }
  exists d'. split; [exact Hi|]. unfold boot_gic.
  rewrite !phys_to_kernel_va_Some by (unfold QEMU_VIRT_GIC_DISTRIBUTOR_BASE, QEMU_VIRT_GIC_CPU_INTERFACE_BASE; lia).
  cbn [mbind option_bind]. change (KERNEL_HIGH_HALF_OFFSET + ?x) with (high x). fold g. by rewrite (expect_ok _ _ _ _ Hi).
Qed.

(** What the kernel has prepared when it chooses its workload. *)
Record prepared `{Build} (img : Image) (cntfrq cntvct : Z) (k : Prepared) : Prop := {
  pp_cpu : cpu_new cntfrq = Some (pr_cpu k);
  pp_ns : pr_ns k = Z.min ((cntvct * NANOS_PER_SECOND) `div` cntfrq) U64_MAX;
  pp_pmm : PWF (pr_pmm k);
  pp_reserved : reserved_list (pr_pmm k) = [{| Hal.start := PMM_EXTENT_START; end_ := KERNEL_IMAGE_START |};
                                            {| Hal.start := KERNEL_IMAGE_START; end_ := page_up (stack_top img) |}];
  pp_free : Z.of_nat (pmm_free (pr_pmm k)) = (PMM_EXTENT_END - page_up (stack_top img)) `div` PAGE_SIZE;
  pp_bootstrap : pr_bootstrap k = space_at (boot_pt_l0 (boot_pt img));
  pp_table : CapTableInv.WF (pr_table k) ∧
    only_cap (pr_table k) (pr_cap k) {| rights := bootstrap_rights; object := OAddressSpace BOOTSTRAP_ADDRESS_SPACE_HANDLE |};
  pp_arena : Arena.WF ADDRESS_SPACE_ARENA_CAPACITY (pr_arena k) ∧ Arena.is_full (pr_arena k) = false ∧
    ∀ hd, get_address_space (pr_arena k) hd =
      if decide (hd = BOOTSTRAP_ADDRESS_SPACE_HANDLE) then Some {| inner := space_at (boot_pt_l0 (boot_pt img)) |} else None;
  pp_console : pr_console k = prepare_banner img;
}.

Lemma kernel_prepare_ok `{Build} img cntfrq cntvct m0 : image_ok img m0 → is_u64 cntfrq → cntfrq ≠ 0 → is_u64 cntvct →
  ∃ k, kernel_prepare img cntfrq cntvct entry_banner = Some k ∧ prepared img cntfrq cntvct k.
Proof.
  intros Hio Hf Hne Hv. pose proof (io_stack _ _ Hio) as Hst. unfold kernel_prepare.
  rewrite (phys_to_kernel_va_Some PL011_UART_BASE) by done. cbn [mbind option_bind].
  destruct (cpu_ok cntfrq cntvct Hf Hne Hv) as (cpu & Hcpu & Hns). rewrite Hcpu. cbn [mbind option_bind]. rewrite Hns. cbn [mbind option_bind].
  destruct (boot_pmm_ok img Hst) as (p & Hp & Hpwf & Hext & Hres & Hfree & Hline). rewrite Hp. cbn [mbind option_bind].
  assert (Hroot : boot_pt_l0 (boot_pt img) ∈ table_frames (boot_pt img)) by in_frames.
  pose proof (linked_frame _ _ _ (io_linked _ _ Hio) Hroot) as Hfr. pose proof (io_frames _ _ Hio _ Hroot) as Hlow.
  destruct (boot_address_space_ok img Hfr) as (arena & table & cap & Hbas & Htab & Hcap & Har & Hnf & Hget).
  { unfold PMM_EXTENT_END, PAGE_SIZE in *. lia. }
  rewrite Hbas. cbn [mbind option_bind]. eexists. split; [reflexivity|].
  split; cbn [pr_cpu pr_ns pr_pmm pr_bootstrap pr_arena pr_table pr_cap pr_console]; try done. rewrite Hline. apply prepare_banner_eq.
Qed.

(** What both workloads load: the program in an address space of its own, beside the
    kernel's. *)
Record program_loaded `{Build} (img : Image) (m : Mem) (st : MmState QemuVirtAddressSpace Pmm) (l : LoadedImage)
    (hd : AddressSpaceHandle) (rt : Z) (L : list Z) : Prop := {
  pl_layout : layout (memory st) (space_at rt) USERSPACE_IMAGE_BASE_VA (Z.to_nat (image_page_count (USERSPACE_IMAGE img))) L;
  pl_bytes : ∀ v, in_span USERSPACE_IMAGE_BASE_VA L v → memory st (uaddr (memory st) (space_at rt) v) =
    program_byte (direct_map m) (USERSPACE_IMAGE img) USERSPACE_IMAGE_BASE_VA v;
  pl_entry : entry_va l = USERSPACE_IMAGE_BASE_VA ∧ stack_top_va l = USERSPACE_IMAGE_BASE_VA + Z.of_nat (length L) * PAGE_SIZE;
  pl_direct : ∀ hd' a, get_address_space (as_arena st) hd' = Some a → direct_mapped (memory st) (inner a);
  pl_bootstrap : direct_mapped (memory st) (space_at (boot_pt_l0 (boot_pt img)));
  pl_memory : ∀ pa, PMM_EXTENT_START ≤ pa < page_up (stack_top img) → memory st (high pa) = m pa;
  pl_space : get_address_space (as_arena st) hd = Some {| inner := space_at rt |} ∧ hd ≠ BOOTSTRAP_ADDRESS_SPACE_HANDLE;
  pl_tables : ∃ T, PT (memory st) rt T;
  pl_frames : ∀ f, f ∈ L → ¬ (PMM_EXTENT_START ≤ f < page_up (stack_top img));
}.

Lemma load_and_tasks `{Build} img cntfrq cntvct m0 m k : image_ok img m0 → boot_mapped (boot_pt img) (direct_map m) →
  prepared img cntfrq cntvct k →
  ∃ st l hd rt L t' ta, load_user_image img (pr_pmm k) (pr_table k) (pr_arena k) (pr_cap k) (direct_map m) = Some (st, l) ∧
    boot_tasks l (AddressSpace.table st) = Some (t', ta, boot_handles hd) ∧ program_loaded img m st l hd rt L.
Proof.
  intros Hio Hm [_ _ Hpwf Hres Hfree _ [Htab Hcap] (Har & Hnf & Hget) _]. destruct k as [cpu ns p inner arena table cap con].
  cbn [pr_pmm pr_arena pr_table pr_cap] in *. unfold load_user_image.
  destruct (boot_load img m0 (direct_map m) Hio p Hpwf Hres Hfree table cap Htab Hcap arena Har Hnf)
    as (st & l & hd & rt & L & T & used' & Hload & Htop & Hl).
  pose proof (after_spaces img m table cap Hcap arena p st l hd rt L T used' Hl) as Htwo.
  destruct (boot_tasks_ok l (AddressSpace.table st) cap hd Htwo) as (t' & ta & Htasks & _).
  destruct (after_program img m0 m Hio table cap arena p st l hd rt L T used' Hl Htop) as (_ & Hly & Hbytes & Hentry & Hsp).
  exists st, l, hd, rt, L, t', ta. split; [exact Hload|]. split; [exact Htasks|]. split; try done.
  - intros hd' a. by apply (after_direct img m0 m Hio Hm table cap arena p Hget st l hd rt L T used').
  - by apply (after_bootstrap img m0 m Hio Hm table cap arena p st l hd rt L T used').
  - by apply (after_memory img m0 m Hio table cap arena p st l hd rt L T used').
  - by apply (after_new_space img m table cap arena p Hget st l hd rt L T used').
  - exists T. by apply (after_tables img m table cap arena p st l hd rt L T used').
  - by apply (after_frames img m0 m Hio table cap arena p st l hd rt L T used').
Qed.

(** The program's bytes are not in the boot's tables, so that they are loaded as the
    linker placed them. *)
Definition program_apart (img : Image) : Prop := ∀ f, f ∈ table_frames (boot_pt img) → ∀ k, f ≤ k < f + PAGE_SIZE →
  ¬ (0 ≤ k - (as_ptr (USERSPACE_IMAGE img) - KERNEL_HIGH_HALF_OFFSET) < slice_len (USERSPACE_IMAGE img)).

Lemma program_kept img m0 m v : within (table_frames (boot_pt img)) m0 m → program_apart img →
  0 ≤ v - USERSPACE_IMAGE_BASE_VA < slice_len (USERSPACE_IMAGE img) →
  program_byte (direct_map m) (USERSPACE_IMAGE img) USERSPACE_IMAGE_BASE_VA v =
    m0 (as_ptr (USERSPACE_IMAGE img) - KERNEL_HIGH_HALF_OFFSET + (v - USERSPACE_IMAGE_BASE_VA)).
Proof.
  intros Hw Hapart Hv. unfold program_byte. rewrite decide_True by lia. unfold direct_map. rewrite Hw; [f_equal; lia|].
  intros f Hf Hin. apply (Hapart f Hf _ Hin). lia.
Qed.

Lemma image_fits image : slice_len image ≤ image_page_count image * PAGE_SIZE.
Proof. unfold image_page_count, div_ceil, PAGE_SIZE. Z.to_euclidean_division_equations; lia. Qed.

(** The window of the user task. *)
Definition program_window (L : list Z) : UserAccessWindow := window_new USERSPACE_IMAGE_BASE_VA (Z.of_nat (length L) * PAGE_SIZE).

Lemma loaded_window `{Build} `{Contexts Ctx} {waiting first active} img m st l hd rt L (s : Scheduler Ctx) :
  program_loaded img m st l hd rt L → booted_sched waiting first active img hd l s →
  task_user_windows s = <[3%nat := Some (program_window L)]> (replicate TASK_ARENA_CAPACITY None) ∧
  ∀ i w, task_user_windows s !! i = Some (Some w) → 0 ≤ base w ≤ U64_MAX.
Proof.
  intros Hl Hb. destruct (pl_entry _ _ _ _ _ _ _ Hl) as [He Hs].
  assert (Hw : task_user_windows s = <[3%nat := Some (program_window L)]> (replicate TASK_ARENA_CAPACITY None)).
  { rewrite (bs_windows Hb), He, Hs. unfold program_window. do 4 f_equal. rewrite saturating_sub64_eq by (unfold PAGE_SIZE; lia). lia. }
  split; [exact Hw|]. intros i w. rewrite Hw.
  intros [(_ & [= <-] & _)|(_ & [? _]%lookup_replicate)]%list_lookup_insert_Some; [|done]. by vm_compute.
Qed.

(** The unmask clears the I bit and nothing else. *)
Lemma unmasked pstate i : 0 ≤ i → Z.testbit (daifclr 0x2 pstate) i = if bool_decide (i = 7) then false else Z.testbit pstate i.
Proof.
  intros Hi. unfold daifclr. rewrite Z.land_spec, Z.lnot_spec by done. change (Z.shiftl 0x2 6) with (2 ^ 7).
  rewrite Z.pow2_bits_eqb by done. case_bool_decide as Hd; [subst; apply andb_false_r|].
  destruct (Z.eqb_spec 7 i); [lia|]. apply andb_true_r.
Qed.

Lemma kernel_main_ok `{Build} `{Contexts Ctx} `{Mmio D} img pstate cntfrq cntvct m0 m (d : D) :
  image_ok img m0 → boot_mapped (boot_pt img) (direct_map m) → is_u64 cntfrq → cntfrq ≠ 0 → is_u64 cntvct →
  ∃ b hd a L, kernel_main_high img pstate cntfrq cntvct entry_banner (direct_map m) d = Some b ∧ started (Ctx := Ctx) img pstate cntfrq cntvct m d b ∧
    user_program img m b hd a L.
Proof.
  intros Hio Hm Hf Hne Hv. unfold kernel_main_high.
  destruct (kernel_prepare_ok img cntfrq cntvct m0 Hio Hf Hne Hv) as (k & Hk & Hprep). rewrite Hk. cbn [mbind option_bind].
  destruct (load_and_tasks img cntfrq cntvct m0 m k Hio Hm Hprep) as (st & l & hd & rt & L & t' & ta & Hload & Htasks & Hl).
  rewrite Hload. cbn [mbind option_bind].
  destruct (gic_ok d) as (d' & Hgic & Hbg). rewrite Hbg. cbn [mbind option_bind]. rewrite Htasks. cbn [mbind option_bind].
  destruct boot_tables_ok as (ts & Hts & Htk). rewrite Hts. cbn [mbind option_bind].
  destruct (tk_arena _ Htk) as [Hep _]. destruct (tk_user _ Htk) as [Htw Hto]. destruct (io_user_stack _ _ Hio) as [Hu1 Hu2].
  destruct (boot_sched_ok (Ctx := Ctx) img hd l Hu1 Hu2 (io_user_table _ _ Hio)) as (s1 & s2 & Hs1 & Hs2 & Hbs).
  { rewrite (proj2 (pl_entry _ _ _ _ _ _ _ Hl)). apply stack_aligned. }
  rewrite Hs1. cbn [mbind option_bind]. rewrite Hs2. cbn [mbind option_bind].
  destruct (loaded_window _ _ _ _ _ _ _ _ Hl Hbs) as [Hwin Hwins]. destruct Hprep as [Hcpu Hns _ _ _ Hboot _ _ Hcon].
  do 4 eexists. split; [reflexivity|]. split; split; cbn [bt_kernel bt_start bt_ns bt_gic bt_device bt_pstate bt_tables bt_cpu bt_loaded SCHED MEMORY AS_ARENA EP_ARENA IPC_QUEUES CONSOLE tables fst].
  - rewrite Hboot. apply kernel_statics; [by right|apply Hbs|rewrite (bs_idle Hbs); by eexists|done|done|apply Hl|apply Hl|apply Hbs|exact Hwins].
  - apply Hbs.
  - split; [done|]. split; apply Hbs.
  - apply Hl.
  - done.
  - done.
  - rewrite Hcon. apply boot_banner_eq.
  - exact Hcpu.
  - exact Hns.
  - apply unmasked.
  - by split.
  - do 2 (split; [apply Hbs|]). apply (pl_space _ _ _ _ _ _ _ Hl).
  - exact Hbs.
  - eexists. split; [done|]. split; [exact Hto|apply Hbs].
  - exact Hwin.
  - apply Hl.
  - destruct (pl_tables _ _ _ _ _ _ _ Hl) as [T HT]. by exists rt, T.
  - apply Hl.
  - apply Hl.
Qed.

(** C12: the board comes up.  On an image the linker placed as it says, with zeroed boot
    tables, any stack pointer in the low half, any non-zero counter frequency and any
    device behind the interrupt controller, in either build no step of the boot panics:
    [kernel_entry] and [kernel_main_high] reach the start of the scheduler.  Then the low
    half no longer translates and the high half is exactly the window; control is in the
    high half; the console shows exactly the lines of the boot, with the frames the
    stack leaves free and the clock's rate; every static is well formed and the scheduler is
    in a reachable state with task B first; the interrupt controller is initialised through its high
    addresses and then interrupts are unmasked, the rest of the mask as it was; nothing the load stored is in the kernel's part of RAM.  The user task
    waits in slot 3 in an address space of its own with exactly the program and its
    stack, on frames outside the kernel's, its bytes those of the image; its window
    covers those pages, its table has one capability, the console's, and no other task
    has a table or a window; the fail-closed table is there, and empty. *)
Theorem boot_starts_the_kernel `{Build} `{Contexts Ctx} `{Mmio D} img sp0 pstate cntfrq cntvct (s : BootState) (d : D) :
  image_ok img (boot_mem s) → 0 ≤ sp0 < 0x100000000 → is_u64 cntfrq → cntfrq ≠ 0 → is_u64 cntvct →
  ∃ s' ctl b hd a L, boot (Ctx := Ctx) img sp0 pstate cntfrq cntvct s d = Some (s', ctl, b) ∧
    entered img sp0 s s' ctl ∧ started img pstate cntfrq cntvct (boot_mem s') d b ∧ user_program img (boot_mem s') b hd a L.
Proof.
  intros Hio Hsp Hf Hne Hv. destruct (enter_high img sp0 s Hio Hsp) as (s1 & ctl & s2 & H1' & H2 & He).
  destruct (kernel_main_ok (Ctx := Ctx) img pstate cntfrq cntvct (boot_mem s) (boot_mem s2) d Hio) as (b & hd & a & L & Hk & Hst & Hup); [|done..|].
  { apply mapped_from_boot; apply He. }
  exists s2, ctl, b, hd, a, L. split; [|done]. unfold boot. rewrite H1'. cbn [mbind option_bind early early_console]. rewrite H2. cbn [mbind option_bind].
  rewrite Hk. done.
Qed.

(** ** A sample image *)

Definition sample_image : Image :=
  {| boot_pt := sample_boot_tables; tyrne_vectors := 0x40080800; kernel_main_high_addr := 0x40081000; stack_top := 0x40100000;
     USERSPACE_IMAGE := {| as_ptr := 0xFFFFFFFF40090000; slice_len := 5000 |};
     task_a := 0xFFFFFFFF40082000; task_b := 0xFFFFFFFF40082100; idle_entry := 0xFFFFFFFF40082200;
     TASK_A_STACK := 0xFFFFFFFF400B1000; TASK_B_STACK := 0xFFFFFFFF400B2000; TASK_IDLE_STACK := 0xFFFFFFFF400B3000;
     USER_TASK_STACK := 0xFFFFFFFF400B4000; USER_TASK_TABLE := 0xFFFFFFFF400C0000 |}.

Lemma sample_image_ok : image_ok sample_image (boot_mem sample_boot_state).
Proof.
  split.
  - split; [by apply (bool_decide_unpack _); vm_compute| |intros f b _ _; reflexivity]. repeat (apply Forall_cons; split; [by split|]). by apply Forall_nil.
  - done.
  - intros f Hf. unfold table_frames in Hf. rewrite !elem_of_cons, elem_of_nil in Hf.
    by destruct Hf as [->|[->|[->|[->|[->|[->|[]]]]]]].
  - by exists 0x40090000.
  - by vm_compute.
  - done.
  - done.
  - done.
Qed.

(** From a machine with zeroed memory: after 1000 ticks at 62.5 MHz the clock reads 16
    microseconds, control is in the high half, task B runs, and the first byte of the
    user program is the image's. *)
Lemma boot_starts_the_kernel_witness :
  ∃ s' ctl b, boot (Ctx := unit) (D := list (Z * Z)) (H := debug_build) (H0 := no_contexts) sample_image 0x40100000 0x3c5 62500000 1000
      sample_boot_state [] = Some (s', ctl, b) ∧
    ctl = {| vbar := 0xFFFFFFFF40080800; sp := 0xFFFFFFFF40100000; pc := 0xFFFFFFFF40081000 |} ∧
    stage1 (sys s') (boot_mem s') 0x40081000 = None ∧
    stage1 (sys s') (boot_mem s') 0xFFFFFFFF40081000 = Some (0x40081000, RAM_FLAGS) ∧
    bt_ns b = 16000 ∧ Z.testbit (bt_pstate b) 7 = false ∧ current (SCHED (bt_kernel b)) = Some (task_at 1) ∧
    MEMORY (bt_kernel b) 0xFFFFFFFF40090000 = boot_mem s' 0x40090000.
Proof.
  destruct (boot_starts_the_kernel (Ctx := unit) (H := debug_build) (H0 := no_contexts) sample_image 0x40100000 0x3c5 62500000 1000
    sample_boot_state ([] : list (Z * Z))) as (s' & ctl & b & hd & a & L & Hrun & He & Hst & _); [exact sample_image_ok|by split|by split|done|by split|].
  exists s', ctl, b. split; [exact Hrun|]. destruct He as [_ _ _ Hs1 _ _ ->]. destruct Hst as [_ _ (_ & Hc & _) Hm _ _ _ _ -> Hirq _].
  clear Hrun. split; [exact eq_refl|]. rewrite !Hs1 by (by split). split; [exact eq_refl|]. split; [vm_compute; exact eq_refl|].
  split; [vm_compute; exact eq_refl|]. split; [exact (Hirq 7 (Z.lt_le_incl 0 7 eq_refl))|]. split; [exact Hc|]. apply (Hm 0x40090000). by split.
Defined.
