(* ===== verification/Activate.v ===== *)
(** * The processor's view of an address space (bsp-qemu-virt/src/mmu.rs, main.rs)

[activate] and the two TLB invalidations of [QemuVirtMmu], and the hook the scheduler
calls.  The processor is its system registers and the low-half translations it has
cached, by page number; the barriers order the steps and have no effect of their own.
The kernel's address-space operations run on the board with the invalidations their
[MapperFlush] tokens ask for. *)

From stdpp Require Import gmap.
From S2P Require Import Prelude.
From S2P Require Import Hal.
From S2P Require Import Arena.
From S2P Require Import Objects.
From S2P Require Import Caps.
From S2P Require Import CapTable.
From S2P Require Import Ipc.
From S2P Require Import SyscallError.
From S2P Require Import UserAccess.
From S2P Require Import Vmsav8.
From S2P Require Import QemuMmu.
From S2P Require Import BootMmu.
From S2P Require Import AddressSpace.
Local Open Scope Z_scope.

(** The cached translations of the low half: page number to page address and flags. *)
Notation Tlb := (gmap Z (Z * MappingFlags)).

Record Processor := { regs : SysRegs; tlb : Tlb }.

(** [TLBI VAE1] takes bits 55 to 12 of the address in bits 43 to 0 of its operand. *)
Definition invalidate_tlb_address (va : VirtAddr) (p : Processor) : Processor :=
  let arg := Z.land (Z.shiftr va 12) 0x0000FFFFFFFFFFFF in
  {| regs := regs p; tlb := delete (Z.land arg (Z.ones 44)) (tlb p) |}.

(** [TLBI VMALLE1] *)
Definition invalidate_tlb_all (p : Processor) : Processor := {| regs := regs p; tlb := ∅ |}.

(** The root goes into [TTBR0_EL1], the low half is walked again, nothing is cached. *)
Definition activate (as_ : QemuVirtAddressSpace) (p : Processor) : Processor :=
  let ttbr0 := frame_addr (root as_) in
  let r := regs p in
  let r := {| mair_el1 := mair_el1 r; tcr_el1 := tcr_el1 r; ttbr0_el1 := ttbr0; ttbr1_el1 := ttbr1_el1 r; sctlr_el1 := sctlr_el1 r |} in
  let r := {| mair_el1 := mair_el1 r; tcr_el1 := Z.land (tcr_el1 r) (not64 TCR_EL1_EPD0_BIT); ttbr0_el1 := ttbr0_el1 r;
              ttbr1_el1 := ttbr1_el1 r; sctlr_el1 := sctlr_el1 r |} in
  invalidate_tlb_all {| regs := r; tlb := tlb p |}.

(** The hook of the scheduler: a stale handle activates nothing (and is a
    [debug_assert!]). *)
Definition activate_address_space `{Build} (arena : AddressSpaceArena QemuVirtAddressSpace) (handle : AddressSpaceHandle)
    (p : Processor) : option Processor :=
  match activate_address_space_handle (E := unit) arena handle with
  | Some (Ok (Some as_)) => Some (activate as_ p)
  | Some (Ok None) => Some p
  | _ => None
  end.

(** Kernel state and processor. *)
Record Board (F : Type) := { mm : MmState QemuVirtAddressSpace F; cpu : Processor }.
Arguments mm {F} _.
Arguments cpu {F} _.

Section board.
  Context `{Build} `{FrameProvider F}.
  Implicit Types (b : Board F).

(** An operation of the kernel, with the invalidations it issued, oldest first. *)
Definition kernel_call {A} (op : M (MmState QemuVirtAddressSpace F) AddressSpaceError A) b
    : option (Board F * result AddressSpaceError A) :=
  let s := {| table := table (mm b); as_arena := as_arena (mm b); provider := provider (mm b); memory := memory (mm b); flushed := [] |} in
  match op s with
  | None => None
  | Some (s', r) => Some ({| mm := s'; cpu := foldr invalidate_tlb_address (cpu b) (flushed s') |}, r)
  end.

(** Physical memory, which the processor walks. *)
Definition physical (m : Mem) : Mem := λ pa, m (KERNEL_HIGH_HALF_OFFSET + pa).

(** The processor caches a translation whenever it likes. *)
Definition fill (va : VirtAddr) b : Board F :=
  match stage1 (regs (cpu b)) (physical (memory (mm b))) va with
  | None => b
  | Some (pa, flags) =>
      {| mm := mm b; cpu := {| regs := regs (cpu b); tlb := <[va `div` PAGE_SIZE := (pa - va `mod` PAGE_SIZE, flags)]> (tlb (cpu b)) |} |}
  end.

Definition evict (page : Z) b : Board F :=
  {| mm := mm b; cpu := {| regs := regs (cpu b); tlb := delete page (tlb (cpu b)) |} |}.

(** What the processor and the kernel do, in any order. *)
Inductive board_step : Board F → Board F → Prop :=
| BFill va b : 0 ≤ va < 2 ^ 48 → board_step b (fill va b)
| BEvict page b : board_step b (evict page b)
| BMap h va pa flags b b' r : 0 ≤ va < 2 ^ 48 → frame_addr pa `mod` PAGE_SIZE = 0 → 0 ≤ frame_addr pa < 2 ^ 48 →
    kernel_call (cap_map h va pa flags) b = Some (b', r) → board_step b b'
| BUnmap h va b b' r : 0 ≤ va < 2 ^ 48 → kernel_call (cap_unmap h va) b = Some (b', r) → board_step b b'
| BCreate h rts b b' r : kernel_call (cap_create_address_space h rts) b = Some (b', r) → board_step b b'
| BActivate handle b p : activate_address_space (as_arena (mm b)) handle (cpu b) = Some p → board_step b {| mm := mm b; cpu := p |}.

(** An access in the low half: a cached translation is used, otherwise the tables are
    walked. *)
Definition access (va : VirtAddr) b : option (Z * MappingFlags) :=
  match tlb (cpu b) !! (va `div` PAGE_SIZE) with
  | Some (pa, flags) => Some (pa + va `mod` PAGE_SIZE, flags)
  | None => stage1 (regs (cpu b)) (physical (memory (mm b))) va
  end.
End board.
