(* ===== verification/ActivateProps.v ===== *)
(** * What the processor sees of an address space

The page walk of the hardware and the kernel's own agree; whatever the kernel maps,
unmaps, creates and activates, the TLB never holds a page the tables do not; and a
user program, once its address space is active, reaches its pages and no other. *)

From stdpp Require Import gmap.
From S2P Require Import Prelude.
From S2P Require Import Hal.
From S2P Require Import Arena.
From S2P Require Import Objects.
From S2P Require Import Caps.
From S2P Require Import CapTable.
From S2P Require Import CapTableInv.
From S2P Require Import CapTableOps.
From S2P Require Import CapSpec.
From S2P Require Import CapProps.
From S2P Require Import Ipc.
From S2P Require Import SyscallError.
From S2P Require Import UserAccess.
From S2P Require Import UserAccessOps.
From S2P Require Import Pmm.
From S2P Require Import PmmProps.
From S2P Require Import Vmsav8.
From S2P Require Import Words.
From S2P Require Import QemuMmu.
From S2P Require Import QemuMmuInv.
From S2P Require Import QemuMmuOps.
From S2P Require Import QemuMmuProps.
From S2P Require Import BootMmu.
From S2P Require Import BootMmuProps.
From S2P Require Import AddressSpace.
From S2P Require Import AddressSpaceProps.
From S2P Require Import UserProgram.
From S2P Require Import Boot.
From S2P Require Import BootSteps.
From S2P Require Import BootProps.
From S2P Require Import Activate.
Local Open Scope Z_scope.

(** ** The hardware's walk and the kernel's *)

Lemma physical_read m f i : read64 (physical m) (f + 8 * i) = QemuMmuInv.entry m f i.
Proof. apply (tentry_phys m f i). Qed.

(** A page the tables map is where the hardware finds it; an address they do not map
    faults.  Blocks, which the kernel does not translate, are the one exception. *)
Lemma hw_walk_xlate m rt T va : PT m rt T → xlate m rt va ≠ Err BlockMapped →
  hw_walk (physical m) rt va =
    match xlate m rt va with Ok (f, fl) => Some (frame_addr f + va `mod` PAGE_SIZE, fl) | Err _ => None end.
Proof.
  intros HP. unfold hw_walk, xlate, va_path. rewrite !physical_read. fold VA_L0_SHIFT VA_L1_SHIFT VA_L2_SHIFT VA_L3_SHIFT.
  pose proof (va_index_ok va VA_L0_SHIFT ltac:(done)) as I0. pose proof (va_index_ok va VA_L1_SHIFT ltac:(done)) as I1.
  pose proof (va_index_ok va VA_L2_SHIFT ltac:(done)) as I2. pose proof (va_index_ok va VA_L3_SHIFT ltac:(done)) as I3.
  set (i0 := va_index va VA_L0_SHIFT) in *. set (i1 := va_index va VA_L1_SHIFT) in *.
  set (i2 := va_index va VA_L2_SHIFT) in *. set (i3 := va_index va VA_L3_SHIFT) in *.
  rewrite xlate_path_cons. destruct (is_valid (entry m rt i0)) eqn:V0; [|done].
  destruct (is_table (entry m rt i0)) eqn:T0; [|done]. cbn [andb negb].
  pose proof (pt_next _ _ _ HP _ _ _ (pt_root _ _ _ HP) ltac:(cbn; lia) I0 V0 T0) as N1.
  set (t1 := Z.land (entry m rt i0) TABLE_NLA_MASK) in *. rewrite xlate_path_cons.
  destruct (is_valid (entry m t1 i1)) eqn:V1; [|done]. destruct (is_table (entry m t1 i1)) eqn:T1; [|done]. cbn [negb].
  pose proof (pt_next _ _ _ HP _ _ _ N1 ltac:(cbn; lia) I1 V1 T1) as N2.
  set (t2 := Z.land (entry m t1 i1) TABLE_NLA_MASK) in *. rewrite xlate_path_cons.
  destruct (is_valid (entry m t2 i2)) eqn:V2; [|done]. destruct (is_table (entry m t2 i2)) eqn:T2; [|done]. cbn [negb].
  pose proof (pt_next _ _ _ HP _ _ _ N2 ltac:(cbn; lia) I2 V2 T2) as N3.
  set (t3 := Z.land (entry m t2 i2) TABLE_NLA_MASK) in *. cbn [xlate_path]. unfold leaf_result.
  destruct (is_valid (entry m t3 i3)) eqn:V3; [|done].
  destruct (pt_leaf _ _ _ HP _ _ i3 N3 eq_refl I3 V3) as [T3 A3]. rewrite T3, A3. cbn [negb orb andb]. intros _.
  unfold hw_leaf. rewrite A3. done.
Qed.

(** ** The board's invariant *)

(** The address spaces of the arena: their roots and tables. *)
Notation Spaces := (AddressSpaceHandle → option (Z * gmap Z (list Z))).

Section board.
  Context `{Build} `{FrameProviderSpec F}.
  Implicit Types (s : MmState QemuVirtAddressSpace F) (R : Spaces) (b : Board F) (p : Processor).

Record spaces_ok s used R : Prop := {
  ss_mm : mm_ok s used;
  ss_some : ∀ hd rt T, R hd = Some (rt, T) → space_of s hd rt T used;
  ss_none : ∀ hd, R hd = None → get_address_space (as_arena s) hd = None;
  ss_apart : ∀ hd hd' rt T rt' T', hd ≠ hd' → R hd = Some (rt, T) → R hd' = Some (rt', T') → apart T T';
}.

(** The low half is off, or walks one of the address spaces. *)
Definition low_half (r : SysRegs) R : Prop :=
  tcr_el1 r = Z.lor TCR_EL1_VALUE_HIGH_HALF TCR_EL1_EPD0_BIT ∨
  tcr_el1 r = TCR_EL1_VALUE_HIGH_HALF ∧ ∃ hd T, R hd = Some (ttbr0_el1 r, T).

(** A cached page is one the tables have; blocks are never changed and not tracked. *)
Definition tlb_ok (m : Mem) p : Prop := ∀ k pa fl, tlb p !! k = Some (pa, fl) →
  0 ≤ k < 2 ^ 36 ∧ tcr_el1 (regs p) = TCR_EL1_VALUE_HIGH_HALF ∧
  (xlate m (ttbr0_el1 (regs p)) (k * PAGE_SIZE) = Err BlockMapped ∨
   xlate m (ttbr0_el1 (regs p)) (k * PAGE_SIZE) = Ok ({| frame_addr := pa |}, fl)).

Definition board_ok b : Prop := ∃ used R, spaces_ok (mm b) used R ∧ low_half (regs (cpu b)) R ∧ tlb_ok (memory (mm b)) (cpu b).

Lemma low_walk r R m va : low_half r R → 0 ≤ va < 2 ^ 48 →
  stage1 r m va = if decide (tcr_el1 r = TCR_EL1_VALUE_HIGH_HALF) then hw_walk m (ttbr0_el1 r) va else None.
Proof.
  intros [Ht|[Ht _]] Hva; unfold stage1; rewrite bool_decide_true, Ht by lia; case_decide; done.
Qed.

Lemma page_number va : 0 ≤ va < 2 ^ 48 → 0 ≤ va `div` PAGE_SIZE < 2 ^ 36 ∧ page_of (va `div` PAGE_SIZE * PAGE_SIZE) = page_of va.
Proof.
  intros Hva. unfold page_of, PAGE_SIZE. rewrite Z.div_mul by done. split; [|done].
  Z.to_euclidean_division_equations; lia.
Qed.

Lemma xlate_same_page m rt va va' : page_of va = page_of va' → xlate m rt va = xlate m rt va'.
Proof. intros Hp%va_path_page. unfold xlate. by rewrite Hp. Qed.

(** ** What one operation of the kernel does to every address space *)

Record op_effect s s' R R' : Prop := {
  oe_roots : ∀ hd rt T, R hd = Some (rt, T) → ∃ T', R' hd = Some (rt, T');
  oe_xlate : ∀ hd rt T va, R hd = Some (rt, T) → (∀ f, f ∈ flushed s' → page_of f ≠ page_of va) →
    xlate (memory s') rt va = xlate (memory s) rt va;
  oe_flushed : ∀ f, f ∈ flushed s' → 0 ≤ f < 2 ^ 48;
}.

Definition op_ok {A} (op : M (MmState QemuVirtAddressSpace F) AddressSpaceError A) : Prop :=
  ∀ s used R, spaces_ok s used R → flushed s = [] →
  wp op s (λ s' _, ∃ used' R', spaces_ok s' used' R' ∧ op_effect s s' R R').

Lemma effect_none s used R : spaces_ok s used R → flushed s = [] → ∃ used' R', spaces_ok s used' R' ∧ op_effect s s R R'.
Proof.
  intros Hs Hf. exists used, R. split; [done|]. split; [by eauto|done|]. rewrite Hf. by intros f ?%elem_of_nil.
Qed.

(** An operation on one address space, through a capability. *)
Lemma on_cap_ok {A} (h : CapHandle) (op : AddressSpaceHandle → M (MmState QemuVirtAddressSpace F) AddressSpaceError A) :
  (∀ s hd, get_address_space (as_arena s) hd = None → op hd s = Some (s, Err AsStaleHandle)) →
  (∀ s used R hd rt T, spaces_ok s used R → flushed s = [] → R hd = Some (rt, T) →
     resolve_address_space_cap (table s) h = Some (Ok hd) →
     wp (op hd) s (λ s' _, ∃ used' R', spaces_ok s' used' R' ∧ op_effect s s' R R')) →
  op_ok (let* hd := reads (λ s, resolve_address_space_cap (table s) h) in op hd).
Proof.
  intros Hstale Hop s used R Hs Hf. wp_bind.
  destruct (resolve_address_space_cap (table s) h) as [[hd|e]|] eqn:Hres.
  - eapply wp_reads; [exact Hres|]. cbn beta iota. destruct (R hd) as [[rt T]|] eqn:HR; [by eapply Hop|].
    red. rewrite (Hstale s hd (ss_none _ _ _ Hs hd HR)). by eapply effect_none.
  - eapply wp_reads; [exact Hres|]. by eapply effect_none.
  - exfalso. revert Hres. unfold resolve_address_space_cap. rewrite lookup_eq. destruct (named (table s) h) as [e|]; cbn; [|done].
    by destruct (object (capability e)).
Qed.

Definition with_space R (hd : AddressSpaceHandle) (x : Z * gmap Z (list Z)) : Spaces :=
  λ hd', if decide (hd' = hd) then Some x else R hd'.

Lemma apart_sym T1 T2 : apart T1 T2 → apart T2 T1.
Proof. unfold apart. set_solver. Qed.

(** A change confined to one address space keeps the family. *)
Lemma spaces_change s s' used R hd rt T T' : spaces_ok s used R → R hd = Some (rt, T) →
  mm_ok s' (used ∪ dom T') → space_of s' hd rt T' (used ∪ dom T') → (∀ t, t ∈ dom T' → t ∈ dom T ∨ t ∉ used) →
  (∀ hd', get_address_space (as_arena s') hd' = get_address_space (as_arena s) hd') →
  (∀ a, (∀ t, is_Some (T' !! t) → ¬ in_frame t a) → memory s' a = memory s a) →
  spaces_ok s' (used ∪ dom T') (with_space R hd (rt, T')) ∧
  ∀ hd' rt' Tb va, hd' ≠ hd → R hd' = Some (rt', Tb) → xlate (memory s') rt' va = xlate (memory s) rt' va.
Proof.
  intros Hs HR Hmm Hso Hnew Hget Hfr.
  assert (Hother : ∀ hd' rt' Tb, hd' ≠ hd → R hd' = Some (rt', Tb) →
    space_of s' hd' rt' Tb (used ∪ dom T') ∧ apart T' Tb ∧ ∀ va, xlate (memory s') rt' va = xlate (memory s) rt' va).
  { intros hd' rt' Tb Hne HR'. apply (other_space s s' hd' rt' Tb T T' used); try done.
    - by apply (ss_some _ _ _ Hs).
    - by apply (ss_apart _ _ _ Hs hd hd' rt T rt' Tb).
    - intros t [q Hq]. by apply (pt_table _ _ _ (sp_pt _ _ _ _ (so_space _ _ _ _ _ Hso)) t q).
    - apply Hmm. }
  split; [|intros hd' rt' Tb va Hne HR'; by apply (Hother hd' rt' Tb)]. unfold with_space. split; [done|..].
  - intros hd' rt' Tb. case_decide as Hd; [intros [= <- <-]; by rewrite Hd|]. intros HR'. by apply Hother.
  - intros hd'. case_decide; [done|]. intros HR'. rewrite Hget. by apply (ss_none _ _ _ Hs).
  - intros h1 h2 r1 T1 r2 T2 Hne. do 2 case_decide; subst; try done.
    + intros [= <- <-] HR'. by apply (Hother h2 r2 T2).
    + intros HR' [= <- <-]. apply apart_sym. by apply (Hother h1 r1 T1).
    + by apply (ss_apart _ _ _ Hs).
Qed.

Lemma cap_map_ok h va pa flags : 0 ≤ va < 2 ^ 48 → frame_addr pa `mod` PAGE_SIZE = 0 → 0 ≤ frame_addr pa < 2 ^ 48 →
  op_ok (cap_map (F := F) h va pa flags).
Proof.
  intros Hva Hpal Hpar. unfold cap_map. apply (on_cap_ok h (λ hd, let* token := on_space hd MmuMapError (mmu_map F va pa flags) in flush token)).
  { intros s hd Hn. unfold bind, on_space. by rewrite Hn. }
  intros s used R hd rt T Hs Hf HR Hres. pose proof (ss_some _ _ _ Hs _ _ _ HR) as Hso.
  pose proof (cap_map_wp s used h hd rt T va pa flags (ss_mm _ _ _ Hs) Hso Hres Hpal Hpar) as Hw.
  unfold cap_map in Hw. apply wp_run in Hw as (s' & r & Hrun & T' & Hmm & Hso' & Hsub & Htab & Hget & Hfr & Hac & Hr).
  unfold bind at 1, reads at 1 in Hrun. rewrite Hres in Hrun. apply wp_run. exists s', r. split; [exact Hrun|].
  destruct (spaces_change s s' used R hd rt T T' Hs HR Hmm Hso' (ac_fresh _ _ _ _ _ _ Hac) Hget Hfr) as [Hs' Hother].
  exists (used ∪ dom T'), (with_space R hd (rt, T')). split; [done|]. split.
  - intros hd' rt' Tb HR'. unfold with_space. case_decide; [|by eexists]. subst. rewrite HR in HR'. injection HR' as <- <-. by eexists.
  - intros hd' rt' Tb va' HR' Hfl. destruct (decide (hd' = hd)) as [->|Hne]; [|by eapply Hother].
    rewrite HR in HR'. injection HR' as <- <-. destruct r as [u|e].
    + destruct Hr as (Hfl' & _ & _ & _ & Hx). apply Hx. intros Hp. apply (Hfl va); [rewrite Hfl'; by left|done].
    + by destruct Hr as (_ & Hx & _).
  - destruct r as [u|e].
    + destruct Hr as (-> & _). rewrite Hf. by intros f ->%list_elem_of_singleton.
    + destruct Hr as (-> & _). rewrite Hf. by intros f ?%elem_of_nil.
Qed.

Lemma cap_unmap_ok h va : 0 ≤ va < 2 ^ 48 → op_ok (cap_unmap (F := F) h va).
Proof.
  intros Hva. unfold cap_unmap.
  apply (on_cap_ok h (λ hd, let* r := on_space hd MmuUnmapError
    (zoom (λ x, (x.1, mem x.2)) (λ y x, (y.1, {| frames := frames x.2; mem := y.2 |})) (mmu_unmap va)) in let* _ := flush r.1 in ret r.2)).
  { intros s hd Hn. unfold bind, on_space. by rewrite Hn. }
  intros s used R hd rt T Hs Hf HR Hres. pose proof (ss_some _ _ _ Hs _ _ _ HR) as Hso.
  pose proof (cap_unmap_wp s used h hd rt T va (ss_mm _ _ _ Hs) Hso Hres) as Hw.
  unfold cap_unmap in Hw. apply wp_run in Hw as (s' & r & Hrun & Hmm & Hso' & Htab & Hprov & Hget & Hfr & Hr).
  unfold bind at 1, reads at 1 in Hrun. rewrite Hres in Hrun. apply wp_run. exists s', r. split; [exact Hrun|].
  assert (Hu : used ∪ dom T = used). { pose proof (sp_dom _ _ _ _ (so_space _ _ _ _ _ Hso)). set_solver. }
  destruct (spaces_change s s' used R hd rt T T Hs HR) as [Hs' Hother]; [by rewrite Hu|by rewrite Hu|by left|done|done|].
  rewrite Hu in Hs'. exists used, (with_space R hd (rt, T)). split; [done|]. split.
  - intros hd' rt' Tb HR'. unfold with_space. case_decide; [|by eexists]. subst. rewrite HR in HR'. injection HR' as <- <-. by eexists.
  - intros hd' rt' Tb va' HR' Hfl. destruct (decide (hd' = hd)) as [->|Hne]; [|by eapply Hother].
    rewrite HR in HR'. injection HR' as <- <-. destruct r as [u|e].
    + destruct Hr as (Hfl' & _ & _ & Hx). apply Hx. intros Hp. apply (Hfl va); [rewrite Hfl'; by left|done].
    + by destruct Hr as (_ & -> & _).
  - destruct r as [u|e].
    + destruct Hr as (-> & _). rewrite Hf. by intros f ->%list_elem_of_singleton.
    + destruct Hr as (-> & _). rewrite Hf. by intros f ?%elem_of_nil.
Qed.

Lemma created_xlate s s' used parent nr h hd rt hb rb Tb va : mm_ok s used → created s s' used parent nr h hd rt →
  space_of s hb rb Tb used → xlate (memory s') rb va = xlate (memory s) rb va.
Proof.
  intros Hok Hc [_ Hs]. pose proof (sp_pt _ _ _ _ Hs) as HP. pose proof (sp_dom _ _ _ _ Hs) as Hd. cbn [mem] in HP.
  pose proof (fp_law _ _ (memory s) (mo_frames _ _ Hok)) as Hlaw. rewrite (cr_frame _ _ _ _ _ _ _ _ Hc) in Hlaw.
  destruct Hlaw as (_ & _ & Hnu & Hrt & Hm). apply (PT_ext (memory s) (memory s') rb Tb HP).
  intros a t Ht Ha. rewrite Hm, decide_False; [done|]. intros Hin.
  pose proof Ht as [q Hq]. destruct (pt_table _ _ _ HP _ _ Hq) as [Htok _].
  apply (frames_disjoint (frame_addr rt) t a Hrt Htok); [|done|done]. intros <-. apply Hnu, Hd. by apply elem_of_dom.
Qed.

Lemma cap_create_ok h rts : op_ok (cap_create_address_space (F := F) h rts).
Proof.
  intros s used R Hs Hf. pose proof (ss_mm _ _ _ Hs) as Hmm. eapply wp_mono; [by apply (cap_create_wp s used h rts)|].
  intros s' [h'|e]; [|intros [-> _]; by eapply effect_none]. intros (hd & rt & Hc).
  destruct (created_space s s' used h rts h' hd rt Hmm Hc) as (Hso & _ & _).
  assert (HR : R hd = None).
  { destruct (R hd) as [[rt0 T0]|] eqn:HR; [|done]. pose proof (so_arena _ _ _ _ _ (ss_some _ _ _ Hs _ _ _ HR)) as Hg.
    by rewrite (cr_fresh _ _ _ _ _ _ _ _ Hc) in Hg. }
  exists ({[frame_addr rt]} ∪ used), (with_space R hd (frame_addr rt, {[frame_addr rt := []]})). split.
  - unfold with_space. split; [apply Hc|..].
    + intros hd' rt' Tb. case_decide as Hd; [intros [= <- <-]; by rewrite Hd|]. intros HR'.
      by apply (created_other s s' used h rts h' hd rt hd' rt' Tb Hmm Hc (ss_some _ _ _ Hs _ _ _ HR')).
    + intros hd'. case_decide as Hd; [done|]. intros HR'. rewrite (cr_others _ _ _ _ _ _ _ _ Hc) by done. by apply (ss_none _ _ _ Hs).
    + intros h1 h2 r1 T1 r2 T2 Hne. do 2 case_decide; subst; try done.
      * intros [= <- <-] HR'. by apply (created_other s s' used h rts h' hd rt h2 r2 T2 Hmm Hc (ss_some _ _ _ Hs _ _ _ HR')).
      * intros HR' [= <- <-]. apply apart_sym. by apply (created_other s s' used h rts h' hd rt h1 r1 T1 Hmm Hc (ss_some _ _ _ Hs _ _ _ HR')).
      * by apply (ss_apart _ _ _ Hs).
  - pose proof (cr_flushed _ _ _ _ _ _ _ _ Hc) as Hfl. split.
    + intros hd' rt' Tb HR'. unfold with_space. case_decide; [congruence|]. by eexists.
    + intros hd' rt' Tb va HR' _. by apply (created_xlate s s' used h rts h' hd rt hd' rt' Tb va Hmm Hc (ss_some _ _ _ Hs _ _ _ HR')).
    + rewrite Hfl, Hf. by intros f ?%elem_of_nil.
Qed.

(** ** The TLB *)

Lemma invalidated fl p k x : (∀ f, f ∈ fl → 0 ≤ f < 2 ^ 48) → 
  tlb (foldr invalidate_tlb_address p fl) !! k = Some x → tlb p !! k = Some x ∧ ∀ f, f ∈ fl → f `div` PAGE_SIZE ≠ k.
Proof.
  induction fl as [|f fl IH]; intros Hfl; cbn [foldr]; [split; [done|by intros ? ?%elem_of_nil]|].
  cbn [invalidate_tlb_address tlb]. rewrite lookup_delete_Some. intros [Hk Hx].
  destruct IH as [Hp Hother]; [intros g Hg; apply Hfl; by right|done|]. split; [done|].
  intros g [->|Hg]%elem_of_cons; [|by apply Hother]. intros Hd. apply Hk. rewrite <- Hd.
  pose proof (Hfl f ltac:(by left)) as Hr. rewrite Z.shiftr_div_pow2 by done. change 0x0000FFFFFFFFFFFF with (Z.ones 48).
  rewrite !Z.land_ones by done. change PAGE_SIZE with (2 ^ 12).
  destruct (page_number f Hr) as [Hn _]. change PAGE_SIZE with (2 ^ 12) in Hn.
  rewrite !Z.mod_small by (rewrite ?Z.mod_small; lia). done.
Qed.

Lemma invalidated_regs fl p : regs (foldr invalidate_tlb_address p fl) = regs p.
Proof. by induction fl. Qed.

Lemma kernel_call_ok {A} (op : M (MmState QemuVirtAddressSpace F) AddressSpaceError A) b b' r : op_ok op → board_ok b →
  kernel_call op b = Some (b', r) → board_ok b'.
Proof.
  intros Hop (used & R & Hs & Hlow & Htlb). unfold kernel_call.
  set (s0 := {| table := table (mm b); as_arena := as_arena (mm b); provider := provider (mm b); memory := memory (mm b); flushed := [] |}).
  assert (Hs0 : spaces_ok s0 used R).
  { destruct Hs as [[] Hsome Hnone Hap]. split; [by split| |done|done]. intros hd rt T HR. destruct (Hsome hd rt T HR). by split. }
  destruct (proj1 (wp_run _ _ _) (Hop s0 used R Hs0 eq_refl)) as (s' & r' & -> & used' & R' & Hs' & [Hr Hx Hfl]).
  intros [= <- _]. exists used', R'. cbn [mm cpu]. split; [done|]. rewrite invalidated_regs. split.
  - destruct Hlow as [Hl|(Hl & hd & T & HR)]; [by left|right]. split; [done|].
    destruct (Hr hd _ T HR) as [T' HR']. by exists hd, T'.
  - intros k pa fl Hk. rewrite invalidated_regs. apply invalidated in Hk as [Hk Hno]; [|done].
    destruct (Htlb k pa fl Hk) as (Hkr & Ht & Hcase). do 2 (split; [done|]).
    destruct Hlow as [Hl|(_ & hd & T & HR)]; [by rewrite Hl in Ht|]. rewrite (Hx hd _ T); [exact Hcase|done|].
    intros f Hf Hp. apply (Hno f Hf). pose proof (Hfl f Hf) as Hfr. clear -Hp Hfr Hkr. unfold page_of, PAGE_SIZE in *.
    rewrite Z.div_mul, !Z.mod_small in Hp by (done || Z.to_euclidean_division_equations; lia). done.
Qed.

Lemma fill_ok va b : 0 ≤ va < 2 ^ 48 → board_ok b → board_ok (fill va b).
Proof.
  intros Hva (used & R & Hs & Hlow & Htlb). unfold fill. rewrite (low_walk _ R) by done.
  case_decide as Ht; [|by exists used, R]. destruct (hw_walk _ _ va) as [[pa fl]|] eqn:Hw; [|by exists used, R].
  exists used, R. do 2 (split; [done|]). cbn [mm cpu]. intros k pa' fl'. cbn [tlb regs].
  destruct (page_number va Hva) as [Hk Hp].
  intros [[<- [= <- <-]]|[_ Hk']]%lookup_insert_Some; [|by apply Htlb]. do 2 (split; [done|]).
  rewrite (xlate_same_page _ _ _ va) by done.
  destruct Hlow as [Hl|(_ & hd & T & HR)]; [by rewrite Hl in Ht|].
  destruct (decide (xlate (memory (mm b)) (ttbr0_el1 (regs (cpu b))) va = Err BlockMapped)) as [|Hnb]; [by left|right].
  rewrite (hw_walk_xlate _ _ T) in Hw; [|apply (ss_some _ _ _ Hs _ _ _ HR)|done].
  destruct (xlate _ _ va) as [[[f] fl0]|]; [|done]. injection Hw as <- <-. cbn [frame_addr]. do 3 f_equal. lia.
Qed.

Lemma activate_ok handle b p : board_ok b → activate_address_space (as_arena (mm b)) handle (cpu b) = Some p →
  board_ok {| mm := mm b; cpu := p |}.
Proof.
  intros Hb. unfold activate_address_space, activate_address_space_handle.
  destruct (get_address_space (as_arena (mm b)) handle) as [as_|] eqn:Hg.
  2:{ unfold pbind, pdebug_assert. destruct debug_assertions; cbn; [done|]. intros [= <-]. by destruct b. }
  cbn. intros [= <-]. destruct Hb as (used & R & Hs & Hlow & _). exists used, R. split; [done|]. split.
  - right. split.
    + unfold activate. cbn [cpu regs invalidate_tlb_all tcr_el1]. destruct Hlow as [->|[-> _]]; by vm_compute.
    + destruct (R handle) as [[rt T]|] eqn:HR; [|by rewrite (ss_none _ _ _ Hs handle HR) in Hg].
      exists handle, T. rewrite (so_arena _ _ _ _ _ (ss_some _ _ _ Hs _ _ _ HR)) in Hg. injection Hg as <-. exact HR.
  - intros k pa fl. cbn [cpu activate invalidate_tlb_all tlb]. by rewrite lookup_empty.
Qed.

Lemma board_step_ok b b' : board_ok b → board_step b b' → board_ok b'.
Proof.
  intros Hb Hst. destruct Hst as [va b Hva|page b|h va pa flags b b' r Hva Hpal Hpar Hrun|h va b b' r Hva Hrun|h rts b b' r Hrun|handle b p Hp].
  - by apply fill_ok.
  - destruct Hb as (used & R & Hs & Hlow & Htlb). exists used, R. do 2 (split; [done|]). intros k pa fl. cbn [evict cpu tlb regs mm].
    intros [_ Hk]%lookup_delete_Some. by apply Htlb.
  - by apply (kernel_call_ok (cap_map h va pa flags) b b' r); [apply cap_map_ok|..].
  - by apply (kernel_call_ok (cap_unmap h va) b b' r); [apply cap_unmap_ok|..].
  - by apply (kernel_call_ok (cap_create_address_space h rts) b b' r); [apply cap_create_ok|..].
  - by eapply activate_ok.
Qed.
(** C18: the TLB is never stale.  Start from any board in order - the address spaces well
    formed and apart, the low half off or walking one of them, and nothing cached that
    its tables do not have - and let the processor cache and evict translations and the
    kernel create, map, unmap and activate, in any order, through any capabilities, with
    addresses below 2^48.  Then at every address that is not part of a block the
    processor, cache or no cache, gets what the hardware's walk of the tables gives now;
    and while the low half is on that is what the kernel's own [translate] answers, byte
    for byte, and a fault where it answers an error.  The board is still in order. *)
Theorem tlb_is_never_stale b0 b va : board_ok b0 → rtc board_step b0 b → 0 ≤ va < 2 ^ 48 →
  let m := memory (mm b) in let r := regs (cpu b) in
  board_ok b ∧
  (UserAccess.translate m (space_at (ttbr0_el1 r)) va ≠ Err BlockMapped →
   access va b = stage1 r (physical m) va ∧
   (half_enabled (tcr_el1 r) 0 7 14 0 = true →
    access va b = match UserAccess.translate m (space_at (ttbr0_el1 r)) va with
                  | Ok (f, fl) => Some (frame_addr f + va `mod` PAGE_SIZE, fl)
                  | Err _ => None
                  end)).
Proof.
  intros Hb0 Hsteps Hva m r.
  assert (Hb : board_ok b) by (induction Hsteps; eauto using board_step_ok).
  split; [done|]. destruct Hb as (used & R & Hs & Hlow & Htlb). fold m r in Htlb, Hlow. intros Hnb.
  destruct (page_number va Hva) as [Hk Hp]. unfold access. fold m r. rewrite (low_walk r R) by done.
  destruct Hlow as [Hl|(Hl & hd & T & HR)].
  { assert (Hnone : tlb (cpu b) !! (va `div` PAGE_SIZE) = None).
    { destruct (tlb (cpu b) !! _) as [[pa fl]|] eqn:Hx; [|done]. destruct (Htlb _ _ _ Hx) as (_ & Ht & _). fold r in Ht. by rewrite Hl in Ht. }
    rewrite Hnone, Hl. by rewrite decide_False. }
  rewrite Hl, decide_True by done. pose proof (sp_pt _ _ _ _ (so_space _ _ _ _ _ (ss_some _ _ _ Hs _ _ _ HR))) as HP.
  cbn [mem] in HP. fold m in HP.
  assert (Htr : UserAccess.translate m (space_at (ttbr0_el1 r)) va = xlate m (ttbr0_el1 r) va).
  { cbn. unfold space_at, create_address_space. by rewrite (translate_xlate m _ T va HP). }
  rewrite Htr in Hnb |- *. rewrite (hw_walk_xlate m _ T va HP Hnb).
  assert (Hacc : (match tlb (cpu b) !! (va `div` PAGE_SIZE) with Some (pa, flags) => Some (pa + va `mod` PAGE_SIZE, flags) | None =>
    match xlate m (ttbr0_el1 r) va with Ok (f, fl) => Some (frame_addr f + va `mod` PAGE_SIZE, fl) | Err _ => None end end) =
    match xlate m (ttbr0_el1 r) va with Ok (f, fl) => Some (frame_addr f + va `mod` PAGE_SIZE, fl) | Err _ => None end).
  { destruct (tlb (cpu b) !! _) as [[pa fl]|] eqn:Hx; [|done]. destruct (Htlb _ _ _ Hx) as (_ & _ & Hc). fold m r in Hc.
    rewrite (xlate_same_page _ _ _ va Hp) in Hc. destruct Hc as [Hc|Hc]; [by rewrite Hc in Hnb|]. by rewrite Hc. }
  rewrite Hacc. done.
Qed.
End board.

(** ** A run: create, map, activate, touch, unmap *)

#[local] Existing Instance debug_build.

Definition sample_board : Board Pmm :=
  {| mm := sample_mm; cpu := {| regs := {| mair_el1 := MAIR_EL1_VALUE; tcr_el1 := Z.lor TCR_EL1_VALUE_HIGH_HALF TCR_EL1_EPD0_BIT;
       ttbr0_el1 := 0; ttbr1_el1 := 0x400A4000; sctlr_el1 := 0 |}; tlb := ∅ |} |}.

Lemma sample_board_ok : board_ok sample_board.
Proof.
  exists ∅, (λ _, None). split; [|split; [by left|intros k pa fl; cbn [sample_board cpu tlb]; by rewrite lookup_empty]].
  split; [exact sample_mm_ok|done| |done]. intros [id] _. apply arena_new_get.
Qed.

Definition after_call {A} (op : M (MmState QemuVirtAddressSpace Pmm) AddressSpaceError A) (b : Board Pmm) : Board Pmm :=
  match kernel_call op b with Some (b', _) => b' | None => b end.

Definition sample_space_cap : CapHandle := {| ch_index := 1; ch_generation := 0 |}.
Definition sample_rights : CapRights := Caps.union SEND RECV.
Definition board1 := after_call (cap_create_address_space sample_parent sample_rights) sample_board.
Definition board2 := after_call (cap_map sample_space_cap sample_va sample_page sample_flags) board1.
Definition board3 : Board Pmm :=
  {| mm := mm board2; cpu := default (cpu board2) (activate_address_space (as_arena (mm board2)) BOOTSTRAP_ADDRESS_SPACE_HANDLE (cpu board2)) |}.
Definition board4 := fill (sample_va + 8) board3.
Definition board5 := after_call (cap_unmap sample_space_cap sample_va) board4.

Lemma after_call_eq {A} (op : M (MmState QemuVirtAddressSpace Pmm) AddressSpaceError A) b r :
  snd <$> kernel_call op b = Some r → kernel_call op b = Some (after_call op b, r).
Proof. apply run_result. Qed.

Lemma sample_steps : rtc board_step sample_board board4 ∧ board_step board4 board5.
Proof.
  assert (S1 : board_step sample_board board1).
  { unfold board1. eapply BCreate. apply after_call_eq. vm_compute. reflexivity. }
  assert (S2 : board_step board1 board2).
  { unfold board2. eapply (BMap sample_space_cap sample_va sample_page sample_flags);
      [by split|apply (proj1 sample_page_ok)|apply (proj2 sample_page_ok)|]. apply after_call_eq. vm_compute. reflexivity. }
  assert (S3 : board_step board2 board3).
  { apply (BActivate BOOTSTRAP_ADDRESS_SPACE_HANDLE).
    unfold board3. cbn [cpu]. destruct (activate_address_space _ _ _) as [p|] eqn:Hp; [done|].
    exfalso. apply (f_equal (λ o, bool_decide (is_Some (tcr_el1 ∘ regs <$> o)))) in Hp. vm_compute in Hp. done. }
  assert (S4 : board_step board3 board4) by (apply BFill; by split).
  split; [eapply rtc_l; [exact S1|eapply rtc_l; [exact S2|eapply rtc_l; [exact S3|by apply rtc_once]]]|].
  unfold board5. eapply (BUnmap sample_space_cap sample_va); [by split|]. apply after_call_eq. vm_compute. reflexivity.
Qed.

(** The touched page is in the TLB; after the unmap the access faults. *)
Lemma tlb_is_never_stale_witness :
  rtc board_step sample_board board5 ∧
  (∃ k, tlb (cpu board4) !! k = Some (frame_addr sample_page, sample_flags)) ∧
  access (sample_va + 8) board4 = Some (frame_addr sample_page + 8, sample_flags) ∧
  access (sample_va + 8) board5 = None.
Proof.
  destruct sample_steps as [S4 S5]. pose proof (rtc_r _ _ _ S4 S5) as S.
  split; [exact S|]. split; [exists (sample_va `div` PAGE_SIZE); vm_compute; reflexivity|].
  split.
  - destruct (tlb_is_never_stale sample_board board4 (sample_va + 8) sample_board_ok S4) as (_ & Hacc); [by split|].
    destruct Hacc as [_ Hacc]; [vm_compute; discriminate|]. rewrite Hacc by (vm_compute; reflexivity). vm_compute. reflexivity.
  - destruct (tlb_is_never_stale sample_board board5 (sample_va + 8) sample_board_ok S) as (_ & Hacc); [by split|].
    destruct Hacc as [_ Hacc]; [vm_compute; discriminate|]. rewrite Hacc by (vm_compute; reflexivity). vm_compute. reflexivity.
Defined.
