(* ===== verification/UserReach.v ===== *)
(** * What the user task reaches

The boot, the scheduler's hook and the processor's walk together: with its address
space active, code at EL0 reaches the pages of its program and nothing else. *)

From stdpp Require Import gmap.
From S2P Require Import Prelude.
From S2P Require Import Hal.
From S2P Require Import Arena.
From S2P Require Import Objects.
From S2P Require Import Caps.
From S2P Require Import CapTable.
From S2P Require Import CapTableInv.
From S2P Require Import CapTableOps.
From S2P Require Import CapSpec.
From S2P Require Import CapProps.
From S2P Require Import Ipc.
From S2P Require Import SyscallError.
From S2P Require Import UserAccess.
From S2P Require Import UserAccessOps.
From S2P Require Import IpcSpec.
From S2P Require Import Pmm.
From S2P Require Import PmmInv.
From S2P Require Import PmmNew.
From S2P Require Import PmmProps.
From S2P Require Import Vmsav8.
From S2P Require Import Words.
From S2P Require Import QemuMmu.
From S2P Require Import QemuMmuInv.
From S2P Require Import QemuMmuOps.
From S2P Require Import QemuMmuProps.
From S2P Require Import BootMmu.
From S2P Require Import BootMmuProps.
From S2P Require Import AddressSpace.
From S2P Require Import AddressSpaceProps.
From S2P Require Import TaskLoader.
From S2P Require Import TaskTables.
From S2P Require Import TaskLoaderInv.
From S2P Require Import TaskLoaderProps.
From S2P Require Import UserProgram.
From S2P Require Import Timer.
From S2P Require Import Gic.
From S2P Require Import GicProps.
From S2P Require Import Sched.
From S2P Require Import SchedInv.
From S2P Require Import SchedOps.
From S2P Require Import SchedRun.
From S2P Require Import SchedProps.
From S2P Require Import SyscallEntry.
From S2P Require Import SyscallEntryProps.
From S2P Require Import Boot.
From S2P Require Import BootSteps.
From S2P Require Import BootProps.
From S2P Require Import Activate.
From S2P Require Import ActivateProps.
Local Open Scope Z_scope.

(** The processor as the boot leaves it: it has just forgotten every translation. *)
Definition booted_processor (s : BootState) : Processor := {| regs := sys s; tlb := ∅ |}.

(** ** The window of the kernel, in the memory the kernel leaves *)

Section window.
  Context (t : BootTables) (m0 m m' : Mem) (Hl : linked t m0).
  Context (Hb : BootMmuProps.blocks t m) (Hu : upper t m (boot_pt_l0_hh t) (boot_pt_l1_hh t) 511 508).
  Context (Hm : ∀ f a, f ∈ table_frames t → f ≤ a < f + PAGE_SIZE → physical m' a = m a).

Lemma kept_entry f i : f ∈ table_frames t → index_ok i → tentry (physical m') f i = tentry m f i.
Proof. intros Hf Hi. apply read64_ext. intros b Hbb. apply (Hm f); [done|]. unfold index_ok, PAGE_SIZE in *. lia. Qed.

Lemma kept_window r va : tcr_el1 r = TCR_EL1_VALUE_HIGH_HALF → ttbr1_el1 r = boot_pt_l0_hh t → is_u64 va → 2 ^ 48 ≤ va →
  stage1 r (physical m') va = window_at KERNEL_HIGH_HALF_OFFSET va.
Proof.
  intros Ht Hr [Hva1 Hva2] Hva. rewrite stage1_high, Ht, Hr by done. change (half_enabled _ _ _ _ _) with true.
  rewrite andb_true_r, <- window_high by lia. case_bool_decide; [|done].
  assert (Hb' : BootMmuProps.blocks t (physical m')).
  { destruct Hb as [B1 B2]. split; intros i Hi; rewrite kept_entry by (done || in_frames); auto. }
  assert (Hu' : upper t (physical m') (boot_pt_l0_hh t) (boot_pt_l1_hh t) 511 508).
  { destruct Hu as [U1 U2]. split; intros i Hi; rewrite kept_entry by (done || in_frames); auto. }
  apply (hw_walk_window t m0 (physical m') (boot_pt_l0_hh t) (boot_pt_l1_hh t) 511 508 va Hl ltac:(in_frames) ltac:(in_frames) Hb' Hu'); by split.
Qed.
End window.

(** ** The program's pages *)

(** Every address of the low half: its page of the program, or a fault. *)
Lemma program_walk `{Build} m a base ip (L : list Z) rt T va : layout m a base ip L → a = space_at rt → PT m rt T → 0 ≤ va < 2 ^ 48 →
  hw_walk (physical m) rt va =
    match L !! Z.to_nat ((va - base) `div` PAGE_SIZE) with
    | Some f => if decide (base ≤ va) then Some (f + va `mod` PAGE_SIZE, page_flags ip (Z.to_nat ((va - base) `div` PAGE_SIZE))) else None
    | None => None
    end.
Proof.
  intros Hly -> HP Hva.
  assert (Htr : UserAccess.translate m (space_at rt) (page_base_of va) = xlate m rt va).
  { cbn. unfold space_at, create_address_space. rewrite (translate_xlate m _ T _ HP). apply xlate_same_page.
    destruct (page_base_props va) as (Hmod & Hb & Hb0); [lia|]. unfold page_of, PAGE_SIZE in *. f_equal. Z.to_euclidean_division_equations; lia. }
  destruct (decide (in_span base L va)) as [Hin|Hout].
  - destruct (span_translate m _ base ip L Hly va Hin) as (j & f & Hj & Hx & _ & Hk & _). rewrite Htr in Hx.
    rewrite (hw_walk_xlate m rt T va HP) by (by rewrite Hx). rewrite Hx. cbn [frame_addr].
    assert (Z.to_nat ((va - base) `div` PAGE_SIZE) = j) as ->.
    { unfold page_va, PAGE_SIZE in *. Z.to_euclidean_division_equations; lia. }
    assert (Hj' : L !! j = Some (f : Z)) by exact Hj. rewrite Hj', decide_True by apply Hin. done.
  - pose proof (outside_translate m _ base ip L Hly va Hva Hout) as Hx. rewrite Htr in Hx.
    rewrite (hw_walk_xlate m rt T va HP) by (by rewrite Hx). rewrite Hx.
    destruct (L !! _) as [f|] eqn:Hj; [|done]. rewrite decide_False; [done|]. intros Hbase. apply Hout. split; [done|].
    apply lookup_lt_Some in Hj. unfold PAGE_SIZE in *. Z.to_euclidean_division_equations; lia.
Qed.

(** The flags of a program's page: the image is executable, the stack writable. *)
Lemma page_flags_cases ip j : flags_contains (page_flags ip j) USER = true ∧
  flags_contains (page_flags ip j) WRITE = negb (bool_decide (j < ip)%nat) ∧
  flags_contains (page_flags ip j) EXECUTE = bool_decide (j < ip)%nat.
Proof. unfold page_flags. case_decide; [rewrite bool_decide_true by done|rewrite bool_decide_false by done]; done. Qed.

(** What EL0 sees: [sees] on the whole 64-bit space, for a program of [L]'s frames. *)
Record reaches (img : Image) (L : list Z) (sees : Z → option (Z * MappingFlags)) : Prop := {
  re_program : ∀ j f k, L !! j = Some f → 0 ≤ k < PAGE_SIZE → sees (page_va USERSPACE_IMAGE_BASE_VA j + k) =
    Some (f + k, page_flags (Z.to_nat (image_page_count (USERSPACE_IMAGE img))) j);
  re_fault : ∀ va, 0 ≤ va < 2 ^ 48 → ¬ in_span USERSPACE_IMAGE_BASE_VA L va → sees va = None;
  re_window : ∀ va, 2 ^ 48 ≤ va ≤ U64_MAX → sees va = window_at KERNEL_HIGH_HALF_OFFSET va;
  re_user : ∀ va pa fl, is_u64 va → sees va = Some (pa, fl) → flags_contains fl USER = true →
    in_span USERSPACE_IMAGE_BASE_VA L va ∧ ¬ (PMM_EXTENT_START ≤ pa < page_up (stack_top img)) ∧
    (flags_contains fl WRITE = true ↔ USERSPACE_IMAGE_BASE_VA + image_page_count (USERSPACE_IMAGE img) * PAGE_SIZE ≤ va) ∧
    (flags_contains fl EXECUTE = true ↔ va < USERSPACE_IMAGE_BASE_VA + image_page_count (USERSPACE_IMAGE img) * PAGE_SIZE);
}.

Section reach.
  Context (img : Image) (L : list Z) (sees : Z → option (Z * MappingFlags)).
Let ip := Z.to_nat (image_page_count (USERSPACE_IMAGE img)).
  Context (Hpages : 0 ≤ image_page_count (USERSPACE_IMAGE img)).
  Context (Hlow : ∀ va, 0 ≤ va < 2 ^ 48 → sees va =
    match L !! Z.to_nat ((va - USERSPACE_IMAGE_BASE_VA) `div` PAGE_SIZE) with
    | Some f => if decide (USERSPACE_IMAGE_BASE_VA ≤ va)
                then Some (f + va `mod` PAGE_SIZE, page_flags ip (Z.to_nat ((va - USERSPACE_IMAGE_BASE_VA) `div` PAGE_SIZE))) else None
    | None => None
    end).
  Context (Hhigh : ∀ va, 2 ^ 48 ≤ va ≤ U64_MAX → sees va = window_at KERNEL_HIGH_HALF_OFFSET va).
  Context (Hlim : USERSPACE_IMAGE_BASE_VA + Z.of_nat (length L) * PAGE_SIZE ≤ 2 ^ 48).
  Context (Hok : ∀ f, f ∈ L → table_ok f) (Hout : ∀ f, f ∈ L → ¬ (PMM_EXTENT_START ≤ f < page_up (stack_top img))).

Lemma low_page va : 0 ≤ va < 2 ^ 48 → ∀ x, sees va = Some x → ∃ j f, L !! j = Some f ∧
  page_va USERSPACE_IMAGE_BASE_VA j ≤ va < page_va USERSPACE_IMAGE_BASE_VA j + PAGE_SIZE ∧
  x = (f + va `mod` PAGE_SIZE, page_flags ip j).
Proof.
  intros Hva x. rewrite Hlow by done. destruct (L !! _) as [f|] eqn:Hj; [|done]. case_decide as Hb; [|done]. intros [= <-].
  eexists _, f. split; [exact Hj|]. split; [|done]. unfold page_va, USERSPACE_IMAGE_BASE_VA, PAGE_SIZE in *.
  rewrite Z2Nat.id by (apply Z.div_pos; lia). Z.to_euclidean_division_equations; lia.
Qed.

Lemma reaches_ok : reaches img L sees.
Proof.
  split.
  - intros j f k Hj Hk. pose proof (lookup_lt_Some _ _ _ Hj) as Hlt. unfold page_va.
    rewrite Hlow by (unfold USERSPACE_IMAGE_BASE_VA, PAGE_SIZE in *; lia).
    replace (Z.to_nat _) with j by (unfold PAGE_SIZE in *; Z.to_euclidean_division_equations; lia).
    rewrite Hj, decide_True by (unfold PAGE_SIZE; lia).
    assert ((USERSPACE_IMAGE_BASE_VA + Z.of_nat j * PAGE_SIZE + k) `mod` PAGE_SIZE = k) as ->; [|done].
    change USERSPACE_IMAGE_BASE_VA with (0x800 * PAGE_SIZE). rewrite <- Z.mul_add_distr_r, Z.add_comm, Z.mod_add by done.
    by apply Z.mod_small.
  - intros va Hva Hno. destruct (sees va) as [x|] eqn:Hx; [|done]. exfalso. apply Hno.
    destruct (low_page va Hva x Hx) as (j & f & Hj & Hr & _). apply lookup_lt_Some in Hj.
    unfold in_span, page_va, PAGE_SIZE in *. lia.
  - exact Hhigh.
  - intros va pa fl [Hva1 Hva2] Hs Hu. destruct (decide (va < 2 ^ 48)) as [Hva|Hva].
    2:{ exfalso. rewrite Hhigh in Hs by (unfold U64_MAX in *; lia). unfold window_at in Hs. destruct (boot_window _) as [g|] eqn:Hw; [|done].
        cbn in Hs. injection Hs as <- <-. apply boot_window_range in Hw as [_ Hw]. congruence. }
    destruct (low_page va ltac:(lia) _ Hs) as (j & f & Hj & Hr & [= -> ->]).
    destruct (page_flags_cases ip j) as (_ & -> & ->). rewrite negb_true_iff, bool_decide_eq_false, bool_decide_eq_true.
    pose proof (list_elem_of_lookup_2 _ _ _ Hj) as Hin. pose proof (Hok f Hin) as [Hal _]. pose proof (Hout f Hin) as Hn.
    destruct (page_up_bounds (stack_top img)) as [_ Hup]. apply lookup_lt_Some in Hj.
    assert (Hip : Z.of_nat ip = image_page_count (USERSPACE_IMAGE img)) by (subst ip; lia).
    unfold in_span, page_va, PMM_EXTENT_START, PAGE_SIZE in *.
    split; [lia|]. split; [|lia]. intros Hk. apply Hn. Z.to_euclidean_division_equations; lia.
Qed.
End reach.

(** ** From reset to the program's pages *)

(** With the hook's root in [TTBR0_EL1] and [EPD0] cleared the low half is walked. *)
Lemma activated_regs a s : tcr_el1 (sys s) = Z.lor TCR_EL1_VALUE_HIGH_HALF TCR_EL1_EPD0_BIT →
  tcr_el1 (regs (activate a (booted_processor s))) = TCR_EL1_VALUE_HIGH_HALF ∧
  ttbr0_el1 (regs (activate a (booted_processor s))) = frame_addr (root a) ∧
  ttbr1_el1 (regs (activate a (booted_processor s))) = ttbr1_el1 (sys s).
Proof. intros Ht. cbn. rewrite Ht. done. Qed.

(** The kernel's own tables are as the boot left them: the loader stored elsewhere. *)
Lemma tables_kept `{Build} `{Contexts Ctx} `{Mmio D} img pstate cntfrq cntvct m0 m (d : D) b : image_ok img m0 →
  started (Ctx := Ctx) img pstate cntfrq cntvct m d b →
  ∀ f a, f ∈ table_frames (boot_pt img) → f ≤ a < f + PAGE_SIZE → physical (MEMORY (bt_kernel b)) a = m a.
Proof.
  intros Hio Hst f a Hf Ha. destruct (io_frames _ _ Hio f Hf) as [Hlo Hhi]. destruct (page_up_bounds (stack_top img)) as [Hup _].
  apply (st_memory _ _ _ _ _ _ _ Hst). unfold KERNEL_IMAGE_START, PMM_EXTENT_START in *. lia.
Qed.

Lemma user_reach `{Build} `{Contexts Ctx} `{Mmio D} img sp0 pstate cntfrq cntvct (s s' : BootState) ctl (d : D) b hd a L :
  image_ok img (boot_mem s) → entered img sp0 s s' ctl → started (Ctx := Ctx) img pstate cntfrq cntvct (boot_mem s') d b →
  user_program img (boot_mem s') b hd a L →
  ∃ p, activate_address_space (AS_ARENA (bt_kernel b)) hd (booted_processor s') = Some p ∧
    reaches img L (stage1 (regs p) (physical (MEMORY (bt_kernel b)))).
Proof.
  intros Hio He Hst Hup. destruct (up_task _ _ _ _ _ _ Hup) as (_ & _ & Hget & _).
  destruct (up_tables _ _ _ _ _ _ Hup) as (rt & T & Ha & HP). pose proof (up_layout _ _ _ _ _ _ Hup) as Hly.
  exists (activate a (booted_processor s')). split.
  { unfold activate_address_space, activate_address_space_handle. by rewrite Hget. }
  destruct (en_regs _ _ _ _ _ He) as [Ht Hr1]. destruct (activated_regs a s' Ht) as (Htcr & Httbr0 & Httbr1).
  rewrite Hr1 in Httbr1. subst a.
  destruct (io_program _ _ Hio) as (_ & _ & _ & Hlen & _). apply image_pages_pos in Hlen.
  apply reaches_ok.
  - lia.
  - intros va Hva. rewrite stage1_low by (rewrite ?Htcr; done || lia). rewrite Httbr0.
    by apply (program_walk _ _ _ _ _ rt T va Hly eq_refl HP).
  - intros va Hva. apply (kept_window (boot_pt img) (boot_mem s) (boot_mem s') _ (io_linked _ _ Hio) (en_blocks _ _ _ _ _ He) (en_high _ _ _ _ _ He)
      (tables_kept _ _ _ _ _ _ _ _ Hio Hst)); [done|done|unfold is_u64, U64_MAX in *; lia|lia].
  - apply (ly_limit _ _ _ _ _ Hly).
  - apply (ly_frames _ _ _ _ _ Hly).
  - apply (up_frames _ _ _ _ _ _ Hup).
Qed.

(** C13: what EL0 reaches.  On any image the linker placed as it says, with any stack
    pointer, counter and interrupt controller, the board boots, and once the scheduler's
    hook has made the user task's address space active the processor's own walk of the
    tables - the hardware's reading of the registers and of the bytes the kernel stored,
    not the kernel's account of them - gives: at every byte of a page of the program the
    byte of that page's frame, the image's pages executable and read-only, the stack's
    writable and not executable; a fault at every other address below 2^48; above it
    exactly the kernel's window, none of it accessible from EL0.  So an address EL0 can
    use is one of the program, outside the kernel's RAM, and never both writable and
    executable. *)
Theorem el0_reaches_its_program `{Build} `{Contexts Ctx} `{Mmio D} img sp0 pstate cntfrq cntvct (s : BootState) (d : D) :
  image_ok img (boot_mem s) → 0 ≤ sp0 < 0x100000000 → is_u64 cntfrq → cntfrq ≠ 0 → is_u64 cntvct →
  ∃ s' ctl b hd a L p, boot (Ctx := Ctx) img sp0 pstate cntfrq cntvct s d = Some (s', ctl, b) ∧
    user_program img (boot_mem s') b hd a L ∧
    activate_address_space (AS_ARENA (bt_kernel b)) hd (booted_processor s') = Some p ∧
    reaches img L (stage1 (regs p) (physical (MEMORY (bt_kernel b)))).
Proof.
  intros Hio Hsp Hf Hne Hv. destruct (enter_high img sp0 s Hio Hsp) as (s1 & ctl & s2 & H1' & H2 & He).
  destruct (kernel_main_ok (Ctx := Ctx) img pstate cntfrq cntvct (boot_mem s) (boot_mem s2) d Hio) as (b & hd & a & L & Hk & Hst & Hup); [|done..|].
  { apply mapped_from_boot; apply He. }
  destruct (user_reach _ _ _ _ _ _ _ _ _ _ _ _ _ Hio He Hst Hup) as (p & Hp & Hr).
  exists s2, ctl, b, hd, a, L, p. split; [|done]. unfold boot. rewrite H1'. cbn [mbind option_bind early early_console]. rewrite H2. cbn [mbind option_bind].
  rewrite Hk. done.
Qed.

(** The sample image, of 5000 bytes, has two pages: nothing below the third is writable,
    the address before the first faults, and the UART is in the kernel's window. *)
Lemma el0_reaches_its_program_witness :
  ∃ b p sees, sees = stage1 (regs p) (physical (MEMORY (bt_kernel b))) ∧
    (∃ s' ctl hd, boot (Ctx := unit) (D := list (Z * Z)) (H := debug_build) (H0 := no_contexts) sample_image 0x40100000 0x3c5 62500000 1000
      sample_boot_state [] = Some (s', ctl, b) ∧
      activate_address_space (H := debug_build) (AS_ARENA (bt_kernel b)) hd (booted_processor s') = Some p) ∧
    sees 0xFFFFFFFF09000018 = Some (0x09000018, DEVICE_FLAGS) ∧ sees 0x7FFFFF = None ∧
    (∀ va pa fl, is_u64 va → sees va = Some (pa, fl) → flags_contains fl USER = true → flags_contains fl WRITE = true → 0x802000 ≤ va).
Proof.
  destruct (el0_reaches_its_program (Ctx := unit) (H := debug_build) (H0 := no_contexts) sample_image 0x40100000 0x3c5 62500000 1000
    sample_boot_state ([] : list (Z * Z))) as (s' & ctl & b & hd & a & L & p & Hrun & _ & Hp & [_ Hfault Hwin Huser]);
    [exact sample_image_ok|by split|by split|done|by split|].
  exists b, p, (stage1 (regs p) (physical (MEMORY (bt_kernel b)))). split; [exact eq_refl|].
  split; [exists s', ctl, hd; split; [exact Hrun|exact Hp]|]. clear Hrun Hp.
  split; [rewrite Hwin by (by split); vm_compute; exact eq_refl|].
  split; [apply Hfault; [by split|intros [Hb _]; by apply Hb]|].
  intros va pa fl Hva Hs Hu Hw. destruct (Huser va pa fl Hva Hs Hu) as (_ & _ & Hww & _). exact (proj1 Hww Hw).
Defined.
