(* ===== verification/UserLib.v ===== *)
(** * The user library and the first program (userland/tyrne-user, userland/hello)

The wrappers load the registers of the syscall ABI, trap, and read the answer.  The
trap is a parameter, so that the wrappers mean the same over any kernel: it takes the
registers and gives the kernel afterwards and how the trap ended. *)

From Stdlib Require Import Ascii String.
From S2P Require Import Prelude.
From S2P Require Import Hal.
From S2P Require Import Arena.
From S2P Require Import Objects.
From S2P Require Import Abi.
From S2P Require Import Sched.
From S2P Require Import SyscallEntry.
From S2P Require Import Text.
Local Open Scope Z_scope.

Definition SYS_TASK_EXIT : Z := 4.
Definition SYS_CONSOLE_WRITE : Z := 5.
Definition HELLO_CONSOLE_CAP : Z := 0.

Definition GREETING : list Z := line "hello from userspace".

(** A call comes back with a value and the registers, or the task does not go on. *)
Inductive user_outcome (A : Type) :=
| Continues (a : A) (f : SyscallTrapFrame)
| Stopped (t : trap).
Arguments Continues {A} a f.
Arguments Stopped {A} t.

Section user.
  Context {K : Type} (svc : SyscallTrapFrame → K → option (K * trap)).

(** The error is the raw status word ([SyscallError]). *)
Definition console_write (cap ptr len : Z) (f : SyscallTrapFrame) (k : K) : option (K * user_outcome (result Z Z)) :=
  match svc (set_reg 8 SYS_CONSOLE_WRITE (set_reg 0 cap (set_reg 1 ptr (set_reg 2 len f)))) k with
  | None => None
  | Some (k, Returned f) =>
      let status := Abi.arg (regs f) 0 in
      let written := Abi.arg (regs f) 1 in
      Some (k, Continues (if bool_decide (status = 0) then Ok written else Err status) f)
  | Some (k, t) => Some (k, Stopped t)
  end.

(** [options(noreturn)]: a trap that came back would be undefined. *)
Definition task_exit (code : Z) (f : SyscallTrapFrame) (k : K) : option (K * trap) :=
  match svc (set_reg 8 SYS_TASK_EXIT (set_reg 0 code f)) k with
  | Some (_, Returned _) => None
  | x => x
  end.

(** [_start], with the greeting's bytes at [greeting]; the result of the write is
    ignored. *)
Definition hello_start (greeting : Z) (f : SyscallTrapFrame) (k : K) : option (K * trap) :=
  match console_write HELLO_CONSOLE_CAP greeting (Z.of_nat (length GREETING)) f k with
  | None => None
  | Some (k, Continues _ f) => task_exit 0 f k
  | Some (k, Stopped t) => Some (k, t)
  end.

Definition hello_panic (f : SyscallTrapFrame) (k : K) : option (K * trap) := task_exit 101 f k.
End user.
