(* ===== verification/Legs.v ===== *)
(** * Tasks cut into legs

The body of a task, cut where it leaves the processor: a leg runs from one such place to
the next and says where the processor goes and where the task is resumed.  A system is the
state the tasks share with the place at which each of them is resumed; the machine runs
the leg of the running task over and over. *)

From S2P Require Import Prelude.
From S2P Require Import Objects.
From S2P Require Import Sched.

(** How a leg ends: the processor goes to a slot, and this task is resumed at a point;
    or the task goes on by itself. *)
Inductive leg (P : Type) :=
| Away (activate : option AddressSpaceHandle) (next : nat) (resumed_at : P)
| Remains (at_ : P).
Arguments Away {P} activate next resumed_at.
Arguments Remains {P} at_.

(** [.expect(..)] *)
Definition must {S E F A} (m : M S E A) : M S F A :=
  let* r := attempt m in match r with Ok a => ret a | Err _ => panic end.

(** A switch takes the processor away; otherwise the task goes on. *)
Definition after_switch {D P E} (d : dispatch) (at_ : P) (go_on : M D E (leg P)) : M D E (leg P) :=
  match d with
  | Switch _ next activate => ret (Away activate next at_)
  | Stay => go_on
  end.

Record System (D P : Type) := {
  demo : D;
  points : list P;
  running : nat;
  activated : option AddressSpaceHandle;
}.
Arguments Build_System {D P} demo points running activated.
Arguments demo {D P} _.
Arguments points {D P} _.
Arguments running {D P} _.
Arguments activated {D P} _.

Section machine.
  Context {D P : Type} (run_leg : P → M D unit (leg P)).
  Implicit Types (s y : System D P).

Definition sys_step s : option (System D P) :=
  p ← points s !! running s;
  '(d, r) ← run_leg p (demo s);
  match r with
  | Err _ => None
  | Ok (Remains q) =>
      Some {| demo := d; points := <[running s := q]> (points s); running := running s; activated := activated s |}
  | Ok (Away a next q) =>
      Some {| demo := d; points := <[running s := q]> (points s); running := next;
              activated := match a with Some _ => a | None => activated s end |}
  end.

Fixpoint sys_steps (n : nat) s : option (System D P) :=
  match n with
  | O => Some s
  | S n => s ← sys_step s; sys_steps n s
  end.

(** The run of [n] legs with the slot that ran each. *)
Fixpoint sys_trace (n : nat) s : option (list nat * System D P) :=
  match n with
  | O => Some ([], s)
  | S n => s' ← sys_step s; '(l, e) ← sys_trace n s'; Some (running s :: l, e)
  end.
Definition runs s (l : list nat) y : Prop := sys_trace (length l) s = Some (l, y).

(** ** Running it *)

Lemma steps_away n y q d a next r : points y !! running y = Some q → run_leg q (demo y) = Some (d, Ok (Away a next r)) →
  sys_steps (S n) y = sys_steps n {| demo := d; points := <[running y := r]> (points y); running := next;
    activated := match a with Some _ => a | None => activated y end |}.
Proof. intros Hq Hr. cbn [sys_steps]. unfold sys_step. rewrite Hq. cbn [mbind option_bind]. by rewrite Hr. Qed.

Lemma steps_remains n y q d r : points y !! running y = Some q → run_leg q (demo y) = Some (d, Ok (Remains r)) →
  sys_steps (S n) y =
    sys_steps n {| demo := d; points := <[running y := r]> (points y); running := running y; activated := activated y |}.
Proof. intros Hq Hr. cbn [sys_steps]. unfold sys_step. rewrite Hq. cbn [mbind option_bind]. by rewrite Hr. Qed.

Lemma steps_add n m y : sys_steps (n + m) y = sys_steps n y ≫= sys_steps m.
Proof.
  revert y. induction n as [|n IH]; intros y; [done|]. cbn [Nat.add sys_steps].
  destruct (sys_step y) as [y'|]; cbn [mbind option_bind]; [apply IH|done].
Qed.

(** A task whose leg changes nothing keeps the processor for ever. *)
Lemma steps_stay n y q : points y !! running y = Some q → run_leg q (demo y) = Some (demo y, Ok (Remains q)) →
  sys_steps n y = Some y.
Proof.
  intros Hp Hq. induction n as [|n IH]; [done|]. rewrite (steps_remains n y q (demo y) q Hp Hq).
  rewrite list_insert_id by done. by destruct y.
Qed.

(** ** Its schedule *)

Lemma runs_nil y : runs y [] y.
Proof. done. Qed.

Lemma trace_add n m s l y l' z : sys_trace n s = Some (l, y) → sys_trace m y = Some (l', z) → sys_trace (n + m) s = Some (l ++ l', z).
Proof.
  revert s l. induction n as [|n IH]; intros s l; cbn [sys_trace Nat.add]; [by intros [= <- <-]|].
  destruct (sys_step s) as [s'|]; [|done]. cbn [mbind option_bind].
  destruct (sys_trace n s') as [[l1 y1]|] eqn:Hn; [|done]. cbn [mbind option_bind]. intros [= <- <-] Hm. by rewrite (IH _ _ Hn Hm).
Qed.

Lemma runs_app s l y l' z : runs s l y → runs y l' z → runs s (l ++ l') z.
Proof. intros H1 H2. unfold runs. rewrite length_app. by apply (trace_add _ _ _ _ y). Qed.

Lemma runs_steps s l y : runs s l y → sys_steps (length l) s = Some y.
Proof.
  unfold runs. generalize (length l) at 1 2. intros n. revert s l. induction n as [|n IH]; intros s l; cbn [sys_trace sys_steps]; [by intros [= _ <-]|].
  destruct (sys_step s) as [s'|]; [|done]. cbn [mbind option_bind].
  destruct (sys_trace n s') as [[l1 y1]|] eqn:Hn; [|done]. cbn [mbind option_bind]. intros [= _ <-]. by apply (IH _ l1).
Qed.

Lemma runs_away y q d a next r i : running y = i → points y !! i = Some q → run_leg q (demo y) = Some (d, Ok (Away a next r)) →
  runs y [i] {| demo := d; points := <[i := r]> (points y); running := next;
    activated := match a with Some _ => a | None => activated y end |}.
Proof. intros <- Hq Hr. unfold runs. cbn [length sys_trace]. unfold sys_step. rewrite Hq. cbn [mbind option_bind]. by rewrite Hr. Qed.

Lemma runs_remains y q d r i : running y = i → points y !! i = Some q → run_leg q (demo y) = Some (d, Ok (Remains r)) →
  runs y [i] {| demo := d; points := <[i := r]> (points y); running := i; activated := activated y |}.
Proof. intros <- Hq Hr. unfold runs. cbn [length sys_trace]. unfold sys_step. rewrite Hq. cbn [mbind option_bind]. by rewrite Hr. Qed.

(** A loop whose rounds have the same schedule. *)
Lemma runs_loop (Inv : Z → System D P → Prop) l y N : (0 ≤ N)%Z →
  (∀ i s, (0 ≤ i < N)%Z → Inv i s → ∃ z, runs s l z ∧ Inv (i + 1)%Z z) → Inv 0%Z y →
  ∃ z, runs y (concat (replicate (Z.to_nat N) l)) z ∧ Inv N z.
Proof.
  intros HN Hround H0. assert (Hk : ∀ k, (k ≤ Z.to_nat N)%nat → ∃ z, runs y (concat (replicate k l)) z ∧ Inv (Z.of_nat k) z).
  { intros k. induction k as [|k IH]; intros Hk; [by exists y|]. destruct IH as (z & Hz & Hi); [lia|].
    destruct (Hround (Z.of_nat k) z) as (z' & Hz' & Hi'); [lia|done|]. exists z'. rewrite replicate_S_end, concat_app. split.
    - apply (runs_app _ _ z); [done|]. cbn. by rewrite app_nil_r.
    - by replace (Z.of_nat (S k)) with (Z.of_nat k + 1)%Z by lia. }
  destruct (Hk (Z.to_nat N)) as (z & Hz & Hi); [done|]. exists z. by rewrite Z2Nat.id in Hi by done.
Qed.
End machine.
