(* ===== verification/Demo.v ===== *)
(** * The tasks of the board (bsp-qemu-virt/src/main.rs)

The bodies of [task_a], [task_b] and [idle_entry] and the user program, cut where they
leave the processor. *)

From Stdlib Require Import Ascii String.
From stdpp Require Import gmap.
From S2P Require Import Prelude.
From S2P Require Import Hal.
From S2P Require Import Arena.
From S2P Require Import Objects.
From S2P Require Import Caps.
From S2P Require Import CapTable.
From S2P Require Import Ipc.
From S2P Require Import SyscallError.
From S2P Require Import UserAccess.
From S2P Require Import QemuMmu.
From S2P Require Import AddressSpace.
From S2P Require Import Timer.
From S2P Require Import Gic.
From S2P Require Import Sched.
From S2P Require Import SyscallEntry.
From S2P Require Import Text.
From S2P Require Import UserLib.
From S2P Require Import Legs.
Local Open Scope Z_scope.

(** ** The kernel with the tables of its own tasks *)

Record Demo (Ctx : Type) := {
  kernel : Kernel QemuVirtAddressSpace Ctx;
  demo_table_a : CapabilityTable;
  demo_table_b : CapabilityTable;
}.
Arguments Build_Demo {Ctx} kernel demo_table_a demo_table_b.
Arguments kernel {Ctx} _.
Arguments demo_table_a {Ctx} _.
Arguments demo_table_b {Ctx} _.

(** Where a task that does not run is resumed. *)
Inductive point :=
| BStart | BReceiving | BSent | BYielded
| AStart | ASent | AReceiving
| IdleStart
| UserStart
| Spinning
| Gone.

Section demo.
  Context `{Build} `{Translate QemuVirtAddressSpace} `{Contexts Ctx}.
  Context (EP_CAP_A EP_CAP_B : CapHandle) (CPU : QemuVirtCpu) (BOOT_NS : Z).

Definition on_kernel {E A} (m : M (Kernel QemuVirtAddressSpace Ctx) E A) : M (Demo Ctx) E A :=
  zoom kernel (λ k d, {| kernel := k; demo_table_a := demo_table_a d; demo_table_b := demo_table_b d |}) m.

Definition print {E} (bs : list Z) : M (Demo Ctx) E unit := on_kernel (modify (write_console bs)).

(** The scheduler and the queues, with the table of task A or of task B. *)
Definition set_bridge (b : Bridge Ctx) (k : Kernel QemuVirtAddressSpace Ctx) : Kernel QemuVirtAddressSpace Ctx :=
  {| SCHED := bsched b; AS_ARENA := AS_ARENA k; EP_ARENA := EP_ARENA k; IPC_QUEUES := queues (bipc b); tables := tables k;
     FAILCLOSED_TABLE := FAILCLOSED_TABLE k; BOOTSTRAP_AS := BOOTSTRAP_AS k; CONSOLE := CONSOLE k; MEMORY := MEMORY k |}.
Definition bridge_of (k : Kernel QemuVirtAddressSpace Ctx) (t : CapabilityTable) : Bridge Ctx :=
  {| bsched := SCHED k; bipc := {| Ipc.queues := IPC_QUEUES k; Ipc.table := t |} |}.
Definition as_task_a {E A} (m : M (Bridge Ctx) E A) : M (Demo Ctx) E A :=
  zoom (λ d, bridge_of (kernel d) (demo_table_a d))
       (λ b d, {| kernel := set_bridge b (kernel d); demo_table_a := Ipc.table (bipc b); demo_table_b := demo_table_b d |}) m.
Definition as_task_b {E A} (m : M (Bridge Ctx) E A) : M (Demo Ctx) E A :=
  zoom (λ d, bridge_of (kernel d) (demo_table_b d))
       (λ b d, {| kernel := set_bridge b (kernel d); demo_table_a := demo_table_a d; demo_table_b := Ipc.table (bipc b) |}) m.
Definition ep_arena_of {E} : M (Demo Ctx) E EndpointArena := gets (λ d, EP_ARENA (kernel d)).

Definition yield_leg {E} (at_ : point) (go_on : M (Demo Ctx) E (leg point)) : M (Demo Ctx) E (leg point) :=
  let* d := must (on_kernel (zoom SCHED set_SCHED yield_now)) in
  after_switch d at_ go_on.

(** ** Task B *)

Definition b_spins {E} : M (Demo Ctx) E (leg point) := ret (Remains Spinning).
Definition b_sent {E} : M (Demo Ctx) E (leg point) := yield_leg BYielded b_spins.

Definition b_received {E} (recv_outcome : RecvOutcome) : M (Demo Ctx) E (leg point) :=
  match recv_outcome with
  | Pending => panic
  | Received msg _ =>
      print (bytes_of "tyrne: task B — received IPC (label=0x" ++ lower_hex (label msg) ++ line "); replying") ;;
      let reply := {| label := 0xBBBB; params := (0, 0, 0) |} in
      let* ep_arena := ep_arena_of in
      let* r := must (as_task_b (ipc_send_and_yield ep_arena EP_CAP_B reply None)) in
      after_switch r.2 BSent b_sent
  end.

Definition b_receiving {E} : M (Demo Ctx) E (leg point) :=
  let* ep_arena := ep_arena_of in
  let* recv_outcome := must (as_task_b (on_ipc (ipc_recv_resume ep_arena EP_CAP_B))) in
  b_received recv_outcome.

Definition b_start {E} : M (Demo Ctx) E (leg point) :=
  print (line "tyrne: task B — waiting for IPC") ;;
  let* ep_arena := ep_arena_of in
  let* phase := must (as_task_b (ipc_recv_and_yield ep_arena EP_CAP_B)) in
  match phase with
  | RecvDone recv_outcome => b_received recv_outcome
  | RecvBlocked _ next activate => ret (Away activate next BReceiving)
  end.

(** ** Task A *)

(** The last leg reads the counter once. *)
Definition a_received {E} (cntvct_el0 : Z) (reply_outcome : RecvOutcome) : M (Demo Ctx) E (leg point) :=
  match reply_outcome with
  | Pending => panic
  | Received reply _ =>
      print (bytes_of "tyrne: task A — received reply (label=0x" ++ lower_hex (label reply) ++ line "); done") ;;
      print (line "tyrne: all tasks complete") ;;
      match now_ns CPU cntvct_el0 with
      | None => panic
      | Some now =>
          let elapsed_ns := saturating_sub64 now BOOT_NS in
          print (bytes_of "tyrne: boot-to-end elapsed = " ++ decimal elapsed_ns ++ line " ns") ;;
          ret (Remains Spinning)
      end
  end.

Definition a_receiving {E} (cntvct_el0 : Z) : M (Demo Ctx) E (leg point) :=
  let* ep_arena := ep_arena_of in
  let* reply_outcome := must (as_task_a (on_ipc (ipc_recv_resume ep_arena EP_CAP_A))) in
  a_received cntvct_el0 reply_outcome.

Definition a_sent {E} (cntvct_el0 : Z) : M (Demo Ctx) E (leg point) :=
  let* ep_arena := ep_arena_of in
  let* phase := must (as_task_a (ipc_recv_and_yield ep_arena EP_CAP_A)) in
  match phase with
  | RecvDone reply_outcome => a_received cntvct_el0 reply_outcome
  | RecvBlocked _ next activate => ret (Away activate next AReceiving)
  end.

Definition a_start {E} (cntvct_el0 : Z) : M (Demo Ctx) E (leg point) :=
  print (line "tyrne: task A -- sending IPC") ;;
  let msg := {| label := 0xAAAA; params := (1, 2, 3) |} in
  let* ep_arena := ep_arena_of in
  let* r := must (as_task_a (ipc_send_and_yield ep_arena EP_CAP_A msg None)) in
  after_switch r.2 ASent (a_sent cntvct_el0).

(** ** The idle task and the user task *)

(** One round of the loop; [wait_for_interrupt] changes nothing here. *)
Definition idle_round {E} : M (Demo Ctx) E (leg point) := yield_leg IdleStart (ret (Remains IdleStart)).

(** The trap of the running user task; an error of [syscall_entry] is no value of its. *)
Definition svc (f : SyscallTrapFrame) (k : Kernel QemuVirtAddressSpace Ctx) : option (Kernel QemuVirtAddressSpace Ctx * trap) :=
  match syscall_entry (E := unit) f k with
  | Some (k, Ok t) => Some (k, t)
  | _ => None
  end.

(** The program makes no call that is rescheduled. *)
Definition user_leg {E} (greeting : Z) (f : SyscallTrapFrame) : M (Demo Ctx) E (leg point) := λ d,
  match hello_start svc greeting f (kernel d) with
  | Some (k, Exited (activate, next)) =>
      Some ({| kernel := k; demo_table_a := demo_table_a d; demo_table_b := demo_table_b d |}, Ok (Away activate next Gone))
  | _ => None
  end.

(** ** The system *)

(** What user code starts from, and what the counter reads at the end. *)
Record Env := { greeting_at : Z; user_frame : SyscallTrapFrame; cntvct_end : Z }.

Definition run_leg {E} (env : Env) (p : point) : M (Demo Ctx) E (leg point) :=
  match p with
  | BStart => b_start
  | BReceiving => b_receiving
  | BSent => b_sent
  | BYielded => b_spins
  | AStart => a_start (cntvct_end env)
  | ASent => a_sent (cntvct_end env)
  | AReceiving => a_receiving (cntvct_end env)
  | IdleStart => idle_round
  | UserStart => user_leg (greeting_at env) (user_frame env)
  | Spinning => ret (Remains Spinning)
  | Gone => panic
  end.

(** The four slots as the boot filled them. *)
Definition sys_start (k : Kernel QemuVirtAddressSpace Ctx) (ta tb : CapabilityTable) (start : option AddressSpaceHandle * nat)
    : System (Demo Ctx) point :=
  {| demo := {| kernel := k; demo_table_a := ta; demo_table_b := tb |}; points := [AStart; BStart; IdleStart; UserStart];
     running := start.2; activated := start.1 |}.
End demo.
