(* ===== verification/Traps.v ===== *)
(** * A trap of the running user task

What the wrappers of the user programs rely on: registers set to words, the answer in
them, and the system call of the running task as one dispatch. *)

From Stdlib Require Import Ascii String.
From stdpp Require Import gmap.
From S2P Require Import Prelude.
From S2P Require Import Hal.
From S2P Require Import Arena.
From S2P Require Import Objects.
From S2P Require Import Caps.
From S2P Require Import CapTable.
From S2P Require Import CapTableInv.
From S2P Require Import CapTableOps.
From S2P Require Import CapSpec.
From S2P Require Import CapProps.
From S2P Require Import Ipc.
From S2P Require Import SyscallError.
From S2P Require Import Abi.
From S2P Require Import UserAccess.
From S2P Require Import UserAccessOps.
From S2P Require Import UserAccessProps.
From S2P Require Import Dispatch.
From S2P Require Import IpcSpec.
From S2P Require Import IpcProps.
From S2P Require Import DispatchProps.
From S2P Require Import Pmm.
From S2P Require Import PmmInv.
From S2P Require Import PmmNew.
From S2P Require Import PmmProps.
From S2P Require Import Vmsav8.
From S2P Require Import QemuMmu.
From S2P Require Import QemuMmuInv.
From S2P Require Import BootMmu.
From S2P Require Import BootMmuProps.
From S2P Require Import AddressSpace.
From S2P Require Import AddressSpaceProps.
From S2P Require Import TaskLoader.
From S2P Require Import TaskTables.
From S2P Require Import TaskLoaderInv.
From S2P Require Import TaskLoaderProps.
From S2P Require Import UserProgram.
From S2P Require Import Timer.
From S2P Require Import Gic.
From S2P Require Import GicProps.
From S2P Require Import Sched.
From S2P Require Import SchedInv.
From S2P Require Import SchedOps.
From S2P Require Import SchedBridge.
From S2P Require Import SchedRun.
From S2P Require Import SchedProps.
From S2P Require Import SchedBridgeProps.
From S2P Require Import SyscallEntry.
From S2P Require Import SyscallEntryProps.
From S2P Require Import Boot.
From S2P Require Import BootSteps.
From S2P Require Import BootProps.
From S2P Require Import Text.
From S2P Require Import UserLib.
From S2P Require Import Legs.
From S2P Require Import Demo.
Local Open Scope Z_scope.

Section calls.
  Context `{Build} `{Translate QemuVirtAddressSpace} `{Contexts Ctx}.
  Implicit Types (k : Kernel QemuVirtAddressSpace Ctx) (f : SyscallTrapFrame).

Lemma set_reg_ok i v f : frame_ok f → is_u64 v → frame_ok (set_reg i v f).
Proof. intros [Hl Hf] Hv. split; cbn [set_reg regs]; [by rewrite length_insert|by apply Forall_insert]. Qed.

Lemma set_reg_arg i j v f : frame_ok f → (i < 34)%nat →
  arg (regs (set_reg i v f)) j = if decide (i = j) then v else arg (regs f) j.
Proof.
  intros [Hl _] Hi. unfold arg, set_reg. cbn [regs]. case_decide as Hd.
  - subst j. by rewrite list_lookup_insert_eq by lia.
  - by rewrite list_lookup_insert_ne.
Qed.

(** An answer is made of words. *)
Lemma set_result_ok r f : frame_ok f → is_u64 (status r) → (∀ i, is_u64 (arg (payload r) i)) → frame_ok (set_result r f).
Proof. intros Hf Hs Hp. unfold set_result. by repeat (apply set_reg_ok; [|done]). Qed.

Lemma set_result_arg r f : frame_ok f → arg (regs (set_result r f)) 0 = status r ∧ arg (regs (set_result r f)) 1 = arg (payload r) 0.
Proof.
  intros [Hl _]. unfold set_result, set_reg, arg. cbn [regs]. rewrite !(list_lookup_insert_ne _ _ 0) by done.
  rewrite !(list_lookup_insert_ne _ _ 1) by done. rewrite !list_lookup_insert_eq by (rewrite ?length_insert; lia). done.
Qed.

(** A trap of the running user task is a dispatch in its context. *)
Lemma trap_dispatches k l p w a t f : kernel_ok k l → user_task k = Some (Some (p, w, a)) → tables k !! p = Some t → frame_ok f →
  make_context k = Some (context_of k t w a true, Some p) ∧
  ∃ c' eff, dispatch_post (context_of k t w a true) (syscall_args f) c' eff ∧
    Dispatch.dispatch (E := unit) (syscall_args f) (context_of k t w a true) = Some (c', Ok eff).
Proof.
  intros Hk Hu Ht Hf. destruct (user_task_total k l Hk) as (u & Hu' & Hspec). rewrite Hu in Hu'. injection Hu' as <-.
  destruct Hspec as (_ & Hw & Ha & _). pose proof (context_ok k l p w a t Hk Ht Hw Ha) as Hctx.
  destruct (proj1 (wp_run _ _ _) (dispatch_post_wp (E := unit) _ _ Hctx (frame_args f Hf))) as (c' & x & Hrun & eff & -> & Hpost).
  split; [unfold make_context; by rewrite Hu, Ht|]. by exists c', eff.
Qed.
End calls.
