(* ===== verification/Later.v ===== *)
(** * The board, some legs after the boot

The kernel with another state of its scheduler and its queues and more on its console,
while everything else is as the boot left it; what parts of a leg do there. *)

From Stdlib Require Import Ascii String.
From stdpp Require Import gmap.
From S2P Require Import Prelude.
From S2P Require Import Hal.
From S2P Require Import Arena.
From S2P Require Import Objects.
From S2P Require Import Caps.
From S2P Require Import CapTable.
From S2P Require Import CapTableInv.
From S2P Require Import CapTableOps.
From S2P Require Import CapSpec.
From S2P Require Import CapProps.
From S2P Require Import Ipc.
From S2P Require Import SyscallError.
From S2P Require Import Abi.
From S2P Require Import UserAccess.
From S2P Require Import UserAccessOps.
From S2P Require Import UserAccessProps.
From S2P Require Import Dispatch.
From S2P Require Import IpcSpec.
From S2P Require Import IpcProps.
From S2P Require Import DispatchProps.
From S2P Require Import Pmm.
From S2P Require Import PmmInv.
From S2P Require Import PmmNew.
From S2P Require Import PmmProps.
From S2P Require Import Vmsav8.
From S2P Require Import QemuMmu.
From S2P Require Import QemuMmuInv.
From S2P Require Import BootMmu.
From S2P Require Import BootMmuProps.
From S2P Require Import AddressSpace.
From S2P Require Import AddressSpaceProps.
From S2P Require Import TaskLoader.
From S2P Require Import TaskTables.
From S2P Require Import TaskLoaderInv.
From S2P Require Import TaskLoaderProps.
From S2P Require Import UserProgram.
From S2P Require Import Timer.
From S2P Require Import Gic.
From S2P Require Import GicProps.
From S2P Require Import Sched.
From S2P Require Import SchedInv.
From S2P Require Import SchedOps.
From S2P Require Import SchedBridge.
From S2P Require Import SchedRun.
From S2P Require Import SchedProps.
From S2P Require Import SchedBridgeProps.
From S2P Require Import SyscallEntry.
From S2P Require Import SyscallEntryProps.
From S2P Require Import Boot.
From S2P Require Import BootSteps.
From S2P Require Import BootProps.
From S2P Require Import Text.
From S2P Require Import UserLib.
From S2P Require Import Legs.
From S2P Require Import Demo.
Local Open Scope Z_scope.

Lemma bind_run {S E A B} (m : M S E A) (f : A → M S E B) s s' x : m s = Some (s', Ok x) → bind m f s = f x s'.
Proof. intros Hm. unfold bind. by rewrite Hm. Qed.

Lemma bridge_put_put' h st st' q : put h st (put h st' q) = put h st q.
Proof. unfold put. cbn. by rewrite !list_insert_insert_eq. Qed.

Lemma exit_runs `{Build} `{Contexts Ctx} (s : Scheduler Ctx) l h b : sched_ok s (h :: l) →
  task_address_space_handles s !! task_index h = Some b →
  ∃ q, task_exit_current (E := unit) s = Some (set_current (Some h) (set_ready q s), Ok (b, task_index h)) ∧
    sched_ok (set_current (Some h) (set_ready q s)) l.
Proof.
  intros Hs Hb. destruct (proj1 (wp_run _ _ _) (start_prelude_wp (E := unit) s (h :: l) h Hs eq_refl)) as (s' & r & Hrun & -> & q & -> & Hok).
  exists q. split; [|exact Hok]. destruct (lookup_lt_is_Some_2 (contexts s) (task_index h)) as [c Hc].
  { rewrite (so_contexts _ _ Hs). apply (registered_lt _ _ _ Hs). apply (so_ready _ _ Hs). by left. }
  unfold task_exit_current. rewrite (bind_run _ _ _ _ _ Hrun). unfold run_dispatched, idx, bind.
  cbn [set_current set_ready task_address_space_handles contexts]. rewrite Hb. cbn. by rewrite Hc.
Qed.

Lemma yield_runs `{Build} `{Contexts Ctx} (s : Scheduler Ctx) l cur h : sched_ok s (h :: l) → current s = Some cur → idle s ≠ Some cur →
  ∃ q a, yield_now s = Some (set_current (Some h) (set_ready q s), Ok (Switch (task_index cur) (task_index h) a)) ∧
    sched_ok (set_current (Some h) (set_ready q s)) (l ++ [cur]) ∧ activates s cur h a.
Proof.
  intros Hs Hcur Hid. destruct (proj1 (wp_run _ _ _) (yield_now_wp s (h :: l) cur Hs Hcur)) as (s' & r & Hrun & q & l' & next & Hy & Hq & Hn).
  pose proof (yield_next_ok _ _ _ q l' next Hs Hcur Hy Hq) as Hok. cbn in Hy. rewrite decide_False in Hy by done.
  injection Hy as -> ->. destruct Hn as (-> & x & y & Hx & Hy & ->). eexists q, _. split; [exact Hrun|]. split; [exact Hok|]. by exists x, y.
Qed.

(** What a task with one capability for an endpoint may do. *)
Lemma sole_grants (t : CapabilityTable) cap rts h r :
  CapTableInv.WF t ∧ only_cap t cap {| rights := rts; object := OEndpoint h |} → contains rts r = true →
  CapTableInv.WF t ∧ grants t cap r h ∧ CapTable.is_full t = false.
Proof.
  intros [Ht Ho] Hr. split; [done|]. split; [|by apply (only_cap_not_full t cap {| rights := rts; object := OEndpoint h |})].
  pose proof (Ho cap) as Hc. rewrite decide_True in Hc by done. apply live_Some in Hc as (e & He & Hn).
  exists e. split; [done|]. assert (capability e = {| rights := rts; object := OEndpoint h |}) as -> by (by apply (f_equal an_cap) in Hn). done.
Qed.

(** *** The state *)

Section later.
  Context {Ctx : Type} (k0 : Kernel QemuVirtAddressSpace Ctx) (ts : Tables).

(** The kernel the boot left, later: another state of the scheduler and the queues, and
    more on the console. *)
Definition later (s : Scheduler Ctx) (q : IpcQueues) (c : list Z) : Kernel QemuVirtAddressSpace Ctx :=
  {| SCHED := s; AS_ARENA := AS_ARENA k0; EP_ARENA := EP_ARENA k0; IPC_QUEUES := q; tables := tables k0;
     FAILCLOSED_TABLE := FAILCLOSED_TABLE k0; BOOTSTRAP_AS := BOOTSTRAP_AS k0; CONSOLE := c; MEMORY := MEMORY k0 |}.
Definition demo_at (s : Scheduler Ctx) (q : IpcQueues) (c : list Z) : Demo Ctx :=
  {| kernel := later s q c; demo_table_a := TABLE_A ts; demo_table_b := TABLE_B ts |}.

(** The tasks are those the boot registered. *)
Definition same_tasks (s : Scheduler Ctx) : Prop :=
  idle s = idle (SCHED k0) ∧ task_address_space_handles s = task_address_space_handles (SCHED k0) ∧
  task_cap_tables s = task_cap_tables (SCHED k0) ∧ task_user_windows s = task_user_windows (SCHED k0).
End later.

(** *** A message between the kernel's tasks *)

Section message.
  Context `{Build} `{Contexts Ctx}.
  Context (s0 : Scheduler Ctx) (l : list TaskHandle) (rq : SchedQueue) (cur next : TaskHandle) (ep : EndpointHandle).
  Context (Hs : sched_ok s0 l) (Hcur : current s0 = Some cur) (Hidle : idle s0 ≠ Some cur) (Hnext : block_next s0 l cur = Some next).
  Context (Hrq : qrep TASK_ARENA_CAPACITY rq (tail l)) (Hno : ∀ i, ¬ blocked_on s0 ep i).
Let s1 := blocked_state s0 rq cur ep (Some next).

(** The receiver that blocked is woken, last of the ring. *)
Lemma receiver_woken s2 l2 :
  ((∀ i, ¬ blocked_on s1 ep i) ∧ s2 = s1 ∧ l2 = tail l) ∨
  (∃ i th, first_blocked s1 ep 0 i ∧ task_handles s1 !! i = Some (Some th) ∧ task_index th = i ∧ l2 = tail l ++ [th] ∧ woken s1 (tail l) s2 i) →
  l2 = tail l ++ [cur] ∧ sched_ok s2 l2 ∧ current s2 = Some next ∧ (∀ k, same_tasks k s0 → same_tasks k s2) ∧ idle s2 = idle s0 ∧
  ∀ i, ¬ blocked_on s2 ep i.
Proof.
  intros Hcase. pose proof (blocked_state_ok s0 l rq cur ep next Hs Hcur Hidle Hnext Hrq) as Hok. fold s1 in Hok.
  destruct (wake_finds_receiver s0 s2 l l2 rq cur ep next Hs Hcur Hno Hcase) as [-> Hr].
  destruct Hcase as [(Hnone & -> & _)|(i & th & (_ & Hb & _) & Hth & Hi & Hl & Hw)].
  { exfalso. destruct Hr as [_ Hr]. apply (Hnone (task_index cur)). unfold blocked_on, s1. cbn. apply list_lookup_insert_eq.
    rewrite (so_states _ _ Hs). apply (registered_lt _ _ _ Hs). apply (so_current _ _ Hs cur Hcur). }
  apply (inj (app (tail l))) in Hl. injection Hl as <-.
  destruct (woken_ok _ _ _ _ _ Hok Hb Hw) as (h & Hh & Hok2 & Hc2 & Hi2 & Hst & Hsti & _).
  assert (h = cur) as -> by congruence. split; [done|]. split; [exact Hok2|]. split; [exact Hc2|]. split; [|split; [exact Hi2|]].
  - intros k. destruct Hw as (? & ? & _ & _ & _ & ->). done.
  - intros j. unfold blocked_on. destruct (decide (j = i)) as [->|Hne]; [by rewrite Hsti|]. rewrite Hst by done. unfold s1. cbn.
    rewrite list_lookup_insert_ne by congruence. apply Hno.
Qed.

(** A send to it is delivered and the sender yields: the first of the ring runs. *)
Lemma send_wakes ep_arena q t ep_s msg n l' : IpcWF ep_arena q → CapTableInv.WF t → grants t ep_s SEND ep → live_ep ep_arena ep →
  idle s0 ≠ Some next → tail l ++ [cur] = n :: l' →
  ∃ s2 a, ipc_send_and_yield ep_arena ep_s msg None {| bsched := s1; bipc := {| Ipc.queues := put ep RecvWaiting q; Ipc.table := t |} |} =
      Some ({| bsched := s2; bipc := {| Ipc.queues := put ep (RecvComplete msg None) q; Ipc.table := t |} |},
            Ok (Delivered, Switch (task_index next) (task_index n) a)) ∧
    (∀ k, same_tasks k s0 → same_tasks k s2 ∧ ∃ s, same_tasks k s ∧ activates s next n a) ∧ current s2 = Some n ∧
    sched_ok s2 (l' ++ [next]) ∧ ∀ i, ¬ blocked_on s2 ep i.
Proof.
  intros Hq Ht Hg Hl Hni Hring. pose proof (blocked_state_ok s0 l rq cur ep next Hs Hcur Hidle Hnext Hrq) as Hok. fold s1 in Hok.
  destruct (send_delivers ep_arena {| bsched := s1; bipc := {| Ipc.queues := put ep RecvWaiting q; Ipc.table := t |} |}
    (tail l) next ep_s ep msg None) as (b' & d & owned & Hrun & [-> Htab] & Hput & s2 & l2 & q2 & Hcase & Hi1 & Hrq2 & Hd & Hb'); try done.
  { by apply put_WF. }
  { by apply (ep_state_put ep_arena ep Hl). }
  cbn [bsched bipc Ipc.queues Ipc.table] in *. rewrite bridge_put_put' in Hput.
  destruct (receiver_woken s2 l2 Hcase) as (-> & Hok2 & Hc2 & Hsame & Hi2 & Hno2).
  assert (Hy : yield_next s2 (tail l ++ [cur]) next = (l' ++ [next], Some n)).
  { rewrite Hring. cbn. by rewrite Hi2, decide_False. }
  rewrite Hy in *. cbn [fst snd] in *. destruct Hd as (a & -> & Ha). exists (set_current (Some n) (set_ready q2 s2)), a.
  split; [|split; [|split; [done|split; [|exact Hno2]]]].
  - rewrite Hrun. destruct b' as [sb [qb tb]]. cbn [bsched bipc Ipc.queues Ipc.table] in *. by subst.
  - intros k Hk. split; [exact (Hsame k Hk)|]. exists s2. split; [by apply Hsame|done].
  - by apply (yield_next_ok s2 (tail l ++ [cur]) next q2 (l' ++ [next]) (Some n)).
Qed.
End message.

Section legs.
  Context `{Build} `{Contexts Ctx}.
  Context {k0 : Kernel QemuVirtAddressSpace Ctx} {ts : Tables} {waiting : list TaskHandle} {first : TaskHandle}
    {active : AddressSpaceHandle} {img : Image} {hd : AddressSpaceHandle} {ld : LoadedImage}.
  Context (Hb : booted_sched waiting first active img hd ld (SCHED k0)) (Hk0 : kernel_ok k0 waiting).
  Context (Har : Arena.WF ENDPOINT_ARENA_CAPACITY (boot_ep_arena ts) ∧ live_ep (boot_ep_arena ts) demo_endpoint).
  Context (Hep : EP_ARENA k0 = boot_ep_arena ts) (Hq0 : IPC_QUEUES k0 = IpcQueues_new).
  Context (Hhd : hd ≠ BOOTSTRAP_ADDRESS_SPACE_HANDLE).
#[local] Notation demo_at := (demo_at k0 ts).
#[local] Notation later := (later k0).
#[local] Notation same_tasks := (same_tasks k0).

Lemma later_ok s q c l : sched_ok s l → same_tasks s → IpcWF (EP_ARENA k0) q → kernel_ok (later s q c) l.
Proof.
  intros Hs (Hi & _ & Ht & Hw) Hq. destruct Hk0. split; cbn [later SCHED tables AS_ARENA EP_ARENA IPC_QUEUES FAILCLOSED_TABLE BOOTSTRAP_AS MEMORY];
    rewrite ?Hi, ?Ht, ?Hw; done.
Qed.

Lemma demo_queues st : IpcWF (EP_ARENA k0) (put demo_endpoint st IpcQueues_new) ∧ ep_state (put demo_endpoint st IpcQueues_new) demo_endpoint = st.
Proof.
  assert (Hl : live_ep (EP_ARENA k0) demo_endpoint) by (rewrite Hep; apply Har).
  assert (Hw : IpcWF (EP_ARENA k0) IpcQueues_new). { rewrite <- Hq0. apply (ko_queues _ _ Hk0). }
  split; [by apply put_WF|by apply (ep_state_put (EP_ARENA k0) demo_endpoint Hl)].
Qed.

Lemma activates_kernel s i j a : same_tasks s → (i < 3)%nat → (j < 3)%nat → activates s (task_at i) (task_at j) a → a = None.
Proof.
  intros (_ & Hs & _) Hi Hj (x & y & Hx & Hy & ->). rewrite Hs in Hx, Hy.
  change (task_index (task_at i)) with i in Hx. change (task_index (task_at j)) with j in Hy.
  rewrite (bs_spaces Hb) in Hx, Hy by done. injection Hx as <-. injection Hy as <-. done.
Qed.

Lemma activates_user s i a : same_tasks s → (i < 3)%nat → activates s (task_at i) (task_at 3) a → a = Some hd.
Proof.
  intros (_ & Hs & _) Hi (x & y & Hx & Hy & ->). rewrite Hs in Hx, Hy. destruct (bs_user Hb) as [_ Hu].
  change (task_index (task_at i)) with i in Hx. change (task_index (task_at 3)) with 3%nat in Hy.
  rewrite (bs_spaces Hb) in Hx by done. rewrite Hu in Hy. injection Hx as <-. injection Hy as <-.
  cbn. by rewrite bool_decide_false by done.
Qed.

(** Running a part of a leg. *)
Lemma print_runs {E} bs s q c : print (E := E) bs (demo_at s q c) = Some (demo_at s q (c ++ bs), Ok tt).
Proof. done. Qed.

Lemma ep_arena_runs {E} s q c : ep_arena_of (E := E) (demo_at s q c) = Some (demo_at s q c, Ok (boot_ep_arena ts)).
Proof. unfold ep_arena_of, gets. cbn. by rewrite Hep. Qed.

Lemma task_a_runs {E X} (m : M (Bridge Ctx) SchedError X) s q c s' q' r :
  m {| bsched := s; bipc := {| Ipc.queues := q; Ipc.table := TABLE_A ts |} |} =
    Some ({| bsched := s'; bipc := {| Ipc.queues := q'; Ipc.table := TABLE_A ts |} |}, Ok r) →
  must (F := E) (as_task_a m) (demo_at s q c) = Some (demo_at s' q' c, Ok r).
Proof. intros Hm. unfold must, attempt, bind, as_task_a, zoom, bridge_of. cbn [kernel demo_at later SCHED IPC_QUEUES demo_table_a]. by rewrite Hm. Qed.

Lemma task_b_runs {E X} (m : M (Bridge Ctx) SchedError X) s q c s' q' r :
  m {| bsched := s; bipc := {| Ipc.queues := q; Ipc.table := TABLE_B ts |} |} =
    Some ({| bsched := s'; bipc := {| Ipc.queues := q'; Ipc.table := TABLE_B ts |} |}, Ok r) →
  must (F := E) (as_task_b m) (demo_at s q c) = Some (demo_at s' q' c, Ok r).
Proof. intros Hm. unfold must, attempt, bind, as_task_b, zoom, bridge_of. cbn [kernel demo_at later SCHED IPC_QUEUES demo_table_b]. by rewrite Hm. Qed.

Lemma yield_runs_demo {E} s q c s' d : yield_now s = Some (s', Ok d) →
  must (F := E) (on_kernel (zoom SCHED set_SCHED yield_now)) (demo_at s q c) = Some (demo_at s' q c, Ok d).
Proof. intros Hy. unfold must, attempt, bind, on_kernel, zoom. cbn [kernel demo_at later SCHED]. by rewrite Hy. Qed.

Lemma yield_leg_runs {E} s q c s' i j a p (go : M (Demo Ctx) E (leg point)) : yield_now s = Some (s', Ok (Switch i j a)) →
  yield_leg p go (demo_at s q c) = Some (demo_at s' q c, Ok (Away a j p)).
Proof. intros Hy. unfold yield_leg. by rewrite (bind_run _ _ _ _ _ (yield_runs_demo _ _ _ _ _ Hy)). Qed.
(** Who the running user task is. *)
Lemma later_user p w a s q c : task_cap_tables (SCHED k0) !! 3%nat = Some (Some p) → task_user_windows (SCHED k0) !! 3%nat = Some (Some w) →
  get_address_space (AS_ARENA k0) hd = Some {| inner := a |} → same_tasks s → current s = Some (task_at 3) → user_task (later s q c) = Some (Some (p, w, a)).
Proof.
  intros Htab Hwin Has (_ & Hs & Htb & Hw) Hc. unfold user_task, current_user_table, current_address_space_handle, current_user_window, current_slot.
  cbn [later SCHED AS_ARENA]. rewrite Hc, Htb, Hs, Hw. change (task_index (task_at 3)) with 3%nat.
  rewrite Htab, Hwin, (proj2 (bs_user Hb)). cbn [mbind option_bind]. by rewrite Has.
Qed.
End legs.
