(* ===== verification/DemoProps.v ===== *)
(** * The board runs its tasks to the end

From the boot, leg by leg: task B waits for a message, task A sends it, the user
program greets and exits, B replies, A receives the reply. *)

From Stdlib Require Import Ascii String.
From stdpp Require Import gmap.
From S2P Require Import Prelude.
From S2P Require Import Hal.
From S2P Require Import Arena.
From S2P Require Import Objects.
From S2P Require Import Caps.
From S2P Require Import CapTable.
From S2P Require Import CapTableInv.
From S2P Require Import CapTableOps.
From S2P Require Import CapSpec.
From S2P Require Import CapProps.
From S2P Require Import Ipc.
From S2P Require Import SyscallError.
From S2P Require Import Abi.
From S2P Require Import UserAccess.
From S2P Require Import UserAccessOps.
From S2P Require Import UserAccessProps.
From S2P Require Import Dispatch.
From S2P Require Import IpcSpec.
From S2P Require Import IpcProps.
From S2P Require Import DispatchProps.
From S2P Require Import Pmm.
From S2P Require Import PmmInv.
From S2P Require Import PmmNew.
From S2P Require Import PmmProps.
From S2P Require Import Vmsav8.
From S2P Require Import QemuMmu.
From S2P Require Import QemuMmuInv.
From S2P Require Import BootMmu.
From S2P Require Import BootMmuProps.
From S2P Require Import AddressSpace.
From S2P Require Import AddressSpaceProps.
From S2P Require Import TaskLoader.
From S2P Require Import TaskTables.
From S2P Require Import TaskLoaderInv.
From S2P Require Import TaskLoaderProps.
From S2P Require Import UserProgram.
From S2P Require Import Timer.
From S2P Require Import Gic.
From S2P Require Import GicProps.
From S2P Require Import Sched.
From S2P Require Import SchedInv.
From S2P Require Import SchedOps.
From S2P Require Import SchedBridge.
From S2P Require Import SchedRun.
From S2P Require Import SchedProps.
From S2P Require Import SchedBridgeProps.
From S2P Require Import SyscallEntry.
From S2P Require Import SyscallEntryProps.
From S2P Require Import Boot.
From S2P Require Import BootSteps.
From S2P Require Import BootProps.
From S2P Require Import Text.
From S2P Require Import UserLib.
From S2P Require Import Legs.
From S2P Require Import Demo.
From S2P Require Import Traps.
From S2P Require Import Later.
Local Open Scope Z_scope.

(** ** The calls of the user program *)

Section calls.
  Context `{Build} `{Translate QemuVirtAddressSpace} `{Contexts Ctx}.
  Implicit Types (k : Kernel QemuVirtAddressSpace Ctx) (f : SyscallTrapFrame).

Section running.
  Context (k : Kernel QemuVirtAddressSpace Ctx) (l : list TaskHandle) (p : Z) (w : UserAccessWindow)
    (a : QemuVirtAddressSpace) (t : CapabilityTable).
  Context (Hk : kernel_ok k l) (Hu : user_task k = Some (Some (p, w, a))) (Ht : tables k !! p = Some t).

(** What the kernel answers to a write of [n] bytes. *)
Definition write_answer (n : Z) : SyscallReturn := if debug_assertions then with_payload 0 ret_ok n else ret_error BadSyscallNumber.

Lemma write_answer_ok n : is_u64 n → is_u64 (status (write_answer n)) ∧ ∀ i, is_u64 (arg (payload (write_answer n)) i).
Proof.
  intros Hn. unfold write_answer. destruct debug_assertions; (split; [by split|]); intros i;
    do 7 (destruct i as [|i]; [first [exact Hn | by split]|]); by split.
Qed.

(** A trap of the running user task is a dispatch. *)
Lemma svc_dispatch f : frame_ok f → ∃ c' eff, dispatch_post (context_of k t w a true) (syscall_args f) c' eff ∧
  svc f k = match apply_effect (E := unit) eff f (commit (Some p) c' k) with Some (k', Ok r) => Some (k', r) | _ => None end.
Proof.
  intros Hf. destruct (trap_dispatches k l p w a t f Hk Hu Ht Hf) as (Hm & c' & eff & Hpost & Hrun).
  exists c', eff. split; [done|]. unfold svc, syscall_entry. by rewrite Hm, Hrun.
Qed.

Lemma svc_console_write f n : frame_ok f → arg (regs f) 8 = SYS_CONSOLE_WRITE → arg (regs f) 2 = n →
  console_granted t (decode_required_cap_handle (arg (regs f) 0)) → accessible (MEMORY k) a w false (arg (regs f) 1) n →
  svc f k = Some (write_console (if debug_assertions then user_bytes (MEMORY k) a (arg (regs f) 1) (Z.to_nat n) else []) k,
                  Returned (set_result (write_answer n) f)).
Proof.
  intros Hf H8 Hn Hg Hacc. destruct (svc_dispatch f Hf) as (c' & eff & Hpost & ->).
  assert (Hnum : number (syscall_args f) = 5) by exact H8. unfold dispatch_post in Hpost. rewrite Hnum in Hpost.
  unfold write_answer. unfold decode in Hpost. cbn [as_u64] in Hpost. destruct debug_assertions eqn:Hd; cbn in Hpost.
  - destruct Hpost as (r & -> & Hc). unfold console_post in Hc. rewrite !(args_arg f) in Hc by lia.
    rewrite Hn in Hc. cbn [context_of sc_mem task_as user_window] in Hc.
    destruct Hc as [(-> & _ & _ & ->)|[(_ & _ & Hno & _)|(e & _ & He & _)]]; [|done|].
    + rewrite commit_console by done. done.
    + exfalso. destruct Hg as (x & Hx & Ho & Hr). unfold console_cap_error, caller_table in He.
      cbn [context_of sc_ipc Ipc.table] in He. destruct e; try done; try (by rewrite Hx in He);
        destruct He as (y & Hy & He); rewrite Hx in Hy; injection Hy as <-; [destruct He as [_ He]; by rewrite Hr in He|done].
  - destruct Hpost as [-> ->]. rewrite commit_same by done. unfold write_console. cbn.
    rewrite app_nil_r. by destruct k.
Qed.

Lemma svc_task_exit f : frame_ok f → arg (regs f) 8 = SYS_TASK_EXIT →
  ∃ s' n l', svc f k = Some (set_SCHED s' (write_console EXIT_MESSAGE k), Exited n) ∧
    task_exit_current (E := unit) (SCHED k) = Some (s', Ok n) ∧ kernel_ok (set_SCHED s' (write_console EXIT_MESSAGE k)) l'.
Proof.
  intros Hf H8. destruct (svc_dispatch f Hf) as (c' & eff & Hpost & ->).
  assert (Hnum : number (syscall_args f) = 4) by exact H8. unfold dispatch_post in Hpost. rewrite Hnum in Hpost.
  change (decode 4) with (Some TaskExit) in Hpost. destruct Hpost as [-> ->]. rewrite commit_same by done.
  cbn [context_of has_current_task].
  destruct (exit_wp (E := unit) k l f (arg (args (syscall_args f)) 0) Hk) as (s' & n & l' & Hrun & Hex & Hok).
  exists s', n, l'. rewrite Hrun. done.
Qed.
End running.

(** Registers set to words. *)
#[local] Ltac regs_ok := repeat first [done | by split | apply set_reg_ok].

(** The user program on a kernel in order: it greets, where the build lets it, and
    exits; what it was answered makes no difference. *)
Lemma hello_ok k l p w a t f ptr : kernel_ok k l → user_task k = Some (Some (p, w, a)) → tables k !! p = Some t → frame_ok f →
  console_granted t (CapHandle_from_raw 0 0) → is_u64 ptr → accessible (MEMORY k) a w false ptr (Z.of_nat (length GREETING)) →
  user_bytes (MEMORY k) a ptr (length GREETING) = GREETING →
  ∃ s' n l', hello_start svc ptr f k =
      Some (set_SCHED s' (write_console EXIT_MESSAGE (write_console (if debug_assertions then GREETING else []) k)), Exited n) ∧
    task_exit_current (E := unit) (SCHED k) = Some (s', Ok n) ∧
    kernel_ok (set_SCHED s' (write_console EXIT_MESSAGE (write_console (if debug_assertions then GREETING else []) k))) l'.
Proof.
  intros Hk Hu Ht Hf Hg Hptr Hacc Hbytes. unfold hello_start, console_write.
  set (n := Z.of_nat (length GREETING)) in *. assert (Hn : is_u64 n) by (by split).
  set (f1 := set_reg 8 _ _). assert (Hf1 : frame_ok f1) by (unfold f1; regs_ok).
  assert (Hargs : arg (regs f1) 8 = SYS_CONSOLE_WRITE ∧ arg (regs f1) 0 = HELLO_CONSOLE_CAP ∧ arg (regs f1) 1 = ptr ∧ arg (regs f1) 2 = n).
  { unfold f1. rewrite !set_reg_arg by (lia || regs_ok). done. }
  destruct Hargs as (A8 & A0 & A1 & A2).
  rewrite (svc_console_write k l p w a t Hk Hu Ht f1 n Hf1 A8 A2) by (rewrite ?A0, ?A1; done).
  rewrite A1. assert (Z.to_nat n = length GREETING) as -> by (subst n; lia). rewrite Hbytes. unfold task_exit.
  set (k1 := write_console (if debug_assertions then GREETING else []) k).
  set (f2 := set_reg 8 SYS_TASK_EXIT _).
  assert (Hf3 : frame_ok (set_result (write_answer n) f1)) by (apply set_result_ok; [done|apply write_answer_ok..]; done).
  assert (Hf2 : frame_ok f2) by (unfold f2; regs_ok).
  assert (B8 : arg (regs f2) 8 = SYS_TASK_EXIT) by (unfold f2; rewrite set_reg_arg by (lia || regs_ok); done).
  destruct (svc_task_exit k1 l p w a t) with (f := f2) as (s' & m & l' & Hrun & Hex & Hok); [by apply kernel_ok_console|done..|].
  exists s', m, l'. rewrite Hrun. done.
Qed.
End calls.

(** ** The legs *)

Section demo.
  Context `{Build} `{Contexts Ctx}.
  Context (img : Image) (hd : AddressSpaceHandle) (ld : LoadedImage) (k0 : Kernel QemuVirtAddressSpace Ctx) (ts : Tables)
    (cpu : QemuVirtCpu) (boot_ns : Z) (env : Env).
  Context (Hk0 : kernel_ok k0 [task_at 0; task_at 3]) (Hb : booted_sched [task_at 0; task_at 3] (task_at 1) BOOTSTRAP_ADDRESS_SPACE_HANDLE img hd ld (SCHED k0)) (Hts : tables_ok ts).
  Context (Hep : EP_ARENA k0 = boot_ep_arena ts) (Hq0 : IPC_QUEUES k0 = IpcQueues_new) (Hhd : hd ≠ BOOTSTRAP_ADDRESS_SPACE_HANDLE).
Let ep := demo_endpoint.
Let A := task_at 0.
Let B := task_at 1.
Let U := task_at 3.
Let q0 := IpcQueues_new.

#[local] Notation demo_at := (demo_at k0 ts).
#[local] Notation later := (later k0).
#[local] Notation same_tasks := (same_tasks k0).
Let later_ok := later_ok Hk0.
Let demo_queues := demo_queues Hk0 (tk_arena _ Hts) Hep Hq0.
Let activates_kernel := activates_kernel Hb.
Let activates_user := activates_user Hb Hhd.

(** *** The five legs *)

Let capA := EP_CAP_A ts.
Let capB := EP_CAP_B ts.
Let waits : list Z := line "tyrne: task B — waiting for IPC".
Let sends : list Z := line "tyrne: task A -- sending IPC".
Let replies : list Z := line "tyrne: task B — received IPC (label=0xaaaa); replying".
Definition ping : Message := {| label := 0xAAAA; params := (1, 2, 3) |}.
Definition pong : Message := {| label := 0xBBBB; params := (0, 0, 0) |}.

(** Task B registers as the receiver and blocks; task A runs. *)
Lemma leg_b_waits c : ∃ s1, b_start (E := unit) capB (demo_at (SCHED k0) q0 c) =
    Some (demo_at s1 (put ep RecvWaiting q0) (c ++ waits), Ok (Away None 0 BReceiving)) ∧
  ∃ rq, s1 = blocked_state (SCHED k0) rq B ep (Some A) ∧ qrep TASK_ARENA_CAPACITY rq [U].
Proof.
  destruct (sole_grants (TABLE_B ts) capB _ _ RECV (tk_b _ Hts) eq_refl) as (Ht & Hg & Hroom).
  pose proof (ko_sched _ _ Hk0) as Hs. pose proof (ko_queues _ _ Hk0) as Hq. rewrite Hep, Hq0 in Hq.
  destruct (recv_blocks (boot_ep_arena ts) {| bsched := SCHED k0; bipc := {| Ipc.queues := q0; Ipc.table := TABLE_B ts |} |}
    [A; U] B capB ep A) as (rq & a & Hrun & Hrq & Hact); try done.
  { apply (bs_current Hb). }
  { apply (tk_arena _ Hts). }
  cbn [bsched bipc Ipc.queues Ipc.table] in Hrun, Hact.
  assert (a = None) as -> by (apply (activates_kernel (SCHED k0) 1 0); [by repeat split|lia|lia|done]).
  eexists. split; [|by exists rq].
  unfold b_start. rewrite (bind_run _ _ _ _ _ (print_runs _ _ _ _)), (bind_run _ _ _ _ _ (ep_arena_runs Hep _ _ _)).
  by rewrite (bind_run _ _ _ _ _ (task_b_runs _ _ _ _ _ _ _ Hrun)).
Qed.

(** Task A sends; B is woken behind the user task, which runs. *)
Lemma leg_a_sends rq c : qrep TASK_ARENA_CAPACITY rq [U] →
  ∃ s2, a_start (E := unit) capA cpu boot_ns (cntvct_end env) (demo_at (blocked_state (SCHED k0) rq B ep (Some A)) (put ep RecvWaiting q0) c) =
    Some (demo_at s2 (put ep (RecvComplete ping None) q0) (c ++ sends), Ok (Away (Some hd) 3 ASent)) ∧
  same_tasks s2 ∧ current s2 = Some U ∧ sched_ok s2 [B; A].
Proof.
  intros Hrq. destruct (sole_grants (TABLE_A ts) capA _ _ SEND (tk_a _ Hts) eq_refl) as (Ht & Hg & _).
  pose proof (ko_queues _ _ Hk0) as Hq. rewrite Hep, Hq0 in Hq.
  destruct (send_wakes (SCHED k0) [A; U] rq B A ep (ko_sched _ _ Hk0) (bs_current Hb)) with (ep_arena := boot_ep_arena ts) (q := q0)
    (t := TABLE_A ts) (ep_s := capA) (msg := ping) (n := U) (l' := [B]) as (s2 & a & Hrun & Hsame & Hc & Hok & _);
    try done; [by rewrite (bs_idle Hb)|intros i; apply (bs_nobody Hb)|apply (tk_arena _ Hts)|by rewrite (bs_idle Hb)|].
  destruct (Hsame k0) as (Hs2 & s & Hs & Ha); [by repeat split|].
  assert (a = Some hd) as -> by (apply (activates_user s 0); [done|lia|done]).
  exists s2. split; [|done]. unfold a_start. rewrite (bind_run _ _ _ _ _ (print_runs _ _ _ _)), (bind_run _ _ _ _ _ (ep_arena_runs Hep _ _ _)).
  by rewrite (bind_run _ _ _ _ _ (task_a_runs _ _ _ _ _ _ _ Hrun)).
Qed.

(** *** The user task *)

Section user.
  Context (p : Z) (t : CapabilityTable) (w : UserAccessWindow) (a : QemuVirtAddressSpace).
  Context (Htab : task_cap_tables (SCHED k0) !! 3%nat = Some (Some p)) (Hwin : task_user_windows (SCHED k0) !! 3%nat = Some (Some w)).
  Context (Has : get_address_space (AS_ARENA k0) hd = Some {| inner := a |}) (Ht : tables k0 !! p = Some t).
  Context (Hgrant : console_granted t (CapHandle_from_raw 0 0)) (Hptr : is_u64 (greeting_at env)) (Hf : frame_ok (user_frame env)).
  Context (Hacc : accessible (MEMORY k0) a w false (greeting_at env) (Z.of_nat (length GREETING))).
  Context (Hbytes : user_bytes (MEMORY k0) a (greeting_at env) (length GREETING) = GREETING).

(** The program greets and exits; task B, next in the ring, runs. *)
Lemma leg_user s c st : same_tasks s → current s = Some U → sched_ok s [B; A] →
  ∃ s3, user_leg (E := unit) (greeting_at env) (user_frame env) (demo_at s (put ep st q0) c) =
    Some (demo_at s3 (put ep st q0) ((c ++ if debug_assertions then GREETING else []) ++ EXIT_MESSAGE),
          Ok (Away (Some BOOTSTRAP_ADDRESS_SPACE_HANDLE) 1 Gone)) ∧
  same_tasks s3 ∧ current s3 = Some B ∧ sched_ok s3 [A].
Proof.
  intros Hsame Hc Hs. destruct (demo_queues st) as [Hq _].
  destruct (hello_ok (later s (put ep st q0) c) [B; A] p w a t (user_frame env) (greeting_at env)) as (s' & n & l' & Hrun & Hex & _);
    [by apply later_ok|by apply (later_user Hb p w a _ _ _ Htab Hwin Has)|done..|].
  cbn [later SCHED] in Hex. destruct (exit_runs s [A] B (Some BOOTSTRAP_ADDRESS_SPACE_HANDLE)) as (q & Hex' & Hok); [done|..].
  { destruct Hsame as (_ & -> & _). apply (bs_spaces Hb 1%nat). lia. }
  rewrite Hex' in Hex. injection Hex as <- <-. exists (set_current (Some B) (set_ready q s)). split; [|split; [exact Hsame|split; [done|exact Hok]]].
  unfold user_leg. cbn [demo_at kernel]. rewrite Hrun. done.
Qed.
End user.

(** *** The reply *)

(** Task B collects the message, replies, and yields to task A. *)
Lemma leg_b_replies s c : same_tasks s → current s = Some B → sched_ok s [A] →
  ∃ s4, b_receiving (E := unit) capB (demo_at s (put ep (RecvComplete ping None) q0) c) =
    Some (demo_at s4 (put ep (SendPending pong None) q0) (c ++ replies), Ok (Away None 0 BYielded)) ∧
  same_tasks s4 ∧ current s4 = Some A ∧ sched_ok s4 [B].
Proof.
  intros Hsame Hc Hs. destruct (demo_queues (RecvComplete ping None)) as [Hq Hst]. destruct (demo_queues Idle) as [Hq' Hst'].
  rewrite Hep in Hq, Hq'. pose proof (proj2 (tk_arena _ Hts)) as Hl.
  destruct (sole_grants (TABLE_B ts) capB _ _ RECV (tk_b _ Hts) eq_refl) as (Ht & Hg & Hroom).
  destruct (sole_grants (TABLE_B ts) capB _ _ SEND (tk_b _ Hts) eq_refl) as (_ & Hg' & _).
  destruct (recv_takes (boot_ep_arena ts) {| bsched := s; bipc := {| Ipc.queues := put ep (RecvComplete ping None) q0; Ipc.table := TABLE_B ts |} |}
    capB ep ping None) as (t & got & [-> ->] & _ & Hrecv); [by eexists|done|done|done|done|done|by right|].
  pose proof (send_enqueues (boot_ep_arena ts) {| bsched := s; bipc := {| Ipc.queues := put ep Idle q0; Ipc.table := TABLE_B ts |} |}
    [A] B capB ep pong Hs Hc Hq' Ht Hg' Hl Hst') as Hsend.
  cbn [bsched bipc Ipc.queues Ipc.table] in Hrecv, Hsend. rewrite bridge_put_put' in Hrecv, Hsend.
  assert (Hi : idle s ≠ Some B). { destruct Hsame as (-> & _). by rewrite (bs_idle Hb). }
  destruct (yield_runs s [] B A Hs Hc Hi) as (q & a & Hy & Hok & Hact).
  assert (a = None) as -> by (apply (activates_kernel s 1 0); [done|lia|lia|done]).
  exists (set_current (Some A) (set_ready q s)). split; [|split; [exact Hsame|split; [done|exact Hok]]].
  unfold b_receiving. rewrite (bind_run _ _ _ _ _ (ep_arena_runs Hep _ _ _)).
  erewrite bind_run; [|apply (task_b_runs _ s _ c s (put ep Idle q0)); unfold on_ipc, zoom; cbn [bipc bsched]; by rewrite Hrecv].
  unfold b_received. rewrite (bind_run _ _ _ _ _ (print_runs _ _ _ _)). cbn zeta.
  rewrite (bind_run _ _ _ _ _ (ep_arena_runs Hep _ _ _)), (bind_run _ _ _ _ _ (task_b_runs _ _ _ _ _ _ _ Hsend)).
  cbn [snd after_switch]. unfold b_sent. by rewrite (yield_leg_runs _ _ _ _ _ _ _ _ _ Hy).
Qed.

(** Task A collects the reply and is done. *)
Definition ending (elapsed_ns : Z) : list Z :=
  line "tyrne: task A — received reply (label=0xbbbb); done" ++ line "tyrne: all tasks complete" ++
  bytes_of "tyrne: boot-to-end elapsed = " ++ decimal elapsed_ns ++ line " ns".

Lemma leg_a_ends s c now : same_tasks s → current s = Some A → sched_ok s [B] → now_ns cpu (cntvct_end env) = Some now →
  a_sent (E := unit) capA cpu boot_ns (cntvct_end env) (demo_at s (put ep (SendPending pong None) q0) c) =
    Some (demo_at s (put ep Idle q0) (c ++ ending (saturating_sub64 now boot_ns)), Ok (Remains Spinning)).
Proof.
  intros Hsame Hc Hs Hnow. destruct (demo_queues (SendPending pong None)) as [Hq Hst]. rewrite Hep in Hq.
  destruct (sole_grants (TABLE_A ts) capA _ _ RECV (tk_a _ Hts) eq_refl) as (Ht & Hg & Hroom).
  destruct (recv_takes (boot_ep_arena ts) {| bsched := s; bipc := {| Ipc.queues := put ep (SendPending pong None) q0; Ipc.table := TABLE_A ts |} |}
    capA ep pong None) as (t & got & [-> ->] & Hrecv & _); [by eexists|done|done|done|apply (tk_arena _ Hts)|done|by left|].
  cbn [bsched bipc Ipc.queues Ipc.table] in Hrecv. rewrite bridge_put_put' in Hrecv.
  unfold a_sent. rewrite (bind_run _ _ _ _ _ (ep_arena_runs Hep _ _ _)), (bind_run _ _ _ _ _ (task_a_runs _ _ _ _ _ _ _ Hrecv)).
  unfold a_received. rewrite !(bind_run _ _ _ _ _ (print_runs _ _ _ _)), Hnow. cbn zeta.
  rewrite (bind_run _ _ _ _ _ (print_runs _ _ _ _)). unfold ret, ending. do 3 f_equal. by rewrite <- !app_assoc.
Qed.
End demo.

(** ** From the boot *)

(** The image holds the greeting at [ptr], and the boot's tables are elsewhere. *)
Record greets (img : Image) (m : Mem) (ptr : Z) : Prop := {
  gr_range : USERSPACE_IMAGE_BASE_VA ≤ ptr ∧
    ptr + Z.of_nat (length GREETING) ≤ USERSPACE_IMAGE_BASE_VA + slice_len (USERSPACE_IMAGE img);
  gr_bytes : ∀ i x, GREETING !! i = Some x →
    m (as_ptr (USERSPACE_IMAGE img) - KERNEL_HIGH_HALF_OFFSET + (ptr - USERSPACE_IMAGE_BASE_VA) + Z.of_nat i) = x;
  gr_apart : program_apart img;
}.

(** The user task can read its greeting, and what it reads is the greeting. *)
Lemma can_greet `{Build} `{Contexts Ctx} {D} img m0 m (b : Booted (Ctx := Ctx) (D := D)) hd a L ptr :
  image_ok img m0 → within (table_frames (boot_pt img)) m0 m → user_program img m b hd a L → greets img m0 ptr →
  accessible (MEMORY (bt_kernel b)) a (window_new USERSPACE_IMAGE_BASE_VA (Z.of_nat (length L) * PAGE_SIZE)) false ptr
    (Z.of_nat (length GREETING)) ∧
  user_bytes (MEMORY (bt_kernel b)) a ptr (length GREETING) = GREETING.
Proof.
  intros Hio Hw Hup [[Hlo Hhi] Hbytes Hapart]. pose proof (up_layout _ _ _ _ _ _ Hup) as Hly.
  pose proof (image_fits (USERSPACE_IMAGE img)) as Hfit. pose proof (ly_image _ _ _ _ _ Hly) as Hip. pose proof (ly_limit _ _ _ _ _ Hly) as Hlim.
  assert (Htop : ptr + Z.of_nat (length GREETING) ≤ USERSPACE_IMAGE_BASE_VA + Z.of_nat (length L) * PAGE_SIZE).
  { unfold PAGE_SIZE in *. lia. }
  set (n := length GREETING) in *. assert (0 < Z.of_nat n) by done. split.
  - apply (access_iff _ _ _ _ _ Hly); cbn [window_new UserAccess.base len lowest].
    + done.
    + lia.
    + lia.
    + right. split; [|done]. unfold in_window. cbn [window_new UserAccess.base len]. unfold U64_MAX. lia.
  - rewrite (access_bytes _ _ USERSPACE_IMAGE_BASE_VA L _ ptr n Hlo Htop (up_bytes _ _ _ _ _ _ Hup)).
    apply list_eq. intros i. rewrite list_lookup_fmap. destruct (decide (i < n)%nat) as [Hi|Hi].
    2:{ rewrite !lookup_ge_None_2 by (rewrite ?length_seq; lia). done. }
    rewrite lookup_seq_lt by done. destruct (lookup_lt_is_Some_2 GREETING i Hi) as [x Hx]. rewrite Hx. cbn. f_equal.
    rewrite (program_kept img m0 m _ Hw Hapart) by lia. rewrite <- (Hbytes i x Hx). f_equal. lia.
Qed.

(** The one capability of the user task is the right to print. *)
Lemma only_console t h : only_cap t h console_cap → console_granted t h.
Proof.
  intros Ho. pose proof (Ho h) as Hc. rewrite decide_True in Hc by done. apply live_Some in Hc as (x & Hx & Hn).
  exists x. assert (capability x = console_cap) as -> by (by apply (f_equal an_cap) in Hn). done.
Qed.

(** What the console shows, in each build. *)
Definition transcript `{Build} (elapsed_ns : Z) : list Z :=
  line "tyrne: task B — waiting for IPC" ++ line "tyrne: task A -- sending IPC" ++
  (if debug_assertions then line "hello from userspace" else []) ++ line "tyrne: userspace task exited" ++
  line "tyrne: task B — received IPC (label=0xaaaa); replying" ++ ending elapsed_ns.

(** The tasks of a booted board. *)
Definition booted_system `{Contexts Ctx} {D} (b : Booted (Ctx := Ctx) (D := D)) : System (Demo Ctx) point :=
  sys_start (bt_kernel b) (TABLE_A (bt_tables b)) (TABLE_B (bt_tables b)) (bt_start b).
Definition booted_run `{Build} `{Contexts Ctx} {D} (env : Env) (b : Booted (Ctx := Ctx) (D := D)) (n : nat) : option (System (Demo Ctx) point) :=
  sys_steps (run_leg (EP_CAP_A (bt_tables b)) (EP_CAP_B (bt_tables b)) (bt_cpu b) (bt_ns b) env) n (booted_system b).

(** The system where the demo ends. *)
Definition demo_end `{Build} `{Contexts Ctx} {D} (img : Image) (b : Booted (Ctx := Ctx) (D := D)) (elapsed_ns : Z) (e : System (Demo Ctx) point) : Prop :=
  running e = 0%nat ∧ points e = [Spinning; BYielded; IdleStart; Gone] ∧ activated e = Some BOOTSTRAP_ADDRESS_SPACE_HANDLE ∧
  CONSOLE (kernel (demo e)) = boot_banner img (bt_cpu b) ++ transcript elapsed_ns ∧ kernel_ok (kernel (demo e)) [task_at 1] ∧
  FAILCLOSED_TABLE (kernel (demo e)) = Some CapTable.new ∧ MEMORY (kernel (demo e)) = MEMORY (bt_kernel b).

Lemma transcript_eq `{Build} con elapsed_ns :
  (((((con ++ line "tyrne: task B — waiting for IPC") ++ line "tyrne: task A -- sending IPC") ++ (if debug_assertions then GREETING else [])) ++
     EXIT_MESSAGE) ++ line "tyrne: task B — received IPC (label=0xaaaa); replying") ++ ending elapsed_ns = con ++ transcript elapsed_ns.
Proof. unfold transcript. change EXIT_MESSAGE with (line "tyrne: userspace task exited"). by rewrite <- !app_assoc. Qed.

(** The system the boot leaves, in the form of the legs. *)
Lemma booted_at `{Build} `{Contexts Ctx} {D} (b : Booted (Ctx := Ctx) (D := D)) :
  IPC_QUEUES (bt_kernel b) = IpcQueues_new → bt_start b = (Some BOOTSTRAP_ADDRESS_SPACE_HANDLE, 1%nat) →
  booted_system b = {| demo := demo_at (bt_kernel b) (bt_tables b) (SCHED (bt_kernel b)) IpcQueues_new (CONSOLE (bt_kernel b));
    points := [AStart; BStart; IdleStart; UserStart]; running := 1; activated := Some BOOTSTRAP_ADDRESS_SPACE_HANDLE |}.
Proof.
  intros Hq Hs. unfold booted_system, sys_start, demo_at, later. rewrite Hs, <- Hq. by destruct (bt_kernel b).
Qed.

(** The next leg of a run. *)
#[local] Ltac do_leg R := erewrite steps_away; [|reflexivity|exact R]; cbn [demo points running activated].

Lemma demo_run `{Build} `{Contexts Ctx} `{Mmio D} img pstate cntfrq cntvct m0 m (d : D) (b : Booted (Ctx := Ctx) (D := D)) hd a L env :
  image_ok img m0 → within (table_frames (boot_pt img)) m0 m → started img pstate cntfrq cntvct m d b → user_program img m b hd a L →
  greets img m0 (greeting_at env) → frame_ok (user_frame env) → is_u64 cntfrq → cntfrq ≠ 0 → is_u64 (cntvct_end env) →
  ∃ u e, booted_run env b 2 = Some u ∧ running u = 3%nat ∧ activated u = Some hd ∧ (∀ n, booted_run env b (5 + n) = Some e) ∧
    demo_end img b (saturating_sub64 (Z.min ((cntvct_end env * NANOS_PER_SECOND) `div` cntfrq) U64_MAX) (bt_ns b)) e.
Proof.
  intros Hio Hw Hst Hup Hgr Hf Hfr Hne Hend.
  destruct (can_greet img m0 m b hd a L _ Hio Hw Hup Hgr) as [Hacc Hbytes].
  destruct (up_caps _ _ _ _ _ _ Hup) as (t & Htabs & Honly & Htab). pose proof (up_window _ _ _ _ _ _ Hup) as Hwin.
  destruct (up_task _ _ _ _ _ _ Hup) as (_ & _ & Has & Hhd). pose proof (up_sched _ _ _ _ _ _ Hup) as Hb.
  destruct (st_tables _ _ _ _ _ _ _ Hst) as (Hts & Hep & Hq0). pose proof (st_kernel _ _ _ _ _ _ _ Hst) as Hk0.
  pose proof (st_cpu _ _ _ _ _ _ _ Hst) as Hcpu. destruct (st_first _ _ _ _ _ _ _ Hst) as (Hstart & _).
  assert (Hnow : now_ns (bt_cpu b) (cntvct_end env) = Some (Z.min ((cntvct_end env * NANOS_PER_SECOND) `div` cntfrq) U64_MAX)).
  { destruct (cpu_ok cntfrq (cntvct_end env) Hfr Hne Hend) as (cpu & Hc & Hn). rewrite Hcpu in Hc. by injection Hc as <-. }
  set (k0 := bt_kernel b) in *. set (ts := bt_tables b) in *. set (now := Z.min _ U64_MAX) in *.
  set (c1 := CONSOLE k0 ++ line "tyrne: task B — waiting for IPC"). set (c2 := c1 ++ line "tyrne: task A -- sending IPC").
  set (c3 := (c2 ++ if debug_assertions then GREETING else []) ++ EXIT_MESSAGE).
  set (c4 := c3 ++ line "tyrne: task B — received IPC (label=0xaaaa); replying").
  destruct (leg_b_waits img hd (bt_loaded b) k0 ts Hk0 Hb Hts Hep Hq0 (CONSOLE k0)) as (s1 & R1 & rq & -> & Hrq).
  destruct (leg_a_sends img hd (bt_loaded b) k0 ts (bt_cpu b) (bt_ns b) env Hk0 Hb Hts Hep Hq0 Hhd rq c1 Hrq) as (s2 & R2 & Same2 & Cur2 & Ok2).
  destruct (leg_user img hd (bt_loaded b) k0 ts env Hk0 Hb Hts Hep Hq0) with (p := USER_TASK_TABLE img) (t := t)
    (w := window_new USERSPACE_IMAGE_BASE_VA (Z.of_nat (length L) * PAGE_SIZE)) (a := a) (s := s2) (c := c2) (st := RecvComplete ping None)
    as (s3 & R3 & Same3 & Cur3 & Ok3); try done.
  { by rewrite Htab. }
  { by rewrite Hwin. }
  { rewrite Htabs. apply lookup_singleton_eq. }
  { by apply only_console. }
  { destruct (gr_range _ _ _ Hgr). pose proof (ly_limit _ _ _ _ _ (up_layout _ _ _ _ _ _ Hup)). destruct Hacc as [?|(? & _)]; [done|].
    unfold in_window in *. cbn [window_new UserAccess.base len] in *. unfold is_u64, U64_MAX, USERSPACE_IMAGE_BASE_VA in *. lia. }
  destruct (leg_b_replies img hd (bt_loaded b) k0 ts Hk0 Hb Hts Hep Hq0 s3 c3 Same3 Cur3 Ok3) as (s4 & R4 & Same4 & Cur4 & Ok4).
  pose proof (leg_a_ends k0 ts (bt_cpu b) (bt_ns b) env Hk0 Hts Hep Hq0 s4 c4 _ Same4 Cur4 Ok4 Hnow) as R5.
  destruct (demo_queues Hk0 (tk_arena _ Hts) Hep Hq0 Idle) as [Hqi _].
  pose proof (booted_at b Hq0 Hstart) as Hy0.
  assert (Hrun : ∀ n, booted_run env b (2 + n) = sys_steps (run_leg (EP_CAP_A ts) (EP_CAP_B ts) (bt_cpu b) (bt_ns b) env) n
    {| demo := demo_at k0 ts s2 (put demo_endpoint (RecvComplete ping None) IpcQueues_new) c2;
       points := [ASent; BReceiving; IdleStart; UserStart]; running := 3; activated := Some hd |}).
  { intros n. unfold booted_run. rewrite Hy0. cbn [Nat.add]. do_leg R1. by do_leg R2. }
  eexists _, _. split; [exact (Hrun 0%nat)|]. do 2 (split; [done|]). split.
  { intros n. change (5 + n)%nat with (2 + S (S (S n)))%nat. rewrite Hrun.
    do_leg R3. do_leg R4. erewrite steps_remains; [|reflexivity|exact R5]. by apply (steps_stay _ _ _ Spinning). }
  do 3 (split; [done|]). split; [rewrite <- (st_console _ _ _ _ _ _ _ Hst); apply transcript_eq|].
  split; [by apply (later_ok Hk0)|]. split; [apply (st_fallback _ _ _ _ _ _ _ Hst)|done].
Qed.

(** C11: the board runs its tasks to the end.  On any image the linker placed as it says
    that holds the greeting, with any stack pointer, counter and interrupt controller,
    in either build: the board boots; task B waits for a message and task A sends it;
    B is woken behind the user task, so that the user task is the third to run, in its
    own address space; through real system calls - the registers of the wrappers, the
    trap, the dispatcher, the copy through the page tables the loader made - the user
    program greets (a release build refuses the call, and the program goes on) and
    exits; B receives the message and replies, A receives the reply, and from the fifth
    leg on the system stays where it is, A spinning and B ready.  No leg panics, no
    call is refused but that one, no task deadlocks.  The console shows exactly the
    lines of the boot and the transcript of that run, with the time the clock measured; memory is as the boot
    left it and the kernel's state is well formed. *)
Theorem demo_runs_to_the_end `{Build} `{Contexts Ctx} `{Mmio D} img sp0 pstate cntfrq cntvct (s : BootState) (d : D) (env : Env) :
  image_ok img (boot_mem s) → 0 ≤ sp0 < 0x100000000 → is_u64 cntfrq → cntfrq ≠ 0 → is_u64 cntvct →
  greets img (boot_mem s) (greeting_at env) → frame_ok (user_frame env) → is_u64 (cntvct_end env) →
  ∃ s' ctl b hd a L u e, boot (Ctx := Ctx) img sp0 pstate cntfrq cntvct s d = Some (s', ctl, b) ∧ user_program img (boot_mem s') b hd a L ∧
    cpu_new cntfrq = Some (bt_cpu b) ∧ booted_run env b 2 = Some u ∧ running u = 3%nat ∧ activated u = Some hd ∧
    (∀ n, booted_run env b (5 + n) = Some e) ∧
    demo_end img b (saturating_sub64 (Z.min ((cntvct_end env * NANOS_PER_SECOND) `div` cntfrq) U64_MAX)
                                 (Z.min ((cntvct * NANOS_PER_SECOND) `div` cntfrq) U64_MAX)) e.
Proof.
  intros Hio Hsp Hf Hne Hv Hgr Hfr Hend. destruct (enter_high img sp0 s Hio Hsp) as (s1 & ctl & s2 & H1' & H2 & He).
  destruct (kernel_main_ok (Ctx := Ctx) img pstate cntfrq cntvct (boot_mem s) (boot_mem s2) d Hio) as (b & hd & a & L & Hk & Hst & Hup); [|done..|].
  { apply mapped_from_boot; apply He. }
  destruct (demo_run img pstate cntfrq cntvct (boot_mem s) (boot_mem s2) d b hd a L env Hio (en_within _ _ _ _ _ He) Hst Hup Hgr Hfr Hf Hne Hend)
    as (u & e & R2 & Hr & Ha & R5 & Hdone). rewrite (st_clock _ _ _ _ _ _ _ Hst) in Hdone.
  exists s2, ctl, b, hd, a, L, u, e. split; [|split; [done|]; split; [exact (st_cpu _ _ _ _ _ _ _ Hst)|done]]. unfold boot. rewrite H1'. cbn [mbind option_bind early early_console]. rewrite H2. cbn [mbind option_bind].
  rewrite Hk. done.
Qed.

(** ** A sample run *)

(** The sample image with the greeting 256 bytes into the program. *)
Definition hello_memory : Mem := λ pa,
  if decide (0x40090100 ≤ pa < 0x40090100 + 21) then default 0 (GREETING !! Z.to_nat (pa - 0x40090100)) else 0.
Definition hello_state : BootState := {| boot_mem := hello_memory; sys := sys sample_boot_state |}.
Definition hello_env : Env := {| greeting_at := 0x800100; user_frame := {| regs := replicate 34 0 |}; cntvct_end := 2000 |}.

Lemma hello_image_ok : image_ok BootProps.sample_image (boot_mem hello_state).
Proof.
  destruct sample_image_ok as [[L1 L2 L3] ? ? ? ? ? ? ?]. split; [split; [exact L1|exact L2|]|done..].
  intros f b Hf Hb. cbn [hello_state boot_mem]. unfold hello_memory. rewrite decide_False; [done|].
  cbn [BootProps.sample_image boot_pt] in Hf. unfold table_frames in Hf. rewrite !elem_of_cons, elem_of_nil in Hf. unfold PAGE_SIZE in Hb.
  destruct Hf as [->|[->|[->|[->|[->|[->|[]]]]]]]; cbn in Hb; lia.
Qed.

Lemma hello_greets : greets BootProps.sample_image (boot_mem hello_state) (greeting_at hello_env).
Proof.
  split.
  - by split.
  - intros i x Hi. cbn [hello_state boot_mem hello_env greeting_at BootProps.sample_image USERSPACE_IMAGE as_ptr]. unfold hello_memory.
    pose proof (lookup_lt_Some _ _ _ Hi) as Hlt. change (length GREETING) with 21%nat in Hlt.
    unfold KERNEL_HIGH_HALF_OFFSET, USERSPACE_IMAGE_BASE_VA. rewrite decide_True by lia.
    replace (Z.to_nat _) with i by lia. by rewrite Hi.
  - intros f Hf k Hk. cbn [BootProps.sample_image boot_pt] in Hf. unfold table_frames in Hf. rewrite !elem_of_cons, elem_of_nil in Hf.
    cbn [BootProps.sample_image USERSPACE_IMAGE as_ptr slice_len]. unfold PAGE_SIZE, KERNEL_HIGH_HALF_OFFSET in *.
    destruct Hf as [->|[->|[->|[->|[->|[->|[]]]]]]]; cbn in Hk; lia.
Qed.

(** 1000 ticks at 62.5 MHz are 16 microseconds: the transcript of a debug build. *)
Lemma demo_runs_to_the_end_witness :
  ∃ s' ctl b e, boot (Ctx := unit) (D := list (Z * Z)) (H := debug_build) (H0 := no_contexts) BootProps.sample_image 0x40100000 0x3c5 62500000 1000
      hello_state [] = Some (s', ctl, b) ∧
    booted_run (H := debug_build) (H0 := no_contexts) hello_env b 5 = Some e ∧
    CONSOLE (kernel (demo e)) =
      line "tyrne: hello from kernel_main" ++ line "tyrne: mmu activated" ++ line "tyrne: high-half active" ++
      line "tyrne: pmm initialized (32512 frames available; 256 reserved)" ++
      line "tyrne: address-space-arena ready (1 / 8 slots used; bootstrap AS root = 0x400a0000)" ++
      line "tyrne: timer ready (62500000 Hz, resolution 16 ns)" ++ line "tyrne: starting cooperative scheduler" ++
      line "tyrne: task B — waiting for IPC" ++ line "tyrne: task A -- sending IPC" ++ line "hello from userspace" ++
      line "tyrne: userspace task exited" ++ line "tyrne: task B — received IPC (label=0xaaaa); replying" ++
      line "tyrne: task A — received reply (label=0xbbbb); done" ++ line "tyrne: all tasks complete" ++
      line "tyrne: boot-to-end elapsed = 16000 ns".
Proof.
  destruct (demo_runs_to_the_end (Ctx := unit) (H := debug_build) (H0 := no_contexts) BootProps.sample_image 0x40100000 0x3c5 62500000 1000
    hello_state ([] : list (Z * Z)) hello_env) as (s' & ctl & b & hd & a & L & u & e & Hrun & _ & Hcpu & _ & _ & _ & Hend & Hdone);
    [exact hello_image_ok|by split|by split|done|by split|exact hello_greets| |by split|].
  { split; [done|]. cbn [user_frame hello_env regs]. by apply Forall_replicate. }
  destruct Hdone as (_ & _ & _ & Hc & _). exists s', ctl, b, e. split; [exact Hrun|]. split; [exact (Hend 0%nat)|].
  clear Hrun Hend. assert (Hn : cpu_new 62500000 = Some {| frequency_hz := 62500000; resolution_ns := 16 |}) by (vm_compute; exact eq_refl).
  rewrite Hn in Hcpu. apply (inj Some) in Hcpu. rewrite Hc, <- Hcpu. vm_compute. exact eq_refl.
Defined.
