(* ===== verification/Bench.v ===== *)
(** * The system-call timer of the measurement build (bsp-qemu-virt/src/perf_bench.rs)

Under [perf-bench] the trap passes each directive through [el0_roundtrip_tick], which
times the interval from one entry to the next and, after enough of them, prints the mean
and ends the task.  The three atomics are 64-bit words; the counter's reading is an
argument. *)

From Stdlib Require Import Ascii String.
From S2P Require Import Prelude.
From S2P Require Import Timer.
From S2P Require Import Gic.
From S2P Require Import Abi.
From S2P Require Import Text.
From S2P Require Import UserLib.
From S2P Require Import Demo.
Local Open Scope Z_scope.

Definition N_EL0_ROUNDTRIPS : Z := 50000.
Definition EL0_WARMUP : Z := 256.

Record El0Bench := { EL0_PREV_NS : Z; EL0_ENTRY_COUNT : Z; EL0_ACCUM_NS : Z }.
Definition El0Bench_zero : El0Bench := {| EL0_PREV_NS := 0; EL0_ENTRY_COUNT := 0; EL0_ACCUM_NS := 0 |}.

(** The line it prints, for the sum of the intervals. *)
Definition el0_report (total : Z) : list Z :=
  bytes_of "tyrne: perf el0 syscall round-trip = " ++ decimal (total `div` N_EL0_ROUNDTRIPS) ++
  bytes_of " ns/syscall (kernel-side, hook-to-hook; rejected no-op svc; N=" ++ decimal N_EL0_ROUNDTRIPS ++ bytes_of ", " ++
  decimal total ++ line " ns total)".

(** The directive that goes on, and what is printed. *)
Definition el0_roundtrip_tick (CPU : QemuVirtCpu) (cntvct_el0 : Z) (effect : SyscallEffect) (s : El0Bench) :
    option (El0Bench * (SyscallEffect * list Z)) :=
  now ← now_ns CPU cntvct_el0;
  let prev := EL0_PREV_NS s in
  let n := EL0_ENTRY_COUNT s in
  let s := {| EL0_PREV_NS := now; EL0_ENTRY_COUNT := wrapping_add64 n 1; EL0_ACCUM_NS := EL0_ACCUM_NS s |} in
  if bool_decide (n = 0) || bool_decide (n ≤ EL0_WARMUP) then Some (s, (effect, [])) else
  let s := {| EL0_PREV_NS := now; EL0_ENTRY_COUNT := EL0_ENTRY_COUNT s;
              EL0_ACCUM_NS := wrapping_add64 (EL0_ACCUM_NS s) (saturating_sub64 now prev) |} in
  if bool_decide (EL0_WARMUP + N_EL0_ROUNDTRIPS ≤ n) then
    Some (s, (Terminate 0, el0_report (EL0_ACCUM_NS s)))
  else Some (s, (effect, [])).

(** Entry after entry: the same rejected call each time, until the task is ended. *)
Fixpoint el0_entries (CPU : QemuVirtCpu) (effect : SyscallEffect) (readings : list Z) (s : El0Bench) :
    option (El0Bench * list (SyscallEffect * list Z)) :=
  match readings with
  | [] => Some (s, [])
  | c :: readings =>
      '(s, x) ← el0_roundtrip_tick CPU c effect s;
      '(s, xs) ← el0_entries CPU effect readings s;
      Some (s, x :: xs)
  end.

(** ** What it measures *)

Section bench.
  Context (CPU : QemuVirtCpu) (effect : SyscallEffect).
  Hypothesis freq_ok : is_u64 (frequency_hz CPU) ∧ frequency_hz CPU ≠ 0.

Definition at_ns (c : Z) : Z := Z.min ((c * NANOS_PER_SECOND) `div` frequency_hz CPU) U64_MAX.

Lemma at_ns_range c : is_u64 c → is_u64 (at_ns c).
Proof.
  intros [? ?]. destruct freq_ok as [[? ?] ?]. unfold at_ns, U64_MAX, NANOS_PER_SECOND.
  pose proof (Z.div_pos (c * 1000000000) (frequency_hz CPU)). split; lia.
Qed.

Lemma at_ns_mono c c' : c ≤ c' → at_ns c ≤ at_ns c'.
Proof.
  intros Hc. destruct freq_ok as [[? ?] ?]. unfold at_ns, NANOS_PER_SECOND.
  pose proof (Z.div_le_mono (c * 1000000000) (c' * 1000000000) (frequency_hz CPU)). lia.
Qed.

(** A tick on each of its three branches. *)
Lemma tick_runs c s : is_u64 c → el0_roundtrip_tick CPU c effect s =
  let n := EL0_ENTRY_COUNT s in
  let total := wrapping_add64 (EL0_ACCUM_NS s) (saturating_sub64 (at_ns c) (EL0_PREV_NS s)) in
  if decide (n = 0 ∨ n ≤ EL0_WARMUP) then
    Some ({| EL0_PREV_NS := at_ns c; EL0_ENTRY_COUNT := wrapping_add64 n 1; EL0_ACCUM_NS := EL0_ACCUM_NS s |}, (effect, []))
  else Some ({| EL0_PREV_NS := at_ns c; EL0_ENTRY_COUNT := wrapping_add64 n 1; EL0_ACCUM_NS := total |},
             if decide (EL0_WARMUP + N_EL0_ROUNDTRIPS ≤ n) then (Terminate 0, el0_report total) else (effect, [])).
Proof.
  intros Hc. unfold el0_roundtrip_tick, now_ns. rewrite (ticks_to_ns_eq (frequency_hz CPU)) by (apply freq_ok || done).
  cbn [mbind option_bind]. fold (at_ns c). cbv zeta. cbn [EL0_PREV_NS EL0_ENTRY_COUNT EL0_ACCUM_NS].
  destruct (decide (EL0_ENTRY_COUNT s = 0 ∨ EL0_ENTRY_COUNT s ≤ EL0_WARMUP)) as [Hw|Hw].
  - destruct Hw as [Hw|Hw]; [rewrite (bool_decide_true _ Hw)|rewrite (bool_decide_true _ Hw), orb_true_r]; reflexivity.
  - rewrite (bool_decide_false (EL0_ENTRY_COUNT s = 0)), (bool_decide_false (EL0_ENTRY_COUNT s ≤ EL0_WARMUP)) by (intros ?; apply Hw; auto).
    destruct (decide _) as [Hn|Hn]; [rewrite (bool_decide_true _ Hn)|rewrite (bool_decide_false _ Hn)]; reflexivity.
Qed.

Lemma entries_snoc l c : ∀ s, el0_entries CPU effect (l ++ [c]) s =
  '(s, xs) ← el0_entries CPU effect l s; '(s, x) ← el0_roundtrip_tick CPU c effect s; Some (s, xs ++ [x]).
Proof.
  induction l as [|d l IH]; intros s; cbn [app el0_entries].
  - cbn. by destruct (el0_roundtrip_tick CPU c effect s) as [[s1 x]|].
  - destruct (el0_roundtrip_tick CPU d effect s) as [[s1 x]|]; [|done]. cbn [mbind option_bind]. rewrite IH.
    destruct (el0_entries CPU effect l s1) as [[s2 xs]|]; [|done]. cbn [mbind option_bind].
    by destruct (el0_roundtrip_tick CPU c effect s2) as [[s3 y]|].
Qed.

(** The counter never runs backwards. *)
Definition clock_readings (cs : list Z) : Prop :=
  Forall is_u64 cs ∧ ∀ i j a b, (i ≤ j)%nat → cs !! i = Some a → cs !! j = Some b → a ≤ b.

Lemma clock_readings_snoc l c : clock_readings (l ++ [c]) → clock_readings l ∧ is_u64 c ∧ ∀ i a, l !! i = Some a → a ≤ c.
Proof.
  intros [Hf Hm]. apply Forall_app in Hf as [Hl Hc]. apply Forall_cons in Hc as [Hc _]. split; [split; [exact Hl|]|split; [exact Hc|]].
  - intros i j a b Hij Ha Hb. apply (Hm i j a b Hij); by apply lookup_app_l_Some.
  - intros i a Ha. apply (Hm i (length l) a c); [apply lookup_lt_Some in Ha; lia|by apply lookup_app_l_Some|by apply list_lookup_middle].
Qed.

(** The clock from the end of the warm-up to the last reading. *)
Definition timed (cs : list Z) : Z :=
  match cs !! Z.to_nat EL0_WARMUP, last cs with Some a, Some b => at_ns b - at_ns a | _, _ => 0 end.

Definition after (cs : list Z) : El0Bench :=
  {| EL0_PREV_NS := match last cs with Some c => at_ns c | None => 0 end; EL0_ENTRY_COUNT := Z.of_nat (length cs);
     EL0_ACCUM_NS := timed cs |}.

Lemma timed_snoc l c : clock_readings (l ++ [c]) →
  timed (l ++ [c]) = if decide (length l ≤ Z.to_nat EL0_WARMUP)%nat then 0
    else wrapping_add64 (timed l) (saturating_sub64 (at_ns c) (EL0_PREV_NS (after l))).
Proof.
  intros (Hl & Hc & Hle)%clock_readings_snoc. unfold timed, after. cbn [EL0_PREV_NS]. rewrite last_snoc. case_decide as Hn.
  - destruct (decide (length l = Z.to_nat EL0_WARMUP)) as [<-|Hne]; [rewrite list_lookup_middle by done; lia|].
    by rewrite lookup_ge_None_2 by (rewrite length_app; cbn; lia).
  - destruct (lookup_lt_is_Some_2 l (Z.to_nat EL0_WARMUP)) as [a Ha]; [lia|]. rewrite lookup_app_l, Ha by lia.
    destruct (last l) as [b|] eqn:Hb; [|apply last_None in Hb; subst l; cbn in Hn; lia]. rewrite last_lookup in Hb.
    assert (at_ns a ≤ at_ns b) by (apply at_ns_mono, (proj2 Hl (Z.to_nat EL0_WARMUP) (pred (length l))); [lia|done|done]).
    assert (at_ns b ≤ at_ns c) by (by eapply at_ns_mono, Hle). pose proof (at_ns_range c Hc). destruct Hl as [Hl _].
    assert (is_u64 a) as Hra by (by eapply Forall_lookup_1). apply at_ns_range in Hra.
    unfold wrapping_add64, saturating_sub64, is_u64 in *. rewrite Z.mod_small; lia.
Qed.

Lemma entries_before_end cs : clock_readings cs → Z.of_nat (length cs) ≤ EL0_WARMUP + N_EL0_ROUNDTRIPS →
  el0_entries CPU effect cs El0Bench_zero = Some (after cs, replicate (length cs) (effect, [])).
Proof.
  induction cs as [|c l IH] using rev_ind; intros Hcs Hn.
  { cbn. unfold after, timed. by rewrite lookup_nil. }
  rewrite length_app in Hn. cbn in Hn. pose proof (timed_snoc l c Hcs) as Ht. apply clock_readings_snoc in Hcs as (Hl & Hc & _).
  rewrite entries_snoc, IH by (done || lia). cbn [mbind option_bind]. rewrite tick_runs by done. cbv zeta.
  change (EL0_ENTRY_COUNT (after l)) with (Z.of_nat (length l)).
  replace (wrapping_add64 (Z.of_nat (length l)) 1) with (Z.of_nat (length l + 1))
    by (unfold wrapping_add64, EL0_WARMUP, N_EL0_ROUNDTRIPS in *; rewrite Z.mod_small; lia).
  assert (Hafter : after (l ++ [c]) = {| EL0_PREV_NS := at_ns c; EL0_ENTRY_COUNT := Z.of_nat (length l + 1); EL0_ACCUM_NS := timed (l ++ [c]) |})
    by (unfold after; by rewrite last_snoc, length_app).
  rewrite Hafter, Ht, length_app, replicate_add. unfold EL0_WARMUP in *.
  destruct (decide (length l ≤ Z.to_nat 256)%nat) as [Hw|Hw].
  - rewrite decide_True by lia. assert (timed l = 0) as H0; [|by cbn; rewrite H0].
    unfold timed, EL0_WARMUP. by rewrite lookup_ge_None_2 by lia.
  - rewrite decide_False by lia. rewrite decide_False by lia. done.
Qed.

(** The measurement: every entry up to the last goes on with its own directive and prints
    nothing; the entry that follows the warm-up and [N_EL0_ROUNDTRIPS] timed intervals
    ends the task and prints the time from the end of the warm-up to it, with its mean. *)
Lemma el0_bench_measures cs c : clock_readings (cs ++ [c]) → Z.of_nat (length cs) = EL0_WARMUP + N_EL0_ROUNDTRIPS →
  el0_entries CPU effect (cs ++ [c]) El0Bench_zero =
    Some (after (cs ++ [c]), replicate (length cs) (effect, []) ++ [(Terminate 0, el0_report (timed (cs ++ [c])))]).
Proof.
  intros Hcs Hn. pose proof (timed_snoc cs c Hcs) as Ht. apply clock_readings_snoc in Hcs as (Hl & Hc & _).
  rewrite entries_snoc, entries_before_end by (done || lia). cbn [mbind option_bind]. rewrite tick_runs by done. cbv zeta.
  change (EL0_ENTRY_COUNT (after cs)) with (Z.of_nat (length cs)). change (EL0_ACCUM_NS (after cs)) with (timed cs).
  rewrite decide_False in Ht by (unfold EL0_WARMUP, N_EL0_ROUNDTRIPS in *; lia). rewrite <- Ht.
  assert (Hafter : after (cs ++ [c]) = {| EL0_PREV_NS := at_ns c; EL0_ENTRY_COUNT := wrapping_add64 (Z.of_nat (length cs)) 1;
      EL0_ACCUM_NS := timed (cs ++ [c]) |}).
  { unfold after. rewrite last_snoc, length_app. f_equal. unfold wrapping_add64, EL0_WARMUP, N_EL0_ROUNDTRIPS in *.
    rewrite Z.mod_small; cbn [length]; lia. }
  rewrite Hafter, Hn. rewrite decide_False by (unfold EL0_WARMUP, N_EL0_ROUNDTRIPS; lia). rewrite decide_True by lia. done.
Qed.
End bench.
