(* ===== verification/BenchRun.v ===== *)
(** * The measurement build (bsp-qemu-virt/src/perf_bench.rs)

Under [perf-bench] the kernel runs no demo: [run] loads a program of three instructions
that loops a rejected system call, registers it with two kernel tasks, the driver and the
partner, and starts the scheduler.  The bodies of the tasks are cut into legs, as those
of the demo are; the user program is run instruction by instruction from the bytes its
address space holds.  A reading of the counter takes the next of a given sequence.  This
build never writes the fail-closed table. *)

From Stdlib Require Import Ascii String.
From stdpp Require Import gmap.
From S2P Require Import Prelude.
From S2P Require Import Hal.
From S2P Require Import Arena.
From S2P Require Import Objects.
From S2P Require Import Caps.
From S2P Require Import CapTable.
From S2P Require Import Ipc.
From S2P Require Import SyscallError.
From S2P Require Import Abi.
From S2P Require Import UserAccess.
From S2P Require Import UserAccessOps.
From S2P Require Import Dispatch.
From S2P Require Import Pmm.
From S2P Require Import Words.
From S2P Require Import QemuMmu.
From S2P Require Import BootMmu.
From S2P Require Import AddressSpace.
From S2P Require Import TaskLoader.
From S2P Require Import UserProgram.
From S2P Require Import Timer.
From S2P Require Import Gic.
From S2P Require Import Sched.
From S2P Require Import SyscallEntry.
From S2P Require Import Text.
From S2P Require Import Boot.
From S2P Require Import UserLib.
From S2P Require Import Legs.
From S2P Require Import Demo.
From S2P Require Import Bench.
Local Open Scope Z_scope.

Definition N_CTX_ROUNDTRIPS : Z := 50000.
Definition N_IPC_CYCLES : Z := 50000.
Definition WARMUP : Z := 256.

Definition PHASE_CTX : Z := 0.
Definition PHASE_IPC : Z := 1.
Definition PHASE_DONE : Z := 2.

Definition BENCH_EP_CAP : CapHandle := CapHandle_from_raw 0 0.

Definition BENCH_EL0_IMAGE : list Z :=
  [0x08; 0x00; 0x80; 0xd2;
   0x01; 0x00; 0x00; 0xd4;
   0xff; 0xff; 0xff; 0x17].

(** ** The program's instructions *)

Inductive el0_instr :=
| Movz (rd : nat) (imm : Z)
| Svc
| B (offset : Z).

(** [movz x<rd>, #imm], [svc #imm] and [b] with its signed offset in words. *)
Definition decode_instr (w : Z) : option el0_instr :=
  if bool_decide (Z.land w 0xFFE00000 = 0xD2800000) then Some (Movz (Z.to_nat (Z.land w 0x1F)) (Z.land (Z.shiftr w 5) 0xFFFF))
  else if bool_decide (Z.land w 0xFFE0001F = 0xD4000001) then Some Svc
  else if bool_decide (Z.land w 0xFC000000 = 0x14000000) then
    let imm26 := Z.land w 0x3FFFFFF in
    Some (B (4 * (if Z.testbit imm26 25 then imm26 - 2 ^ 26 else imm26)))
  else None.

(** The registers of the program are kept as a trap would save them: the program counter
    is where the trap saves the return address. *)
Definition PC_REG : nat := 32.
Definition first_frame (entry sp : Z) : SyscallTrapFrame := {| regs := replicate 31 0 ++ [sp; entry; 0x3c0] |}.

(** ** The machine *)

Record Bench (Ctx : Type) := {
  bdemo : Demo Ctx;
  PHASE : Z;
  el0_bench : El0Bench;
  readings : nat;
}.
Arguments Build_Bench {Ctx} bdemo PHASE el0_bench readings.
Arguments bdemo {Ctx} _.
Arguments PHASE {Ctx} _.
Arguments el0_bench {Ctx} _.
Arguments readings {Ctx} _.

(** Where a task is resumed; a loop carries the iterations begun, a timed one the time of
    its start. *)
Inductive place :=
| CtxWarm (i : Z) | CtxTimed (i t0 : Z)
| IpcWarm (i : Z) | IpcTimed (i t0 : Z)
| DriverParked
| PartnerLoop | PartnerReceiving
| IdleLoop
| El0 (f : SyscallTrapFrame)
| El0Gone.

(** The two reports. *)
Definition ctx_report (elapsed : Z) : list Z :=
  let switches := 2 * N_CTX_ROUNDTRIPS in
  bytes_of "tyrne: perf ctx-switch = " ++ decimal (elapsed `div` switches) ++ bytes_of " ns/switch (" ++
  decimal (elapsed `div` N_CTX_ROUNDTRIPS) ++ bytes_of " ns/round-trip; N=" ++ decimal N_CTX_ROUNDTRIPS ++
  bytes_of " round-trips = " ++ decimal switches ++ bytes_of " switches, " ++ decimal elapsed ++ line " ns total)".
Definition ipc_report (elapsed : Z) : list Z :=
  bytes_of "tyrne: perf ipc send-recv cycle = " ++ decimal (elapsed `div` N_IPC_CYCLES) ++
  bytes_of " ns/cycle (1 send + 1 recv + 2 ctx-switch; N=" ++ decimal N_IPC_CYCLES ++ bytes_of ", " ++
  decimal elapsed ++ line " ns total)".

Section bench.
  Context `{Build} `{Translate QemuVirtAddressSpace} `{Contexts Ctx}.
  Context (CPU : QemuVirtCpu) (cntvct_el0 : nat → Z).

Definition on_demo {E A} (m : M (Demo Ctx) E A) : M (Bench Ctx) E A :=
  zoom bdemo (λ d b, {| bdemo := d; PHASE := PHASE b; el0_bench := el0_bench b; readings := readings b |}) m.
Definition set_PHASE {E} (p : Z) : M (Bench Ctx) E unit :=
  modify (λ b, {| bdemo := bdemo b; PHASE := p; el0_bench := el0_bench b; readings := readings b |}).

(** [cpu.now_ns()] *)
Definition read_clock {E} : M (Bench Ctx) E Z := λ b,
  match now_ns CPU (cntvct_el0 (readings b)) with
  | Some now => Some ({| bdemo := bdemo b; PHASE := PHASE b; el0_bench := el0_bench b; readings := S (readings b) |}, Ok now)
  | None => None
  end.

(** ** The kernel's tasks *)

Definition driver_yield {E} (at_ : place) : M (Bench Ctx) E (leg place) :=
  let* d := on_demo (must (on_kernel (zoom SCHED set_SCHED yield_now))) in
  after_switch d at_ (ret (Remains at_)).

Definition driver_send {E} (at_ : place) : M (Bench Ctx) E (leg place) :=
  let msg := {| label := 0xBE0C; params := (0, 0, 0) |} in
  let* ep_arena := on_demo ep_arena_of in
  let* r := on_demo (must (as_task_a (ipc_send_and_yield ep_arena BENCH_EP_CAP msg None))) in
  after_switch r.2 at_ (ret (Remains at_)).

(** [bench_driver], loop by loop. *)
Definition ctx_warm {E} (i : Z) : M (Bench Ctx) E (leg place) :=
  if bool_decide (i < WARMUP) then driver_yield (CtxWarm (i + 1)) else
  let* t0 := read_clock in
  ret (Remains (CtxTimed 0 t0)).

Definition ctx_timed {E} (i t0 : Z) : M (Bench Ctx) E (leg place) :=
  if bool_decide (i < N_CTX_ROUNDTRIPS) then driver_yield (CtxTimed (i + 1) t0) else
  let* now := read_clock in
  let elapsed := saturating_sub64 now t0 in
  on_demo (print (ctx_report elapsed)) ;;
  set_PHASE PHASE_IPC ;;
  driver_yield (IpcWarm 0).

Definition ipc_warm {E} (i : Z) : M (Bench Ctx) E (leg place) :=
  if bool_decide (i < WARMUP) then driver_send (IpcWarm (i + 1)) else
  let* t0 := read_clock in
  ret (Remains (IpcTimed 0 t0)).

Definition ipc_timed {E} (i t0 : Z) : M (Bench Ctx) E (leg place) :=
  if bool_decide (i < N_IPC_CYCLES) then driver_send (IpcTimed (i + 1) t0) else
  let* now := read_clock in
  let elapsed := saturating_sub64 now t0 in
  on_demo (print (ipc_report elapsed)) ;;
  set_PHASE PHASE_DONE ;;
  on_demo (print (line "tyrne: perf-bench complete")) ;;
  ret (Remains DriverParked).

(** [partner_recv]: the call, and what is left of it after a block. *)
Definition partner_recv {E} : M (Bench Ctx) E (leg place) :=
  let* ep_arena := on_demo ep_arena_of in
  let* phase := on_demo (must (as_task_b (ipc_recv_and_yield ep_arena BENCH_EP_CAP))) in
  match phase with
  | RecvDone _ => ret (Remains PartnerLoop)
  | RecvBlocked _ next activate => ret (Away activate next PartnerReceiving)
  end.
Definition partner_receiving {E} : M (Bench Ctx) E (leg place) :=
  let* ep_arena := on_demo ep_arena_of in
  let* _ := on_demo (must (as_task_b (on_ipc (ipc_recv_resume ep_arena BENCH_EP_CAP)))) in
  ret (Remains PartnerLoop).

(** [bench_partner]: one round of its loop. *)
Definition bench_partner {E} : M (Bench Ctx) E (leg place) := λ b,
  (if bool_decide (PHASE b = PHASE_CTX) then driver_yield PartnerLoop
   else if bool_decide (PHASE b = PHASE_IPC) then partner_recv
   else ret (Remains PartnerLoop)) b.

(** ** The user program *)

(** [syscall_entry] of this build: the directive goes through the timer. *)
Definition bench_entry {E} (f : SyscallTrapFrame) : M (Bench Ctx) E trap := λ b,
  match make_context (kernel (bdemo b)) with
  | None => None
  | Some (ctx, p) =>
      match Dispatch.dispatch (E := unit) (syscall_args f) ctx with
      | Some (ctx', Ok effect) =>
          match el0_roundtrip_tick CPU (cntvct_el0 (readings b)) effect (el0_bench b) with
          | None => None
          | Some (t, (effect, printed)) =>
              let k := write_console printed (commit p ctx' (kernel (bdemo b))) in
              let d := {| kernel := k; demo_table_a := demo_table_a (bdemo b); demo_table_b := demo_table_b (bdemo b) |} in
              on_demo (on_kernel (apply_effect effect f))
                {| bdemo := d; PHASE := PHASE b; el0_bench := t; readings := S (readings b) |}
          end
      | _ => None
      end
  end.

(** The word at an address of the running user task, if it may execute there. *)
Definition fetch (k : Kernel QemuVirtAddressSpace Ctx) (pc : Z) : option Z :=
  match user_task k with
  | Some (Some (_, _, a)) =>
      match UserAccess.translate (MEMORY k) a (page_base_of pc) with
      | Ok (_, flags) =>
          if flags_contains flags USER && flags_contains flags EXECUTE
          then Some (le_read (λ v, MEMORY k (uaddr (MEMORY k) a v)) pc 4) else None
      | Err _ => None
      end
  | _ => None
  end.

(** One instruction of the user program. *)
Definition el0_leg {E} (f : SyscallTrapFrame) : M (Bench Ctx) E (leg place) := λ b,
  let pc := arg (regs f) PC_REG in
  match fetch (kernel (bdemo b)) pc ≫= decode_instr with
  | None => None
  | Some (Movz rd imm) =>
      Some (b, Ok (Remains (El0 (set_reg PC_REG (pc + 4) (if bool_decide (rd = 31%nat) then f else set_reg rd imm f)))))
  | Some (B offset) => Some (b, Ok (Remains (El0 (set_reg PC_REG (pc + offset) f))))
  | Some Svc =>
      bind (bench_entry (set_reg PC_REG (pc + 4) f)) (λ t,
        match t with
        | Returned f => ret (Remains (El0 f))
        | Rescheduled d f => after_switch d (El0 f) (ret (Remains (El0 f)))
        | Exited (activate, next) => ret (Away activate next El0Gone)
        end) b
  end.

(** ** The system *)

Definition bench_leg {E} (p : place) : M (Bench Ctx) E (leg place) :=
  match p with
  | CtxWarm i => ctx_warm i
  | CtxTimed i t0 => ctx_timed i t0
  | IpcWarm i => ipc_warm i
  | IpcTimed i t0 => ipc_timed i t0
  | DriverParked => ret (Remains DriverParked)
  | PartnerLoop => bench_partner
  | PartnerReceiving => partner_receiving
  | IdleLoop => driver_yield IdleLoop
  | El0 f => el0_leg f
  | El0Gone => panic
  end.
End bench.

(** ** The set-up *)

Section setup.
  Context `{Build} `{Contexts Ctx}.

(** One endpoint: the driver may send, the partner receive; the user task has nothing. *)
Definition bench_tables : option Tables :=
  '(ep_arena, ep) ← expect (create_endpoint {| endpoint_id := 0 |}) (Arena.new ENDPOINT_ARENA_CAPACITY);
  '(table_d, send_cap) ← expect (insert_root {| rights := SEND; object := OEndpoint ep |}) CapTable.new;
  '(table_p, recv_cap) ← expect (insert_root {| rights := RECV; object := OEndpoint ep |}) CapTable.new;
  if negb (bool_decide (send_cap = BENCH_EP_CAP) && bool_decide (recv_cap = BENCH_EP_CAP)) then None else
  Some {| boot_ep_arena := ep_arena; TABLE_A := table_d; EP_CAP_A := send_cap; TABLE_B := table_p; EP_CAP_B := recv_cap;
          user_task_table := CapTable.new |}.

(** Registration: the user task first. *)
Definition bench_sched (img : Image) (t : Tasks) (loaded : LoadedImage) : M (Scheduler Ctx) SchedError unit :=
  add_user_task (user_task_handle t) (user_as_handle t) (entry_va loaded) (stack_top_va loaded)
    (USER_TASK_STACK img) (USER_TASK_TABLE img) ;;
  add_task (handle_a t) BOOTSTRAP_ADDRESS_SPACE_HANDLE (task_a img) (TASK_A_STACK img) ;;
  add_task (handle_b t) BOOTSTRAP_ADDRESS_SPACE_HANDLE (task_b img) (TASK_B_STACK img) ;;
  register_idle (handle_idle t) BOOTSTRAP_ADDRESS_SPACE_HANDLE (idle_entry img) (TASK_IDLE_STACK img).

Definition bench_first_line : list Z := line "tyrne: perf-bench — measurement build (T-029); compiled out of production".
Definition bench_start_line : list Z :=
  bytes_of "tyrne: perf-bench starting scheduler (el0-roundtrip + ctx-switch + IPC, N=" ++ decimal N_EL0_ROUNDTRIPS ++ bytes_of "/" ++
  decimal N_CTX_ROUNDTRIPS ++ bytes_of "/" ++ decimal N_IPC_CYCLES ++ bytes_of ", warmup=" ++ decimal EL0_WARMUP ++ bytes_of "/" ++
  decimal WARMUP ++ line ")".

Record Benched := {
  be_kernel : Kernel QemuVirtAddressSpace Ctx;
  be_pmm : Pmm; be_tasks : TaskArena; be_as_table : CapabilityTable; be_tables : Tables;
  be_cpu : QemuVirtCpu; be_handles : Tasks; be_loaded : LoadedImage;
  be_start : option AddressSpaceHandle * nat;
}.

(** [run].  In this build the program of [img] is [BENCH_EL0_IMAGE] and its tasks A and B
    are the driver and the partner. *)
Definition run (img : Image) (k : Prepared) (m : Mem) : option Benched :=
  let con := pr_console k ++ bench_first_line in
  '(st, loaded) ← load_user_image img (pr_pmm k) (pr_table k) (pr_arena k) (pr_cap k) m;
  '(table, task_arena, tasks) ← boot_tasks loaded (AddressSpace.table st);
  ts ← bench_tables;
  '(sched, _) ← expect (bench_sched img tasks loaded) Scheduler_new;
  let con := con ++ bench_start_line in
  '(sched, next) ← expect (Sched.start (E := SchedError)) sched;
  Some {| be_kernel := {| SCHED := sched; AS_ARENA := as_arena st; EP_ARENA := boot_ep_arena ts; IPC_QUEUES := IpcQueues_new;
                          tables := {[USER_TASK_TABLE img := user_task_table ts]}; FAILCLOSED_TABLE := None;
                          BOOTSTRAP_AS := pr_bootstrap k; CONSOLE := con; MEMORY := memory st |};
          be_pmm := provider st; be_tasks := task_arena; be_as_table := table; be_tables := ts; be_cpu := pr_cpu k;
          be_handles := tasks; be_loaded := loaded; be_start := next |}.

(** From reset. *)
Definition bench_boot (img : Image) (sp cntfrq cntvct : Z) (s : BootState) : option (BootState * Control * Benched) :=
  '(e, ctl) ← expect (kernel_entry (E := unit) img sp) (reset_state s);
  '(s, _) ← expect (leave_low_half (E := unit)) (early e);
  k ← kernel_prepare img cntfrq cntvct (early_console e);
  b ← run img k (direct_map (boot_mem s));
  Some (s, ctl, b).

(** The tasks where they start. *)
Definition bench_system (b : Benched) : System (Bench Ctx) place :=
  {| demo := {| bdemo := {| kernel := be_kernel b; demo_table_a := TABLE_A (be_tables b); demo_table_b := TABLE_B (be_tables b) |};
                PHASE := PHASE_CTX; el0_bench := El0Bench_zero; readings := 0 |};
     points := [CtxWarm 0; PartnerLoop; IdleLoop; El0 (first_frame (entry_va (be_loaded b)) (stack_top_va (be_loaded b)))];
     running := (be_start b).2; activated := (be_start b).1 |}.
Definition bench_run (cntvct_el0 : nat → Z) (b : Benched) (n : nat) : option (System (Bench Ctx) place) :=
  sys_steps (bench_leg (be_cpu b) cntvct_el0) n (bench_system b).
End setup.
