(* ===== verification/BenchRunProps.v ===== *)
(** * The measurement build measures what it says

From reset: the schedule of the whole measurement, leg by leg, what is between two
readings of the clock, and what the console shows. *)

From Stdlib Require Import Ascii String.
From stdpp Require Import gmap.
From S2P Require Import Prelude.
From S2P Require Import Hal.
From S2P Require Import Arena.
From S2P Require Import Objects.
From S2P Require Import Caps.
From S2P Require Import CapTable.
From S2P Require Import CapTableInv.
From S2P Require Import CapTableOps.
From S2P Require Import CapSpec.
From S2P Require Import CapProps.
From S2P Require Import Ipc.
From S2P Require Import SyscallError.
From S2P Require Import Abi.
From S2P Require Import UserAccess.
From S2P Require Import UserAccessOps.
From S2P Require Import UserAccessProps.
From S2P Require Import Dispatch.
From S2P Require Import IpcSpec.
From S2P Require Import IpcProps.
From S2P Require Import DispatchProps.
From S2P Require Import Pmm.
From S2P Require Import PmmInv.
From S2P Require Import PmmNew.
From S2P Require Import PmmProps.
From S2P Require Import Vmsav8.
From S2P Require Import Words.
From S2P Require Import QemuMmu.
From S2P Require Import QemuMmuInv.
From S2P Require Import QemuMmuOps.
From S2P Require Import QemuMmuProps.
From S2P Require Import BootMmu.
From S2P Require Import BootMmuProps.
From S2P Require Import AddressSpace.
From S2P Require Import AddressSpaceProps.
From S2P Require Import TaskLoader.
From S2P Require Import TaskTables.
From S2P Require Import TaskLoaderInv.
From S2P Require Import TaskLoaderProps.
From S2P Require Import UserProgram.
From S2P Require Import Timer.
From S2P Require Import Gic.
From S2P Require Import Sched.
From S2P Require Import SchedInv.
From S2P Require Import SchedOps.
From S2P Require Import SchedBridge.
From S2P Require Import SchedRun.
From S2P Require Import SchedProps.
From S2P Require Import SchedBridgeProps.
From S2P Require Import SyscallEntry.
From S2P Require Import SyscallEntryProps.
From S2P Require Import Text.
From S2P Require Import Boot.
From S2P Require Import BootSteps.
From S2P Require Import BootProps.
From S2P Require Import UserLib.
From S2P Require Import Legs.
From S2P Require Import Demo.
From S2P Require Import Traps.
From S2P Require Import Later.
From S2P Require Import Bench.
From S2P Require Import BenchRun.
Local Open Scope Z_scope.

(** ** The timer, entry by entry *)

Section ticks.
  Context (CPU : QemuVirtCpu) (effect : SyscallEffect) (cntvct_el0 : nat → Z).
  Context (freq_ok : is_u64 (frequency_hz CPU) ∧ frequency_hz CPU ≠ 0).
  Context (Hu64 : ∀ n, is_u64 (cntvct_el0 n)) (Hmono : ∀ i j, (i ≤ j)%nat → cntvct_el0 i ≤ cntvct_el0 j).

Definition entries (n : nat) : list Z := cntvct_el0 <$> seq 0 n.
Definition EL0_LAST : nat := Z.to_nat (EL0_WARMUP + N_EL0_ROUNDTRIPS).

Lemma entries_S n : entries (S n) = entries n ++ [cntvct_el0 n].
Proof. unfold entries. by rewrite seq_S, fmap_app. Qed.

Lemma entries_lookup n i : (i < n)%nat → entries n !! i = Some (cntvct_el0 i).
Proof. intros Hi. unfold entries. by rewrite list_lookup_fmap, lookup_seq_lt. Qed.

Lemma entries_length n : length (entries n) = n.
Proof. unfold entries. by rewrite length_fmap, length_seq. Qed.

Lemma entries_readings n : clock_readings (entries n).
Proof.
  split; [unfold entries; apply Forall_fmap, Forall_true; intros i; apply Hu64|].
  intros i j a b Hij Ha Hb. pose proof (lookup_lt_Some _ _ _ Ha) as Hi. pose proof (lookup_lt_Some _ _ _ Hb) as Hj.
  rewrite entries_length in Hi, Hj. rewrite entries_lookup in Ha, Hb by done. injection Ha as <-. injection Hb as <-. by apply Hmono.
Qed.

(** One more entry after [n] of them. *)
Lemma tick_from n x xs : (n ≤ EL0_LAST)%nat →
  el0_entries CPU effect (entries n ++ [cntvct_el0 n]) El0Bench_zero = Some (after CPU (entries (S n)), xs ++ [x]) →
  el0_roundtrip_tick CPU (cntvct_el0 n) effect (after CPU (entries n)) = Some (after CPU (entries (S n)), x).
Proof.
  intros Hn. rewrite entries_snoc, entries_before_end; [|done|apply entries_readings|rewrite entries_length; unfold EL0_LAST, EL0_WARMUP, N_EL0_ROUNDTRIPS in *; lia].
  cbn [mbind option_bind]. destruct (el0_roundtrip_tick _ _ _ _) as [[s y]|]; [|done]. cbn [mbind option_bind].
  intros [= -> Hl]. by apply app_inj_tail in Hl as [_ ->].
Qed.

Lemma tick_resumes n : (n < EL0_LAST)%nat →
  el0_roundtrip_tick CPU (cntvct_el0 n) effect (after CPU (entries n)) = Some (after CPU (entries (S n)), (effect, [])).
Proof.
  intros Hn. apply (tick_from n (effect, []) (replicate n (effect, []))); [lia|]. rewrite <- entries_S.
  rewrite entries_before_end; [|done|apply entries_readings|rewrite entries_length; unfold EL0_LAST, EL0_WARMUP, N_EL0_ROUNDTRIPS in *; lia].
  by rewrite entries_length, replicate_S_end.
Qed.

Lemma tick_ends : el0_roundtrip_tick CPU (cntvct_el0 EL0_LAST) effect (after CPU (entries EL0_LAST)) =
  Some (after CPU (entries (S EL0_LAST)),
        (Terminate 0, el0_report (at_ns CPU (cntvct_el0 EL0_LAST) - at_ns CPU (cntvct_el0 (Z.to_nat EL0_WARMUP))))).
Proof.
  eapply tick_from; [done|]. rewrite el0_bench_measures; [|done|rewrite <- entries_S; apply entries_readings|].
  2:{ rewrite entries_length. unfold EL0_LAST, EL0_WARMUP, N_EL0_ROUNDTRIPS. lia. }
  rewrite <- entries_S. unfold timed. rewrite entries_lookup by (unfold EL0_LAST, EL0_WARMUP, N_EL0_ROUNDTRIPS; lia).
  rewrite entries_S at 2. by rewrite last_snoc.
Qed.
End ticks.

(** ** The driver and the partner *)

Record bench_tables_ok (ts : Tables) : Prop := {
  bk_arena : Arena.WF ENDPOINT_ARENA_CAPACITY (boot_ep_arena ts) ∧ live_ep (boot_ep_arena ts) demo_endpoint;
  bk_driver : CapTableInv.WF (TABLE_A ts) ∧ only_cap (TABLE_A ts) BENCH_EP_CAP {| rights := SEND; object := OEndpoint demo_endpoint |};
  bk_partner : CapTableInv.WF (TABLE_B ts) ∧ only_cap (TABLE_B ts) BENCH_EP_CAP {| rights := RECV; object := OEndpoint demo_endpoint |};
  bk_user : user_task_table ts = CapTable.new;
}.

Section relay.
  Context `{Build} `{Contexts Ctx} (k0 : Kernel QemuVirtAddressSpace Ctx) (ts : Tables).
  Context (CPU : QemuVirtCpu) (cntvct_el0 : nat → Z).
Let ep := demo_endpoint.
Let D := task_at 0.
Let P := task_at 1.

Definition bench_at (s : Scheduler Ctx) (q : IpcQueues) (c : list Z) (phase : Z) (t : El0Bench) (r : nat) : Bench Ctx :=
  {| bdemo := demo_at k0 ts s q c; PHASE := phase; el0_bench := t; readings := r |}.
Definition sys_at (p pp : place) (x : nat) (b : Bench Ctx) : System (Bench Ctx) place :=
  {| demo := b; points := [p; pp; IdleLoop; El0Gone]; running := x; activated := Some BOOTSTRAP_ADDRESS_SPACE_HANDLE |}.

(** [x] runs, [l] wait, nobody is blocked. *)
Record relay (s : Scheduler Ctx) (x : TaskHandle) (l : list TaskHandle) : Prop := {
  rl_same : same_tasks k0 s;
  rl_current : current s = Some x;
  rl_ok : sched_ok s l;
  rl_nobody : ∀ i, ¬ blocked_on s ep i;
}.

Lemma on_demo_runs {E A} (m : M (Demo Ctx) E A) s q c ph t r s' q' c' x :
  m (demo_at k0 ts s q c) = Some (demo_at k0 ts s' q' c', Ok x) →
  on_demo m (bench_at s q c ph t r) = Some (bench_at s' q' c' ph t r, Ok x).
Proof. intros Hm. unfold on_demo, zoom. cbn [bench_at bdemo]. by rewrite Hm. Qed.

Context {img : Image} {hd : AddressSpaceHandle} {ld : LoadedImage}.
Context (Hb : booted_sched [D; P] (task_at 3) hd img hd ld (SCHED k0)) (Hk0 : kernel_ok k0 [D; P]) (Hts : bench_tables_ok ts).
Context (Hep : EP_ARENA k0 = boot_ep_arena ts) (Hq0 : IPC_QUEUES k0 = IpcQueues_new).
#[local] Notation step_leg := (bench_leg (E := unit) CPU cntvct_el0).

(** One leg of either task. *)
Lemma driver_leg p pp b b' next p' : step_leg p b = Some (b', Ok (Away None next p')) →
  runs step_leg (sys_at p pp 0 b) [0%nat] (sys_at p' pp next b').
Proof. intros Hl. exact (runs_away step_leg (sys_at p pp 0 b) p b' None next p' 0 eq_refl eq_refl Hl). Qed.
Lemma driver_goes_on p pp b b' p' : step_leg p b = Some (b', Ok (Remains p')) → runs step_leg (sys_at p pp 0 b) [0%nat] (sys_at p' pp 0 b').
Proof. intros Hl. exact (runs_remains step_leg (sys_at p pp 0 b) p b' p' 0 eq_refl eq_refl Hl). Qed.
Lemma partner_leg p pp b b' next p' : step_leg pp b = Some (b', Ok (Away None next p')) →
  runs step_leg (sys_at p pp 1 b) [1%nat] (sys_at p p' next b').
Proof. intros Hl. exact (runs_away step_leg (sys_at p pp 1 b) pp b' None next p' 1 eq_refl eq_refl Hl). Qed.
Lemma partner_goes_on p pp b b' p' : step_leg pp b = Some (b', Ok (Remains p')) → runs step_leg (sys_at p pp 1 b) [1%nat] (sys_at p p' 1 b').
Proof. intros Hl. exact (runs_remains step_leg (sys_at p pp 1 b) pp b' p' 1 eq_refl eq_refl Hl). Qed.

Lemma driver_yield_runs {E} s q c ph t r i j l p : relay s (task_at i) (task_at j :: l) → (i < 2)%nat → (j < 2)%nat →
  ∃ s', driver_yield (E := E) p (bench_at s q c ph t r) = Some (bench_at s' q c ph t r, Ok (Away None j p)) ∧
    relay s' (task_at j) (l ++ [task_at i]).
Proof.
  intros [Hsame Hc Hs Hno] Hi Hj. assert (Hid : idle s ≠ Some (task_at i)).
  { destruct Hsame as (-> & _). rewrite (bs_idle Hb). intros [=]. lia. }
  destruct (yield_runs s l (task_at i) (task_at j) Hs Hc Hid) as (rq & a & Hy & Hok & Ha).
  assert (a = None) as -> by (apply (activates_kernel Hb s i j); [done|lia|lia|done]).
  exists (set_current (Some (task_at j)) (set_ready rq s)). split; [|split; [exact Hsame|done|exact Hok|exact Hno]]. unfold driver_yield.
  by rewrite (bind_run _ _ _ _ _ (on_demo_runs _ _ _ _ _ _ _ _ _ _ _ (yield_runs_demo s q c _ _ Hy))).
Qed.

(** While contexts are timed, the driver's yield comes back from the partner. *)
Lemma ctx_round s c t r p p' : relay s D [P] →
  step_leg p (bench_at s IpcQueues_new c PHASE_CTX t r) = driver_yield p' (bench_at s IpcQueues_new c PHASE_CTX t r) →
  ∃ s', runs step_leg (sys_at p PartnerLoop 0 (bench_at s IpcQueues_new c PHASE_CTX t r)) [0%nat; 1%nat]
          (sys_at p' PartnerLoop 0 (bench_at s' IpcQueues_new c PHASE_CTX t r)) ∧ relay s' D [P].
Proof.
  intros Hr Hp. destruct (driver_yield_runs (E := unit) s IpcQueues_new c PHASE_CTX t r 0 1 [] p' Hr) as (s1 & Y1 & R1); [lia..|].
  destruct (driver_yield_runs (E := unit) s1 IpcQueues_new c PHASE_CTX t r 1 0 [] PartnerLoop R1) as (s2 & Y2 & R2); [lia..|].
  exists s2. split; [|exact R2]. rewrite <- Hp in Y1.
  change (driver_yield _ _) with (step_leg PartnerLoop (bench_at s1 IpcQueues_new c PHASE_CTX t r)) in Y2.
  exact (runs_app _ _ [0%nat] _ [1%nat] _ (driver_leg _ _ _ _ _ _ Y1) (partner_leg _ PartnerLoop _ _ _ _ Y2)).
Qed.

(** The warm-up and the timed loop of the switches. *)
Lemma ctx_loop (at_ : Z → place) N s c t r : 0 ≤ N →
  (∀ i (b : Bench Ctx), 0 ≤ i < N → step_leg (at_ i) b = driver_yield (at_ (i + 1)) b) → relay s D [P] →
  ∃ s', runs step_leg (sys_at (at_ 0) PartnerLoop 0 (bench_at s IpcQueues_new c PHASE_CTX t r))
          (concat (replicate (Z.to_nat N) [0%nat; 1%nat])) (sys_at (at_ N) PartnerLoop 0 (bench_at s' IpcQueues_new c PHASE_CTX t r)) ∧
    relay s' D [P].
Proof.
  intros HN Hat Hr.
  destruct (runs_loop step_leg (λ i y, ∃ s, y = sys_at (at_ i) PartnerLoop 0 (bench_at s IpcQueues_new c PHASE_CTX t r) ∧ relay s D [P])
    [0%nat; 1%nat] (sys_at (at_ 0) PartnerLoop 0 (bench_at s IpcQueues_new c PHASE_CTX t r)) N HN) as (z & Hz & s' & -> & Hr').
  - intros i y Hi (s1 & -> & Hr1). destruct (ctx_round s1 c t r (at_ i) (at_ (i + 1)) Hr1) as (s2 & Hrun & Hr2); [by apply Hat|].
    eexists. split; [exact Hrun|]. by exists s2.
  - by exists s.
  - by exists s'.
Qed.

(** The endpoint between two messages. *)
Definition quiet (q : IpcQueues) : Prop := IpcWF (boot_ep_arena ts) q ∧ ep_state q ep = Idle ∧ ∀ st, put ep st q = put ep st IpcQueues_new.

(** The partner's receive with nothing to take gives the processor to the driver. *)
Lemma partner_blocks {E} s q c t r : relay s P [D] → quiet q →
  ∃ rq, bench_partner (E := E) (bench_at s q c PHASE_IPC t r) =
    Some (bench_at (blocked_state s rq P ep (Some D)) (put ep RecvWaiting IpcQueues_new) c PHASE_IPC t r, Ok (Away None 0 PartnerReceiving)) ∧
    qrep TASK_ARENA_CAPACITY rq [].
Proof.
  intros [Hsame Hc Hs Hno] (Hq & Hst & Hput). destruct (sole_grants _ _ _ _ RECV (bk_partner _ Hts) eq_refl) as (Ht & Hg & Hroom).
  destruct (recv_blocks (boot_ep_arena ts) {| bsched := s; bipc := {| Ipc.queues := q; Ipc.table := TABLE_B ts |} |}
    [D] P BENCH_EP_CAP ep D) as (rq & a & Hrun & Hrq & Hact); try done.
  { apply (bk_arena _ Hts). }
  cbn [bsched bipc Ipc.queues Ipc.table tail] in Hrun, Hact, Hrq. rewrite Hput in Hrun.
  assert (a = None) as -> by (apply (activates_kernel Hb s 1 0); [done|lia|lia|done]).
  exists rq. split; [|exact Hrq]. change (bench_partner (E := E) (bench_at s q c PHASE_IPC t r)) with (partner_recv (E := E) (bench_at s q c PHASE_IPC t r)).
  unfold partner_recv. rewrite (bind_run _ _ _ _ _ (on_demo_runs _ _ _ _ _ _ _ _ _ _ _ (ep_arena_runs Hep _ _ _))).
  by rewrite (bind_run _ _ _ _ _ (on_demo_runs _ _ _ _ _ _ _ _ _ _ _ (task_b_runs _ _ _ _ _ _ _ Hrun))).
Qed.

Definition bench_message : Message := {| label := 0xBE0C; params := (0, 0, 0) |}.

Lemma queues_ok st : IpcWF (boot_ep_arena ts) (put ep st IpcQueues_new) ∧ ep_state (put ep st IpcQueues_new) ep = st.
Proof. rewrite <- Hep. apply (demo_queues Hk0 (bk_arena _ Hts) Hep Hq0). Qed.

Lemma quiet_again : quiet (put ep Idle IpcQueues_new).
Proof. destruct (queues_ok Idle). split; [done|]. split; [done|]. intros st. apply bridge_put_put'. Qed.

(** The driver's send is delivered and gives it back to the partner. *)
Lemma driver_sends {E} s rq c t r p : relay s P [D] → qrep TASK_ARENA_CAPACITY rq [] →
  ∃ s', driver_send (E := E) p (bench_at (blocked_state s rq P ep (Some D)) (put ep RecvWaiting IpcQueues_new) c PHASE_IPC t r) =
    Some (bench_at s' (put ep (RecvComplete bench_message None) IpcQueues_new) c PHASE_IPC t r, Ok (Away None 1 p)) ∧ relay s' P [D].
Proof.
  intros [Hsame Hc Hs Hno] Hrq. destruct (sole_grants _ _ _ _ SEND (bk_driver _ Hts) eq_refl) as (Ht & Hg & _).
  pose proof (ko_queues _ _ Hk0) as Hq. rewrite Hep, Hq0 in Hq.
  assert (Hid : idle s = Some (task_at 2)) by (destruct Hsame as (-> & _); apply (bs_idle Hb)).
  destruct (send_wakes s [D] rq P D ep Hs Hc) with (ep_arena := boot_ep_arena ts) (q := IpcQueues_new) (t := TABLE_A ts) (ep_s := BENCH_EP_CAP)
    (msg := bench_message) (n := P) (l' := @nil TaskHandle) as (s2 & a & Hrun & Hsame2 & Hc2 & Hok2 & Hno2); try done;
    [by rewrite Hid|apply (bk_arena _ Hts)|by rewrite Hid|].
  destruct (Hsame2 k0 Hsame) as (Hs2 & s' & Hs' & Ha). assert (a = None) as -> by (apply (activates_kernel Hb s' 0 1); [done|lia|lia|done]).
  exists s2. split; [|by split]. unfold driver_send.
  rewrite (bind_run _ _ _ _ _ (on_demo_runs _ _ _ _ _ _ _ _ _ _ _ (ep_arena_runs Hep _ _ _))).
  by rewrite (bind_run _ _ _ _ _ (on_demo_runs _ _ _ _ _ _ _ _ _ _ _ (task_a_runs _ _ _ _ _ _ _ Hrun))).
Qed.

(** The partner takes the message. *)
Lemma partner_takes {E} s c t r : relay s P [D] →
  partner_receiving (E := E) (bench_at s (put ep (RecvComplete bench_message None) IpcQueues_new) c PHASE_IPC t r) =
    Some (bench_at s (put ep Idle IpcQueues_new) c PHASE_IPC t r, Ok (Remains PartnerLoop)).
Proof.
  intros [Hsame Hc Hs Hno]. destruct (sole_grants _ _ _ _ RECV (bk_partner _ Hts) eq_refl) as (Ht & Hg & Hroom).
  destruct (queues_ok (RecvComplete bench_message None)) as [Hq Hst].
  destruct (recv_takes (boot_ep_arena ts) {| bsched := s; bipc := {| Ipc.queues := put ep (RecvComplete bench_message None) IpcQueues_new; Ipc.table := TABLE_B ts |} |}
    BENCH_EP_CAP ep bench_message None) as (tb & got & [-> ->] & _ & Hrecv); [by eexists|done|done|done|apply (bk_arena _ Hts)|done|by right|].
  cbn [bsched bipc Ipc.queues Ipc.table] in Hrecv. rewrite bridge_put_put' in Hrecv. unfold partner_receiving.
  rewrite (bind_run _ _ _ _ _ (on_demo_runs _ _ _ _ _ _ _ _ _ _ _ (ep_arena_runs Hep _ _ _))).
  erewrite bind_run; [reflexivity|]. apply on_demo_runs, task_b_runs. unfold on_ipc, zoom. cbn [bipc bsched]. by rewrite Hrecv.
Qed.

Lemma quiet_first : quiet IpcQueues_new.
Proof. pose proof (ko_queues _ _ Hk0) as Hq. rewrite Hep, Hq0 in Hq. by split. Qed.

(** The partner is blocked on the endpoint and the driver runs. *)
Definition waits (s : Scheduler Ctx) : Prop :=
  ∃ s0 rq, s = blocked_state s0 rq P ep (Some D) ∧ relay s0 P [D] ∧ qrep TASK_ARENA_CAPACITY rq [].
Definition ipc_at (p : place) s c t r : System (Bench Ctx) place :=
  sys_at p PartnerReceiving 0 (bench_at s (put ep RecvWaiting IpcQueues_new) c PHASE_IPC t r).

(** One cycle: a send, a receive, two switches. *)
Lemma ipc_round s c t r p p' : waits s → (∀ b : Bench Ctx, step_leg p b = driver_send (E := unit) p' b) →
  ∃ s', runs step_leg (ipc_at p s c t r) [0%nat; 1%nat; 1%nat] (ipc_at p' s' c t r) ∧ waits s'.
Proof.
  intros (s0 & rq & -> & Hr0 & Hrq) Hp. destruct (driver_sends (E := unit) s0 rq c t r p' Hr0 Hrq) as (s1 & Y1 & R1).
  pose proof (partner_takes (E := unit) s1 c t r R1) as Y2. destruct (partner_blocks (E := unit) s1 _ c t r R1 quiet_again) as (rq' & Y3 & Hrq').
  exists (blocked_state s1 rq' P ep (Some D)). split; [|by exists s1, rq']. rewrite <- Hp in Y1.
  exact (runs_app _ _ [0%nat] _ [1%nat; 1%nat] _ (driver_leg _ _ _ _ _ _ Y1)
    (runs_app _ _ [1%nat] _ [1%nat] _ (partner_goes_on _ PartnerReceiving _ _ _ Y2) (partner_leg _ PartnerLoop _ _ _ _ Y3))).
Qed.

Lemma ipc_loop (at_ : Z → place) N s c t r : 0 ≤ N →
  (∀ i (b : Bench Ctx), 0 ≤ i < N → step_leg (at_ i) b = driver_send (E := unit) (at_ (i + 1)) b) → waits s →
  ∃ s', runs step_leg (ipc_at (at_ 0) s c t r) (concat (replicate (Z.to_nat N) [0%nat; 1%nat; 1%nat])) (ipc_at (at_ N) s' c t r) ∧ waits s'.
Proof.
  intros HN Hat Hw.
  destruct (runs_loop step_leg (λ i y, ∃ s, y = ipc_at (at_ i) s c t r ∧ waits s) [0%nat; 1%nat; 1%nat] (ipc_at (at_ 0) s c t r) N HN)
    as (z & Hz & s' & -> & Hw').
  - intros i y Hi (s1 & -> & Hw1). destruct (ipc_round s1 c t r (at_ i) (at_ (i + 1)) Hw1) as (s2 & Hrun & Hw2); [by intros b; apply Hat|].
    eexists. split; [exact Hrun|]. by exists s2.
  - by exists s.
  - by exists s'.
Qed.

(** ** The two measurements *)

Context (Hclock : ∀ r, now_ns CPU (cntvct_el0 r) = Some (at_ns CPU (cntvct_el0 r))).
Let ns (r : nat) : Z := at_ns CPU (cntvct_el0 r).

Lemma clock_reads {E} s q c ph t r : read_clock CPU cntvct_el0 (E := E) (bench_at s q c ph t r) = Some (bench_at s q c ph t (S r), Ok (ns r)).
Proof. unfold read_clock. cbn [bench_at readings]. by rewrite Hclock. Qed.

Lemma prints {E} bs s q c ph t r : on_demo (print (E := E) bs) (bench_at s q c ph t r) = Some (bench_at s q (c ++ bs) ph t r, Ok tt).
Proof. done. Qed.

(** The context switches: from the start of the driver to its first timed iteration, and
    from there to the last. *)
Lemma switches_measured s c t r : relay s D [P] → ∃ s1 s2,
  let y1 := sys_at (CtxTimed 0 (ns r)) PartnerLoop 0 (bench_at s1 IpcQueues_new c PHASE_CTX t (S r)) in
  let y2 := sys_at (CtxTimed N_CTX_ROUNDTRIPS (ns r)) PartnerLoop 0 (bench_at s2 IpcQueues_new c PHASE_CTX t (S r)) in
  runs step_leg (sys_at (CtxWarm 0) PartnerLoop 0 (bench_at s IpcQueues_new c PHASE_CTX t r))
    (concat (replicate (Z.to_nat WARMUP) [0%nat; 1%nat]) ++ [0%nat]) y1 ∧
  runs step_leg y1 (concat (replicate (Z.to_nat N_CTX_ROUNDTRIPS) [0%nat; 1%nat])) y2 ∧ relay s2 D [P].
Proof.
  intros Hr. destruct (ctx_loop CtxWarm WARMUP s c t r) as (s1 & W1 & R1); [done| |done|].
  { intros i b Hi. cbn [bench_leg]. unfold ctx_warm. by rewrite bool_decide_true by lia. }
  destruct (ctx_loop (λ i, CtxTimed i (ns r)) N_CTX_ROUNDTRIPS s1 c t (S r)) as (s2 & W2 & R2); [done| |done|].
  { intros i b Hi. cbn [bench_leg]. unfold ctx_timed. by rewrite bool_decide_true by lia. }
  exists s1, s2. cbv zeta. split; [|split; [exact W2|exact R2]]. eapply runs_app; [exact W1|]. apply driver_goes_on.
  cbn [bench_leg]. unfold ctx_warm. rewrite bool_decide_false by lia. by rewrite (bind_run _ _ _ _ _ (clock_reads _ _ _ _ _ _)).
Qed.

(** The messages, from the end of the first measurement on. *)
Lemma messages_measured s c t r t0 : relay s D [P] → ∃ s1 s2,
  let c1 := c ++ ctx_report (saturating_sub64 (ns r) t0) in
  let y1 := ipc_at (IpcTimed 0 (ns (S r))) s1 c1 t (S (S r)) in
  let y2 := ipc_at (IpcTimed N_IPC_CYCLES (ns (S r))) s2 c1 t (S (S r)) in
  runs step_leg (sys_at (CtxTimed N_CTX_ROUNDTRIPS t0) PartnerLoop 0 (bench_at s IpcQueues_new c PHASE_CTX t r))
    ([0%nat; 1%nat] ++ concat (replicate (Z.to_nat WARMUP) [0%nat; 1%nat; 1%nat]) ++ [0%nat]) y1 ∧
  runs step_leg y1 (concat (replicate (Z.to_nat N_IPC_CYCLES) [0%nat; 1%nat; 1%nat])) y2 ∧ waits s2.
Proof.
  intros Hr. set (c1 := c ++ _).
  destruct (driver_yield_runs (E := unit) s IpcQueues_new c1 PHASE_IPC t (S r) 0 1 [] (IpcWarm 0) Hr) as (s' & Y1 & R1); [lia..|].
  destruct (partner_blocks (E := unit) s' IpcQueues_new c1 t (S r) R1 quiet_first) as (rq & Y2 & Hrq).
  destruct (ipc_loop IpcWarm WARMUP (blocked_state s' rq P ep (Some D)) c1 t (S r)) as (s1 & W1 & R2); [done| |by exists s', rq|].
  { intros i b Hi. cbn [bench_leg]. unfold ipc_warm. by rewrite bool_decide_true by lia. }
  destruct (ipc_loop (λ i, IpcTimed i (ns (S r))) N_IPC_CYCLES s1 c1 t (S (S r))) as (s2 & W2 & R3); [done| |done|].
  { intros i b Hi. cbn [bench_leg]. unfold ipc_timed. by rewrite bool_decide_true by lia. }
  exists s1, s2. cbv zeta. split; [|split; [exact W2|exact R3]].
  assert (Y0 : step_leg (CtxTimed N_CTX_ROUNDTRIPS t0) (bench_at s IpcQueues_new c PHASE_CTX t r) =
    Some (bench_at s' IpcQueues_new c1 PHASE_IPC t (S r), Ok (Away None 1 (IpcWarm 0)))).
  { cbn [bench_leg]. unfold ctx_timed. rewrite bool_decide_false by lia. rewrite (bind_run _ _ _ _ _ (clock_reads _ _ _ _ _ _)).
    rewrite (bind_run _ _ _ _ _ (prints _ _ _ _ _ _ _)). exact Y1. }
  change (?a ++ ?b ++ ?d) with ([0%nat] ++ [1%nat] ++ b ++ d).
  eapply runs_app; [exact (driver_leg _ _ _ _ _ _ Y0)|]. eapply runs_app; [exact (partner_leg _ PartnerLoop _ _ _ _ Y2)|].
  eapply runs_app; [exact W1|]. apply driver_goes_on. cbn [bench_leg]. unfold ipc_warm. rewrite bool_decide_false by lia.
  by rewrite (bind_run _ _ _ _ _ (clock_reads _ _ _ _ _ _)).
Qed.

(** The end: the last report, and the driver parks for ever. *)
Lemma driver_parks s c t r t0 :
  let c1 := c ++ ipc_report (saturating_sub64 (ns r) t0) ++ line "tyrne: perf-bench complete" in
  let e := sys_at DriverParked PartnerReceiving 0 (bench_at s (put ep RecvWaiting IpcQueues_new) c1 PHASE_DONE t (S r)) in
  runs step_leg (ipc_at (IpcTimed N_IPC_CYCLES t0) s c t r) [0%nat] e ∧ ∀ n, sys_steps step_leg n e = Some e.
Proof.
  cbv zeta. split; [|intros n; by apply (steps_stay _ _ _ DriverParked)]. apply driver_goes_on. cbn [bench_leg]. unfold ipc_timed.
  rewrite bool_decide_false by lia. rewrite (bind_run _ _ _ _ _ (clock_reads _ _ _ _ _ _)). rewrite (bind_run _ _ _ _ _ (prints _ _ _ _ _ _ _)).
  rewrite app_assoc. done.
Qed.
End relay.

(** ** The user program *)

Definition code_byte (v : Z) : Z := default 0 (BENCH_EL0_IMAGE !! Z.to_nat (v - USERSPACE_IMAGE_BASE_VA)).

Section el0.
  Context `{Build} `{Contexts Ctx} (k0 : Kernel QemuVirtAddressSpace Ctx) (ts : Tables).
  Context (CPU : QemuVirtCpu) (cntvct_el0 : nat → Z).
Let D := task_at 0.
Let P := task_at 1.
Let base : Z := USERSPACE_IMAGE_BASE_VA.
  Context {img : Image} {hd : AddressSpaceHandle} {ld : LoadedImage}.
  Context (Hb : booted_sched [D; P] (task_at 3) hd img hd ld (SCHED k0)) (Hk0 : kernel_ok k0 [D; P]).
  Context (Hq0 : IPC_QUEUES k0 = IpcQueues_new).
  Context (p : Z) (w : UserAccessWindow) (a : QemuVirtAddressSpace).
  Context (Htab : task_cap_tables (SCHED k0) !! 3%nat = Some (Some p)) (Hwin : task_user_windows (SCHED k0) !! 3%nat = Some (Some w)).
  Context (Has : get_address_space (AS_ARENA k0) hd = Some {| inner := a |}) (Ht : tables k0 !! p = Some CapTable.new).
  Context (Hpage : ∃ f fl, UserAccess.translate (MEMORY k0) a base = Ok (f, fl) ∧ flags_contains fl USER && flags_contains fl EXECUTE = true).
  Context (Hcode : ∀ v, base ≤ v < base + 12 → MEMORY k0 (uaddr (MEMORY k0) a v) = code_byte v).
#[local] Notation step_leg := (bench_leg (E := unit) CPU cntvct_el0).
#[local] Notation at_ c t r := (bench_at k0 ts (SCHED k0) IpcQueues_new c PHASE_CTX t r).

Lemma still_user c : user_task (later k0 (SCHED k0) IpcQueues_new c) = Some (Some (p, w, a)).
Proof. apply (later_user Hb); try done. apply (bs_current Hb). Qed.

Lemma still_ok c : kernel_ok (later k0 (SCHED k0) IpcQueues_new c) [D; P].
Proof. apply (later_ok Hk0); [apply Hk0|done|]. rewrite <- Hq0. apply (ko_queues _ _ Hk0). Qed.

(** The program, fetched. *)
Lemma fetched c i : (i < 3)%nat → fetch (later k0 (SCHED k0) IpcQueues_new c) (base + 4 * Z.of_nat i) ≫= decode_instr =
  [Movz 8 0; Svc; B (-4)] !! i.
Proof.
  intros Hi. unfold fetch. rewrite still_user. destruct Hpage as (f & fl & Htr & Hfl).
  assert (page_base_of (base + 4 * Z.of_nat i) = base) as -> by (do 3 (destruct i as [|i]; [by vm_compute|]); lia).
  cbn [later MEMORY]. rewrite Htr, Hfl. cbn [mbind option_bind].
  rewrite (le_read_ext _ code_byte 4) by (intros v Hv; apply Hcode; lia).
  do 3 (destruct i as [|i]; [by vm_compute|]). lia.
Qed.

(** The registers of the loop. *)
Record loop_frame (f : SyscallTrapFrame) (pc : Z) : Prop := {
  lf_ok : frame_ok f;
  lf_number : arg (regs f) 8 = 0;
  lf_pc : arg (regs f) PC_REG = pc;
}.

Lemma loop_jump f pc v : loop_frame f pc → is_u64 v → loop_frame (set_reg PC_REG v f) v.
Proof.
  intros [Hf H8 _] Hv. split; [by apply set_reg_ok|..]; rewrite set_reg_arg by (done || unfold PC_REG; lia); [by rewrite decide_False|by rewrite decide_True].
Qed.

Definition refused : SyscallReturn := ret_error BadSyscallNumber.

Lemma loop_answer f pc : loop_frame f pc → loop_frame (set_result refused f) pc.
Proof.
  intros [Hf H8 Hpc]. split; [apply set_result_ok; [done|by split|]|..].
  - intros i. do 7 (destruct i as [|i]; [by split|]). by split.
  - unfold arg. by rewrite set_result_keeps by lia.
  - unfold arg. by rewrite set_result_keeps by (unfold PC_REG; lia).
Qed.

(** The loop's call gets as far as the timer and changes nothing. *)
Lemma entry_runs f pc c t r t' eff bs : loop_frame f pc →
  el0_roundtrip_tick CPU (cntvct_el0 r) (Resume refused) t = Some (t', (eff, bs)) →
  bench_entry CPU cntvct_el0 (E := unit) f (at_ c t r) = on_demo (on_kernel (apply_effect eff f)) (at_ (c ++ bs) t' (S r)).
Proof.
  intros [Hf H8 _] Htick. destruct (trap_dispatches _ _ p w a CapTable.new f (still_ok c) (still_user c) Ht Hf) as (Hm & c' & eff' & Hpost & Hrun).
  assert (Hnum : number (syscall_args f) = 0) by exact H8. unfold dispatch_post in Hpost. rewrite Hnum in Hpost.
  destruct Hpost as [-> ->]. fold refused in Hrun. unfold bench_entry. cbn [bench_at bdemo demo_at kernel readings el0_bench]. rewrite Hm, Hrun, Htick.
  by rewrite commit_same.
Qed.

Definition el0_sys (f : SyscallTrapFrame) (b : Bench Ctx) : System (Bench Ctx) place :=
  {| demo := b; points := [CtxWarm 0; PartnerLoop; IdleLoop; El0 f]; running := 3; activated := Some hd |}.

Lemma el0_goes_on f f' b b' : step_leg (El0 f) b = Some (b', Ok (Remains (El0 f'))) → runs step_leg (el0_sys f b) [3%nat] (el0_sys f' b').
Proof. intros Hl. exact (runs_remains step_leg (el0_sys f b) (El0 f) b' (El0 f') 3 eq_refl eq_refl Hl). Qed.

Lemma pc_fetched c f i : (i < 3)%nat → arg (regs f) PC_REG = base + 4 * Z.of_nat i →
  fetch (kernel (bdemo (at_ c El0Bench_zero 0))) (arg (regs f) PC_REG) ≫= decode_instr = [Movz 8 0; Svc; B (-4)] !! i.
Proof. intros Hi ->. by apply fetched. Qed.

(** The three instructions. *)
Lemma leg_movz sp c t r : is_u64 sp → ∃ f, step_leg (El0 (first_frame base sp)) (at_ c t r) = Some (at_ c t r, Ok (Remains (El0 f))) ∧
  loop_frame f (base + 4).
Proof.
  intros Hsp. set (f0 := first_frame base sp). assert (Hf0 : frame_ok f0).
  { split; [done|]. unfold f0, first_frame. cbn [regs]. apply Forall_app. split; [by apply Forall_replicate|]. repeat (apply Forall_cons; split; [done || by split|]). by apply Forall_nil. }
  assert (Hpc : arg (regs f0) PC_REG = base + 4 * Z.of_nat 0) by done.
  exists (set_reg PC_REG (base + 4) (set_reg 8 0 f0)). split.
  - cbn [bench_leg]. unfold el0_leg. pose proof (pc_fetched c f0 0 ltac:(lia) Hpc) as Hfe. cbn [bench_at bdemo kernel demo_at] in *. rewrite Hfe. by rewrite Hpc.
  - split; [by repeat apply set_reg_ok|..]; rewrite !set_reg_arg by first [done | by apply set_reg_ok | unfold PC_REG; lia]; done.
Qed.

Lemma leg_branch f c t r : loop_frame f (base + 8) → ∃ f', step_leg (El0 f) (at_ c t r) = Some (at_ c t r, Ok (Remains (El0 f'))) ∧
  loop_frame f' (base + 4).
Proof.
  intros Hf. pose proof (lf_pc _ _ Hf) as Hpc. exists (set_reg PC_REG (base + 4) f). split; [|by eapply loop_jump].
  cbn [bench_leg]. unfold el0_leg. pose proof (pc_fetched c f 2 ltac:(lia) Hpc) as Hfe. cbn [bench_at bdemo kernel demo_at] in *. rewrite Hfe. by rewrite Hpc.
Qed.

Lemma leg_svc f c t r t' eff bs : loop_frame f (base + 4) →
  el0_roundtrip_tick CPU (cntvct_el0 r) (Resume refused) t = Some (t', (eff, bs)) →
  ∃ f', loop_frame f' (base + 8) ∧ step_leg (El0 f) (at_ c t r) =
    bind (on_demo (on_kernel (apply_effect eff f'))) (λ x,
      match x with
      | Returned f => ret (Remains (El0 f))
      | Rescheduled d f => after_switch d (El0 f) (ret (Remains (El0 f)))
      | Exited (activate, next) => ret (Away activate next El0Gone)
      end) (at_ (c ++ bs) t' (S r)).
Proof.
  intros Hf Htick. pose proof (lf_pc _ _ Hf) as Hpc. exists (set_reg PC_REG (base + 8) f).
  assert (Hf' : loop_frame (set_reg PC_REG (base + 8) f) (base + 8)) by (by eapply loop_jump). split; [done|].
  cbn [bench_leg]. unfold el0_leg. pose proof (pc_fetched c f 1 ltac:(lia) Hpc) as Hfe. cbn [bench_at bdemo kernel demo_at] in Hfe |- *. rewrite Hfe.
  rewrite Hpc. change ([Movz 8 0; Svc; B (-4)] !! 1%nat) with (Some Svc). change (base + 4 + 4) with (base + 8). unfold bind at 1.
  by rewrite (entry_runs _ _ c t r _ _ _ Hf' Htick).
Qed.

Context (freq_ok : is_u64 (frequency_hz CPU) ∧ frequency_hz CPU ≠ 0).
Context (Hu64 : ∀ n, is_u64 (cntvct_el0 n)) (Hmono : ∀ i j, (i ≤ j)%nat → cntvct_el0 i ≤ cntvct_el0 j).
Let at_entry (n : nat) : El0Bench := after CPU (entries cntvct_el0 n).

(** One round trip: the call, refused, and the branch back. *)
Lemma el0_round f c n : loop_frame f (base + 4) → (n < EL0_LAST)%nat →
  ∃ f', runs step_leg (el0_sys f (at_ c (at_entry n) n)) [3%nat; 3%nat] (el0_sys f' (at_ c (at_entry (S n)) (S n))) ∧ loop_frame f' (base + 4).
Proof.
  intros Hf Hn. destruct (leg_svc f c (at_entry n) n _ _ _ Hf (tick_resumes CPU (Resume refused) cntvct_el0 freq_ok Hu64 Hmono n Hn)) as (f1 & Hf1 & Y1).
  rewrite app_nil_r in Y1. destruct (leg_branch (set_result refused f1) c (at_entry (S n)) (S n) (loop_answer _ _ Hf1)) as (f2 & Y2 & Hf2).
  exists f2. split; [|exact Hf2]. exact (runs_app _ _ [3%nat] _ [3%nat] _ (el0_goes_on _ _ _ _ Y1) (el0_goes_on _ _ _ _ Y2)).
Qed.

Lemma el0_loop f c : loop_frame f (base + 4) →
  ∃ f', runs step_leg (el0_sys f (at_ c El0Bench_zero 0)) (concat (replicate EL0_LAST [3%nat; 3%nat])) (el0_sys f' (at_ c (at_entry EL0_LAST) EL0_LAST)) ∧
    loop_frame f' (base + 4).
Proof.
  intros Hf. destruct (runs_loop step_leg (λ i y, ∃ f, y = el0_sys f (at_ c (at_entry (Z.to_nat i)) (Z.to_nat i)) ∧ loop_frame f (base + 4))
    [3%nat; 3%nat] (el0_sys f (at_ c El0Bench_zero 0)) (EL0_WARMUP + N_EL0_ROUNDTRIPS)) as (z & Hz & f' & -> & Hf').
  - done.
  - intros i y Hi (f1 & -> & Hf1). destruct (el0_round f1 c (Z.to_nat i) Hf1) as (f2 & Hrun & Hf2); [unfold EL0_LAST; lia|].
    eexists. split; [exact Hrun|]. exists f2. split; [|done]. by replace (Z.to_nat (i + 1)) with (S (Z.to_nat i)) by lia.
  - by exists f.
  - by exists f'.
Qed.

(** The last entry ends the program, and the driver starts. *)
Lemma el0_exits f c : loop_frame f (base + 4) →
  ∃ s, runs step_leg (el0_sys f (at_ c (at_entry EL0_LAST) EL0_LAST)) [3%nat]
    (sys_at (CtxWarm 0) PartnerLoop 0 (bench_at k0 ts s IpcQueues_new
      ((c ++ el0_report (at_ns CPU (cntvct_el0 EL0_LAST) - at_ns CPU (cntvct_el0 (Z.to_nat EL0_WARMUP)))) ++ EXIT_MESSAGE)
      PHASE_CTX (at_entry (S EL0_LAST)) (S EL0_LAST))) ∧ relay k0 s D [P].
Proof.
  intros Hf. destruct (leg_svc f c _ EL0_LAST _ _ _ Hf (tick_ends CPU (Resume refused) cntvct_el0 freq_ok Hu64 Hmono)) as (f1 & _ & Y1).
  destruct (exit_runs (SCHED k0) [P] D (Some BOOTSTRAP_ADDRESS_SPACE_HANDLE)) as (q & Hex & Hok); [apply Hk0|by apply (bs_spaces Hb 0%nat); lia|].
  exists (set_current (Some D) (set_ready q (SCHED k0))). split.
  2:{ split; [by repeat split|done|exact Hok|]. intros i. apply (bs_nobody Hb). }
  set (c1 := c ++ _) in *.
  assert (Heff : on_kernel (apply_effect (E := unit) (Terminate 0) f1) (demo_at k0 ts (SCHED k0) IpcQueues_new c1) =
    Some (demo_at k0 ts (set_current (Some D) (set_ready q (SCHED k0))) IpcQueues_new (c1 ++ EXIT_MESSAGE),
          Ok (Exited (Some BOOTSTRAP_ADDRESS_SPACE_HANDLE, 0%nat)))).
  { unfold on_kernel, zoom, apply_effect, modify, bind. cbn [kernel demo_at]. unfold zoom, write_console. cbn [SCHED later]. by rewrite Hex. }
  assert (Y : step_leg (El0 f) (at_ c (at_entry EL0_LAST) EL0_LAST) =
    Some (bench_at k0 ts (set_current (Some D) (set_ready q (SCHED k0))) IpcQueues_new (c1 ++ EXIT_MESSAGE) PHASE_CTX (at_entry (S EL0_LAST)) (S EL0_LAST),
          Ok (Away (Some BOOTSTRAP_ADDRESS_SPACE_HANDLE) 0 El0Gone))).
  { etransitivity; [exact Y1|]. by rewrite (bind_run _ _ _ _ _ (on_demo_runs _ _ _ _ _ _ _ _ _ _ _ _ _ Heff)). }
  exact (runs_away step_leg (el0_sys f _) (El0 f) _ _ 0 El0Gone 3 eq_refl eq_refl Y).
Qed.

(** The whole life of the user program. *)
Lemma el0_measured sp c : is_u64 sp →
  ∃ s, runs step_leg (el0_sys (first_frame base sp) (at_ c El0Bench_zero 0)) ([3%nat] ++ concat (replicate EL0_LAST [3%nat; 3%nat]) ++ [3%nat])
    (sys_at (CtxWarm 0) PartnerLoop 0 (bench_at k0 ts s IpcQueues_new
      ((c ++ el0_report (at_ns CPU (cntvct_el0 EL0_LAST) - at_ns CPU (cntvct_el0 (Z.to_nat EL0_WARMUP)))) ++ EXIT_MESSAGE)
      PHASE_CTX (at_entry (S EL0_LAST)) (S EL0_LAST))) ∧ relay k0 s D [P].
Proof.
  intros Hsp. destruct (leg_movz sp c El0Bench_zero 0 Hsp) as (f1 & Y1 & Hf1). destruct (el0_loop f1 c Hf1) as (f2 & Y2 & Hf2).
  destruct (el0_exits f2 c Hf2) as (s & Y3 & Hr). exists s. split; [|exact Hr].
  exact (runs_app _ _ _ _ _ _ (el0_goes_on _ _ _ _ Y1) (runs_app _ _ _ _ _ _ Y2 Y3)).
Qed.
End el0.

(** ** The set-up *)

Lemma bench_tables_run `{Build} : ∃ ts, bench_tables = Some ts ∧ bench_tables_ok ts.
Proof.
  destruct boot_endpoint as (a & Ha & Hwf & Hlive). unfold bench_tables. rewrite Ha. cbn [mbind option_bind].
  destruct (first_cap {| rights := SEND; object := OEndpoint (EndpointHandle_from_slot first_slot) |}) as (td & hs & Ed & Id & Td & Od).
  rewrite Ed. cbn [mbind option_bind].
  destruct (first_cap {| rights := RECV; object := OEndpoint (EndpointHandle_from_slot first_slot) |}) as (tp & hr & Ep & Ip & Tp & Op).
  rewrite Ep. cbn [mbind option_bind]. rewrite (first_handle _ _ _ Id), (first_handle _ _ _ Ip) in *.
  rewrite (bool_decide_true (CapHandle_from_raw 0 0 = BENCH_EP_CAP)) by done. eexists. split; [reflexivity|]. by split.
Qed.

Lemma bench_sched_run `{Build} `{Contexts Ctx} img hd l : USER_TASK_STACK img ≠ 0 → USER_TASK_STACK img `mod` 16 = 0 →
  USER_TASK_TABLE img ≠ 0 → stack_top_va l `mod` 16 = 0 →
  ∃ s s', expect (bench_sched (Ctx := Ctx) img (boot_handles hd) l) Scheduler_new = Some (s, tt) ∧
    expect (Sched.start (E := SchedError)) s = Some (s', (Some hd, 3%nat)) ∧
    booted_sched [task_at 0; task_at 1] (task_at 3) hd img hd l s'.
Proof.
  intros H1 H2 H3 H4. unfold bench_sched. cbn [boot_handles handle_a handle_b handle_idle user_task_handle user_as_handle].
  destruct (add_user_task_run Scheduler_new [] (task_at 3) hd (entry_va l) (stack_top_va l) (USER_TASK_STACK img) (USER_TASK_TABLE img)
    Scheduler_new_ok reach_init eq_refl H1 H2 H4 H3) as (q1 & c1 & E1 & O1 & R1).
  destruct (add_task_run _ _ (task_at 0) BOOTSTRAP_ADDRESS_SPACE_HANDLE (task_a img) (TASK_A_STACK img) O1 R1 eq_refl)
    as (q2 & c2 & E2 & O2 & R2).
  destruct (add_task_run _ _ (task_at 1) BOOTSTRAP_ADDRESS_SPACE_HANDLE (task_b img) (TASK_B_STACK img) O2 R2 eq_refl)
    as (q3 & c3 & E3 & O3 & R3).
  destruct (register_idle_run _ _ (task_at 2) BOOTSTRAP_ADDRESS_SPACE_HANDLE (idle_entry img) (TASK_IDLE_STACK img)
    O3 R3 eq_refl eq_refl) as (c4 & E4 & O4 & R4).
  destruct (start_run _ _ (task_at 3) hd O4 R4 eq_refl eq_refl) as (q5 & E5 & O5 & R5).
  do 2 eexists. split; [unfold expect, bind; rewrite E1, E2, E3, E4; reflexivity|].
  split; [unfold expect; rewrite E5; reflexivity|]. split; [exact O5|exact R5|done..| | |].
  - intros i Hi. do 4 (destruct i as [|i]; [reflexivity|]). lia.
  - intros i Hi. do 3 (destruct i as [|i]; [reflexivity|]). lia.
  - intros i ep. do 16 (destruct i as [|i]; [discriminate|]). discriminate.
Qed.

(** The linker placed [BENCH_EL0_IMAGE]. *)
Record holds_program (img : Image) (m : Mem) : Prop := {
  hp_len : slice_len (USERSPACE_IMAGE img) = Z.of_nat (length BENCH_EL0_IMAGE);
  hp_bytes : ∀ i x, BENCH_EL0_IMAGE !! i = Some x → m (as_ptr (USERSPACE_IMAGE img) - KERNEL_HIGH_HALF_OFFSET + Z.of_nat i) = x;
  hp_apart : program_apart img;
}.

(** What the set-up leaves, with [m0] what memory held at reset. *)
Record benched `{Build} `{Contexts Ctx} (img : Image) (cntfrq : Z) (b : Benched (Ctx := Ctx)) (hd : AddressSpaceHandle)
    (a : QemuVirtAddressSpace) (L : list Z) : Prop := {
  bn_kernel : kernel_ok (be_kernel b) [task_at 0; task_at 1];
  bn_sched : booted_sched [task_at 0; task_at 1] (task_at 3) hd img hd (be_loaded b) (SCHED (be_kernel b));
  bn_start : be_start b = (Some hd, 3%nat);
  bn_tables : bench_tables_ok (be_tables b) ∧ EP_ARENA (be_kernel b) = boot_ep_arena (be_tables b) ∧
    IPC_QUEUES (be_kernel b) = IpcQueues_new ∧ tables (be_kernel b) = {[USER_TASK_TABLE img := CapTable.new]};
  bn_space : get_address_space (AS_ARENA (be_kernel b)) hd = Some {| inner := a |};
  bn_window : task_user_windows (SCHED (be_kernel b)) !! 3%nat = Some (Some (program_window L));
  bn_entry : entry_va (be_loaded b) = USERSPACE_IMAGE_BASE_VA ∧ is_u64 (stack_top_va (be_loaded b));
  bn_page : ∃ f fl, UserAccess.translate (MEMORY (be_kernel b)) a USERSPACE_IMAGE_BASE_VA = Ok (f, fl) ∧
    flags_contains fl USER && flags_contains fl EXECUTE = true;
  bn_code : ∀ v, USERSPACE_IMAGE_BASE_VA ≤ v < USERSPACE_IMAGE_BASE_VA + 12 →
    MEMORY (be_kernel b) (uaddr (MEMORY (be_kernel b)) a v) = code_byte v;
  bn_console : CONSOLE (be_kernel b) = prepare_banner img ++ bench_first_line ++ bench_start_line;
  bn_cpu : cpu_new cntfrq = Some (be_cpu b);
}.

(** The program where the loader put it: executable, and the bytes of the image. *)
Lemma program_runnable `{Build} img m0 m st l hd rt L : within (table_frames (boot_pt img)) m0 m → holds_program img m0 →
  program_loaded img m st l hd rt L →
  (∃ f fl, UserAccess.translate (memory st) (space_at rt) USERSPACE_IMAGE_BASE_VA = Ok (f, fl) ∧
     flags_contains fl USER && flags_contains fl EXECUTE = true) ∧
  (∀ v, USERSPACE_IMAGE_BASE_VA ≤ v < USERSPACE_IMAGE_BASE_VA + 12 → memory st (uaddr (memory st) (space_at rt) v) = code_byte v) ∧
  is_u64 (stack_top_va l).
Proof.
  intros Hw [Hlen Hbytes Hapart] Hl. pose proof (pl_layout _ _ _ _ _ _ _ Hl) as Hly. change (Z.of_nat _) with 12 in Hlen.
  pose proof (ly_image _ _ _ _ _ Hly) as Hip. pose proof (ly_limit _ _ _ _ _ Hly) as Hlim.
  pose proof (image_fits (USERSPACE_IMAGE img)) as Hfit. rewrite Hlen in Hfit.
  assert (Hpages : (0 < Z.to_nat (image_page_count (USERSPACE_IMAGE img)))%nat) by (unfold PAGE_SIZE in Hfit; lia).
  split; [|split].
  - destruct (lookup_lt_is_Some_2 L 0) as [f Hf]; [lia|]. pose proof (ly_pages _ _ _ _ _ Hly 0 f Hf) as Ht.
    exists {| frame_addr := f |}. eexists. split; [exact Ht|]. unfold page_flags. rewrite decide_True by done. by vm_compute.
  - intros v Hv. rewrite (pl_bytes _ _ _ _ _ _ _ Hl) by (unfold in_span, PAGE_SIZE in *; lia).
    rewrite (program_kept img m0 m v Hw Hapart) by lia. unfold code_byte.
    destruct (lookup_lt_is_Some_2 BENCH_EL0_IMAGE (Z.to_nat (v - USERSPACE_IMAGE_BASE_VA))) as [x Hx]; [change (length _) with 12%nat; lia|].
    rewrite Hx. cbn. rewrite <- (Hbytes _ _ Hx). f_equal. lia.
  - rewrite (proj2 (pl_entry _ _ _ _ _ _ _ Hl)). unfold is_u64, USERSPACE_IMAGE_BASE_VA, PAGE_SIZE in *. lia.
Qed.

Lemma bench_console_eq con : (con ++ bench_first_line) ++ bench_start_line = con ++ bench_first_line ++ bench_start_line.
Proof. by rewrite app_assoc. Qed.

Lemma run_ok `{Build} `{Contexts Ctx} img cntfrq cntvct m0 m : image_ok img m0 → within (table_frames (boot_pt img)) m0 m →
  boot_mapped (boot_pt img) (direct_map m) → holds_program img m0 → is_u64 cntfrq → cntfrq ≠ 0 → is_u64 cntvct →
  ∃ k b hd a L, kernel_prepare img cntfrq cntvct entry_banner = Some k ∧ run (Ctx := Ctx) img k (direct_map m) = Some b ∧
    benched img cntfrq b hd a L.
Proof.
  intros Hio Hw Hm Hp Hf Hne Hv. destruct (kernel_prepare_ok img cntfrq cntvct m0 Hio Hf Hne Hv) as (k & Hk & Hprep).
  destruct (load_and_tasks img cntfrq cntvct m0 m k Hio Hm Hprep) as (st & l & hd & rt & L & t' & ta & Hload & Htasks & Hl).
  destruct bench_tables_run as (ts & Hts & Htk). destruct (io_user_stack _ _ Hio) as [Hu1 Hu2].
  destruct (bench_sched_run (Ctx := Ctx) img hd l Hu1 Hu2 (io_user_table _ _ Hio)) as (s1 & s2 & Hs1 & Hs2 & Hbs).
  { rewrite (proj2 (pl_entry _ _ _ _ _ _ _ Hl)). apply stack_aligned. }
  destruct (loaded_window _ _ _ _ _ _ _ _ Hl Hbs) as [Hwin Hwins]. destruct (program_runnable _ _ _ _ _ _ _ _ Hw Hp Hl) as (Hpage & Hcode & Hsp).
  destruct Hprep as [Hcpu _ _ _ _ Hboot _ _ Hcon]. exists k. do 4 eexists. split; [exact Hk|]. split.
  { unfold run. rewrite Hload. cbn [mbind option_bind]. rewrite Htasks. cbn [mbind option_bind]. rewrite Hts. cbn [mbind option_bind].
    rewrite Hs1. cbn [mbind option_bind]. rewrite Hs2. cbn [mbind option_bind]. reflexivity. }
  split; cbn [be_kernel be_start be_tables be_cpu be_loaded SCHED MEMORY AS_ARENA EP_ARENA IPC_QUEUES CONSOLE tables].
  - rewrite Hboot. apply kernel_statics; [by left|apply Hbs|rewrite (bs_idle Hbs); by eexists|apply (bk_arena _ Htk)| |apply Hl|apply Hl|apply Hbs|exact Hwins].
    rewrite (bk_user _ Htk). apply new_WF.
  - exact Hbs.
  - done.
  - do 3 (split; [done|]). by rewrite (bk_user _ Htk).
  - apply (pl_space _ _ _ _ _ _ _ Hl).
  - rewrite Hwin. reflexivity.
  - split; [apply (pl_entry _ _ _ _ _ _ _ Hl)|exact Hsp].
  - exact Hpage.
  - exact Hcode.
  - rewrite Hcon. apply bench_console_eq.
  - exact Hcpu.
Qed.

(** ** The measurement *)

(** The schedule of the user program: one instruction, the round trips of a call and a
    branch, the last call. *)
Definition el0_schedule : list nat := [3%nat] ++ concat (replicate EL0_LAST [3%nat; 3%nat]) ++ [3%nat].
(** [n] round trips of the driver and the partner, and [n] messages. *)
Definition switches (n : Z) : list nat := concat (replicate (Z.to_nat n) [0%nat; 1%nat]).
Definition messages (n : Z) : list nat := concat (replicate (Z.to_nat n) [0%nat; 1%nat; 1%nat]).

(** The whole run, cut where the driver starts, where a timed loop starts and where it
    ends; the clock is not read inside a timed loop. *)
Definition measured_run `{Build} `{Contexts Ctx} (cntvct_el0 : nat → Z) (b : Benched (Ctx := Ctx)) (e : System (Bench Ctx) place) : Prop :=
  let runs := runs (bench_leg (E := unit) (be_cpu b) cntvct_el0) in
  ∃ y1 y2 y3 y4 y5,
    runs (bench_system b) el0_schedule y1 ∧ readings (demo y1) = S EL0_LAST ∧
    runs y1 (switches WARMUP ++ [0%nat]) y2 ∧ readings (demo y2) = S (S EL0_LAST) ∧
    runs y2 (switches N_CTX_ROUNDTRIPS) y3 ∧ readings (demo y3) = S (S EL0_LAST) ∧
    runs y3 ([0%nat; 1%nat] ++ messages WARMUP ++ [0%nat]) y4 ∧ readings (demo y4) = S (S (S (S EL0_LAST))) ∧
    runs y4 (messages N_IPC_CYCLES) y5 ∧ readings (demo y5) = S (S (S (S EL0_LAST))) ∧
    runs y5 [0%nat] e.

(** What the tasks print, for the times the clock shows. *)
Definition bench_transcript (ns : nat → Z) : list Z :=
  el0_report (ns EL0_LAST - ns (Z.to_nat EL0_WARMUP)) ++ EXIT_MESSAGE ++
  ctx_report (ns (S (S EL0_LAST)) - ns (S EL0_LAST)) ++
  ipc_report (ns (S (S (S (S EL0_LAST)))) - ns (S (S (S EL0_LAST)))) ++ line "tyrne: perf-bench complete".

Definition counts_up (cntvct_el0 : nat → Z) : Prop :=
  (∀ n, is_u64 (cntvct_el0 n)) ∧ ∀ i j, (i ≤ j)%nat → cntvct_el0 i ≤ cntvct_el0 j.

Lemma elapsed_eq CPU cnt i j : is_u64 (frequency_hz CPU) ∧ frequency_hz CPU ≠ 0 → counts_up cnt → (i ≤ j)%nat →
  saturating_sub64 (at_ns CPU (cnt j)) (at_ns CPU (cnt i)) = at_ns CPU (cnt j) - at_ns CPU (cnt i).
Proof.
  intros Hf [Hu Hm] Hij. pose proof (at_ns_mono CPU Hf _ _ (Hm i j Hij)). unfold saturating_sub64. lia.
Qed.

Lemma transcript_console con (r0 r1 r2 r3 : list Z) l : (((con ++ r0) ++ r1) ++ r2) ++ r3 ++ l = con ++ r0 ++ r1 ++ r2 ++ r3 ++ l.
Proof. by rewrite <- !app_assoc. Qed.

Lemma bench_system_at `{Contexts Ctx} (b : Benched (Ctx := Ctx)) hd : entry_va (be_loaded b) = USERSPACE_IMAGE_BASE_VA →
  be_start b = (Some hd, 3%nat) → IPC_QUEUES (be_kernel b) = IpcQueues_new →
  bench_system b = el0_sys (hd := hd) (first_frame USERSPACE_IMAGE_BASE_VA (stack_top_va (be_loaded b)))
    (bench_at (be_kernel b) (be_tables b) (SCHED (be_kernel b)) IpcQueues_new (CONSOLE (be_kernel b)) PHASE_CTX El0Bench_zero 0).
Proof.
  intros He Hs Hq. unfold bench_system, el0_sys, bench_at, demo_at, later. rewrite He, Hs, <- Hq. by destruct (be_kernel b).
Qed.

Lemma bench_measured `{Build} `{Contexts Ctx} img cntfrq (b : Benched (Ctx := Ctx)) hd a L cnt :
  benched img cntfrq b hd a L → is_u64 cntfrq → cntfrq ≠ 0 → counts_up cnt →
  ∃ e, measured_run cnt b e ∧ (∀ n, sys_steps (bench_leg (E := unit) (be_cpu b) cnt) n e = Some e) ∧
    points e = [DriverParked; PartnerReceiving; IdleLoop; El0Gone] ∧ running e = 0%nat ∧
    CONSOLE (kernel (bdemo (demo e))) = CONSOLE (be_kernel b) ++ bench_transcript (λ r, at_ns (be_cpu b) (cnt r)).
Proof.
  intros [Hk Hb Hst (Htk & Hep & Hq0 & Htabs) Has Hwin [Hentry Hsp] Hpage Hcode Hcon Hcpu] Hf Hne Hcnt. pose proof Hcnt as [Hu Hmono].
  assert (Hfreq : is_u64 (frequency_hz (be_cpu b)) ∧ frequency_hz (be_cpu b) ≠ 0).
  { revert Hcpu. unfold cpu_new. case_match; [done|]. case_match; [|done]. intros [= <-]. by split. }
  assert (Hclock : ∀ r, now_ns (be_cpu b) (cnt r) = Some (at_ns (be_cpu b) (cnt r))).
  { intros r. unfold now_ns. rewrite (ticks_to_ns_eq (frequency_hz (be_cpu b))) by (apply Hfreq || apply Hu). done. }
  assert (Htab : task_cap_tables (SCHED (be_kernel b)) !! 3%nat = Some (Some (USER_TASK_TABLE img))) by (rewrite (bs_tables Hb); reflexivity).
  assert (Ht : tables (be_kernel b) !! USER_TASK_TABLE img = Some CapTable.new) by (rewrite Htabs; apply lookup_singleton_eq).
  set (c0 := CONSOLE (be_kernel b)). set (ns := λ r, at_ns (be_cpu b) (cnt r)).
  set (t := after (be_cpu b) (entries cnt (S EL0_LAST))).
  destruct (el0_measured (be_kernel b) (be_tables b) (be_cpu b) cnt Hb Hk Hq0 _ _ a Htab Hwin Has Ht Hpage Hcode Hfreq Hu Hmono (stack_top_va (be_loaded b)) c0 Hsp)
    as (s1 & R1 & L1).
  set (c1 := (c0 ++ _) ++ EXIT_MESSAGE) in *.
  destruct (switches_measured (be_kernel b) (be_tables b) (be_cpu b) cnt Hb Hclock s1 c1 t (S EL0_LAST) L1) as (s2 & s3 & R2 & R3 & L3).
  destruct (messages_measured (be_kernel b) (be_tables b) (be_cpu b) cnt Hb Hk Htk Hep Hq0 Hclock s3 c1 t (S (S EL0_LAST)) (ns (S EL0_LAST)) L3)
    as (s4 & s5 & R4 & R5 & L5).
  set (c2 := c1 ++ _) in *.
  destruct (driver_parks (be_kernel b) (be_tables b) (be_cpu b) cnt Hclock s5 c2 t (S (S (S (S EL0_LAST)))) (ns (S (S (S EL0_LAST))))) as [R6 Hstay].
  eexists. split; [|split; [exact Hstay|split; [done|split; [done|]]]].
  - do 5 eexists. split; [rewrite (bench_system_at b hd Hentry Hst Hq0); exact R1|]. split; [reflexivity|]. split; [exact R2|]. split; [reflexivity|].
    split; [exact R3|]. split; [reflexivity|]. split; [exact R4|]. split; [reflexivity|]. split; [exact R5|]. split; [reflexivity|]. exact R6.
  - cbn [demo sys_at bdemo bench_at kernel demo_at later CONSOLE]. unfold c2, c1, ns. rewrite !elapsed_eq by (done || lia). apply transcript_console.
Qed.

(** C16: the measurement build measures what it says.  On any image the linker placed as
    it says that holds [BENCH_EL0_IMAGE], with any stack pointer and any counter that does
    not run backwards, in either build: the board boots into the measurement, and no leg
    of it panics.  The user program - its three instructions fetched through the page
    tables the loader made, from pages it may execute - enters the kernel exactly
    [1 + EL0_WARMUP + N_EL0_ROUNDTRIPS] times through the real trap, is refused each time and
    keeps the processor, until the last entry ends it and the driver starts.  Then driver
    and partner alternate: between the two readings of the first timed loop lie exactly
    [2 * N_CTX_ROUNDTRIPS] switches and nothing else; between those of the second,
    [N_IPC_CYCLES] times one delivered send, one receive and two switches.  So each figure
    on the console is the time the clock showed for exactly the operations it names, the
    console shows the lines of the boot, the three reports and nothing else, and the system stays
    there for ever, the driver asleep and the partner in its receive. *)
Theorem bench_measures_what_it_says `{Build} `{Contexts Ctx} img sp0 cntfrq cntvct (s : BootState) cnt :
  image_ok img (boot_mem s) → 0 ≤ sp0 < 0x100000000 → is_u64 cntfrq → cntfrq ≠ 0 → is_u64 cntvct →
  holds_program img (boot_mem s) → counts_up cnt →
  ∃ s' ctl b e, bench_boot (Ctx := Ctx) img sp0 cntfrq cntvct s = Some (s', ctl, b) ∧ cpu_new cntfrq = Some (be_cpu b) ∧
    measured_run cnt b e ∧ (∀ n, sys_steps (bench_leg (E := unit) (be_cpu b) cnt) n e = Some e) ∧
    points e = [DriverParked; PartnerReceiving; IdleLoop; El0Gone] ∧ running e = 0%nat ∧
    CONSOLE (kernel (bdemo (demo e))) =
      prepare_banner img ++ bench_first_line ++ bench_start_line ++ bench_transcript (λ r, at_ns (be_cpu b) (cnt r)).
Proof.
  intros Hio Hsp Hf Hne Hv Hp Hcnt. destruct (enter_high img sp0 s Hio Hsp) as (s1 & ctl & s2 & H1' & H2 & He).
  destruct (run_ok (Ctx := Ctx) img cntfrq cntvct (boot_mem s) (boot_mem s2) Hio (en_within _ _ _ _ _ He)) as (k & b & hd & a & L & Hk & Hb & Hbn); [|done..|].
  { apply mapped_from_boot; apply He. }
  destruct (bench_measured img cntfrq b hd a L cnt Hbn Hf Hne Hcnt) as (e & Hrun & Hstay & Hpt & Hr & Hc).
  exists s2, ctl, b, e. split; [|split; [apply Hbn|do 4 (split; [done|]); by rewrite Hc, (bn_console _ _ _ _ _ _ Hbn), <- !app_assoc]].
  unfold bench_boot. rewrite H1'. cbn [mbind option_bind early early_console]. rewrite H2. cbn [mbind option_bind]. rewrite Hk. cbn [mbind option_bind].
  by rewrite Hb.
Qed.

(** ** A sample run *)

(** The sample image with the program at its place, and a counter that runs at 62.5 MHz:
    100 ticks between readings, but for 100 ms of switches and 200 ms of messages. *)
Definition bench_image : Image :=
  {| boot_pt := boot_pt BootProps.sample_image; tyrne_vectors := tyrne_vectors BootProps.sample_image;
     kernel_main_high_addr := kernel_main_high_addr BootProps.sample_image; stack_top := stack_top BootProps.sample_image;
     USERSPACE_IMAGE := {| as_ptr := 0xFFFFFFFF40090000; slice_len := 12 |};
     task_a := task_a BootProps.sample_image; task_b := task_b BootProps.sample_image; idle_entry := idle_entry BootProps.sample_image;
     TASK_A_STACK := TASK_A_STACK BootProps.sample_image; TASK_B_STACK := TASK_B_STACK BootProps.sample_image;
     TASK_IDLE_STACK := TASK_IDLE_STACK BootProps.sample_image; USER_TASK_STACK := USER_TASK_STACK BootProps.sample_image;
     USER_TASK_TABLE := USER_TASK_TABLE BootProps.sample_image |}.
Definition bench_state : BootState :=
  {| boot_mem := λ pa, default 0 (if decide (0x40090000 ≤ pa < 0x4009000c) then BENCH_EL0_IMAGE !! Z.to_nat (pa - 0x40090000) else None);
     sys := sys sample_boot_state |}.
Definition bench_counter (n : nat) : Z :=
  Z.min U64_MAX (100 * Z.of_nat n + (if decide (50258 ≤ Z.of_nat n) then 6250000 else 0) + (if decide (50260 ≤ Z.of_nat n) then 12500000 else 0)).

Lemma bench_image_ok : image_ok bench_image (boot_mem bench_state).
Proof.
  destruct sample_image_ok as [[L1 L2 L3] ? ? ? ? ? ? ?]. split; [split; [exact L1|exact L2|]|done|done| |by vm_compute|done|done|done].
  - intros f b Hf Hb. cbn [bench_state boot_mem]. rewrite decide_False; [done|].
    cbn [bench_image boot_pt] in Hf. unfold table_frames in Hf. rewrite !elem_of_cons, elem_of_nil in Hf. unfold PAGE_SIZE in Hb.
    destruct Hf as [->|[->|[->|[->|[->|[->|[]]]]]]]; cbn in Hb; lia.
  - by exists 0x40090000.
Qed.

Lemma bench_holds_program : holds_program bench_image (boot_mem bench_state).
Proof.
  split; [done|..].
  - intros i x Hi. pose proof (lookup_lt_Some _ _ _ Hi) as Hlt. change (length BENCH_EL0_IMAGE) with 12%nat in Hlt.
    cbn [bench_state boot_mem bench_image USERSPACE_IMAGE as_ptr]. unfold KERNEL_HIGH_HALF_OFFSET. rewrite decide_True by lia.
    replace (Z.to_nat _) with i by lia. by rewrite Hi.
  - intros f Hf k Hk. cbn [bench_image boot_pt] in Hf. unfold table_frames in Hf. rewrite !elem_of_cons, elem_of_nil in Hf.
    cbn [bench_image USERSPACE_IMAGE as_ptr slice_len]. unfold PAGE_SIZE, KERNEL_HIGH_HALF_OFFSET in *.
    destruct Hf as [->|[->|[->|[->|[->|[->|[]]]]]]]; cbn in Hk; lia.
Qed.

Lemma bench_counter_ok : counts_up bench_counter.
Proof.
  split; [intros n|intros i j Hij]; unfold bench_counter, is_u64, U64_MAX; repeat case_decide; lia.
Qed.

(** The figures of that run: 1600 ns a call, 1000 ns a switch, 4000 ns a message. *)
Lemma bench_measures_what_it_says_witness :
  ∃ s' ctl b e, bench_boot (Ctx := unit) (H := debug_build) (H0 := no_contexts) bench_image 0x40100000 62500000 1000 bench_state = Some (s', ctl, b) ∧
    measured_run (H := debug_build) (H0 := no_contexts) bench_counter b e ∧
    CONSOLE (kernel (bdemo (demo e))) =
      line "tyrne: hello from kernel_main" ++ line "tyrne: mmu activated" ++ line "tyrne: high-half active" ++
      line "tyrne: pmm initialized (32512 frames available; 256 reserved)" ++
      line "tyrne: address-space-arena ready (1 / 8 slots used; bootstrap AS root = 0x400a0000)" ++
      line "tyrne: perf-bench — measurement build (T-029); compiled out of production" ++
      line "tyrne: perf-bench starting scheduler (el0-roundtrip + ctx-switch + IPC, N=50000/50000/50000, warmup=256/256)" ++
      line "tyrne: perf el0 syscall round-trip = 1600 ns/syscall (kernel-side, hook-to-hook; rejected no-op svc; N=50000, 80000000 ns total)" ++
      line "tyrne: userspace task exited" ++
      line "tyrne: perf ctx-switch = 1000 ns/switch (2000 ns/round-trip; N=50000 round-trips = 100000 switches, 100001600 ns total)" ++
      line "tyrne: perf ipc send-recv cycle = 4000 ns/cycle (1 send + 1 recv + 2 ctx-switch; N=50000, 200001600 ns total)" ++
      line "tyrne: perf-bench complete".
Proof.
  destruct (bench_measures_what_it_says (Ctx := unit) (H := debug_build) (H0 := no_contexts) bench_image 0x40100000 62500000 1000
    bench_state bench_counter) as (s' & ctl & b & e & Hboot & Hcpu & Hrun & _ & _ & _ & Hc);
    [exact bench_image_ok|by split|by split|done|by split|exact bench_holds_program|exact bench_counter_ok|].
  exists s', ctl, b, e. split; [exact Hboot|]. split; [exact Hrun|]. clear Hboot Hrun.
  assert (Hn : cpu_new 62500000 = Some {| frequency_hz := 62500000; resolution_ns := 16 |}) by (vm_compute; exact eq_refl).
  rewrite Hn in Hcpu. apply (inj Some) in Hcpu. rewrite Hc, <- Hcpu. vm_compute. exact eq_refl.
Defined.
